(** * elogfetch: the ingestion pipeline, embedded and verified

  A shallow embedding of the parts of [elogfetch] that the specification
  talks about:

  - [Py]        the Python built-ins the code relies on ([str.lower],
                [in], [str.split], [int], [sorted], string ordering);
  - [LogbookApi] [api/logbook.py]: the run-number inferencer;
  - [Locking]   [utils/locking.py]: the advisory lock;
  - [Database]  [storage/database.py]: the relational store;
  - [Cli]       [cli.py]: fetch workers, the single writer, [_do_update].

  Definitions come first, module by module; the theorems follow. *)

From Stdlib Require Import ZArith Ascii String List Bool Lia.
From Stdlib Require Import DecimalString DecimalZ DecimalPos.
From stdpp Require Import gmap strings list sorting.

Local Open Scope Z_scope.


(** ** Python built-ins *)

Module Py.

(** A [string] holds the UTF-8 encoding of a Python [str]. Substring
    tests, splitting at an ASCII character, equality and the lexicographic
    order act on the encodings as they do on the code points. *)

(** [sub in s]. *)
Fixpoint contains (sub s : string) : bool :=
  String.prefix sub s ||
  match s with
  | EmptyString => false
  | String _ s' => contains sub s'
  end.

(** [s.split(sep)[0]] for a one-character separator: the text before its
    first occurrence, all of [s] when there is none. *)
Fixpoint split_first (sep : ascii) (s : string) : string :=
  match s with
  | EmptyString => EmptyString
  | String c s' =>
      if Ascii.eqb c sep then EmptyString else String c (split_first sep s')
  end.

(** White space is what [str.isspace] accepts: U+0009-000D, U+001C-0020,
    U+0085, U+00A0, U+1680, U+2000-200A, U+2028, U+2029, U+202F, U+205F
    and U+3000. [space_length s] is the number of bytes of the white-space
    character [s] starts with, 0 when it starts with none. *)
Definition byte_at (i : nat) (s : string) : nat :=
  match String.get i s with
  | Some c => nat_of_ascii c
  | None => 0
  end.

Definition space_length (s : string) : nat :=
  let b0 := byte_at 0 s in
  let b1 := byte_at 1 s in
  let b2 := byte_at 2 s in
  (if ((9 <=? b0) && (b0 <=? 13)) || ((28 <=? b0) && (b0 <=? 32)) then 1
  else if (b0 =? 194) && ((b1 =? 133) || (b1 =? 160)) then 2
  else if (b0 =? 225) && (b1 =? 154) && (b2 =? 128) then 3
  else if (b0 =? 226) && (b1 =? 128)
          && (((128 <=? b2) && (b2 <=? 138)) || (b2 =? 168) || (b2 =? 169)
              || (b2 =? 175)) then 3
  else if (b0 =? 226) && (b1 =? 129) && (b2 =? 159) then 3
  else if (b0 =? 227) && (b1 =? 128) && (b2 =? 128) then 3
  else 0)%nat.

(** [not s.strip()]: [s] is empty or all white space. [skip] counts the
    bytes left of a white-space character that has been recognised. *)
Fixpoint all_space (skip : nat) (s : string) : bool :=
  match s with
  | EmptyString => true
  | String _ s' =>
      match skip with
      | S k => all_space k s'
      | O =>
          match space_length s with
          | O => false
          | S k => all_space k s'
          end
      end
  end.

Definition strip_is_empty (s : string) : bool := all_space 0 s.

(** [str.lower], [str.split()] and [int] follow the Unicode tables of the
    interpreter (case mappings, decimal digits) and, for [int], its limit
    on the length of a literal. The code is embedded over these three
    functions as the interpreter provides them; [int] gives [None] for
    [ValueError]. *)
Class Text := {
  lower : string → string;
  split : string → list string;
  int : string → option Z
}.

(** The three functions on text whose letters and digits are ASCII, for
    evaluating the code on such text. *)

(** [c.lower()] for an ASCII character; other bytes are left alone. *)
Definition lower_ascii (c : ascii) : ascii :=
  let n := nat_of_ascii c in
  if ((65 <=? n) && (n <=? 90))%nat then ascii_of_nat (n + 32) else c.

Fixpoint ascii_lower (s : string) : string :=
  match s with
  | EmptyString => EmptyString
  | String c s' => String (lower_ascii c) (ascii_lower s')
  end.

(** [s.split()]: maximal runs of characters that are not white space.
    [cur] is the word being read, reversed. *)
Fixpoint split_go (skip : nat) (cur : option string) (s : string)
  : list string :=
  match s with
  | EmptyString => option_list (String.rev <$> cur)
  | String c s' =>
      match skip with
      | S k => split_go k cur s'
      | O =>
          match space_length s with
          | O => split_go 0 (Some (String c (default EmptyString cur))) s'
          | S k => option_list (String.rev <$> cur) ++ split_go k None s'
          end
      end
  end.

Definition ascii_split (s : string) : list string := split_go 0 None s.

(** [int(tok)] for a token without white space: an optional sign, then
    ASCII decimal digits, single underscores allowed between digits. *)
Definition digit (c : ascii) : option Z := Z.of_nat <$> Ascii.is_nat c.

Fixpoint int_digits (s : string) (acc : Z) (after_digit : bool) : option Z :=
  match s with
  | EmptyString => if after_digit then Some acc else None
  | String c s' =>
      match digit c with
      | Some d => int_digits s' (10 * acc + d) true
      | None =>
          if Ascii.eqb c "_" && after_digit
          then int_digits s' acc false
          else None
      end
  end.

Definition ascii_int (tok : string) : option Z :=
  match tok with
  | String "-" s' => Z.opp <$> int_digits s' 0 false
  | String "+" s' => int_digits s' 0 false
  | _ => int_digits tok 0 false
  end.

Definition ascii_text : Text :=
  {| lower := ascii_lower; split := ascii_split; int := ascii_int |}.

(** [str(n)] for an [int]. *)
Definition str_int (n : Z) : string := NilZero.string_of_int (Z.to_int n).

(** [s.startswith(p)]. *)
Definition startswith (s p : string) : bool := String.prefix p s.

(** Exceptions, by class, with the text [str(e)]; a computation either
    returns or raises. *)
Inductive exn_class :=
| KeyError | ValueError | BlockingIOError | IntegrityError
| FetchElogError | AuthenticationError | APIError | LockError
| OtherException.

Record exn := Exn { exn_class_of : exn_class; exn_str : string }.

Inductive outcome (A : Type) :=
| Return (a : A)
| Raise (e : exn).
Arguments Return {A} a.
Arguments Raise {A} e.

(** [a < b] and [a <= b] on [str]: lexicographic, character by
    character. *)
Definition lt (a b : string) : Prop := String.ltb a b = true.
Definition le (a b : string) : Prop := String.leb a b = true.

(** [sorted(l, key=key)] on string keys: a stable insertion sort. *)
Section Sorted.
Context {A : Type} (key : A → string).

Fixpoint insert_sorted (x : A) (l : list A) : list A :=
  match l with
  | [] => [x]
  | y :: l' =>
      if String.leb (key x) (key y) then x :: l
      else y :: insert_sorted x l'
  end.

Definition sorted (l : list A) : list A := foldr insert_sorted [] l.
End Sorted.

End Py.

(** ** api/logbook.py *)

Module LogbookApi.

(** A raw entry of the upstream log, the keys the code reads. *)
Record entry := Entry {
  _id : string;
  insert_time : string;
  run_num : option Z;
  content : option string;
  tags : option (list string);
  author : option string
}.

#[global] Instance entry_eq_dec : EqDecision entry.
Proof. solve_decision. Defined.

(** A transformed entry, as handed to the store. *)
Record db_entry := DbEntry {
  log_id : string;
  experiment_id : string;
  run_number : option Z;
  timestamp : string;
  db_content : option string;
  db_tags : option string;
  db_author : option string
}.

Definition _format_tags (tags : option (list string)) : option string :=
  match tags with
  | None | Some [] => None
  | Some l => Some (String.concat "," l)
  end.

(** The [try] block of [_identify_run_boundaries]: the scan over
    [enumerate(parts)]. *)
Inductive scan_result :=
| Assigned (run : Z)      (* [run_boundaries[timestamp] = int(...)], [break] *)
| NotFound                (* the loop ran to its end *)
| ValueError.             (* [int] raised; caught by [except] *)

Section WithText.
Context {T : Py.Text}.

Fixpoint scan_parts (parts : list string) : scan_result :=
  match parts with
  | [] => NotFound
  | part :: rest =>
      match rest with
      | next :: _ =>
          if String.eqb (Py.lower part) "number" then
            match Py.int next with
            | Some n => Assigned n
            | None => ValueError
            end
          else scan_parts rest
      | [] => scan_parts rest
      end
  end.

Definition lowered_content (e : entry) : string :=
  Py.lower (default "" (content e)).

Definition heuristic_match (e : entry) : bool :=
  Py.contains "run number" (lowered_content e)
  && Py.contains "running" (lowered_content e).

Definition heuristic_parts (e : entry) : list string :=
  Py.split (Py.split_first ":" (lowered_content e)).

(** One iteration of the loop of [_identify_run_boundaries]. *)
Definition boundary_step (run_boundaries : gmap string Z) (e : entry)
  : gmap string Z :=
  match run_num e with
  | Some r => <[insert_time e := r]> run_boundaries
  | None =>
      if heuristic_match e then
        match scan_parts (heuristic_parts e) with
        | Assigned r => <[insert_time e := r]> run_boundaries
        | NotFound | ValueError => run_boundaries
        end
      else run_boundaries
  end.

(** The run number one iteration records for its entry, if it records
    one. *)
Definition entry_run (e : entry) : option Z :=
  match run_num e with
  | Some r => Some r
  | None =>
      if heuristic_match e then
        match scan_parts (heuristic_parts e) with
        | Assigned r => Some r
        | NotFound | ValueError => None
        end
      else None
  end.

Definition _identify_run_boundaries (sorted_entries : list entry)
  : gmap string Z :=
  foldl boundary_step ∅ sorted_entries.

(** [sorted(run_boundaries.keys())] and the runs in the same order. *)
Definition boundary_times (run_boundaries : gmap string Z) : list string :=
  Py.sorted id (map fst (map_to_list run_boundaries)).

Definition boundary_runs (run_boundaries : gmap string Z) : list Z :=
  omap (λ time, run_boundaries !! time) (boundary_times run_boundaries).

(** The inner loop of [_infer_run_numbers] for one timestamp: [i] is the
    loop index, [rest] what is left of [boundary_times], [inferred_run]
    the variable of that name. *)
Fixpoint walk (n : nat) (runs : list Z) (timestamp : string)
    (i : nat) (rest : list string) (inferred_run : option Z) : option Z :=
  match rest with
  | [] => inferred_run
  | boundary_time :: rest' =>
      if String.ltb timestamp boundary_time then
        if (0 <? i)%nat then runs !! (i - 1)%nat else inferred_run
      else if (i =? n - 1)%nat || String.eqb timestamp boundary_time then
        walk n runs timestamp (S i) rest' (runs !! i)
      else
        walk n runs timestamp (S i) rest' inferred_run
  end.

Definition infer_one (times : list string) (runs : list Z)
    (timestamp : string) : option Z :=
  walk (length times) runs timestamp 0 times None.

Definition infer_step (times : list string) (runs : list Z)
    (inferred_runs : gmap string (option Z)) (e : entry)
  : gmap string (option Z) :=
  match run_num e with
  | Some _ => inferred_runs
  | None => <[_id e := infer_one times runs (insert_time e)]> inferred_runs
  end.

Definition _infer_run_numbers (sorted_entries : list entry)
    (run_boundaries : gmap string Z) : gmap string (option Z) :=
  foldl (infer_step (boundary_times run_boundaries)
                    (boundary_runs run_boundaries))
        ∅ sorted_entries.

Definition transform_entry (experiment_id : string)
    (inferred_runs : gmap string (option Z)) (e : entry) : db_entry :=
  {| log_id := _id e;
     experiment_id := experiment_id;
     run_number :=
       match run_num e with
       | Some r => Some r
       | None => inferred_runs !! _id e ≫= id
       end;
     timestamp := insert_time e;
     db_content := content e;
     db_tags := _format_tags (tags e);
     db_author := author e |}.

Definition _transform_entries (experiment_id : string)
    (raw_entries : list entry) : list db_entry :=
  let sorted_entries := Py.sorted insert_time raw_entries in
  let run_boundaries := _identify_run_boundaries sorted_entries in
  let inferred_runs := _infer_run_numbers sorted_entries run_boundaries in
  map (transform_entry experiment_id inferred_runs) sorted_entries.

End WithText.

End LogbookApi.

(** ** storage/database.py *)

Module Database.

(** *** Rows, one record per table of [_create_tables] *)

Record ExperimentRow := {
  exp_experiment_id : string;
  exp_name : option string;
  exp_instrument : option string;
  exp_start_time : option string;
  exp_end_time : option string;
  exp_pi : option string;
  exp_pi_email : option string;
  exp_leader_account : option string;
  exp_description : option string;
  exp_slack_channels : option string;
  exp_analysis_queues : option string;
  exp_urawi_proposal : option string
}.

Record QuestionnaireRow := {
  q_questionnaire_id : nat;
  q_experiment_id : string;
  q_proposal : option string;
  q_category : string;
  q_field_id : string;
  q_field_name : option string;
  q_field_value : option string;
  q_modified_time : option string;
  q_modified_uid : option string
}.

Record WorkflowRow := {
  wf_workflow_id : nat;
  wf_experiment_id : string;
  wf_mongo_id : option string;
  wf_name : string;
  wf_executable : option string;
  wf_trigger : option string;
  wf_location : option string;
  wf_parameters : string;
  wf_run_param_name : option string;
  wf_run_param_value : option string;
  wf_run_as_user : option string
}.

Record RunRow := {
  run_run_id : nat;
  run_run_number : Z;
  run_experiment_id : string;
  run_start_time : option string;
  run_end_time : option string
}.

Record RunProductionDataRow := {
  rpd_run_data_id : nat;
  rpd_run_id : nat;
  rpd_n_events : option Z;
  rpd_n_damaged : option Z;
  rpd_n_dropped : option Z;
  rpd_prod_start : option string;
  rpd_prod_end : option string;
  rpd_number_of_files : option Z;
  rpd_total_size_bytes : option Z
}.

Record DetectorRow := {
  det_detector_id : nat;
  det_detector_name : string;
  det_description : option string
}.

Record RunDetectorRow := {
  rdet_run_detector_id : nat;
  rdet_run_id : nat;
  rdet_detector_id : nat;
  rdet_status : string
}.

Record LogbookRow := {
  log_log_id : nat;
  log_experiment_id : string;
  log_run_id : option nat;
  log_timestamp : string;
  log_content : option string;
  log_tags : option string;
  log_author : option string
}.

(** A table with an [AUTOINCREMENT] key: its rows in insertion order and
    its entry in [sqlite_sequence], the largest key handed out so far. *)
Record table (A : Type) := Table { rows : list A; seq : nat }.
Arguments Table {A} rows seq.
Arguments rows {A} t.
Arguments seq {A} t.

Definition empty_table {A} : table A := Table [] 0.

(** [INSERT]: the new row gets the next key; [cursor.lastrowid] is
    returned. *)
Definition insert_auto {A} (mk : nat → A) (t : table A) : table A * nat :=
  let rowid := S (seq t) in
  (Table (rows t ++ [mk rowid]) rowid, rowid).

(** [DELETE FROM t WHERE P]. *)
Definition delete_where {A} (P : A → Prop) `{∀ x, Decision (P x)}
    (t : table A) : table A :=
  Table (filter (λ x, ¬ P x) (rows t)) (seq t).

(** [UPDATE t SET ... WHERE P]. *)
Definition update_where {A} (P : A → Prop) `{∀ x, Decision (P x)}
    (f : A → A) (t : table A) : table A :=
  Table (map (λ x, if decide (P x) then f x else x) (rows t)) (seq t).

(** [SELECT ... FROM t WHERE P] followed by [fetchone()]. *)
Definition fetchone {A} (P : A → Prop) `{∀ x, Decision (P x)}
    (t : table A) : option A :=
  List.find (λ x, bool_decide (P x)) (rows t).

(** What the connection did besides changing rows. *)
Inductive conn_event :=
| EvCommit
| EvPragma (pragma : string)
| EvClose.

Inductive journal := WAL | DELETE.

#[global] Instance conn_event_eq_dec : EqDecision conn_event.
Proof. solve_decision. Defined.

(** The SQLite file behind [self.conn]. *)
Record Store := {
  Experiment : list ExperimentRow;
  Questionnaire : table QuestionnaireRow;
  Workflow : table WorkflowRow;
  Run : table RunRow;
  RunProductionData : table RunProductionDataRow;
  Detector : table DetectorRow;
  RunDetector : table RunDetectorRow;
  Logbook : table LogbookRow;
  Metadata : gmap string string;
  journal_mode : journal;
  is_open : bool;
  events : list conn_event
}.

Definition set_Experiment (v : list ExperimentRow) (s : Store) : Store :=
  {| Experiment := v;
     Questionnaire := Questionnaire s;
     Workflow := Workflow s;
     Run := Run s;
     RunProductionData := RunProductionData s;
     Detector := Detector s;
     RunDetector := RunDetector s;
     Logbook := Logbook s;
     Metadata := Metadata s;
     journal_mode := journal_mode s;
     is_open := is_open s;
     events := events s |}.

Definition set_Questionnaire (v : table QuestionnaireRow) (s : Store) : Store :=
  {| Experiment := Experiment s;
     Questionnaire := v;
     Workflow := Workflow s;
     Run := Run s;
     RunProductionData := RunProductionData s;
     Detector := Detector s;
     RunDetector := RunDetector s;
     Logbook := Logbook s;
     Metadata := Metadata s;
     journal_mode := journal_mode s;
     is_open := is_open s;
     events := events s |}.

Definition set_Workflow (v : table WorkflowRow) (s : Store) : Store :=
  {| Experiment := Experiment s;
     Questionnaire := Questionnaire s;
     Workflow := v;
     Run := Run s;
     RunProductionData := RunProductionData s;
     Detector := Detector s;
     RunDetector := RunDetector s;
     Logbook := Logbook s;
     Metadata := Metadata s;
     journal_mode := journal_mode s;
     is_open := is_open s;
     events := events s |}.

Definition set_Run (v : table RunRow) (s : Store) : Store :=
  {| Experiment := Experiment s;
     Questionnaire := Questionnaire s;
     Workflow := Workflow s;
     Run := v;
     RunProductionData := RunProductionData s;
     Detector := Detector s;
     RunDetector := RunDetector s;
     Logbook := Logbook s;
     Metadata := Metadata s;
     journal_mode := journal_mode s;
     is_open := is_open s;
     events := events s |}.

Definition set_RunProductionData (v : table RunProductionDataRow) (s : Store) : Store :=
  {| Experiment := Experiment s;
     Questionnaire := Questionnaire s;
     Workflow := Workflow s;
     Run := Run s;
     RunProductionData := v;
     Detector := Detector s;
     RunDetector := RunDetector s;
     Logbook := Logbook s;
     Metadata := Metadata s;
     journal_mode := journal_mode s;
     is_open := is_open s;
     events := events s |}.

Definition set_Detector (v : table DetectorRow) (s : Store) : Store :=
  {| Experiment := Experiment s;
     Questionnaire := Questionnaire s;
     Workflow := Workflow s;
     Run := Run s;
     RunProductionData := RunProductionData s;
     Detector := v;
     RunDetector := RunDetector s;
     Logbook := Logbook s;
     Metadata := Metadata s;
     journal_mode := journal_mode s;
     is_open := is_open s;
     events := events s |}.

Definition set_RunDetector (v : table RunDetectorRow) (s : Store) : Store :=
  {| Experiment := Experiment s;
     Questionnaire := Questionnaire s;
     Workflow := Workflow s;
     Run := Run s;
     RunProductionData := RunProductionData s;
     Detector := Detector s;
     RunDetector := v;
     Logbook := Logbook s;
     Metadata := Metadata s;
     journal_mode := journal_mode s;
     is_open := is_open s;
     events := events s |}.

Definition set_Logbook (v : table LogbookRow) (s : Store) : Store :=
  {| Experiment := Experiment s;
     Questionnaire := Questionnaire s;
     Workflow := Workflow s;
     Run := Run s;
     RunProductionData := RunProductionData s;
     Detector := Detector s;
     RunDetector := RunDetector s;
     Logbook := v;
     Metadata := Metadata s;
     journal_mode := journal_mode s;
     is_open := is_open s;
     events := events s |}.

Definition set_Metadata (v : gmap string string) (s : Store) : Store :=
  {| Experiment := Experiment s;
     Questionnaire := Questionnaire s;
     Workflow := Workflow s;
     Run := Run s;
     RunProductionData := RunProductionData s;
     Detector := Detector s;
     RunDetector := RunDetector s;
     Logbook := Logbook s;
     Metadata := v;
     journal_mode := journal_mode s;
     is_open := is_open s;
     events := events s |}.

Definition set_journal_mode (v : journal) (s : Store) : Store :=
  {| Experiment := Experiment s;
     Questionnaire := Questionnaire s;
     Workflow := Workflow s;
     Run := Run s;
     RunProductionData := RunProductionData s;
     Detector := Detector s;
     RunDetector := RunDetector s;
     Logbook := Logbook s;
     Metadata := Metadata s;
     journal_mode := v;
     is_open := is_open s;
     events := events s |}.

Definition set_is_open (v : bool) (s : Store) : Store :=
  {| Experiment := Experiment s;
     Questionnaire := Questionnaire s;
     Workflow := Workflow s;
     Run := Run s;
     RunProductionData := RunProductionData s;
     Detector := Detector s;
     RunDetector := RunDetector s;
     Logbook := Logbook s;
     Metadata := Metadata s;
     journal_mode := journal_mode s;
     is_open := v;
     events := events s |}.

Definition set_events (v : list conn_event) (s : Store) : Store :=
  {| Experiment := Experiment s;
     Questionnaire := Questionnaire s;
     Workflow := Workflow s;
     Run := Run s;
     RunProductionData := RunProductionData s;
     Detector := Detector s;
     RunDetector := RunDetector s;
     Logbook := Logbook s;
     Metadata := Metadata s;
     journal_mode := journal_mode s;
     is_open := is_open s;
     events := v |}.


Definition empty_store : Store :=
  {| Experiment := [];
     Questionnaire := empty_table;
     Workflow := empty_table;
     Run := empty_table;
     RunProductionData := empty_table;
     Detector := empty_table;
     RunDetector := empty_table;
     Logbook := empty_table;
     Metadata := ∅;
     journal_mode := DELETE;
     is_open := true;
     events := [] |}.

(** *** Statements

    The SQL statements the class passes to [conn.execute], with their
    bound parameters. *)

Record field := {
  f_category : string;
  f_field_id : string;
  f_field_name : option string;
  f_field_value : option string;
  f_modified_time : option string;
  f_modified_uid : option string
}.

Record workflow := {
  w_mongo_id : option string;
  w_name : option string;
  w_executable : option string;
  w_trigger : option string;
  w_location : option string;
  w_parameters : string;            (* [json.dumps(workflow.get("parameters"))] *)
  w_run_param_name : option string;
  w_run_param_value : option string;
  w_run_as_user : option string
}.

Record run_data := {
  rd_run_number : option Z;
  rd_n_events : option Z;
  rd_n_damaged : option Z;
  rd_n_dropped : option Z;
  rd_start_time : option string;
  rd_end_time : option string;
  rd_prod_start : option string;
  rd_prod_end : option string
}.

Record file_record := {
  fr_run_number : option Z;
  fr_number_of_files : option Z;
  fr_total_size_bytes : option Z
}.

Inductive statement :=
| INSERT_OR_REPLACE_Experiment (data : ExperimentRow)
| DELETE_Experiment (experiment_id : string)
| INSERT_Run (experiment_id : string) (run_number : Z)
| UPDATE_Run (start_time end_time : option string) (run_id : nat)
| DELETE_Run (experiment_id : string)
| UPDATE_RunProductionData_run (run_data : run_data) (run_id : nat)
| INSERT_RunProductionData_run (run_id : nat) (run_data : run_data)
| UPDATE_RunProductionData_files (record : file_record) (run_id : nat)
| INSERT_RunProductionData_files (run_id : nat) (record : file_record)
| DELETE_RunProductionData (run_id : nat)
| INSERT_Detector (detector_name : string)
| INSERT_OR_REPLACE_RunDetector (run_id detector_id : nat) (status : string)
| DELETE_RunDetector (run_id : nat)
| INSERT_Logbook (experiment_id : string) (run_id : option nat)
    (entry : LogbookApi.db_entry)
| DELETE_Logbook (experiment_id : string)
| INSERT_OR_REPLACE_Questionnaire (experiment_id : string)
    (proposal : option string) (f : field)
| DELETE_Questionnaire (experiment_id : string)
| INSERT_Workflow (experiment_id : string) (name : string) (w : workflow)
| DELETE_Workflow (experiment_id : string)
| INSERT_OR_REPLACE_Metadata (key value : string)
| PRAGMA (pragma : string).

(** SQL [COALESCE(?, column)]. *)
Definition COALESCE {A} (new old : option A) : option A :=
  match new with
  | Some v => Some v
  | None => old
  end.

Definition pragma_journal_mode (pragma : string) (old : journal) : journal :=
  if String.eqb pragma "journal_mode=WAL" then WAL
  else if String.eqb pragma "journal_mode=DELETE" then DELETE
  else old.

(** [conn.execute(statement, parameters)], for parameters SQLite can bind.
    A Python integer outside 64 bits makes [sqlite3] raise [OverflowError]
    before the statement runs; the integers bound here are run numbers,
    event counts, file counts and sizes, and what is stated about the rows
    a method writes is stated for integers within that range. *)
Definition execute (st : statement) (c : Store) : Store :=
  match st with
  | INSERT_OR_REPLACE_Experiment data =>
      set_Experiment
        (filter (λ x, exp_experiment_id x ≠ exp_experiment_id data)
                (Experiment c) ++ [data]) c
  | DELETE_Experiment experiment_id =>
      set_Experiment
        (filter (λ x, exp_experiment_id x ≠ experiment_id) (Experiment c)) c
  | INSERT_Run experiment_id run_number =>
      set_Run
        (insert_auto
           (λ rowid, {| run_run_id := rowid;
                        run_run_number := run_number;
                        run_experiment_id := experiment_id;
                        run_start_time := None;
                        run_end_time := None |})
           (Run c)).1 c
  | UPDATE_Run start_time end_time run_id =>
      set_Run
        (update_where (λ r, run_run_id r = run_id)
           (λ r, {| run_run_id := run_run_id r;
                    run_run_number := run_run_number r;
                    run_experiment_id := run_experiment_id r;
                    run_start_time := start_time;
                    run_end_time := end_time |})
           (Run c)) c
  | DELETE_Run experiment_id =>
      set_Run
        (delete_where (λ r, run_experiment_id r = experiment_id) (Run c)) c
  | UPDATE_RunProductionData_run run_data run_id =>
      set_RunProductionData
        (update_where (λ p, rpd_run_id p = run_id)
           (λ p, {| rpd_run_data_id := rpd_run_data_id p;
                    rpd_run_id := rpd_run_id p;
                    rpd_n_events :=
                      COALESCE (rd_n_events run_data) (rpd_n_events p);
                    rpd_n_damaged :=
                      COALESCE (rd_n_damaged run_data) (rpd_n_damaged p);
                    rpd_n_dropped :=
                      COALESCE (rd_n_dropped run_data) (rpd_n_dropped p);
                    rpd_prod_start :=
                      COALESCE (rd_prod_start run_data) (rpd_prod_start p);
                    rpd_prod_end :=
                      COALESCE (rd_prod_end run_data) (rpd_prod_end p);
                    rpd_number_of_files := rpd_number_of_files p;
                    rpd_total_size_bytes := rpd_total_size_bytes p |})
           (RunProductionData c)) c
  | INSERT_RunProductionData_run run_id run_data =>
      set_RunProductionData
        (insert_auto
           (λ rowid, {| rpd_run_data_id := rowid;
                        rpd_run_id := run_id;
                        rpd_n_events := rd_n_events run_data;
                        rpd_n_damaged := rd_n_damaged run_data;
                        rpd_n_dropped := rd_n_dropped run_data;
                        rpd_prod_start := rd_prod_start run_data;
                        rpd_prod_end := rd_prod_end run_data;
                        rpd_number_of_files := None;
                        rpd_total_size_bytes := None |})
           (RunProductionData c)).1 c
  | UPDATE_RunProductionData_files record run_id =>
      set_RunProductionData
        (update_where (λ p, rpd_run_id p = run_id)
           (λ p, {| rpd_run_data_id := rpd_run_data_id p;
                    rpd_run_id := rpd_run_id p;
                    rpd_n_events := rpd_n_events p;
                    rpd_n_damaged := rpd_n_damaged p;
                    rpd_n_dropped := rpd_n_dropped p;
                    rpd_prod_start := rpd_prod_start p;
                    rpd_prod_end := rpd_prod_end p;
                    rpd_number_of_files :=
                      COALESCE (fr_number_of_files record)
                               (rpd_number_of_files p);
                    rpd_total_size_bytes :=
                      COALESCE (fr_total_size_bytes record)
                               (rpd_total_size_bytes p) |})
           (RunProductionData c)) c
  | INSERT_RunProductionData_files run_id record =>
      set_RunProductionData
        (insert_auto
           (λ rowid, {| rpd_run_data_id := rowid;
                        rpd_run_id := run_id;
                        rpd_n_events := None;
                        rpd_n_damaged := None;
                        rpd_n_dropped := None;
                        rpd_prod_start := None;
                        rpd_prod_end := None;
                        rpd_number_of_files := fr_number_of_files record;
                        rpd_total_size_bytes := fr_total_size_bytes record |})
           (RunProductionData c)).1 c
  | DELETE_RunProductionData run_id =>
      set_RunProductionData
        (delete_where (λ p, rpd_run_id p = run_id) (RunProductionData c)) c
  | INSERT_Detector detector_name =>
      set_Detector
        (insert_auto
           (λ rowid, {| det_detector_id := rowid;
                        det_detector_name := detector_name;
                        det_description := None |})
           (Detector c)).1 c
  | INSERT_OR_REPLACE_RunDetector run_id detector_id status =>
      set_RunDetector
        (insert_auto
           (λ rowid, {| rdet_run_detector_id := rowid;
                        rdet_run_id := run_id;
                        rdet_detector_id := detector_id;
                        rdet_status := status |})
           (delete_where (λ x, rdet_run_id x = run_id
                               ∧ rdet_detector_id x = detector_id)
                         (RunDetector c))).1 c
  | DELETE_RunDetector run_id =>
      set_RunDetector
        (delete_where (λ x, rdet_run_id x = run_id) (RunDetector c)) c
  | INSERT_Logbook experiment_id run_id entry =>
      set_Logbook
        (insert_auto
           (λ rowid, {| log_log_id := rowid;
                        log_experiment_id := experiment_id;
                        log_run_id := run_id;
                        log_timestamp := LogbookApi.timestamp entry;
                        log_content := LogbookApi.db_content entry;
                        log_tags := LogbookApi.db_tags entry;
                        log_author := LogbookApi.db_author entry |})
           (Logbook c)).1 c
  | DELETE_Logbook experiment_id =>
      set_Logbook
        (delete_where (λ l, log_experiment_id l = experiment_id) (Logbook c))
        c
  | INSERT_OR_REPLACE_Questionnaire experiment_id proposal f =>
      set_Questionnaire
        (insert_auto
           (λ rowid, {| q_questionnaire_id := rowid;
                        q_experiment_id := experiment_id;
                        q_proposal := proposal;
                        q_category := f_category f;
                        q_field_id := f_field_id f;
                        q_field_name := f_field_name f;
                        q_field_value := f_field_value f;
                        q_modified_time := f_modified_time f;
                        q_modified_uid := f_modified_uid f |})
           (delete_where (λ q, q_experiment_id q = experiment_id
                               ∧ q_field_id q = f_field_id f)
                         (Questionnaire c))).1 c
  | DELETE_Questionnaire experiment_id =>
      set_Questionnaire
        (delete_where (λ q, q_experiment_id q = experiment_id)
                      (Questionnaire c)) c
  | INSERT_Workflow experiment_id name w =>
      set_Workflow
        (insert_auto
           (λ rowid, {| wf_workflow_id := rowid;
                        wf_experiment_id := experiment_id;
                        wf_mongo_id := w_mongo_id w;
                        wf_name := name;
                        wf_executable := w_executable w;
                        wf_trigger := w_trigger w;
                        wf_location := w_location w;
                        wf_parameters := w_parameters w;
                        wf_run_param_name := w_run_param_name w;
                        wf_run_param_value := w_run_param_value w;
                        wf_run_as_user := w_run_as_user w |})
           (Workflow c)).1 c
  | DELETE_Workflow experiment_id =>
      set_Workflow
        (delete_where (λ w, wf_experiment_id w = experiment_id) (Workflow c))
        c
  | INSERT_OR_REPLACE_Metadata key value =>
      set_Metadata (<[key := value]> (Metadata c)) c
  | PRAGMA pragma =>
      set_journal_mode (pragma_journal_mode pragma (journal_mode c))
        (set_events (events c ++ [EvPragma pragma]) c)
  end.

(** Statements executed one after the other. *)
Definition execute_all (statements : list statement) (c : Store) : Store :=
  foldl (λ c st, execute st c) c statements.

(** [conn.commit()]. *)
Definition conn_commit (c : Store) : Store :=
  set_events (events c ++ [EvCommit]) c.

(** [conn.close()]. *)
Definition conn_close (c : Store) : Store :=
  set_is_open false (set_events (events c ++ [EvClose]) c).

(** The number of commits the connection has issued. *)
Definition commits (c : Store) : nat :=
  length (filter (λ ev, ev = EvCommit) (events c)).

(** *** The [Database] object *)

Record Database := {
  conn : Store;
  _run_id_cache : gmap string nat;
  _detector_cache : gmap string nat
}.

Definition set_conn (c : Store) (self : Database) : Database :=
  {| conn := c;
     _run_id_cache := _run_id_cache self;
     _detector_cache := _detector_cache self |}.

(** [self.conn.execute(...)]. *)
Definition exec (st : statement) (self : Database) : Database :=
  set_conn (execute st (conn self)) self.

(** [Database(db_path)] on the store found at [db_path] ([empty_store] for
    a new file): a connection is opened, the caches are fresh,
    [CREATE TABLE IF NOT EXISTS], one commit. *)
Definition __init__ (file : Store) : Database :=
  {| conn := conn_commit (set_is_open true file);
     _run_id_cache := ∅;
     _detector_cache := ∅ |}.

Definition enable_wal_mode (self : Database) : Database :=
  let self := exec (PRAGMA "journal_mode=WAL") self in
  let self := exec (PRAGMA "synchronous=NORMAL") self in
  exec (PRAGMA "cache_size=-64000") self.

Definition commit (self : Database) : Database :=
  set_conn (conn_commit (conn self)) self.

Definition cache_key (experiment_id : string) (run_number : Z) : string :=
  experiment_id +:+ "_" +:+ Py.str_int run_number.

(** [_get_or_create_run_id]: the cache, then the [Run] table, then a new
    row. The [SELECT] binds [run_number], so the call returns for run
    numbers within 64 bits. *)
Definition _get_or_create_run_id (self : Database)
    (experiment_id : string) (run_number : Z) : Database * nat :=
  let cache_key := cache_key experiment_id run_number in
  match _run_id_cache self !! cache_key with
  | Some run_id => (self, run_id)
  | None =>
      let result :=
        fetchone (λ r, run_experiment_id r = experiment_id
                       ∧ run_run_number r = run_number)
                 (Run (conn self)) in
      let '(self, run_id) :=
        match result with
        | Some r => (self, run_run_id r)
        | None =>
            let self := exec (INSERT_Run experiment_id run_number) self in
            (self, seq (Run (conn self)))            (* [cursor.lastrowid] *)
        end in
      ({| conn := conn self;
          _run_id_cache := <[cache_key := run_id]> (_run_id_cache self);
          _detector_cache := _detector_cache self |}, run_id)
  end.

Definition _get_or_create_detector_id (self : Database)
    (detector_name : string) : Database * nat :=
  match _detector_cache self !! detector_name with
  | Some detector_id => (self, detector_id)
  | None =>
      let result :=
        fetchone (λ d, det_detector_name d = detector_name)
                 (Detector (conn self)) in
      let '(self, detector_id) :=
        match result with
        | Some d => (self, det_detector_id d)
        | None =>
            let self := exec (INSERT_Detector detector_name) self in
            (self, seq (Detector (conn self)))       (* [cursor.lastrowid] *)
        end in
      ({| conn := conn self;
          _run_id_cache := _run_id_cache self;
          _detector_cache :=
            <[detector_name := detector_id]> (_detector_cache self) |},
       detector_id)
  end.

(** The dictionary [data] of [insert_experiment] has the columns of the
    row. *)
Definition _insert_experiment_no_commit (self : Database)
    (data : ExperimentRow) : Database :=
  exec (INSERT_OR_REPLACE_Experiment data) self.

Definition insert_experiment (self : Database) (data : ExperimentRow)
  : Database :=
  commit (_insert_experiment_no_commit self data).

(** *** Questionnaire *)

Record questionnaire_data := {
  qn_experiment_id : string;
  qn_proposal_number : option string;
  qn_fields : list field
}.

Definition _insert_questionnaire_no_commit (self : Database)
    (data : questionnaire_data) : Database :=
  let experiment_id := qn_experiment_id data in
  let proposal_number := qn_proposal_number data in
  let self := exec (DELETE_Questionnaire experiment_id) self in
  foldl (λ self f,
           exec (INSERT_OR_REPLACE_Questionnaire experiment_id
                   proposal_number f) self)
        self (qn_fields data).

Definition insert_questionnaire (self : Database)
    (data : questionnaire_data) : Database :=
  commit (_insert_questionnaire_no_commit self data).

(** *** Workflow *)

Record workflow_data := {
  wd_experiment_id : string;
  wd_workflows : list workflow
}.

(** The [for] loop of [_insert_workflow_no_commit]. [Workflow.name] is
    [NOT NULL] while [_format_workflow] passes [raw_workflow.get("name")]
    on: for a workflow without a name [conn.execute] raises, and the rows
    written before it stay. *)
Fixpoint insert_workflows (experiment_id : string) (self : Database)
    (workflows : list workflow) : Database * Py.outcome unit :=
  match workflows with
  | [] => (self, Py.Return tt)
  | w :: rest =>
      match w_name w with
      | None =>
          (self, Py.Raise (Py.Exn Py.IntegrityError
                             "NOT NULL constraint failed: Workflow.name"))
      | Some name =>
          insert_workflows experiment_id
            (exec (INSERT_Workflow experiment_id name w) self) rest
      end
  end.

Definition _insert_workflow_no_commit (self : Database)
    (data : workflow_data) : Database * Py.outcome unit :=
  let experiment_id := wd_experiment_id data in
  let self := exec (DELETE_Workflow experiment_id) self in
  insert_workflows experiment_id self (wd_workflows data).

Definition insert_workflow (self : Database) (data : workflow_data)
  : Database * Py.outcome unit :=
  match _insert_workflow_no_commit self data with
  | (self, Py.Return _) => (commit self, Py.Return tt)
  | (self, Py.Raise e) => (self, Py.Raise e)
  end.

(** *** Logbook *)

Definition logbook_insert_step (self : Database)
    (entry : LogbookApi.db_entry) : Database :=
  let '(self, run_id) :=
    match LogbookApi.run_number entry with
    | Some run_number =>
        let '(self, run_id) :=
          _get_or_create_run_id self (LogbookApi.experiment_id entry)
                                run_number in
        (self, Some run_id)
    | None => (self, None)
    end in
  exec (INSERT_Logbook (LogbookApi.experiment_id entry) run_id entry) self.

Definition _insert_logbook_no_commit (self : Database)
    (entries : list LogbookApi.db_entry) : Database :=
  match entries with
  | [] => self
  | first :: _ =>
      let experiment_id := LogbookApi.experiment_id first in
      let self := exec (DELETE_Logbook experiment_id) self in
      foldl logbook_insert_step self entries
  end.

Definition insert_logbook (self : Database)
    (entries : list LogbookApi.db_entry) : Database :=
  commit (_insert_logbook_no_commit self entries).

(** *** Run table *)

(** One dictionary of [data["detectors"]]: the run number and the other
    items, detector name to status, in dictionary order. *)
Record detector_data := {
  dd_run_number : option Z;
  dd_items : list (string * string)
}.

Record runtable_data := {
  rt_experiment_id : string;
  rt_data_production : list run_data;
  rt_detectors : list detector_data
}.

Definition runtable_production_step (experiment_id : string)
    (self : Database) (run_data : run_data) : Database :=
  match rd_run_number run_data with
  | None => self
  | Some run_number =>
      let '(self, run_id) :=
        _get_or_create_run_id self experiment_id run_number in
      let self :=
        exec (UPDATE_Run (rd_start_time run_data) (rd_end_time run_data)
                         run_id) self in
      let existing :=
        fetchone (λ p, rpd_run_id p = run_id)
                 (RunProductionData (conn self)) in
      match existing with
      | Some _ => exec (UPDATE_RunProductionData_run run_data run_id) self
      | None => exec (INSERT_RunProductionData_run run_id run_data) self
      end
  end.

Definition detector_item_step (run_id : nat) (self : Database)
    (item : string * string) : Database :=
  let '(key, value) := item in
  if String.eqb key "run_number" || Py.strip_is_empty key then self
  else
    let '(self, detector_id) := _get_or_create_detector_id self key in
    exec (INSERT_OR_REPLACE_RunDetector run_id detector_id value) self.

Definition runtable_detector_step (experiment_id : string)
    (self : Database) (detector_data : detector_data) : Database :=
  match dd_run_number detector_data with
  | None => self
  | Some run_number =>
      let '(self, run_id) :=
        _get_or_create_run_id self experiment_id run_number in
      foldl (detector_item_step run_id) self (dd_items detector_data)
  end.

Definition _insert_runtable_no_commit (self : Database)
    (data : runtable_data) : Database :=
  let experiment_id := rt_experiment_id data in
  let self :=
    foldl (runtable_production_step experiment_id) self
          (rt_data_production data) in
  foldl (runtable_detector_step experiment_id) self (rt_detectors data).

Definition insert_runtable (self : Database) (data : runtable_data)
  : Database :=
  commit (_insert_runtable_no_commit self data).

(** *** File manager *)

Record file_manager_data := {
  fm_experiment_id : string;
  fm_file_manager_records : list file_record
}.

Definition file_manager_step (experiment_id : string)
    (self : Database) (record : file_record) : Database :=
  match fr_run_number record with
  | None => self
  | Some run_number =>
      let '(self, run_id) :=
        _get_or_create_run_id self experiment_id run_number in
      let existing :=
        fetchone (λ p, rpd_run_id p = run_id)
                 (RunProductionData (conn self)) in
      match existing with
      | Some _ => exec (UPDATE_RunProductionData_files record run_id) self
      | None => exec (INSERT_RunProductionData_files run_id record) self
      end
  end.

Definition _insert_file_manager_no_commit (self : Database)
    (data : file_manager_data) : Database :=
  foldl (file_manager_step (fm_experiment_id data)) self
        (fm_file_manager_records data).

Definition insert_file_manager (self : Database)
    (data : file_manager_data) : Database :=
  commit (_insert_file_manager_no_commit self data).

(** *** Composite records *)

(** The dictionary a fetch worker puts on the queue: the experiment, and
    either the error text or the six facets. A facet that is [None] (or an
    empty list) is falsy and skipped by [insert_experiment_batch]. *)
Record composite := {
  c_experiment_id : option string;     (* [None]: the key is missing *)
  c_error : option string;             (* [Some]: ["error" in data] *)
  c_info : option ExperimentRow;
  c_logbook : list LogbookApi.db_entry;
  c_runtable : option runtable_data;
  c_file_manager : option file_manager_data;
  c_questionnaire : option questionnaire_data;
  c_workflow : option workflow_data
}.

(** [if data.get(key): method(data[key])]. *)
Definition when_present {A} (facet : option A)
    (method : Database → A → Database) (self : Database) : Database :=
  match facet with
  | Some x => method self x
  | None => self
  end.

Definition insert_experiment_batch (self : Database) (data : composite)
  : Database * Py.outcome unit :=
  let self := when_present (c_info data) _insert_experiment_no_commit self in
  let self := _insert_logbook_no_commit self (c_logbook data) in
  let self := when_present (c_runtable data) _insert_runtable_no_commit self in
  let self :=
    when_present (c_file_manager data) _insert_file_manager_no_commit self in
  let self :=
    when_present (c_questionnaire data) _insert_questionnaire_no_commit self in
  match c_workflow data with
  | Some workflow => _insert_workflow_no_commit self workflow
  | None => (self, Py.Return tt)
  end.

(** *** Metadata *)

Definition _set_metadata_no_commit (self : Database) (key value : string)
  : Database :=
  exec (INSERT_OR_REPLACE_Metadata key value) self.

Definition set_metadata (self : Database) (key value : string) : Database :=
  commit (_set_metadata_no_commit self key value).

Definition get_metadata (self : Database) (key : string) : option string :=
  Metadata (conn self) !! key.

(** *** [delete_experiment] *)

(** The [DELETE] statements of [delete_experiment], in the order they are
    executed; [run_ids] is read first. *)
Definition delete_experiment_statements (c : Store) (experiment_id : string)
  : list statement :=
  let run_ids :=
    map run_run_id
        (filter (λ r, run_experiment_id r = experiment_id) (rows (Run c))) in
  flat_map
    (λ run_id, [DELETE_RunDetector run_id; DELETE_RunProductionData run_id])
    run_ids ++
  [ DELETE_Logbook experiment_id;
    DELETE_Run experiment_id;
    DELETE_Questionnaire experiment_id;
    DELETE_Workflow experiment_id;
    DELETE_Experiment experiment_id ].

Definition delete_experiment (self : Database) (experiment_id : string)
  : Database :=
  let c :=
    execute_all (delete_experiment_statements (conn self) experiment_id)
                (conn self) in
  let c := conn_commit c in
  {| conn := c;
     _run_id_cache :=
       filter (λ kv, Py.startswith kv.1 (experiment_id +:+ "_") = false)
              (_run_id_cache self);
     _detector_cache := _detector_cache self |}.

(** *** Closing *)

Definition checkpoint (self : Database) : Database :=
  exec (PRAGMA "wal_checkpoint(TRUNCATE)") self.

(** [close]: the two pragmas sit in a [try] whose handler passes, so on a
    connection that is already closed they are skipped. *)
Definition close (self : Database) : Database :=
  let self :=
    if is_open (conn self) then
      let self := exec (PRAGMA "wal_checkpoint(TRUNCATE)") self in
      exec (PRAGMA "journal_mode=DELETE") self
    else self in
  set_conn (conn_close (conn self)) self.

(** [SELECT COUNT( * )] for every table. *)
Record counts := {
  n_Experiment : nat;
  n_Run : nat;
  n_RunProductionData : nat;
  n_Detector : nat;
  n_RunDetector : nat;
  n_Logbook : nat;
  n_Questionnaire : nat;
  n_Workflow : nat
}.

Definition row_counts (c : Store) : counts :=
  {| n_Experiment := length (Experiment c);
     n_Run := length (rows (Run c));
     n_RunProductionData := length (rows (RunProductionData c));
     n_Detector := length (rows (Detector c));
     n_RunDetector := length (rows (RunDetector c));
     n_Logbook := length (rows (Logbook c));
     n_Questionnaire := length (rows (Questionnaire c));
     n_Workflow := length (rows (Workflow c)) |}.

(** *** The calls the writer makes on the store *)

Inductive method_call :=
| Call_insert_experiment_batch (data : composite)
| Call_delete_experiment (experiment_id : string)
| Call_set_metadata (key value : string)
| Call_commit
| Call_enable_wal_mode
| Call_checkpoint
| Call_close.

Definition call (self : Database) (m : method_call) : Database :=
  match m with
  | Call_insert_experiment_batch data => (insert_experiment_batch self data).1
  | Call_delete_experiment experiment_id => delete_experiment self experiment_id
  | Call_set_metadata key value => set_metadata self key value
  | Call_commit => commit self
  | Call_enable_wal_mode => enable_wal_mode self
  | Call_checkpoint => checkpoint self
  | Call_close => close self
  end.

End Database.

(** ** utils/locking.py *)

Module Locking.

(** The part of the operating system [flock] talks to: the open file
    descriptions and, per lock file, the description holding the exclusive
    lock. *)
Record os := {
  next_fd : nat;
  open_files : gmap nat string;       (* description -> path *)
  flocks : gmap string nat            (* path -> holder of [LOCK_EX] *)
}.

Definition initial_os : os :=
  {| next_fd := 0; open_files := ∅; flocks := ∅ |}.

(** [open(lock_path, "w")]. *)
Definition open_w (lock_path : string) (w : os) : os * nat :=
  ({| next_fd := S (next_fd w);
      open_files := <[next_fd w := lock_path]> (open_files w);
      flocks := flocks w |}, next_fd w).

(** [lock_file.close()]; closing a description drops the lock it holds. *)
Definition close (fd : nat) (w : os) : os :=
  {| next_fd := next_fd w;
     open_files := delete fd (open_files w);
     flocks := filter (λ kv, kv.2 ≠ fd) (flocks w) |}.

(** The result of a call to [fcntl.flock]: it returns, raises, or (a
    blocking request on a lock held elsewhere) does not return. *)
Inductive flock_result :=
| Done
| Raised (e : Py.exn)
| Waits.

(** [fcntl.flock(lock_file, LOCK_EX)], with [LOCK_NB] unless [blocking]. *)
Definition flock_EX (fd : nat) (blocking : bool) (w : os)
  : os * flock_result :=
  match open_files w !! fd with
  | None => (w, Raised (Py.Exn Py.ValueError "I/O operation on closed file"))
  | Some path =>
      match flocks w !! path with
      | Some holder =>
          if decide (holder = fd) then (w, Done)
          else if blocking then (w, Waits)
          else (w, Raised (Py.Exn Py.BlockingIOError
                             "Resource temporarily unavailable"))
      | None =>
          ({| next_fd := next_fd w;
              open_files := open_files w;
              flocks := <[path := fd]> (flocks w) |}, Done)
      end
  end.

(** [fcntl.flock(lock_file, LOCK_UN)]. *)
Definition flock_UN (fd : nat) (w : os) : os * flock_result :=
  match open_files w !! fd with
  | None => (w, Raised (Py.Exn Py.ValueError "I/O operation on closed file"))
  | Some path =>
      ({| next_fd := next_fd w;
          open_files := open_files w;
          flocks := filter (λ kv, kv.2 ≠ fd) (flocks w) |}, Done)
  end.

(** The [finally] block of [acquire_lock]: unlock, whatever that raises is
    passed over, then close. *)
Definition release (lock_file : nat) (w : os) : os :=
  let '(w, _) := flock_UN lock_file w in
  close lock_file w.

(** How entering [acquire_lock] ends. *)
Inductive entered :=
| Yielded (lock_file : nat)      (* the generator reached [yield] *)
| EnterRaised (e : Py.exn)
| EnterWaits.

(** [acquire_lock] up to its [yield]. On contention the file is closed,
    [LockError] is raised and the [finally] block runs on the way out. *)
Definition acquire_lock_enter (lock_path : string) (blocking : bool) (w : os)
  : os * entered :=
  let '(w, lock_file) := open_w lock_path w in
  match flock_EX lock_file blocking w with
  | (w, Done) => (w, Yielded lock_file)
  | (w, Raised e) =>
      match Py.exn_class_of e with
      | Py.BlockingIOError =>
          let w := close lock_file w in
          (release lock_file w,
           EnterRaised
             (Py.Exn Py.LockError
                ("Another instance is already running (lock: "
                 +:+ lock_path +:+ ")")))
      | _ => (release lock_file w, EnterRaised e)
      end
  | (w, Waits) => (w, EnterWaits)
  end.

(** [with acquire_lock(lock_path, blocking): body]. The body works on a
    state of its own and ends by returning or raising; [None] as result
    stands for a blocking request that waits. *)
Definition with_acquire_lock {S A : Type} (lock_path : string)
    (blocking : bool) (body : S → S * Py.outcome A) (w : os) (s : S)
  : os * S * option (Py.outcome A) :=
  match acquire_lock_enter lock_path blocking w with
  | (w, Yielded lock_file) =>
      let '(s, result) := body s in
      (release lock_file w, s, Some result)
  | (w, EnterRaised e) => (w, s, Some (Py.Raise e))
  | (w, EnterWaits) => (w, s, None)
  end.

End Locking.

(** ** cli.py *)

Module Cli.
Import Database.

(** The settings [_do_update] reads. [hours_lookback] is kept as the text
    [str(config.hours_lookback)]. *)
Record Config := {
  hours_lookback : string;
  parallel_jobs : Z;
  queue_size : Z;
  batch_commit_size : Z
}.

(** *** Fetch workers *)

(** The six per-endpoint fetchers, for a fixed client: each returns its
    facet or raises. *)
Record Fetchers := {
  fetch_experiment_info : string → Py.outcome (option ExperimentRow);
  fetch_logbook : string → Py.outcome (list LogbookApi.db_entry);
  fetch_runtable : string → Py.outcome (option runtable_data);
  fetch_file_manager : string → Py.outcome (option file_manager_data);
  fetch_questionnaire : string → Py.outcome (option questionnaire_data);
  fetch_workflow : string → Py.outcome (option workflow_data)
}.

Inductive endpoint :=
| Info | Logbook | Runtable | FileManager | Questionnaire | Workflow.

#[global] Instance endpoint_eq_dec : EqDecision endpoint.
Proof. solve_decision. Defined.

(** What the producers have done so far: the fetch calls made, in order,
    and what has been put on [data_queue] ([None] is the sentinel). *)
Record producer := {
  calls : list (endpoint * string);
  data_queue : list (option composite)
}.

(** A computation that makes fetch calls and returns or raises. *)
Definition fetching (A : Type) : Type :=
  list (endpoint * string) → list (endpoint * string) * Py.outcome A.

#[global] Instance fetching_ret : MRet fetching :=
  λ A a cs, (cs, Py.Return a).

#[global] Instance fetching_bind : MBind fetching :=
  λ A B k m cs,
    match m cs with
    | (cs, Py.Return a) => k a cs
    | (cs, Py.Raise e) => (cs, Py.Raise e)
    end.

(** One call [fetch_...(client, exp_id)]. *)
Definition call {A} (ep : endpoint) (exp_id : string) (result : Py.outcome A)
  : fetching A :=
  λ cs, (cs ++ [(ep, exp_id)], result).

(** The dictionary display in the [try] block of [fetch_and_queue]: its
    values are evaluated in the order written. *)
Definition fetch_data (api : Fetchers) (exp_id : string)
  : fetching composite :=
  info ← call Info exp_id (fetch_experiment_info api exp_id);
  logbook ← call Logbook exp_id (fetch_logbook api exp_id);
  runtable ← call Runtable exp_id (fetch_runtable api exp_id);
  file_manager ← call FileManager exp_id (fetch_file_manager api exp_id);
  questionnaire ← call Questionnaire exp_id (fetch_questionnaire api exp_id);
  workflow ← call Workflow exp_id (fetch_workflow api exp_id);
  mret {| c_experiment_id := Some exp_id;
         c_error := None;
         c_info := info;
         c_logbook := logbook;
         c_runtable := runtable;
         c_file_manager := file_manager;
         c_questionnaire := questionnaire;
         c_workflow := workflow |}.

(** [{"experiment_id": exp_id, "error": str(e)}]. *)
Definition error_result (exp_id error : string) : composite :=
  {| c_experiment_id := Some exp_id;
     c_error := Some error;
     c_info := None;
     c_logbook := [];
     c_runtable := None;
     c_file_manager := None;
     c_questionnaire := None;
     c_workflow := None |}.

Definition fetch_and_queue (api : Fetchers) (exp_id : string) (p : producer)
  : producer * string :=
  let '(cs, result) := fetch_data api exp_id (calls p) in
  let data :=
    match result with
    | Py.Return data => data
    | Py.Raise e => error_result exp_id (Py.exn_str e)
    end in
  ({| calls := cs; data_queue := data_queue p ++ [Some data] |}, exp_id).

(** The [else] branch, taken when [parallel_jobs <= 1]: the loop
    [for exp_id in exps: fetch_and_queue(exp_id)]. *)
Definition fetch_all (api : Fetchers) (experiments : list string)
    (p : producer) : producer :=
  foldl (λ p exp_id, (fetch_and_queue api exp_id p).1) p experiments.

Definition put_sentinel (p : producer) : producer :=
  {| calls := calls p; data_queue := data_queue p ++ [None] |}.

(** *** The pool of fetch workers

    With [parallel_jobs > 1] every experiment is submitted to a
    [ThreadPoolExecutor] that runs [fetch_and_queue]: the experiments are
    taken up in the order submitted, at most [max_workers] of them at a
    time; the calls of the workers that are running interleave in any
    order, and a worker puts its item when its calls are made. *)

(** What [fetch_and_queue] puts for an experiment. *)
Definition worker_item (api : Fetchers) (exp_id : string) : composite :=
  match (fetch_data api exp_id []).2 with
  | Py.Return data => data
  | Py.Raise e => error_result exp_id (Py.exn_str e)
  end.

(** A worker in [fetch_and_queue]: its experiment, the calls it has made
    and the calls it has still to make. *)
Record worker := {
  job : string;
  made : list (endpoint * string);
  todo : list (endpoint * string)
}.

Record pool := {
  pending : list string;          (* submitted, not yet taken up *)
  running : list worker;
  produced : producer
}.

Inductive pool_step (api : Fetchers) (max_workers : nat) : pool → pool → Prop :=
| step_start exp_id pending running p :
    (length running < max_workers)%nat →
    pool_step api max_workers
      {| pending := exp_id :: pending; running := running; produced := p |}
      {| pending := pending;
         running :=
           running ++ [{| job := exp_id; made := [];
                          todo := (fetch_data api exp_id []).1 |}];
         produced := p |}
| step_call before exp_id made c todo after pending p :
    pool_step api max_workers
      {| pending := pending;
         running :=
           before ++ {| job := exp_id; made := made; todo := c :: todo |}
                  :: after;
         produced := p |}
      {| pending := pending;
         running :=
           before ++ {| job := exp_id; made := made ++ [c]; todo := todo |}
                  :: after;
         produced := {| calls := calls p ++ [c];
                        data_queue := data_queue p |} |}
| step_put before exp_id made after pending p :
    pool_step api max_workers
      {| pending := pending;
         running :=
           before ++ {| job := exp_id; made := made; todo := [] |} :: after;
         produced := p |}
      {| pending := pending;
         running := before ++ after;
         produced :=
           {| calls := calls p;
              data_queue :=
                data_queue p ++ [Some (worker_item api exp_id)] |} |}.

(** A run of the pool, from the submission of the experiments to the end
    of the [with] block, when every worker is done. *)
Definition pool_runs (api : Fetchers) (max_workers : nat)
    (experiments : list string) (p p' : producer) : Prop :=
  rtc (pool_step api max_workers)
      {| pending := experiments; running := []; produced := p |}
      {| pending := []; running := []; produced := p' |}.

(** The two branches of [if config.parallel_jobs > 1]: what the producers
    leave when all experiments are fetched. *)
Definition produces (config : Config) (api : Fetchers)
    (experiments : list string) (p p' : producer) : Prop :=
  if 1 <? parallel_jobs config
  then pool_runs api (Z.to_nat (parallel_jobs config)) experiments p p'
  else p' = fetch_all api experiments p.

(** *** The writer *)

Record failure := {
  failed_experiment_id : string;
  failed_error : string;
  failed_timestamp : string
}.

(** The variables of [writer_thread] and those it shares with
    [_do_update]; [clock] counts the readings of [datetime.now()]. *)
Record writer := {
  db : Database;
  batch_count : Z;
  success_count : Z;
  failed_experiments : list failure;
  clock : nat
}.

Section Writer.
(** [now k] is [datetime.now().isoformat()] at the [k]-th reading. *)
Context (now : nat → string) (config : Config) (incremental : bool).

Definition record_failure (exp_id error : string) (w : writer) : writer :=
  {| db := db w;
     batch_count := batch_count w;
     success_count := success_count w;
     failed_experiments :=
       failed_experiments w ++
       [{| failed_experiment_id := exp_id;
           failed_error := error;
           failed_timestamp := now (clock w) |}];
     clock := S (clock w) |}.

(** How one turn of [while True] ends. *)
Inductive turn :=
| Continue (w : writer)
| Break (w : writer)
| Escapes (w : writer) (e : Py.exn).    (* raised outside the inner [try] *)

(** One turn of the loop, for the item [data_queue.get] returned. *)
Definition writer_turn (w : writer) (data : option composite) : turn :=
  match data with
  | None => Break w
  | Some data =>
      match c_experiment_id data with
      | None => Escapes w (Py.Exn Py.KeyError "'experiment_id'")
      | Some exp_id =>
          match c_error data with
          | Some error => Continue (record_failure exp_id error w)
          | None =>
              let d :=
                if incremental then delete_experiment (db w) exp_id
                else db w in
              match insert_experiment_batch d data with
              | (d, Py.Return _) =>
                  let batch_count := batch_count w + 1 in
                  let '(d, batch_count) :=
                    if batch_commit_size config <=? batch_count
                    then (commit d, 0)
                    else (d, batch_count) in
                  Continue {| db := d;
                              batch_count := batch_count;
                              success_count := success_count w + 1;
                              failed_experiments := failed_experiments w;
                              clock := clock w |}
              | (d, Py.Raise e) =>
                  Continue
                    (record_failure exp_id (Py.exn_str e)
                       {| db := d;
                          batch_count := batch_count w;
                          success_count := success_count w;
                          failed_experiments := failed_experiments w;
                          clock := clock w |})
              end
          end
      end
  end.

(** The [while True] loop over what the queue delivers; the end of the
    list is [queue.Empty] with [stop_event] set. *)
Fixpoint writer_loop (w : writer) (queue : list (option composite))
  : writer * option Py.exn :=
  match queue with
  | [] => (w, None)
  | data :: rest =>
      match writer_turn w data with
      | Continue w => writer_loop w rest
      | Break w => (w, None)
      | Escapes w e => (w, Some e)
      end
  end.

(** The body of the outer [try]: the loop, then the commit of what is left
    of the batch. *)
Definition writer_try (w : writer) (queue : list (option composite))
  : writer * option Py.exn :=
  match writer_loop w queue with
  | (w, None) =>
      if 0 <? batch_count w
      then ({| db := commit (db w);
               batch_count := batch_count w;
               success_count := success_count w;
               failed_experiments := failed_experiments w;
               clock := clock w |}, None)
      else (w, None)
  | (w, Some e) => (w, Some e)
  end.

(** The [finally] block. *)
Definition writer_finally (w : writer) : writer :=
  let d := set_metadata (db w) "last_update" (now (clock w)) in
  let d := set_metadata d "hours_lookback" (hours_lookback config) in
  let d := close d in
  {| db := d;
     batch_count := batch_count w;
     success_count := success_count w;
     failed_experiments := failed_experiments w;
     clock := S (clock w) |}.

(** [writer_thread] on the store file at [db_path], fed [queue]: the final
    state and [error_holder]. *)
Definition writer_thread (file : Store) (queue : list (option composite))
  : writer * list Py.exn :=
  let d := enable_wal_mode (__init__ file) in
  let w := {| db := d;
              batch_count := 0;
              success_count := 0;
              failed_experiments := [];
              clock := 0 |} in
  let '(w, escaped) := writer_try w queue in
  let error_holder :=
    match escaped with
    | Some e => [e]
    | None => []
    end in
  (writer_finally w, error_holder).

(** [_do_update] after [writer.join]: [raise error_holder[0]] if the writer
    left an exception, else the counts are returned. *)
Definition after_join (w : writer) (error_holder : list Py.exn)
  : Store * Py.outcome (Z * list failure) :=
  match error_holder with
  | e :: _ => (conn (db w), Py.Raise e)
  | [] => (conn (db w), Py.Return (success_count w, failed_experiments w))
  end.

(** [_do_update] from the point where the store file is in place: [file] is
    the copy of the base database or an empty store. The producers run,
    the sentinel is put, the writer is joined; the result is the store file
    left behind and what [_do_update] returns or raises. The producers
    work one experiment after the other, as they do with
    [parallel_jobs <= 1] and as a pool of any size may. *)
Definition _do_update (api : Fetchers) (experiments : list string)
    (file : Store)
  : Store * Py.outcome (Z * list failure) :=
  let p := fetch_all api experiments {| calls := []; data_queue := [] |} in
  let p := put_sentinel p in
  let '(w, error_holder) := writer_thread file (data_queue p) in
  after_join w error_holder.

End Writer.

(** *** [update]: the lock around [_do_update] *)

(** How the command ends: it returns, or [sys.exit(1)]. *)
Inductive exit := Returns | SystemExit (code : Z).

(** The [try] around [with acquire_lock(lock_path): _do_update(...)] in
    [update], with its handlers for [LockError] and [FetchElogError];
    [body] is the call of [_do_update] on the state [S] it works on. *)
Definition update_locked {S A : Type} (lock_path : string)
    (body : S → S * Py.outcome A) (w : Locking.os) (s : S)
  : Locking.os * S * option (Py.outcome exit) :=
  match Locking.with_acquire_lock lock_path false body w s with
  | (w, s, Some (Py.Return _)) => (w, s, Some (Py.Return Returns))
  | (w, s, Some (Py.Raise e)) =>
      match Py.exn_class_of e with
      | Py.LockError | Py.AuthenticationError | Py.FetchElogError
      | Py.APIError =>
          (w, s, Some (Py.Return (SystemExit 1)))
      | _ => (w, s, Some (Py.Raise e))
      end
  | (w, s, None) => (w, s, None)
  end.

End Cli.

(** ** api/file_manager.py, api/workflow.py and [fetch_logbook] *)

Module FetchApi.
Import Database.

(** What [client.get(endpoint)] hands to a fetcher: the parsed reply, of
    which the fetchers read the keys [success] and [value], or an
    exception ([APIError], [AuthenticationError], ...). *)
Record reply (A : Type) := Reply {
  success : bool;       (* the truth value of [data.get("success")] *)
  value : list A        (* [data.get("value", [])] *)
}.
Arguments Reply {A}.
Arguments success {A}.
Arguments value {A}.

(** *** file_manager.py *)

(** A file of the upstream listing: the keys [_aggregate_by_run] reads. *)
Record file_info := {
  fi_run_num : option Z;
  fi_size : option Z
}.

(** One iteration of the loop over [files]; [run_data] maps a run number
    to [number_of_files] and [total_size_bytes]. *)
Definition aggregate_step (run_data : gmap Z (Z * Z)) (file_info : file_info)
  : gmap Z (Z * Z) :=
  match fi_run_num file_info with
  | None => run_data
  | Some run_num =>
      let size := default 0 (fi_size file_info) in   (* [get("size", 0) or 0] *)
      let '(number_of_files, total_size_bytes) :=
        default (0, 0) (run_data !! run_num) in
      <[run_num := (number_of_files + 1, total_size_bytes + size)]> run_data
  end.

Definition item_le (a b : Z * (Z * Z)) : Prop := a.1 ≤ b.1.

#[global] Instance item_le_dec : RelDecision item_le.
Proof. intros a b. unfold item_le. apply _. Defined.

(** [sorted(run_data.items())]: the keys are distinct, so the order is
    that of the run numbers. *)
Definition sorted_items (run_data : gmap Z (Z * Z)) : list (Z * (Z * Z)) :=
  merge_sort item_le (map_to_list run_data).

Definition _aggregate_by_run (files : list file_info) : list file_record :=
  let run_data := foldl aggregate_step ∅ files in
  map (λ item : Z * (Z * Z),
         {| fr_run_number := Some item.1;
            fr_number_of_files := Some item.2.1;
            fr_total_size_bytes := Some item.2.2 |})
      (sorted_items run_data).

Definition fetch_file_manager
    (get : string → Py.outcome (reply file_info)) (experiment_id : string)
  : Py.outcome (option file_manager_data) :=
  match get ("/ws-kerb/lgbk/lgbk/" +:+ experiment_id +:+ "/ws/files") with
  | Py.Return data =>
      if success data then
        Py.Return
          (Some {| fm_experiment_id := experiment_id;
                   fm_file_manager_records := _aggregate_by_run (value data) |})
      else Py.Return None
  | Py.Raise e =>
      match Py.exn_class_of e with
      | Py.APIError => Py.Return None
      | _ => Py.Raise e
      end
  end.

(** *** workflow.py *)

(** A raw workflow definition: the keys [_format_workflow] reads;
    [raw_parameters] is [json.dumps(raw_workflow.get("parameters"))], which
    the store computes from the value passed on unchanged. *)
Record raw_workflow := {
  raw__id : option string;
  raw_name : option string;
  raw_executable : option string;
  raw_trigger : option string;
  raw_location : option string;
  raw_parameters : string;
  raw_run_param_name : option string;
  raw_run_param_value : option string;
  raw_run_as_user : option string
}.

Definition _format_workflow (raw : raw_workflow) : workflow :=
  {| w_mongo_id := raw__id raw;
     w_name := raw_name raw;
     w_executable := raw_executable raw;
     w_trigger := raw_trigger raw;
     w_location := raw_location raw;
     w_parameters := raw_parameters raw;
     w_run_param_name := raw_run_param_name raw;
     w_run_param_value := raw_run_param_value raw;
     w_run_as_user := raw_run_as_user raw |}.

Definition fetch_workflow
    (get : string → Py.outcome (reply raw_workflow)) (experiment_id : string)
  : Py.outcome (option workflow_data) :=
  match get ("/ws-kerb/lgbk/lgbk/" +:+ experiment_id
             +:+ "/ws/workflow_definitions") with
  | Py.Return data =>
      if success data then
        Py.Return
          (Some {| wd_experiment_id := experiment_id;
                   wd_workflows := map _format_workflow (value data) |})
      else Py.Return None
  | Py.Raise e =>
      match Py.exn_class_of e with
      | Py.APIError => Py.Return None
      | _ => Py.Raise e
      end
  end.

(** *** [fetch_logbook] of logbook.py *)

Definition fetch_logbook {T : Py.Text}
    (get : string → Py.outcome (reply LogbookApi.entry))
    (experiment_id : string)
  : Py.outcome (list LogbookApi.db_entry) :=
  match get ("/ws-kerb/lgbk/lgbk/" +:+ experiment_id +:+ "/ws/elog") with
  | Py.Return data =>
      if success data then
        Py.Return (LogbookApi._transform_entries experiment_id (value data))
      else Py.Return []
  | Py.Raise e =>
      match Py.exn_class_of e with
      | Py.APIError => Py.Return []
      | _ => Py.Raise e
      end
  end.

End FetchApi.

(** ** Notions the statements are written with *)

Module Spec.
Import Py LogbookApi Database.


#[global] Instance lt_dec a b : Decision (lt a b).
Proof. unfold lt. apply _. Defined.
#[global] Instance le_dec a b : Decision (le a b).
Proof. unfold le. apply _. Defined.

Definition key_le {A} (key : A → string) (x y : A) : Prop :=
  Py.le (key x) (key y).



Definition colliding_entries : list entry :=
  [ Entry "id1" "2024-01-15T10:00:00" (Some 1) None None None;
    Entry "id2" "2024-01-15T10:00:00" (Some 2) None None None ].

Definition narrative_entries : list entry :=
  [ Entry "id1" "2024-01-15T10:00:00" None
      (Some "Run Number 12: running with new settings") None None;
    Entry "id2" "2024-01-15T11:00:00" None
      (Some "run number twelve: still running") None None;
    Entry "id3" "2024-01-15T12:00:00" (Some 13) None None None ].

(** [issues P self self']: the connection of [self'] is that of [self]
    after some statements, all satisfying [P], were executed. *)
Definition issues (P : statement → Prop) (self self' : Database) : Prop :=
  ∃ statements,
    conn self' = execute_all statements (conn self) ∧ Forall P statements.

(** What an insert method may write: the experiments it may create runs
    for and the records it may write production data from. *)
Record scope := {
  owner : string → Prop;
  from_runtable : run_data → Prop;
  from_files : file_record → Prop
}.

(** The statements of the insert methods: no [DELETE] on [Experiment],
    [Run], [RunProductionData] or [RunDetector], no [PRAGMA], no
    [Metadata]; runs and production data only within the scope. *)
Definition batch_statement (sc : scope) (st : statement) : Prop :=
  match st with
  | DELETE_Experiment _ | DELETE_Run _ | DELETE_RunProductionData _
  | DELETE_RunDetector _ | PRAGMA _ | INSERT_OR_REPLACE_Metadata _ _ => False
  | INSERT_Run e _ => owner sc e
  | UPDATE_RunProductionData_run rd _
  | INSERT_RunProductionData_run _ rd => from_runtable sc rd
  | UPDATE_RunProductionData_files fr _
  | INSERT_RunProductionData_files _ fr => from_files sc fr
  | _ => True
  end.

(** The experiments a composite record may create runs for. *)
Definition run_owner (data : composite) (e : string) : Prop :=
  (∃ entry, entry ∈ c_logbook data ∧ is_Some (LogbookApi.run_number entry)
            ∧ LogbookApi.experiment_id entry = e) ∨
  (∃ rt, c_runtable data = Some rt ∧ rt_experiment_id rt = e) ∨
  (∃ fm, c_file_manager data = Some fm ∧ fm_experiment_id fm = e).

Definition batch_scope (data : composite) : scope :=
  {| owner := run_owner data;
     from_runtable rd :=
       ∃ rt, c_runtable data = Some rt ∧ rd ∈ rt_data_production rt;
     from_files fr :=
       ∃ fm, c_file_manager data = Some fm ∧ fr ∈ fm_file_manager_records fm |}.

Definition delete_statement (st : statement) : Prop :=
  match st with
  | DELETE_Experiment _ | DELETE_Run _ | DELETE_RunProductionData _
  | DELETE_RunDetector _ | DELETE_Logbook _ | DELETE_Questionnaire _
  | DELETE_Workflow _ => True
  | _ => False
  end.

(** A column after a coalescing write: unchanged, or overwritten by a
    non-null value that was written. *)
Definition coalesced {A} (written : option A → Prop) (old new : option A)
  : Prop :=
  new = old ∨ (is_Some new ∧ written new).

Definition rpd_coalesced (sc : scope) (p p' : RunProductionDataRow) : Prop :=
  rpd_run_data_id p' = rpd_run_data_id p ∧
  rpd_run_id p' = rpd_run_id p ∧
  coalesced (λ v, ∃ rd, from_runtable sc rd ∧ rd_n_events rd = v)
            (rpd_n_events p) (rpd_n_events p') ∧
  coalesced (λ v, ∃ rd, from_runtable sc rd ∧ rd_n_damaged rd = v)
            (rpd_n_damaged p) (rpd_n_damaged p') ∧
  coalesced (λ v, ∃ rd, from_runtable sc rd ∧ rd_n_dropped rd = v)
            (rpd_n_dropped p) (rpd_n_dropped p') ∧
  coalesced (λ v, ∃ rd, from_runtable sc rd ∧ rd_prod_start rd = v)
            (rpd_prod_start p) (rpd_prod_start p') ∧
  coalesced (λ v, ∃ rd, from_runtable sc rd ∧ rd_prod_end rd = v)
            (rpd_prod_end p) (rpd_prod_end p') ∧
  coalesced (λ v, ∃ fr, from_files sc fr ∧ fr_number_of_files fr = v)
            (rpd_number_of_files p) (rpd_number_of_files p') ∧
  coalesced (λ v, ∃ fr, from_files sc fr ∧ fr_total_size_bytes fr = v)
            (rpd_total_size_bytes p) (rpd_total_size_bytes p').

(** The [RunProductionData] table after writes: every old row is still
    there, in place, coalesced; new rows follow. *)
Definition rpd_extends (sc : scope) (c c' : Store) : Prop :=
  ∃ updated extra,
    rows (RunProductionData c') = updated ++ extra ∧
    Forall2 (rpd_coalesced sc) (rows (RunProductionData c)) updated.

Definition runtable_scope (data : runtable_data) : scope :=
  {| owner e := e = rt_experiment_id data;
     from_runtable rd := rd ∈ rt_data_production data;
     from_files fr := False |}.

Definition file_manager_scope (data : file_manager_data) : scope :=
  {| owner e := e = fm_experiment_id data;
     from_runtable rd := False;
     from_files fr := fr ∈ fm_file_manager_records data |}.

(** No column of the row has gone back to null. *)
Definition never_nulled (p p' : RunProductionDataRow) : Prop :=
  (is_Some (rpd_n_events p) → is_Some (rpd_n_events p')) ∧
  (is_Some (rpd_n_damaged p) → is_Some (rpd_n_damaged p')) ∧
  (is_Some (rpd_n_dropped p) → is_Some (rpd_n_dropped p')) ∧
  (is_Some (rpd_prod_start p) → is_Some (rpd_prod_start p')) ∧
  (is_Some (rpd_prod_end p) → is_Some (rpd_prod_end p')) ∧
  (is_Some (rpd_number_of_files p) → is_Some (rpd_number_of_files p')) ∧
  (is_Some (rpd_total_size_bytes p) → is_Some (rpd_total_size_bytes p')).

(** The two partial writes of the example, for run [n]. *)
Definition events_only (n : Z) : run_data :=
  {| rd_run_number := Some n;
     rd_n_events := Some 100; rd_n_damaged := None; rd_n_dropped := None;
     rd_start_time := None; rd_end_time := None;
     rd_prod_start := None; rd_prod_end := None |}.

Definition damaged_only (n : Z) : run_data :=
  {| rd_run_number := Some n;
     rd_n_events := None; rd_n_damaged := Some 5; rd_n_dropped := None;
     rd_start_time := None; rd_end_time := None;
     rd_prod_start := None; rd_prod_end := None |}.

(** [Experiment] has a row for [e]. *)
Definition has_experiment (c : Store) (e : string) : Prop :=
  ∃ x, x ∈ Experiment c ∧ exp_experiment_id x = e.

(** Run ownership: every [Run] row refers to an existing [Experiment]. *)
Definition run_owned (c : Store) : Prop :=
  ∀ r, r ∈ rows (Run c) → has_experiment c (run_experiment_id r).

(** A composite record carries the info facet of every experiment it may
    create runs for. *)
Definition anchored (data : composite) : Prop :=
  ∀ e, run_owner data e →
       ∃ info, c_info data = Some info ∧ exp_experiment_id info = e.

Definition anchored_call (m : method_call) : Prop :=
  match m with
  | Call_insert_experiment_batch data => anchored data
  | _ => True
  end.

(** A record with a run table and no info, as a fetch worker builds it when
    the info endpoint yields nothing. *)
Definition runs_without_info : composite :=
  {| c_experiment_id := Some "xpp123";
     c_error := None;
     c_info := None;
     c_logbook := [];
     c_runtable :=
       Some {| rt_experiment_id := "xpp123";
               rt_data_production := [events_only 7];
               rt_detectors := [] |};
     c_file_manager := None;
     c_questionnaire := None;
     c_workflow := None |}.

(** The statements that touch neither [Run] nor [Experiment]. *)
Definition dependents_statement (st : statement) : Prop :=
  match st with
  | DELETE_RunDetector _ | DELETE_RunProductionData _ | DELETE_Logbook _
  | DELETE_Questionnaire _ | DELETE_Workflow _ => True
  | _ => False
  end.

(** Descriptions are numbered below [next_fd], and a lock is held by an
    open description of its own file. *)
Definition os_wf (w : Locking.os) : Prop :=
  (∀ fd path, Locking.open_files w !! fd = Some path →
              (fd < Locking.next_fd w)%nat) ∧
  (∀ path fd, Locking.flocks w !! path = Some fd →
              Locking.open_files w !! fd = Some path).

(** The system after a first process has taken the lock on [lock_path]. *)
Definition held_by_another (lock_path : string) : Locking.os :=
  (Locking.acquire_lock_enter lock_path false Locking.initial_os).1.

(** The six endpoints in the order [fetch_and_queue] calls them. *)
Definition endpoints : list Cli.endpoint :=
  [Cli.Info; Cli.Logbook; Cli.Runtable; Cli.FileManager; Cli.Questionnaire;
   Cli.Workflow].

Definition raised {A} (result : outcome A) : option exn :=
  match result with
  | Return _ => None
  | Raise e => Some e
  end.

(** What the call to endpoint [ep] for [exp_id] raises, if it does. *)
Definition raises (api : Cli.Fetchers) (exp_id : string) (ep : Cli.endpoint)
  : option exn :=
  match ep with
  | Cli.Info => raised (Cli.fetch_experiment_info api exp_id)
  | Cli.Logbook => raised (Cli.fetch_logbook api exp_id)
  | Cli.Runtable => raised (Cli.fetch_runtable api exp_id)
  | Cli.FileManager => raised (Cli.fetch_file_manager api exp_id)
  | Cli.Questionnaire => raised (Cli.fetch_questionnaire api exp_id)
  | Cli.Workflow => raised (Cli.fetch_workflow api exp_id)
  end.

(** The endpoints of [eps] up to and including the first that raises. *)
Fixpoint upto_first_raise (api : Cli.Fetchers) (exp_id : string)
    (eps : list Cli.endpoint) : list Cli.endpoint :=
  match eps with
  | [] => []
  | ep :: eps =>
      ep :: match raises api exp_id ep with
            | Some _ => []
            | None => upto_first_raise api exp_id eps
            end
  end.

(** The exception of the first endpoint, in call order, that raises. *)
Definition first_raise (api : Cli.Fetchers) (exp_id : string) : option exn :=
  head (omap (raises api exp_id) endpoints).

(** The calls one experiment accounts for. *)
Definition calls_for (api : Cli.Fetchers) (exp_id : string)
  : list (Cli.endpoint * string) :=
  map (λ ep, (ep, exp_id)) (upto_first_raise api exp_id endpoints).

(** An upstream that denies access to the experiment-info endpoint and has
    nothing to report on the others: [client.get] answers HTTP 403 with
    [AuthenticationError], which [fetch_experiment_info] does not catch. *)
Definition info_unavailable : Cli.Fetchers :=
  {| Cli.fetch_experiment_info :=
       λ exp_id,
         Raise (Exn AuthenticationError
                    ("Access denied to /ws-kerb/lgbk/lgbk/" +:+ exp_id
                     +:+ "/ws/info. You may not have permission."));
     Cli.fetch_logbook := λ _, Return [];
     Cli.fetch_runtable := λ _, Return None;
     Cli.fetch_file_manager := λ _, Return None;
     Cli.fetch_questionnaire := λ _, Return None;
     Cli.fetch_workflow := λ _, Return None |}.

(** Two workers at a time. *)
Definition two_workers : Cli.Config :=
  {| Cli.hours_lookback := "168";
     Cli.parallel_jobs := 2;
     Cli.queue_size := 100;
     Cli.batch_commit_size := 50 |}.

(** The variables of [writer_thread] when its [try] statement is entered. *)
Definition writer_started (file : Store) : Cli.writer :=
  {| Cli.db := enable_wal_mode (__init__ file);
     Cli.batch_count := 0;
     Cli.success_count := 0;
     Cli.failed_experiments := [];
     Cli.clock := 0 |}.

(** What the connection does in [close], in order. *)
Definition finalize_sequence : list conn_event :=
  [EvPragma "wal_checkpoint(TRUNCATE)"; EvPragma "journal_mode=DELETE";
   EvClose].

(** A queue item without the key [experiment_id]. *)
Definition nameless_item : composite :=
  {| c_experiment_id := None;
     c_error := None;
     c_info := None;
     c_logbook := [];
     c_runtable := None;
     c_file_manager := None;
     c_questionnaire := None;
     c_workflow := None |}.

(** [ceil(n / b)] for [b >= 1]. *)
Definition ceil_div (n b : Z) : Z := (n + b - 1) / b.

(** The commits the writer's connection has issued so far. *)
Definition committed (w : Cli.writer) : Z := Z.of_nat (commits (conn (Cli.db w))).

(** The items of the queue, up to where the loop stops, that the writer
    tries to write: those with an experiment ID and no error. *)
Fixpoint write_attempts (queue : list (option composite)) : nat :=
  match queue with
  | [] => 0
  | None :: _ => 0
  | Some data :: rest =>
      match c_experiment_id data with
      | None => 0
      | Some _ =>
          match c_error data with
          | Some _ => write_attempts rest
          | None => S (write_attempts rest)
          end
      end
  end.

(** The commits issued by the body of the writer's [try]: the drain loop
    and the commit on its exit. *)
Definition drain_commits (now : nat → string) (config : Cli.Config)
    (incremental : bool) (file : Store) (queue : list (option composite))
  : Z :=
  committed (Cli.writer_try now config incremental (writer_started file)
               queue).1
  - committed (writer_started file).

(** A composite record whose six facets are empty. *)
Definition bare_record (exp_id : string) : composite :=
  {| c_experiment_id := Some exp_id;
     c_error := None;
     c_info := None;
     c_logbook := [];
     c_runtable := None;
     c_file_manager := None;
     c_questionnaire := None;
     c_workflow := None |}.

Definition batches_of (b : Z) : Cli.Config :=
  {| Cli.hours_lookback := "168";
     Cli.parallel_jobs := 1;
     Cli.queue_size := 100;
     Cli.batch_commit_size := b |}.

(** Two experiments with nothing to report, then the sentinel. *)
Definition two_records : list (option composite) :=
  [Some (bare_record "xpp100"); Some (bare_record "xpp200"); None].

(** Whether the text contains an underscore. *)
Fixpoint has_underscore (s : string) : bool :=
  match s with
  | EmptyString => false
  | String c s' => Ascii.eqb c "_" || has_underscore s'
  end.

(** *** Re-ingestion of an experiment *)

(** [run_rel c e n i]: the [Run] row with id [i] is run [n] of experiment
    [e]; [det_rel c name j]: the [Detector] row with id [j] is [name]. *)
Definition run_rel (c : Store) (e : string) (n : Z) (i : nat) : Prop :=
  ∃ r, r ∈ rows (Run c) ∧ run_run_id r = i ∧ run_experiment_id r = e
       ∧ run_run_number r = n.

Definition det_rel (c : Store) (name : string) (j : nat) : Prop :=
  ∃ d, d ∈ rows (Detector c) ∧ det_detector_id d = j
       ∧ det_detector_name d = name.

(** What [AUTOINCREMENT], the lookups before every insertion and the
    [UNIQUE] constraints give in a store file written by [Database]: row
    ids are distinct and not above the table's sequence, detector names
    are distinct, and the run ids that production data and detector
    statuses refer to are not above the sequence of [Run]. *)
Record store_wf (c : Store) : Prop := {
  wf_run_ids : NoDup (map run_run_id (rows (Run c)));
  wf_run_seq : ∀ r, r ∈ rows (Run c) → (run_run_id r ≤ seq (Run c))%nat;
  wf_rpd_seq :
    ∀ p, p ∈ rows (RunProductionData c) → (rpd_run_id p ≤ seq (Run c))%nat;
  wf_rdet_seq :
    ∀ x, x ∈ rows (RunDetector c) → (rdet_run_id x ≤ seq (Run c))%nat;
  wf_det_ids : NoDup (map det_detector_id (rows (Detector c)));
  wf_det_seq :
    ∀ d, d ∈ rows (Detector c) → (det_detector_id d ≤ seq (Detector c))%nat;
  wf_det_names : NoDup (map det_detector_name (rows (Detector c)))
}.

(** The caches of a [Database] object only hold what the tables hold. *)
Record cache_wf (self : Database) : Prop := {
  wf_run_cache :
    ∀ e n i, _run_id_cache self !! cache_key e n = Some i →
             run_rel (conn self) e n i;
  wf_det_cache :
    ∀ name j, _detector_cache self !! name = Some j →
              det_rel (conn self) name j
}.

(** A composite record as the fetch workers build it for experiment [X]:
    every facet carries [X], and every workflow has a name. *)
Record consistent (X : string) (r : composite) : Prop := {
  cons_id : c_experiment_id r = Some X;
  cons_error : c_error r = None;
  cons_info : ∀ info, c_info r = Some info → exp_experiment_id info = X;
  cons_logbook :
    Forall (λ entry, LogbookApi.experiment_id entry = X) (c_logbook r);
  cons_runtable : ∀ rt, c_runtable r = Some rt → rt_experiment_id rt = X;
  cons_file_manager :
    ∀ fm, c_file_manager r = Some fm → fm_experiment_id fm = X;
  cons_questionnaire :
    ∀ q, c_questionnaire r = Some q → qn_experiment_id q = X;
  cons_workflow :
    ∀ wd, c_workflow r = Some wd →
          wd_experiment_id wd = X
          ∧ Forall (λ w, is_Some (w_name w)) (wd_workflows wd)
}.

(** The number of distinct elements of a list. *)
Definition distinct {A} `{Countable A} (l : list A) : nat :=
  size (list_to_set (C := gset A) l).

(** The key of an item of a detector dictionary that is passed over. *)
Definition skipped (key : string) : bool :=
  String.eqb key "run_number" || strip_is_empty key.

(** What has been written for an experiment so far: the number of rows, or
    the keys the rows were written under. *)
Record seen := {
  s_exp : nat;
  s_log : nat;
  s_fields : list string;
  s_workflows : nat;
  s_runs : list Z;
  s_rpd : list Z;
  s_rdet : list (Z * string)
}.

Definition nothing_seen : seen :=
  {| s_exp := 0; s_log := 0; s_fields := []; s_workflows := 0;
     s_runs := []; s_rpd := []; s_rdet := [] |}.

Definition production_numbers (r : composite) : list Z :=
  match c_runtable r with
  | Some rt => omap rd_run_number (rt_data_production rt)
  | None => []
  end.

Definition detector_numbers (r : composite) : list Z :=
  match c_runtable r with
  | Some rt => omap dd_run_number (rt_detectors rt)
  | None => []
  end.

Definition file_numbers (r : composite) : list Z :=
  match c_file_manager r with
  | Some fm => omap fr_run_number (fm_file_manager_records fm)
  | None => []
  end.

Definition detector_pairs_of (dd : detector_data) : list (Z * string) :=
  match dd_run_number dd with
  | Some n =>
      map (λ item : string * string, (n, item.1))
          (filter (λ item : string * string, skipped item.1 = false)
                  (dd_items dd))
  | None => []
  end.

Definition detector_pairs (r : composite) : list (Z * string) :=
  match c_runtable r with
  | Some rt => flat_map detector_pairs_of (rt_detectors rt)
  | None => []
  end.

(** What writing the record [r] writes. *)
Definition seen_of (r : composite) : seen :=
  {| s_exp := match c_info r with Some _ => 1 | None => 0 end;
     s_log := length (c_logbook r);
     s_fields :=
       match c_questionnaire r with
       | Some q => map f_field_id (qn_fields q)
       | None => []
       end;
     s_workflows :=
       match c_workflow r with
       | Some wd => length (wd_workflows wd)
       | None => 0
       end;
     s_runs :=
       omap LogbookApi.run_number (c_logbook r) ++ production_numbers r
       ++ detector_numbers r ++ file_numbers r;
     s_rpd := production_numbers r ++ file_numbers r;
     s_rdet := detector_pairs r |}.

(** The rows a [seen] stands for, per table; detectors are shared between
    experiments and not counted here. *)
Definition tally (σ : seen) : counts :=
  {| n_Experiment := s_exp σ;
     n_Run := distinct (s_runs σ);
     n_RunProductionData := distinct (s_rpd σ);
     n_Detector := 0;
     n_RunDetector := distinct (s_rdet σ);
     n_Logbook := s_log σ;
     n_Questionnaire := distinct (s_fields σ);
     n_Workflow := s_workflows σ |}.

(** The rows of experiment [e] in the store, per table: production data
    and detector statuses belong to the experiment of their run. *)
Definition run_ids_of (c : Store) (e : string) : list nat :=
  map run_run_id (filter (λ r, run_experiment_id r = e) (rows (Run c))).

Definition owned (c : Store) (e : string) : counts :=
  {| n_Experiment :=
       length (filter (λ x, exp_experiment_id x = e) (Experiment c));
     n_Run := length (filter (λ r, run_experiment_id r = e) (rows (Run c)));
     n_RunProductionData :=
       length (filter (λ p, rpd_run_id p ∈ run_ids_of c e)
                      (rows (RunProductionData c)));
     n_Detector := 0;
     n_RunDetector :=
       length (filter (λ x, rdet_run_id x ∈ run_ids_of c e)
                      (rows (RunDetector c)));
     n_Logbook :=
       length (filter (λ l, log_experiment_id l = e) (rows (Logbook c)));
     n_Questionnaire :=
       length (filter (λ q, q_experiment_id q = e) (rows (Questionnaire c)));
     n_Workflow :=
       length (filter (λ w, wf_experiment_id w = e) (rows (Workflow c))) |}.

(** The row counts without the detectors. *)
Definition ledger (c : Store) : counts :=
  {| n_Experiment := length (Experiment c);
     n_Run := length (rows (Run c));
     n_RunProductionData := length (rows (RunProductionData c));
     n_Detector := 0;
     n_RunDetector := length (rows (RunDetector c));
     n_Logbook := length (rows (Logbook c));
     n_Questionnaire := length (rows (Questionnaire c));
     n_Workflow := length (rows (Workflow c)) |}.

Definition counts_plus (a b : counts) : counts :=
  {| n_Experiment := (n_Experiment a + n_Experiment b)%nat;
     n_Run := (n_Run a + n_Run b)%nat;
     n_RunProductionData :=
       (n_RunProductionData a + n_RunProductionData b)%nat;
     n_Detector := (n_Detector a + n_Detector b)%nat;
     n_RunDetector := (n_RunDetector a + n_RunDetector b)%nat;
     n_Logbook := (n_Logbook a + n_Logbook b)%nat;
     n_Questionnaire := (n_Questionnaire a + n_Questionnaire b)%nat;
     n_Workflow := (n_Workflow a + n_Workflow b)%nat |}.

(** *** While a record is written

    The invariants of [insert_experiment_batch] for experiment [X], started
    on the store [c1] that [delete_experiment] left: [c1] holds nothing of
    [X], so the rows of [X] are those written since, and the run ids of [X]
    are those above the sequence of [Run] in [c1]. *)

(** [Experiment], [Logbook], [Questionnaire] and [Workflow]. *)
Record flat_inv (X : string) (c1 : Store) (σ : seen) (c : Store) : Prop := {
  fi_exp_old :
    filter (λ x, exp_experiment_id x ≠ X) (Experiment c) = Experiment c1;
  fi_exp_new :
    length (filter (λ x, exp_experiment_id x = X) (Experiment c)) = s_exp σ;
  fi_log_old :
    filter (λ l, log_experiment_id l ≠ X) (rows (Logbook c))
    = rows (Logbook c1);
  fi_log_new :
    length (filter (λ l, log_experiment_id l = X) (rows (Logbook c)))
    = s_log σ;
  fi_q_old :
    filter (λ q, q_experiment_id q ≠ X) (rows (Questionnaire c))
    = rows (Questionnaire c1);
  fi_q_nodup :
    NoDup (map q_field_id
             (filter (λ q, q_experiment_id q = X) (rows (Questionnaire c))));
  fi_q_seen :
    ∀ f, f ∈ map q_field_id
               (filter (λ q, q_experiment_id q = X) (rows (Questionnaire c)))
         ↔ f ∈ s_fields σ;
  fi_w_old :
    filter (λ w, wf_experiment_id w ≠ X) (rows (Workflow c))
    = rows (Workflow c1);
  fi_w_new :
    length (filter (λ w, wf_experiment_id w = X) (rows (Workflow c)))
    = s_workflows σ
}.

(** [Run] and the run cache. *)
Record runs_inv (X : string) (c1 : Store) (lr : list Z) (self : Database)
  : Prop := {
  ri_seq : (seq (Run c1) ≤ seq (Run (conn self)))%nat;
  ri_ids : NoDup (map run_run_id (rows (Run (conn self))));
  ri_bound :
    ∀ r, r ∈ rows (Run (conn self)) →
         (run_run_id r ≤ seq (Run (conn self)))%nat;
  ri_old :
    filter (λ r, (run_run_id r ≤ seq (Run c1))%nat) (rows (Run (conn self)))
    = rows (Run c1);
  ri_new :
    ∀ r, r ∈ rows (Run (conn self)) →
         (seq (Run c1) < run_run_id r)%nat ↔ run_experiment_id r = X;
  ri_seen : ∀ n, n ∈ lr ↔ ∃ i, run_rel (conn self) X n i;
  ri_fun :
    ∀ n i i', run_rel (conn self) X n i → run_rel (conn self) X n i' → i = i';
  ri_cache :
    ∀ e n i, _run_id_cache self !! cache_key e n = Some i →
             run_rel (conn self) e n i
}.

(** [RunProductionData]. *)
Record rpd_inv (X : string) (c1 : Store) (lr lp : list Z) (c : Store)
  : Prop := {
  pi_old :
    filter (λ p, (rpd_run_id p ≤ seq (Run c1))%nat)
           (rows (RunProductionData c))
    = rows (RunProductionData c1);
  pi_bound :
    ∀ p, p ∈ rows (RunProductionData c) → (rpd_run_id p ≤ seq (Run c))%nat;
  pi_nodup :
    NoDup (map rpd_run_id
             (filter (λ p, (seq (Run c1) < rpd_run_id p)%nat)
                     (rows (RunProductionData c))));
  pi_seen :
    ∀ i, (seq (Run c1) < i)%nat →
         i ∈ map rpd_run_id (rows (RunProductionData c))
         ↔ ∃ n, n ∈ lp ∧ run_rel c X n i;
  pi_sub : ∀ n, n ∈ lp → n ∈ lr
}.

(** [Detector] and the detector cache. *)
Record det_inv (c1 : Store) (ld : list (Z * string)) (self : Database)
  : Prop := {
  di_ids : NoDup (map det_detector_id (rows (Detector (conn self))));
  di_bound :
    ∀ d, d ∈ rows (Detector (conn self)) →
         (det_detector_id d ≤ seq (Detector (conn self)))%nat;
  di_names : NoDup (map det_detector_name (rows (Detector (conn self))));
  di_seen :
    ∀ name, name ∈ map det_detector_name (rows (Detector (conn self)))
            ↔ name ∈ map det_detector_name (rows (Detector c1))
              ∨ name ∈ map snd ld;
  di_cache :
    ∀ name j, _detector_cache self !! name = Some j →
              det_rel (conn self) name j
}.

(** [RunDetector]. *)
Definition rdet_key (x : RunDetectorRow) : nat * nat :=
  (rdet_run_id x, rdet_detector_id x).

Record rdet_inv (X : string) (c1 : Store) (lr : list Z)
    (ld : list (Z * string)) (c : Store) : Prop := {
  xi_old :
    filter (λ x, (rdet_run_id x ≤ seq (Run c1))%nat) (rows (RunDetector c))
    = rows (RunDetector c1);
  xi_bound :
    ∀ x, x ∈ rows (RunDetector c) → (rdet_run_id x ≤ seq (Run c))%nat;
  xi_nodup :
    NoDup (map rdet_key
             (filter (λ x, (seq (Run c1) < rdet_run_id x)%nat)
                     (rows (RunDetector c))));
  xi_seen :
    ∀ i j, (seq (Run c1) < i)%nat →
           (i, j) ∈ map rdet_key (rows (RunDetector c))
           ↔ ∃ n name, (n, name) ∈ ld ∧ run_rel c X n i ∧ det_rel c name j;
  xi_sub :
    ∀ n name, (n, name) ∈ ld → n ∈ lr ∧ ∃ j, det_rel c name j
}.

Record writing (X : string) (c1 : Store) (σ : seen) (self : Database)
  : Prop := {
  w_flat : flat_inv X c1 σ (conn self);
  w_runs : runs_inv X c1 (s_runs σ) self;
  w_rpd : rpd_inv X c1 (s_runs σ) (s_rpd σ) (conn self);
  w_det : det_inv c1 (s_rdet σ) self;
  w_rdet : rdet_inv X c1 (s_runs σ) (s_rdet σ) (conn self)
}.

(** What one more write adds to a [seen]. *)
Definition see_exp (σ : seen) : seen :=
  {| s_exp := 1; s_log := s_log σ; s_fields := s_fields σ;
     s_workflows := s_workflows σ; s_runs := s_runs σ; s_rpd := s_rpd σ;
     s_rdet := s_rdet σ |}.

Definition see_log (σ : seen) : seen :=
  {| s_exp := s_exp σ; s_log := S (s_log σ); s_fields := s_fields σ;
     s_workflows := s_workflows σ; s_runs := s_runs σ; s_rpd := s_rpd σ;
     s_rdet := s_rdet σ |}.

Definition see_field (f : string) (σ : seen) : seen :=
  {| s_exp := s_exp σ; s_log := s_log σ; s_fields := s_fields σ ++ [f];
     s_workflows := s_workflows σ; s_runs := s_runs σ; s_rpd := s_rpd σ;
     s_rdet := s_rdet σ |}.

Definition see_workflow (σ : seen) : seen :=
  {| s_exp := s_exp σ; s_log := s_log σ; s_fields := s_fields σ;
     s_workflows := S (s_workflows σ); s_runs := s_runs σ; s_rpd := s_rpd σ;
     s_rdet := s_rdet σ |}.

Definition see_run (n : Z) (σ : seen) : seen :=
  {| s_exp := s_exp σ; s_log := s_log σ; s_fields := s_fields σ;
     s_workflows := s_workflows σ; s_runs := s_runs σ ++ [n];
     s_rpd := s_rpd σ; s_rdet := s_rdet σ |}.

Definition see_rpd (n : Z) (σ : seen) : seen :=
  {| s_exp := s_exp σ; s_log := s_log σ; s_fields := s_fields σ;
     s_workflows := s_workflows σ; s_runs := s_runs σ;
     s_rpd := s_rpd σ ++ [n]; s_rdet := s_rdet σ |}.

Definition see_rdet (n : Z) (name : string) (σ : seen) : seen :=
  {| s_exp := s_exp σ; s_log := s_log σ; s_fields := s_fields σ;
     s_workflows := s_workflows σ; s_runs := s_runs σ; s_rpd := s_rpd σ;
     s_rdet := s_rdet σ ++ [(n, name)] |}.

(** The scope that allows everything. *)
Definition any_scope : scope :=
  {| owner := λ _, True; from_runtable := λ _, True; from_files := λ _, True |}.

(** The workflows up to the first one without a name, with their names. *)
Fixpoint named_prefix (ws : list workflow) : list (string * workflow) :=
  match ws with
  | [] => []
  | w :: rest =>
      match w_name w with
      | Some name => (name, w) :: named_prefix rest
      | None => []
      end
  end.

(** The experiment and the name of a [Workflow] row. *)
Definition workflow_key (w : WorkflowRow) : string * string :=
  (wf_experiment_id w, wf_name w).

(** *** What a run of the pipeline accounts for *)

(** The item a fetch worker puts on the channel for an experiment. *)
Definition fetched (api : Cli.Fetchers) (exp_id : string) : composite :=
  match (Cli.fetch_data api exp_id []).2 with
  | Return data => data
  | Raise e => Cli.error_result exp_id (exn_str e)
  end.

(** Whether every workflow of the facet has a name. *)
Definition all_named (facet : option workflow_data) : bool :=
  match facet with
  | Some wd =>
      bool_decide (length (named_prefix (wd_workflows wd))
                   = length (wd_workflows wd))
  | None => true
  end.

(** Whether the writer writes the item: it carries no error and its
    workflows have names. *)
Definition writes (r : composite) : bool :=
  match c_error r with
  | Some _ => false
  | None => all_named (c_workflow r)
  end.

(** The error text recorded for an item that is not written. *)
Definition error_text (r : composite) : string :=
  match c_error r with
  | Some error => error
  | None => "NOT NULL constraint failed: Workflow.name"
  end.

(** *** File aggregation *)

(** The files of run [n], and the sum of their sizes, a missing size
    counting as 0. *)
Definition files_of (n : Z) (files : list FetchApi.file_info)
  : list FetchApi.file_info :=
  filter (λ f, FetchApi.fi_run_num f = Some n) files.

Definition total_size (files : list FetchApi.file_info) : Z :=
  foldr (λ f acc, default 0 (FetchApi.fi_size f) + acc) 0 files.

(** The record [_aggregate_by_run] is to produce for run [n]. *)
Definition aggregate_of (files : list FetchApi.file_info) (n : Z)
  : file_record :=
  {| fr_run_number := Some n;
     fr_number_of_files := Some (Z.of_nat (length (files_of n files)));
     fr_total_size_bytes := Some (total_size (files_of n files)) |}.

(** *** The constraints of the schema *)

(** A table with an [AUTOINCREMENT] primary key [id]: the keys are distinct
    and none is above the table's sequence. *)
Definition keyed {A} (id : A → nat) (t : table A) : Prop :=
  NoDup (map id (rows t)) ∧ ∀ x, x ∈ rows t → (id x ≤ seq t)%nat.

(** The keys of [_create_tables] on a store: primary keys, the [UNIQUE]
    constraints, and the references to [Run] and [Detector], which SQLite
    does not enforce by itself. [RunProductionData] has at most one row per
    run, and the run of a log entry is a run of the entry's experiment. *)
Record schema_ok (c : Store) : Prop := {
  ok_Experiment : NoDup (map exp_experiment_id (Experiment c));
  ok_Questionnaire : keyed q_questionnaire_id (Questionnaire c);
  ok_Questionnaire_unique :
    NoDup (map (λ q, (q_experiment_id q, q_field_id q))
               (rows (Questionnaire c)));
  ok_Workflow : keyed wf_workflow_id (Workflow c);
  ok_Run : keyed run_run_id (Run c);
  ok_Run_unique :
    NoDup (map (λ r, (run_run_number r, run_experiment_id r))
               (rows (Run c)));
  ok_RunProductionData : keyed rpd_run_data_id (RunProductionData c);
  ok_RunProductionData_run :
    ∀ p, p ∈ rows (RunProductionData c) →
         ∃ e n, run_rel c e n (rpd_run_id p);
  ok_RunProductionData_one :
    NoDup (map rpd_run_id (rows (RunProductionData c)));
  ok_Detector : keyed det_detector_id (Detector c);
  ok_Detector_unique : NoDup (map det_detector_name (rows (Detector c)));
  ok_RunDetector : keyed rdet_run_detector_id (RunDetector c);
  ok_RunDetector_unique :
    NoDup (map (λ x, (rdet_run_id x, rdet_detector_id x))
               (rows (RunDetector c)));
  ok_RunDetector_run :
    ∀ x, x ∈ rows (RunDetector c) → ∃ e n, run_rel c e n (rdet_run_id x);
  ok_RunDetector_detector :
    ∀ x, x ∈ rows (RunDetector c) →
         ∃ name, det_rel c name (rdet_detector_id x);
  ok_Logbook : keyed log_log_id (Logbook c);
  ok_Logbook_run :
    ∀ l i, l ∈ rows (Logbook c) → log_run_id l = Some i →
           ∃ n, run_rel c (log_experiment_id l) n i
}.

(** When a statement can be executed on [c] without breaking a key: an
    [INSERT] meets no row with its unique key and refers to rows that
    exist. [DELETE FROM Run] is only safe together with the other
    statements of [delete_experiment]. *)
Definition respects (c : Store) (st : statement) : Prop :=
  match st with
  | INSERT_Run experiment_id run_number =>
      ∀ r, r ∈ rows (Run c) →
           ¬ (run_experiment_id r = experiment_id
              ∧ run_run_number r = run_number)
  | DELETE_Run _ => False
  | INSERT_RunProductionData_run run_id _
  | INSERT_RunProductionData_files run_id _ =>
      (∃ e n, run_rel c e n run_id)
      ∧ ∀ p, p ∈ rows (RunProductionData c) → rpd_run_id p ≠ run_id
  | INSERT_Detector detector_name =>
      ∀ d, d ∈ rows (Detector c) → det_detector_name d ≠ detector_name
  | INSERT_OR_REPLACE_RunDetector run_id detector_id _ =>
      (∃ e n, run_rel c e n run_id) ∧ (∃ name, det_rel c name detector_id)
  | INSERT_Logbook experiment_id (Some run_id) _ =>
      ∃ n, run_rel c experiment_id n run_id
  | _ => True
  end.

(** A [Database] object opened on [file], after any number of calls of its
    methods (before [close]). *)
Inductive in_use (file : Store) : Database → Prop :=
| use_init : in_use file (__init__ file)
| use_enable_wal_mode self :
    in_use file self → in_use file (enable_wal_mode self)
| use_commit self : in_use file self → in_use file (commit self)
| use_insert_experiment self data :
    in_use file self → in_use file (insert_experiment self data)
| use_insert_questionnaire self data :
    in_use file self → in_use file (insert_questionnaire self data)
| use_insert_workflow self data :
    in_use file self → in_use file (insert_workflow self data).1
| use_insert_logbook self entries :
    in_use file self → in_use file (insert_logbook self entries)
| use_insert_runtable self data :
    in_use file self → in_use file (insert_runtable self data)
| use_insert_file_manager self data :
    in_use file self → in_use file (insert_file_manager self data)
| use_insert_experiment_batch self data :
    in_use file self → in_use file (insert_experiment_batch self data).1
| use_set_metadata self key value :
    in_use file self → in_use file (set_metadata self key value)
| use_delete_experiment self experiment_id :
    in_use file self → in_use file (delete_experiment self experiment_id)
| use_checkpoint self : in_use file self → in_use file (checkpoint self).

(** A [Database] object on a store that keeps its keys, with caches that
    only hold what the tables hold. *)
Definition sound (self : Database) : Prop :=
  schema_ok (conn self) ∧ cache_wf self.

(** *** Log entries in the store *)

(** [row] is the [Logbook] row of [entry] for experiment [X] in the store
    [c]: the columns are the entry's, and the row is linked to the [Run]
    row of the entry's run number, or to none if the entry has none. *)
Definition logged (c : Store) (X : string) (entry : LogbookApi.db_entry)
    (row : LogbookRow) : Prop :=
  log_experiment_id row = X
  ∧ log_timestamp row = LogbookApi.timestamp entry
  ∧ log_content row = LogbookApi.db_content entry
  ∧ log_tags row = LogbookApi.db_tags entry
  ∧ log_author row = LogbookApi.db_author entry
  ∧ match LogbookApi.run_number entry with
    | Some n => ∃ i, log_run_id row = Some i ∧ run_rel c X n i
    | None => log_run_id row = None
    end.

(** *** Questionnaire fields in the store *)

(** [row] is the [Questionnaire] row of the field [f] of experiment [X]. *)
Definition answers (X : string) (proposal : option string) (f : field)
    (row : QuestionnaireRow) : Prop :=
  q_experiment_id row = X
  ∧ q_proposal row = proposal
  ∧ q_category row = f_category f
  ∧ q_field_id row = f_field_id f
  ∧ q_field_name row = f_field_name f
  ∧ q_field_value row = f_field_value f
  ∧ q_modified_time row = f_modified_time f
  ∧ q_modified_uid row = f_modified_uid f.

(** The last field of the list with the id [field_id]. *)
Definition last_with (field_id : string) (fields : list field)
  : option field :=
  List.find (λ f, bool_decide (f_field_id f = field_id)) (rev fields).

(** *** What the loops of [insert_experiment_batch] write *)

Definition seen_plus (σ Δ : seen) : seen :=
  {| s_exp := (s_exp σ + s_exp Δ)%nat;
     s_log := (s_log σ + s_log Δ)%nat;
     s_fields := s_fields σ ++ s_fields Δ;
     s_workflows := (s_workflows σ + s_workflows Δ)%nat;
     s_runs := s_runs σ ++ s_runs Δ;
     s_rpd := s_rpd σ ++ s_rpd Δ;
     s_rdet := s_rdet σ ++ s_rdet Δ |}.

Definition seen_logbook (entries : list LogbookApi.db_entry) : seen :=
  {| s_exp := 0; s_log := length entries; s_fields := []; s_workflows := 0;
     s_runs := omap LogbookApi.run_number entries; s_rpd := [];
     s_rdet := [] |}.

Definition seen_production (l : list run_data) : seen :=
  {| s_exp := 0; s_log := 0; s_fields := []; s_workflows := 0;
     s_runs := omap rd_run_number l; s_rpd := omap rd_run_number l;
     s_rdet := [] |}.

Definition seen_detectors (l : list detector_data) : seen :=
  {| s_exp := 0; s_log := 0; s_fields := []; s_workflows := 0;
     s_runs := omap dd_run_number l; s_rpd := [];
     s_rdet := flat_map detector_pairs_of l |}.

Definition seen_files (l : list file_record) : seen :=
  {| s_exp := 0; s_log := 0; s_fields := []; s_workflows := 0;
     s_runs := omap fr_run_number l; s_rpd := omap fr_run_number l;
     s_rdet := [] |}.

Definition seen_fields (l : list field) : seen :=
  {| s_exp := 0; s_log := 0; s_fields := map f_field_id l; s_workflows := 0;
     s_runs := []; s_rpd := []; s_rdet := [] |}.

Definition seen_workflows (l : list workflow) : seen :=
  {| s_exp := 0; s_log := 0; s_fields := []; s_workflows := length l;
     s_runs := []; s_rpd := []; s_rdet := [] |}.

(** *** The pool of fetch workers *)

(** What holds of the pool while it runs: [done] are the experiments whose
    item has been put, in that order, and [cs] the calls made so far. *)
Record pool_inv (api : Cli.Fetchers) (experiments : list string)
    (p : Cli.producer) (σ : Cli.pool) (done : list string)
    (cs : list (Cli.endpoint * string)) : Prop := {
  pool_calls : Cli.calls (Cli.produced σ) = Cli.calls p ++ cs;
  pool_queue :
    Cli.data_queue (Cli.produced σ)
    = Cli.data_queue p ++ map (λ e, Some (Cli.worker_item api e)) done;
  pool_jobs :
    done ++ map Cli.job (Cli.running σ) ++ Cli.pending σ ≡ₚ experiments;
  pool_split :
    Forall (λ w, Cli.made w ++ Cli.todo w = calls_for api (Cli.job w))
           (Cli.running σ);
  pool_all :
    cs ≡ₚ flat_map (calls_for api) done
          ++ flat_map Cli.made (Cli.running σ);
  pool_done :
    NoDup experiments →
    ∀ e, e ∈ done → filter (λ c, c.2 = e) cs = calls_for api e;
  pool_running :
    NoDup experiments →
    ∀ w, w ∈ Cli.running σ →
         filter (λ c, c.2 = Cli.job w) cs = Cli.made w;
  pool_pending :
    NoDup experiments →
    ∀ e, e ∈ Cli.pending σ → filter (λ c, c.2 = e) cs = []
}.

(** *** Integers a statement can bind *)

(** SQLite stores an integer in 64 bits, and [conn.execute] raises
    [OverflowError] for a bound integer outside that range. What a method
    writes is stated for data whose integers can be bound: run numbers,
    event counts, file counts and sizes. *)
Definition int64 (n : Z) : Prop :=
  -9223372036854775808 ≤ n ≤ 9223372036854775807.

Definition bindable (value : option Z) : Prop :=
  match value with
  | Some n => int64 n
  | None => True
  end.

Definition logbook_bindable (entries : list LogbookApi.db_entry) : Prop :=
  Forall (λ entry, bindable (LogbookApi.run_number entry)) entries.

Definition runtable_bindable (data : runtable_data) : Prop :=
  Forall (λ run_data,
            bindable (rd_run_number run_data)
            ∧ bindable (rd_n_events run_data)
            ∧ bindable (rd_n_damaged run_data)
            ∧ bindable (rd_n_dropped run_data))
         (rt_data_production data)
  ∧ Forall (λ detector_data, bindable (dd_run_number detector_data))
           (rt_detectors data).

Definition files_bindable (data : file_manager_data) : Prop :=
  Forall (λ record,
            bindable (fr_run_number record)
            ∧ bindable (fr_number_of_files record)
            ∧ bindable (fr_total_size_bytes record))
         (fm_file_manager_records data).

Definition record_bindable (r : composite) : Prop :=
  logbook_bindable (c_logbook r)
  ∧ (∀ rt, c_runtable r = Some rt → runtable_bindable rt)
  ∧ (∀ fm, c_file_manager r = Some fm → files_bindable fm).


(** *** Two runs of the incremental update *)

(** The experiment a record is for. *)
Definition record_key (r : composite) : string :=
  default EmptyString (c_experiment_id r).

(** The writer after the turn of its loop for the item [r], in incremental
    mode. *)
Definition after_turn (now : nat → string) (config : Cli.Config)
    (w : Cli.writer) (r : composite) : Cli.writer :=
  match Cli.writer_turn now config true w (Some r) with
  | Cli.Continue w' | Cli.Break w' | Cli.Escapes w' _ => w'
  end.

Definition detector_names (c : Store) : list string :=
  map det_detector_name (rows (Detector c)).

(** The eight tables that hold rows of experiments. *)
Definition tables (c : Store) :=
  (Experiment c, Run c, RunProductionData c, Detector c, RunDetector c,
   Logbook c, Questionnaire c, Workflow c).

(** A record for experiment xpp1 with a log entry, production data, a
    detector status and a file record for run 7, two answers to the same
    question and a workflow. *)
Definition full_record : composite :=
  {| c_experiment_id := Some "xpp1";
     c_error := None;
     c_info :=
       Some {| exp_experiment_id := "xpp1";
               exp_name := Some "xpp1";
               exp_instrument := Some "XPP";
               exp_start_time := None;
               exp_end_time := None;
               exp_pi := None;
               exp_pi_email := None;
               exp_leader_account := None;
               exp_description := None;
               exp_slack_channels := None;
               exp_analysis_queues := None;
               exp_urawi_proposal := None |};
     c_logbook :=
       [LogbookApi.DbEntry "e1" "xpp1" (Some 7) "2024-01-01T10:00:00"
          (Some "run 7 started") None None;
        LogbookApi.DbEntry "e2" "xpp1" None "2024-01-01T11:00:00"
          None None None];
     c_runtable :=
       Some {| rt_experiment_id := "xpp1";
               rt_data_production :=
                 [{| rd_run_number := Some 7;
                     rd_n_events := Some 1200;
                     rd_n_damaged := Some 0;
                     rd_n_dropped := None;
                     rd_start_time := Some "2024-01-01T10:00:00";
                     rd_end_time := None;
                     rd_prod_start := None;
                     rd_prod_end := None |}];
               rt_detectors :=
                 [{| dd_run_number := Some 7;
                     dd_items := [("epix", "Checked")] |}] |};
     c_file_manager :=
       Some {| fm_experiment_id := "xpp1";
               fm_file_manager_records :=
                 [{| fr_run_number := Some 7;
                     fr_number_of_files := Some 3;
                     fr_total_size_bytes := Some 4096 |}] |};
     c_questionnaire :=
       Some {| qn_experiment_id := "xpp1";
               qn_proposal_number := Some "LX99";
               qn_fields :=
                 [{| f_category := "xray";
                     f_field_id := "energy";
                     f_field_name := None;
                     f_field_value := Some "9 keV";
                     f_modified_time := None;
                     f_modified_uid := None |};
                  {| f_category := "xray";
                     f_field_id := "energy";
                     f_field_name := None;
                     f_field_value := Some "9.5 keV";
                     f_modified_time := None;
                     f_modified_uid := None |}] |};
     c_workflow :=
       Some {| wd_experiment_id := "xpp1";
               wd_workflows :=
                 [{| w_mongo_id := None;
                     w_name := Some "smalldata";
                     w_executable := None;
                     w_trigger := None;
                     w_location := None;
                     w_parameters := "null";
                     w_run_param_name := None;
                     w_run_param_value := None;
                     w_run_as_user := None |}] |} |}.

End Spec.

(** * Theorems *)

Module PyFacts.
Import Py Spec.

Lemma ltb_leb a b : String.ltb a b = negb (String.leb b a).
Proof.
  unfold String.ltb, String.leb. rewrite (String.compare_antisym b a).
  by destruct (String.compare a b).
Qed.

Lemma lt_not_le a b : lt a b ↔ ¬ le b a.
Proof.
  unfold lt, le. rewrite ltb_leb. destruct (String.leb b a); naive_solver.
Qed.


Lemma le_refl a : le a a.
Proof. unfold le. apply Is_true_true. apply (reflexivity (R:=String.le)). Qed.

Lemma le_trans a b c : le a b → le b c → le a c.
Proof.
  unfold le. intros H1%Is_true_true H2%Is_true_true. apply Is_true_true.
  by apply (transitivity (R:=String.le) H1).
Qed.


Lemma le_total a b : le a b ∨ le b a.
Proof. apply String.leb_total. Qed.




Lemma le_lt_trans a b c : le a b → lt b c → lt a c.
Proof.
  intros H1 H2. apply lt_not_le. intros H3. apply lt_not_le in H2.
  apply H2. by apply (le_trans _ a).
Qed.



Lemma eqb_eq_iff a b : String.eqb a b = true ↔ a = b.
Proof. apply String.eqb_eq. Qed.

(** [sorted] *)
Section Sorted.
Context {A : Type} (key : A → string).

Lemma insert_sorted_perm x l : insert_sorted key x l ≡ₚ x :: l.
Proof.
  induction l as [|y l IH]; simpl; [done|].
  destruct (String.leb _ _); [done|]. rewrite IH. apply Permutation_swap.
Qed.

Lemma sorted_perm l : sorted key l ≡ₚ l.
Proof.
  induction l as [|x l IH]; simpl; [done|].
  rewrite insert_sorted_perm. by rewrite IH.
Qed.

Lemma insert_sorted_sorted x l :
  StronglySorted (key_le key) l → StronglySorted (key_le key) (insert_sorted key x l).
Proof.
  induction 1 as [|y l Hl IH Hy]; simpl.
  - repeat constructor.
  - destruct (String.leb (key x) (key y)) eqn:E.
    + constructor; [by constructor|]. constructor; [done|].
      eapply Forall_impl; [done|]. intros z Hz. by eapply le_trans.
    + constructor; [done|]. rewrite insert_sorted_perm.
      constructor; [|done]. destruct (le_total (key x) (key y)) as [H|H]; [|done].
      unfold le in H. congruence.
Qed.

Lemma sorted_sorted l : StronglySorted (key_le key) (sorted key l).
Proof.
  induction l; simpl; [constructor|]. by apply insert_sorted_sorted.
Qed.


End Sorted.
(** *** [str] of an integer and the cache keys *)

Lemma string_of_uint_plain d :
  has_underscore (NilEmpty.string_of_uint d) = false.
Proof. induction d; simpl; auto. Qed.

Lemma str_int_plain n : has_underscore (str_int n) = false.
Proof.
  unfold str_int. destruct (Z.to_int n) as [d|d]; simpl;
    destruct d; simpl; auto using string_of_uint_plain.
Qed.

Lemma to_int_nonnil n :
  Z.to_int n ≠ Decimal.Pos Decimal.Nil ∧ Z.to_int n ≠ Decimal.Neg Decimal.Nil.
Proof.
  destruct n as [|p|p]; simpl; split; try discriminate;
    intros [= H]; by apply Unsigned.to_uint_nonnil in H.
Qed.

Lemma str_int_inj a b : str_int a = str_int b → a = b.
Proof.
  unfold str_int. intros H. apply DecimalZ.to_int_inj.
  destruct (to_int_nonnil a) as [Ha1 Ha2], (to_int_nonnil b) as [Hb1 Hb2].
  apply (f_equal NilZero.int_of_string) in H.
  rewrite !NilZero.isi in H by done. congruence.
Qed.

Lemma has_underscore_app e s : has_underscore (e +:+ String "_" s) = true.
Proof.
  induction e as [|c e IH]; simpl; [done|]. rewrite IH. apply orb_true_r.
Qed.

Lemma app_underscore_inj e e' s s' :
  has_underscore s = false → has_underscore s' = false →
  e +:+ String "_" s = e' +:+ String "_" s' → e = e' ∧ s = s'.
Proof.
  intros Hs Hs'. revert e'.
  induction e as [|c e IH]; intros [|c' e']; simpl; intros H.
  - by injection H.
  - injection H as _ ->. rewrite has_underscore_app in Hs. discriminate.
  - injection H as _ <-. rewrite has_underscore_app in Hs'. discriminate.
  - injection H as -> H. by destruct (IH e' H) as [-> ->].
Qed.

Lemma cache_key_inj e n e' n' :
  Database.cache_key e n = Database.cache_key e' n' → e = e' ∧ n = n'.
Proof.
  unfold Database.cache_key. cbn [String.app]. intros H.
  apply app_underscore_inj in H as [-> H]; auto using str_int_plain.
  split; [done|]. by apply str_int_inj.
Qed.

Lemma prefix_app p s : String.prefix p (p +:+ s) = true.
Proof.
  induction p as [|c p IH]; simpl; [by destruct s|].
  destruct (ascii_dec c c); [done|congruence].
Qed.

Lemma app_assoc_string a b c : (a +:+ b) +:+ c = a +:+ b +:+ c.
Proof.
  induction a as [|x a IH]; [done|].
  change (String x ((a +:+ b) +:+ c) = String x (a +:+ b +:+ c)).
  by rewrite IH.
Qed.

Lemma startswith_cache_key e n :
  startswith (Database.cache_key e n) (e +:+ "_") = true.
Proof.
  unfold startswith, Database.cache_key.
  rewrite <- app_assoc_string. apply prefix_app.
Qed.

End PyFacts.

Module LogbookFacts.
Import Py Spec PyFacts LogbookApi.

Section Inference.
Context {T : Text}.

(** *** The boundary walk *)




Lemma infer_one_nil runs t : infer_one [] runs t = None.
Proof. done. Qed.





(** *** The sorted boundary list *)










(** *** Boundary extraction *)

Lemma boundary_step_entry_run m e :
  boundary_step m e =
    match entry_run e with
    | Some r => <[insert_time e := r]> m
    | None => m
    end.
Proof.
  unfold boundary_step, entry_run. destruct (run_num e); [done|].
  destruct (heuristic_match e); [|done]. by destruct (scan_parts _).
Qed.

Lemma identify_snoc l e :
  _identify_run_boundaries (l ++ [e]) =
    boundary_step (_identify_run_boundaries l) e.
Proof. unfold _identify_run_boundaries. by rewrite foldl_app. Qed.

Lemma identify_lookup l t r :
  _identify_run_boundaries l !! t = Some r ↔
  ∃ pre e post, l = pre ++ e :: post ∧ insert_time e = t ∧
    entry_run e = Some r ∧
    Forall (λ e', insert_time e' = t → entry_run e' = None) post.
Proof.
  revert r. induction l as [|e l IH] using rev_ind; intros r.
  { split; [done|]. intros (pre & e & post & H & _). by destruct pre. }
  rewrite identify_snoc, boundary_step_entry_run. split.
  - destruct (entry_run e) as [r'|] eqn:He.
    + destruct (decide (insert_time e = t)) as [<-|Hne].
      * rewrite lookup_insert_eq. intros [= ->]. exists l, e, []. eauto.
      * rewrite lookup_insert_ne by done. intros H%IH.
        destruct H as (pre & e0 & post & -> & ? & ? & Hpost).
        exists pre, e0, (post ++ [e]). rewrite <-app_assoc. split_and!; try done.
        apply Forall_app. split; [done|]. by repeat constructor.
    + intros H%IH. destruct H as (pre & e0 & post & -> & ? & ? & Hpost).
      exists pre, e0, (post ++ [e]). rewrite <-app_assoc. split_and!; try done.
      apply Forall_app. split; [done|]. by repeat constructor.
  - intros (pre & e0 & post & Hl & Ht & Hr & Hpost).
    destruct post as [|p post _] using rev_ind.
    + apply app_inj_tail in Hl as [-> ->]. rewrite Hr, Ht.
      by rewrite lookup_insert_eq.
    + rewrite app_comm_cons, app_assoc in Hl.
      apply app_inj_tail in Hl as [-> ->].
      apply Forall_app in Hpost as [Hpost Hp].
      rewrite Forall_singleton in Hp.
      assert (_identify_run_boundaries (pre ++ e0 :: post) !! t = Some r)
        as Hrec by (apply IH; eauto 10).
      destruct (entry_run p) as [r'|] eqn:Hp'; [|done].
      rewrite lookup_insert_ne; [done|]. intros Heq. apply Hp in Heq. congruence.
Qed.

Lemma identify_lookup_distinct l t r :
  NoDup (map insert_time l) →
  _identify_run_boundaries l !! t = Some r ↔
  ∃ e, e ∈ l ∧ insert_time e = t ∧ entry_run e = Some r.
Proof.
  intros Hnd. rewrite identify_lookup. split.
  - intros (pre & e & post & -> & ? & ? & _). exists e. split; [|done].
    apply elem_of_app. right. by left.
  - intros (e & [pre [post ->]]%list_elem_of_split & Ht & Hr).
    exists pre, e, post. split_and!; try done.
    rewrite map_app in Hnd. apply NoDup_app in Hnd as (_ & _ & Hnd).
    simpl in Hnd. apply NoDup_cons in Hnd as [Hnotin _].
    apply Forall_forall. intros e' He' Heq. exfalso. apply Hnotin.
    rewrite Ht, <-Heq. apply list_elem_of_fmap. eauto.
Qed.

Lemma scan_parts_first pre w tok post :
  Forall (λ p, Py.lower p ≠ "number") pre → Py.lower w = "number" →
  scan_parts (pre ++ w :: tok :: post) =
    match Py.int tok with Some n => Assigned n | None => ValueError end.
Proof.
  intros Hpre Hw. induction Hpre as [|p pre Hp Hpre IH]; cbn [app scan_parts].
  - by rewrite Hw.
  - destruct (pre ++ w :: tok :: post) eqn:E; [by destruct pre|].
    apply String.eqb_neq in Hp. by rewrite Hp.
Qed.

Lemma scan_parts_found parts :
  scan_parts parts ≠ NotFound →
  ∃ pre w tok post, parts = pre ++ w :: tok :: post ∧
    Forall (λ p, Py.lower p ≠ "number") pre ∧ Py.lower w = "number".
Proof.
  induction parts as [|part rest IH]; [done|]. cbn [scan_parts].
  destruct rest as [|next rest']; [done|].
  destruct (String.eqb (Py.lower part) "number") eqn:E.
  - intros _. apply String.eqb_eq in E. exists [], part, next, rest'. eauto.
  - intros (pre & w & tok & post & Hrest & Hpre & Hw)%IH.
    apply String.eqb_neq in E.
    exists (part :: pre), w, tok, post. rewrite Hrest. eauto.
Qed.

Lemma scan_parts_Assigned parts r :
  scan_parts parts = Assigned r ↔
  ∃ pre w tok post, parts = pre ++ w :: tok :: post ∧
    Forall (λ p, Py.lower p ≠ "number") pre ∧ Py.lower w = "number" ∧
    Py.int tok = Some r.
Proof.
  split.
  - intros H. destruct (scan_parts_found parts) as
      (pre & w & tok & post & -> & Hpre & Hw); [congruence|].
    rewrite scan_parts_first in H by done.
    exists pre, w, tok, post. destruct (Py.int tok); naive_solver.
  - intros (pre & w & tok & post & -> & Hpre & Hw & Hint).
    by rewrite scan_parts_first, Hint.
Qed.

Lemma scan_parts_ValueError parts :
  scan_parts parts = ValueError ↔
  ∃ pre w tok post, parts = pre ++ w :: tok :: post ∧
    Forall (λ p, Py.lower p ≠ "number") pre ∧ Py.lower w = "number" ∧
    Py.int tok = None.
Proof.
  split.
  - intros H. destruct (scan_parts_found parts) as
      (pre & w & tok & post & -> & Hpre & Hw); [congruence|].
    rewrite scan_parts_first in H by done.
    exists pre, w, tok, post. destruct (Py.int tok); naive_solver.
  - intros (pre & w & tok & post & -> & Hpre & Hw & Hint).
    by rewrite scan_parts_first, Hint.
Qed.

(** *** The inferred-run dictionary *)



(** *** [_transform_entries] *)




End Inference.

Section InferenceExamples.
#[local] Existing Instance ascii_text.



End InferenceExamples.

Section Boundaries.
Context {T : Text}.

Lemma entry_run_spec e r :
  entry_run e = Some r ↔
  run_num e = Some r ∨
  (run_num e = None ∧
   Py.contains "run number" (lowered_content e) = true ∧
   Py.contains "running" (lowered_content e) = true ∧
   ∃ pre w tok post,
     Py.split (Py.split_first ":" (lowered_content e)) =
       pre ++ w :: tok :: post ∧
     Forall (λ p, Py.lower p ≠ "number") pre ∧
     Py.lower w = "number" ∧ Py.int tok = Some r).
Proof.
  unfold entry_run, heuristic_match, heuristic_parts.
  destruct (run_num e) as [r'|].
  { split; [by left|]. by intros [?|[? _]]. }
  split.
  - intros H. right. split; [done|].
    destruct (Py.contains "run number" _); [|done].
    destruct (Py.contains "running" _); [|done]. cbn [andb] in H.
    split_and!; [done..|]. apply scan_parts_Assigned.
    destruct (scan_parts _); by simplify_eq.
  - intros [?|(_ & -> & -> & H)]; [done|]. cbn [andb].
    apply scan_parts_Assigned in H. by rewrite H.
Qed.

(** C9 (as the code has it). Boundary extraction is keyed by timestamp:
    the boundary map holds, at each timestamp, the run number recorded by
    the last entry (in list order) at that timestamp that records one. An
    entry records a run number when it carries an explicit one, or when
    its lower-cased text contains both "run number" and "running" and the
    token after the first word "number", within the text before the first
    colon, parses as an integer. A matching entry whose token does not
    parse leaves the map untouched. When timestamps are pairwise distinct
    the map holds exactly one boundary per recording entry. Lower-casing,
    the split into tokens and the parse are [str.lower], [str.split] and
    [int] as the interpreter provides them, on any text: a no-break space
    separates tokens and a token of full-width digits parses, if they do
    so there. *)
Theorem boundary_extraction (sorted_entries : list entry) :
  let run_boundaries := _identify_run_boundaries sorted_entries in
  (∀ t r, run_boundaries !! t = Some r ↔
     ∃ pre e post, sorted_entries = pre ++ e :: post ∧
       insert_time e = t ∧ entry_run e = Some r ∧
       Forall (λ e', insert_time e' = t → entry_run e' = None) post) ∧
  (∀ e r, entry_run e = Some r ↔
     run_num e = Some r ∨
     (run_num e = None ∧
      Py.contains "run number" (lowered_content e) = true ∧
      Py.contains "running" (lowered_content e) = true ∧
      ∃ pre w tok post,
        Py.split (Py.split_first ":" (lowered_content e)) =
          pre ++ w :: tok :: post ∧
        Forall (λ p, Py.lower p ≠ "number") pre ∧
        Py.lower w = "number" ∧ Py.int tok = Some r)) ∧
  (∀ m e pre w tok post,
     run_num e = None → heuristic_match e = true →
     heuristic_parts e = pre ++ w :: tok :: post →
     Forall (λ p, Py.lower p ≠ "number") pre → Py.lower w = "number" →
     Py.int tok = None →
     boundary_step m e = m) ∧
  (NoDup (map insert_time sorted_entries) →
   ∀ t r, run_boundaries !! t = Some r ↔
     ∃ e, e ∈ sorted_entries ∧ insert_time e = t ∧ entry_run e = Some r).
Proof.
  intros run_boundaries. split_and!.
  - apply identify_lookup.
  - apply entry_run_spec.
  - intros m e pre w tok post Hr Hm Hparts Hpre Hw Hint.
    unfold boundary_step. rewrite Hr, Hm, Hparts.
    by rewrite scan_parts_first, Hint.
  - intros Hnd t r. by apply identify_lookup_distinct.
Qed.

End Boundaries.

Section BoundaryExamples.
#[local] Existing Instance ascii_text.

(** C9, as stated, fails when two entries share a timestamp: the first
    entry carries the explicit run number 1, yet the boundary at its
    timestamp is run 2. *)
Lemma boundary_extraction_counterexample :
  Py.sorted insert_time colliding_entries = colliding_entries ∧
  ¬ (∀ e r, e ∈ colliding_entries → run_num e = Some r →
       _identify_run_boundaries colliding_entries !! insert_time e = Some r).
Proof.
  split; [reflexivity|]. intros H.
  specialize (H (Entry "id1" "2024-01-15T10:00:00" (Some 1) None None None) 1).
  assert (Hin : Entry "id1" "2024-01-15T10:00:00" (Some 1) None None None
                  ∈ colliding_entries) by (unfold colliding_entries; left).
  specialize (H Hin eq_refl). vm_compute in H. discriminate H.
Qed.

Lemma boundary_extraction_witness :
  map_to_list (_identify_run_boundaries narrative_entries) ≡ₚ
    [("2024-01-15T10:00:00", 12); ("2024-01-15T12:00:00", 13)].
Proof.
  pose proof (boundary_extraction narrative_entries) as (_ & _ & _ & H).
  assert (Hnd : NoDup (map insert_time narrative_entries)).
  { apply (bool_decide_unpack _). by vm_compute. }
  specialize (H Hnd).
  apply NoDup_Permutation.
  - apply NoDup_map_to_list.
  - apply (bool_decide_unpack _). by vm_compute.
  - intros [t r]. rewrite elem_of_map_to_list, H.
    rewrite !elem_of_cons, elem_of_nil. unfold narrative_entries. split.
    + intros (e & He & <- & Hr).
      rewrite !elem_of_cons, elem_of_nil in He.
      destruct He as [->|[->|[->|[]]]]; vm_compute in Hr; simplify_eq; auto.
    + intros [[= -> ->]|[[= -> ->]|[]]].
      * eexists. split; [by left|]. by vm_compute.
      * eexists. split; [right; right; by left|]. by vm_compute.
Defined.

End BoundaryExamples.

End LogbookFacts.


Module DatabaseFacts.
Import Spec Database.

(** *** Which statements a method issues *)

Lemma execute_all_app l1 l2 c :
  execute_all (l1 ++ l2) c = execute_all l2 (execute_all l1 c).
Proof. unfold execute_all. by rewrite foldl_app. Qed.

Lemma issues_refl P self self' : conn self' = conn self → issues P self self'.
Proof. intros H. exists []. by split. Qed.

Lemma issues_trans P s1 s2 s3 :
  issues P s1 s2 → issues P s2 s3 → issues P s1 s3.
Proof.
  intros (l1 & H1 & F1) (l2 & H2 & F2). exists (l1 ++ l2).
  rewrite execute_all_app, <-H1, <-H2. split; [done|]. by apply Forall_app.
Qed.

Lemma issues_exec (P : statement → Prop) st self :
  P st → issues P self (exec st self).
Proof. intros H. exists [st]. split; [done|]. by constructor. Qed.

Lemma issues_exec_then (P : statement → Prop) st self self' :
  P st → issues P (exec st self) self' → issues P self self'.
Proof. intros H. apply issues_trans. by apply issues_exec. Qed.

Lemma issues_mono (P Q : statement → Prop) s1 s2 :
  (∀ st, P st → Q st) → issues P s1 s2 → issues Q s1 s2.
Proof.
  intros HPQ (l & H & F). exists l. split; [done|].
  eapply Forall_impl; eauto.
Qed.

Lemma issues_foldl {A} P (step : Database → A → Database) l self :
  (∀ self x, x ∈ l → issues P self (step self x)) →
  issues P self (foldl step self l).
Proof.
  revert self. induction l as [|x l IH]; intros self H; simpl.
  - by apply issues_refl.
  - eapply issues_trans; [apply H; by left|]. apply IH.
    intros ???. apply H. by right.
Qed.

Lemma get_or_create_run_id_issues (P : statement → Prop) self e n :
  P (INSERT_Run e n) → issues P self (_get_or_create_run_id self e n).1.
Proof.
  intros HP. unfold _get_or_create_run_id.
  destruct (_run_id_cache self !! _); [by apply issues_refl|].
  destruct (fetchone _ _); simpl.
  - by apply issues_refl.
  - eapply issues_trans; [by apply (issues_exec P (INSERT_Run e n))|].
    by apply issues_refl.
Qed.

Lemma get_or_create_detector_id_issues (P : statement → Prop) self name :
  P (INSERT_Detector name) →
  issues P self (_get_or_create_detector_id self name).1.
Proof.
  intros HP. unfold _get_or_create_detector_id.
  destruct (_detector_cache self !! _); [by apply issues_refl|].
  destruct (fetchone _ _); simpl.
  - by apply issues_refl.
  - eapply issues_trans; [by apply (issues_exec P (INSERT_Detector name))|].
    by apply issues_refl.
Qed.

Lemma insert_experiment_issues sc self data :
  issues (batch_statement sc) self (_insert_experiment_no_commit self data).
Proof. (apply issues_exec; exact I). Qed.

Lemma insert_questionnaire_issues sc self data :
  issues (batch_statement sc) self
         (_insert_questionnaire_no_commit self data).
Proof.
  unfold _insert_questionnaire_no_commit.
  eapply (issues_exec_then _ (DELETE_Questionnaire _)); [exact I|].
  apply issues_foldl. intros ???. (apply issues_exec; exact I).
Qed.

Lemma insert_workflows_issues sc e self l :
  issues (batch_statement sc) self (insert_workflows e self l).1.
Proof.
  revert self. induction l as [|w l IH]; intros self; simpl.
  - by apply issues_refl.
  - destruct (w_name w); [|by apply issues_refl].
    eapply (issues_exec_then _ (INSERT_Workflow _ _ _)); [exact I|]. apply IH.
Qed.

Lemma insert_workflow_issues sc self data :
  issues (batch_statement sc) self
         (_insert_workflow_no_commit self data).1.
Proof.
  unfold _insert_workflow_no_commit.
  eapply (issues_exec_then _ (DELETE_Workflow _)); [exact I|].
  apply insert_workflows_issues.
Qed.

Lemma logbook_insert_step_issues sc self entry :
  (is_Some (LogbookApi.run_number entry) →
   owner sc (LogbookApi.experiment_id entry)) →
  issues (batch_statement sc) self (logbook_insert_step self entry).
Proof.
  intros Ho. unfold logbook_insert_step.
  destruct (LogbookApi.run_number entry) as [n|].
  - pose proof (get_or_create_run_id_issues (batch_statement sc) self
                  (LogbookApi.experiment_id entry) n) as H.
    destruct (_get_or_create_run_id _ _ _) as [self' run_id]. simpl in H.
    eapply issues_trans; [apply H; simpl; eauto|]. (apply issues_exec; exact I).
  - (apply issues_exec; exact I).
Qed.

Lemma insert_logbook_issues sc self entries :
  (∀ entry, entry ∈ entries → is_Some (LogbookApi.run_number entry) →
            owner sc (LogbookApi.experiment_id entry)) →
  issues (batch_statement sc) self (_insert_logbook_no_commit self entries).
Proof.
  intros Ho. unfold _insert_logbook_no_commit.
  destruct entries as [|first rest]; [by apply issues_refl|].
  eapply (issues_exec_then _ (DELETE_Logbook _)); [exact I|].
  apply issues_foldl. intros ?? Hx. apply logbook_insert_step_issues. eauto.
Qed.

Lemma runtable_production_step_issues sc e self rd :
  owner sc e → from_runtable sc rd →
  issues (batch_statement sc) self (runtable_production_step e self rd).
Proof.
  intros Ho Hrd. unfold runtable_production_step.
  destruct (rd_run_number rd) as [n|]; [|by apply issues_refl].
  pose proof (get_or_create_run_id_issues (batch_statement sc) self e n Ho)
    as H.
  destruct (_get_or_create_run_id _ _ _) as [self' run_id]. simpl in H.
  eapply issues_trans; [apply H|].
  eapply (issues_exec_then _ (UPDATE_Run _ _ _)); [exact I|].
  destruct (fetchone _ _); by apply issues_exec.
Qed.

Lemma detector_item_step_issues sc run_id self item :
  issues (batch_statement sc) self (detector_item_step run_id self item).
Proof.
  unfold detector_item_step. destruct item as [key value].
  destruct (_ || _); [by apply issues_refl|].
  pose proof (get_or_create_detector_id_issues (batch_statement sc)
                self key I) as H.
  destruct (_get_or_create_detector_id _ _) as [self' detector_id].
  simpl in H. eapply issues_trans; [apply H|]. (apply issues_exec; exact I).
Qed.

Lemma runtable_detector_step_issues sc e self dd :
  owner sc e →
  issues (batch_statement sc) self (runtable_detector_step e self dd).
Proof.
  intros Ho. unfold runtable_detector_step.
  destruct (dd_run_number dd) as [n|]; [|by apply issues_refl].
  pose proof (get_or_create_run_id_issues (batch_statement sc) self e n Ho)
    as H.
  destruct (_get_or_create_run_id _ _ _) as [self' run_id]. simpl in H.
  eapply issues_trans; [apply H|].
  apply issues_foldl. intros ???. apply detector_item_step_issues.
Qed.

Lemma insert_runtable_issues sc self data :
  owner sc (rt_experiment_id data) →
  (∀ rd, rd ∈ rt_data_production data → from_runtable sc rd) →
  issues (batch_statement sc) self (_insert_runtable_no_commit self data).
Proof.
  intros Ho Hrd. unfold _insert_runtable_no_commit.
  eapply (issues_trans _ _
            (foldl (runtable_production_step (rt_experiment_id data)) self
                   (rt_data_production data))).
  - apply issues_foldl. intros ???. apply runtable_production_step_issues; auto.
  - apply issues_foldl. intros ???. by apply runtable_detector_step_issues.
Qed.

Lemma file_manager_step_issues sc e self record :
  owner sc e → from_files sc record →
  issues (batch_statement sc) self (file_manager_step e self record).
Proof.
  intros Ho Hfr. unfold file_manager_step.
  destruct (fr_run_number record) as [n|]; [|by apply issues_refl].
  pose proof (get_or_create_run_id_issues (batch_statement sc) self e n Ho)
    as H.
  destruct (_get_or_create_run_id _ _ _) as [self' run_id]. simpl in H.
  eapply issues_trans; [apply H|].
  destruct (fetchone _ _); by apply issues_exec.
Qed.

Lemma insert_file_manager_issues sc self data :
  owner sc (fm_experiment_id data) →
  (∀ fr, fr ∈ fm_file_manager_records data → from_files sc fr) →
  issues (batch_statement sc) self
         (_insert_file_manager_no_commit self data).
Proof.
  intros Ho Hfr. unfold _insert_file_manager_no_commit.
  apply issues_foldl. intros ???. apply file_manager_step_issues; auto.
Qed.

Lemma issues_when_present {A} P (facet : option A) method self :
  (∀ x self, facet = Some x → issues P self (method self x)) →
  issues P self (when_present facet method self).
Proof.
  intros H. destruct facet; simpl; [by apply H|by apply issues_refl].
Qed.

Lemma insert_experiment_batch_issues self data :
  issues (batch_statement (batch_scope data)) self
         (insert_experiment_batch self data).1.
Proof.
  unfold insert_experiment_batch. cbv zeta.
  eapply issues_trans; [|destruct (c_workflow data);
                          [apply insert_workflow_issues|by apply issues_refl]].
  eapply issues_trans; [|apply issues_when_present; intros;
                          apply insert_questionnaire_issues].
  eapply issues_trans; [|apply issues_when_present; intros;
                          apply insert_file_manager_issues; simpl;
                          [right; right; eauto|eauto]].
  eapply issues_trans; [|apply issues_when_present; intros;
                          apply insert_runtable_issues; simpl;
                          [right; left; eauto|eauto]].
  eapply issues_trans; [|apply insert_logbook_issues; intros; left; eauto].
  apply issues_when_present. intros. apply insert_experiment_issues.
Qed.

(** *** What the statements leave alone *)

Lemma execute_events sc st c :
  batch_statement sc st →
  events (execute st c) = events c ∧
  journal_mode (execute st c) = journal_mode c ∧
  is_open (execute st c) = is_open c ∧
  Metadata (execute st c) = Metadata c.
Proof. by destruct st. Qed.

Lemma issues_events sc self self' :
  issues (batch_statement sc) self self' →
  events (conn self') = events (conn self) ∧
  journal_mode (conn self') = journal_mode (conn self) ∧
  is_open (conn self') = is_open (conn self) ∧
  Metadata (conn self') = Metadata (conn self).
Proof.
  intros (l & -> & F). generalize (conn self) as c.
  induction F as [|st l Hst F IH]; intros c; [done|].
  cbn [execute_all foldl]. fold (execute_all l (execute st c)).
  destruct (execute_events sc st c Hst) as (<- & <- & <- & <-). apply IH.
Qed.

(** No statement removes or changes a [Detector] row. *)
Lemma execute_Detector st c :
  ∃ extra, rows (Detector (execute st c)) = rows (Detector c) ++ extra.
Proof.
  destruct st; simpl; try (exists []; by rewrite app_nil_r). eauto.
Qed.

Lemma execute_all_Detector l c :
  ∃ extra, rows (Detector (execute_all l c)) = rows (Detector c) ++ extra.
Proof.
  revert c. induction l as [|st l IH]; intros c.
  - exists []. by rewrite app_nil_r.
  - cbn [execute_all foldl]. fold (execute_all l (execute st c)).
    destruct (IH (execute st c)) as [e2 ->].
    destruct (execute_Detector st c) as [e1 ->].
    exists (e1 ++ e2). by rewrite app_assoc.
Qed.

(** *** [delete_experiment] *)

Lemma delete_experiment_statements_delete c e :
  Forall delete_statement (delete_experiment_statements c e).
Proof.
  unfold delete_experiment_statements. apply Forall_app. split.
  - apply Forall_flat_map, Forall_forall. intros ??. by repeat constructor.
  - by repeat constructor.
Qed.

Lemma execute_delete_frame st c :
  delete_statement st →
  Detector (execute st c) = Detector c ∧
  events (execute st c) = events c ∧
  journal_mode (execute st c) = journal_mode c ∧
  is_open (execute st c) = is_open c ∧
  Metadata (execute st c) = Metadata c.
Proof. by destruct st. Qed.

Lemma execute_all_delete_frame l c :
  Forall delete_statement l →
  Detector (execute_all l c) = Detector c ∧
  events (execute_all l c) = events c ∧
  journal_mode (execute_all l c) = journal_mode c ∧
  is_open (execute_all l c) = is_open c ∧
  Metadata (execute_all l c) = Metadata c.
Proof.
  intros F. revert c. induction F as [|st l Hst F IH]; intros c; [done|].
  cbn [execute_all foldl]. fold (execute_all l (execute st c)).
  destruct (execute_delete_frame st c Hst) as (<- & <- & <- & <- & <-).
  apply IH.
Qed.

Lemma elem_of_delete_where {A} (P : A → Prop) `{∀ x, Decision (P x)} t x :
  x ∈ rows (delete_where P t) ↔ x ∈ rows t ∧ ¬ P x.
Proof. unfold delete_where. simpl. rewrite list_elem_of_filter. tauto. Qed.

Lemma execute_all_delete_RunDetector l c x :
  Forall delete_statement l →
  x ∈ rows (RunDetector (execute_all l c)) ↔
  x ∈ rows (RunDetector c) ∧
  ∀ run_id, DELETE_RunDetector run_id ∈ l → rdet_run_id x ≠ run_id.
Proof.
  intros F. revert c. induction F as [|st l Hst F IH]; intros c.
  { simpl. split; [|tauto]. intros ?. split; [done|].
    intros ? []%elem_of_nil. }
  cbn [execute_all foldl]. fold (execute_all l (execute st c)).
  rewrite IH. setoid_rewrite elem_of_cons.
  destruct st; try done; simpl;
    try (split; [intros [? Hl]; split; [done|];
                 intros ? [?|?]; [done|by apply Hl]
                |intros [? Hl]; split; [done|]; intros ??; apply Hl; by right]).
  rewrite list_elem_of_filter. split.
  - intros [[? ?] Hl]. split; [done|]. intros ? [[= ->]|?]; [done|by apply Hl].
  - intros [? Hl]. split; [split; [|done]|].
    + apply Hl. by left.
    + intros ??. apply Hl. by right.
Qed.

Lemma delete_experiment_conn self e :
  conn (delete_experiment self e) =
    conn_commit
      (execute_all (delete_experiment_statements (conn self) e) (conn self)).
Proof. done. Qed.

Lemma delete_experiment_Detector self e :
  Detector (conn (delete_experiment self e)) = Detector (conn self).
Proof.
  rewrite delete_experiment_conn. simpl.
  by destruct (execute_all_delete_frame _ (conn self)
                 (delete_experiment_statements_delete (conn self) e)) as [-> _].
Qed.

Lemma delete_experiment_RunDetector self e x :
  x ∈ rows (RunDetector (conn (delete_experiment self e))) ↔
  x ∈ rows (RunDetector (conn self)) ∧
  ∀ r, r ∈ rows (Run (conn self)) → run_experiment_id r = e →
       rdet_run_id x ≠ run_run_id r.
Proof.
  rewrite delete_experiment_conn. simpl.
  rewrite execute_all_delete_RunDetector
    by apply delete_experiment_statements_delete.
  apply and_iff_compat_l. unfold delete_experiment_statements. split.
  - intros H r Hr He. apply H. apply elem_of_app. left.
    apply list_elem_of_In, in_flat_map. exists (run_run_id r). split.
    + apply list_elem_of_In, list_elem_of_fmap. exists r. split; [done|].
      by apply list_elem_of_filter.
    + by left.
  - intros H run_id [Hin|Hin]%elem_of_app.
    + apply list_elem_of_In, in_flat_map in Hin as (id & Hid & Hst).
      apply list_elem_of_In, list_elem_of_fmap in Hid as (r & -> & Hr).
      apply list_elem_of_filter in Hr as [He Hr].
      destruct Hst as [[= <-]|[[=]|[]]]. by apply H.
    + rewrite !elem_of_cons, elem_of_nil in Hin. intuition discriminate.
Qed.

Lemma call_Detector self m :
  ∃ extra,
    rows (Detector (conn (call self m))) = rows (Detector (conn self)) ++ extra.
Proof.
  destruct m; simpl;
    try (exists []; by rewrite app_nil_r).
  - destruct (insert_experiment_batch_issues self data) as (l & -> & _).
    apply execute_all_Detector.
  - exists []. rewrite app_nil_r.
    pose proof (delete_experiment_Detector self experiment_id) as H.
    rewrite delete_experiment_conn in H. simpl in H. by rewrite H.
  - unfold close. destruct (is_open (conn self)); simpl;
      exists []; by rewrite app_nil_r.
Qed.

(** C10. [delete_experiment] leaves the [Detector] table as it is and
    removes exactly the [RunDetector] rows of the experiment's runs; over
    any sequence of calls on the store the [Detector] table only grows at
    its end, so every row, with its ID and name, stays; and
    [_get_or_create_detector_id] adds a row only for a name that is in
    neither the cache nor the table. *)
Theorem detector_frame :
  (∀ self experiment_id,
     Detector (conn (delete_experiment self experiment_id)) =
       Detector (conn self)) ∧
  (∀ self experiment_id x,
     x ∈ rows (RunDetector (conn (delete_experiment self experiment_id))) ↔
     x ∈ rows (RunDetector (conn self)) ∧
     ∀ r, r ∈ rows (Run (conn self)) → run_experiment_id r = experiment_id →
          rdet_run_id x ≠ run_run_id r) ∧
  (∀ self calls,
     ∃ extra,
       rows (Detector (conn (foldl call self calls))) =
         rows (Detector (conn self)) ++ extra) ∧
  (∀ self detector_name,
     let self' := (_get_or_create_detector_id self detector_name).1 in
     let detector_id := (_get_or_create_detector_id self detector_name).2 in
     Detector (conn self') = Detector (conn self) ∨
     (_detector_cache self !! detector_name = None ∧
      (∀ d, d ∈ rows (Detector (conn self)) →
            det_detector_name d ≠ detector_name) ∧
      rows (Detector (conn self')) =
        rows (Detector (conn self)) ++
        [{| det_detector_id := detector_id;
            det_detector_name := detector_name;
            det_description := None |}])).
Proof.
  split_and!.
  - apply delete_experiment_Detector.
  - apply delete_experiment_RunDetector.
  - intros self calls. revert self.
    induction calls as [|m calls IH]; intros self.
    + exists []. by rewrite app_nil_r.
    + simpl. destruct (IH (call self m)) as [e2 ->].
      destruct (call_Detector self m) as [e1 ->].
      exists (e1 ++ e2). by rewrite app_assoc.
  - intros self name. unfold _get_or_create_detector_id.
    destruct (_detector_cache self !! name) eqn:Hc; [by left|].
    unfold fetchone.
    destruct (List.find _ _) eqn:Hf; simpl; [by left|]. right.
    split_and!; [done| |done].
    intros d Hd Hname.
    apply list_elem_of_In in Hd.
    eapply find_none in Hf; [|done]. by rewrite bool_decide_eq_false in Hf.
Qed.

(** *** Coalescing writes *)

Lemma coalesced_refl {A} (W : option A → Prop) o : coalesced W o o.
Proof. by left. Qed.

Lemma coalesced_trans {A} (W : option A → Prop) a b c :
  coalesced W a b → coalesced W b c → coalesced W a c.
Proof. intros [->|?] [->|?]; by (left + right). Qed.

Lemma coalesced_COALESCE {A} (W : option A → Prop) new old :
  W new → coalesced W old (COALESCE new old).
Proof. destruct new; [right; eauto|by left]. Qed.

Lemma coalesced_Some {A} (W : option A → Prop) old new :
  coalesced W old new → is_Some old → is_Some new.
Proof. by intros [->|[? _]]. Qed.

Lemma rpd_coalesced_refl sc p : rpd_coalesced sc p p.
Proof. unfold rpd_coalesced; split_and!; done || apply coalesced_refl. Qed.

Lemma rpd_coalesced_trans sc p1 p2 p3 :
  rpd_coalesced sc p1 p2 → rpd_coalesced sc p2 p3 → rpd_coalesced sc p1 p3.
Proof.
  intros (?&?&?&?&?&?&?&?&?) (?&?&?&?&?&?&?&?&?).
  unfold rpd_coalesced; split_and!; try congruence;
    eapply coalesced_trans; eauto.
Qed.

Lemma rpd_extends_same sc c c' :
  RunProductionData c' = RunProductionData c → rpd_extends sc c c'.
Proof.
  intros E.
  exists (rows (RunProductionData c)), []. rewrite app_nil_r, E. split; [done|].
  apply Forall2_same_length_lookup_2; [done|]. intros i x y ??.
  simplify_eq. apply rpd_coalesced_refl.
Qed.

Lemma rpd_extends_refl sc c : rpd_extends sc c c.
Proof. by apply rpd_extends_same. Qed.

Lemma rpd_extends_trans sc c1 c2 c3 :
  rpd_extends sc c1 c2 → rpd_extends sc c2 c3 → rpd_extends sc c1 c3.
Proof.
  intros (u1 & e1 & H1 & F1) (u2 & e2 & H2 & F2).
  rewrite H1 in F2. apply Forall2_app_inv_l in F2 as (u2a & u2b & Fa & Fb & ->).
  exists u2a, (u2b ++ e2). rewrite H2, <-app_assoc. split; [done|].
  assert (Transitive (rpd_coalesced sc)) by (intros ???; apply rpd_coalesced_trans).
  by etrans.
Qed.

Lemma rpd_extends_update sc c f P `{∀ x, Decision (P x)} :
  (∀ p, rpd_coalesced sc p (f p)) →
  rpd_extends sc c
    (set_RunProductionData (update_where P f (RunProductionData c)) c).
Proof.
  intros Hf. eexists _, []. simpl. rewrite app_nil_r. split; [done|].
  apply Forall2_fmap_r, Forall2_same_length_lookup_2; [done|].
  intros i x y ??. simplify_eq. unfold compose.
  case_decide; [apply Hf|apply rpd_coalesced_refl].
Qed.

Lemma execute_rpd_extends sc st c :
  batch_statement sc st → rpd_extends sc c (execute st c).
Proof.
  intros Hst. destruct st; try done; try (by apply rpd_extends_same).
  - apply rpd_extends_update. intros p.
    unfold rpd_coalesced; cbn; split_and!;
      try done; try apply coalesced_refl; apply coalesced_COALESCE; eauto.
  - eexists _, [_]. split; [done|].
    apply Forall2_same_length_lookup_2; [done|]. intros i x y ??.
    simplify_eq. apply rpd_coalesced_refl.
  - apply rpd_extends_update. intros p.
    unfold rpd_coalesced; cbn; split_and!;
      try done; try apply coalesced_refl; apply coalesced_COALESCE; eauto.
  - eexists _, [_]. split; [done|].
    apply Forall2_same_length_lookup_2; [done|]. intros i x y ??.
    simplify_eq. apply rpd_coalesced_refl.
Qed.

Lemma issues_rpd_extends sc self self' :
  issues (batch_statement sc) self self' →
  rpd_extends sc (conn self) (conn self').
Proof.
  intros (l & -> & F). generalize (conn self) as c.
  induction F as [|st l Hst F IH]; intros c; [apply rpd_extends_refl|].
  cbn [execute_all foldl]. fold (execute_all l (execute st c)).
  eapply rpd_extends_trans; [by apply execute_rpd_extends|apply IH].
Qed.

Lemma rpd_coalesced_never_nulled sc p p' :
  rpd_coalesced sc p p' → never_nulled p p'.
Proof.
  intros (?&?&?&?&?&?&?&?&?).
  unfold never_nulled; split_and!; by eapply coalesced_Some.
Qed.

Lemma rpd_extends_lookup sc c c' i p :
  rpd_extends sc c c' → rows (RunProductionData c) !! i = Some p →
  ∃ p', rows (RunProductionData c') !! i = Some p' ∧ rpd_coalesced sc p p'.
Proof.
  intros (u & e & -> & F) Hi.
  destruct (Forall2_lookup_l _ _ _ _ _ F Hi) as (p' & Hp' & Hc).
  exists p'. split; [|done]. by apply lookup_app_l_Some.
Qed.

Lemma get_or_create_run_id_cached self e n :
  let r := _get_or_create_run_id self e n in
  _run_id_cache r.1 !! cache_key e n = Some r.2 ∧
  _detector_cache r.1 = _detector_cache self.
Proof.
  unfold _get_or_create_run_id.
  destruct (_run_id_cache self !! cache_key e n) eqn:E; [done|].
  destruct (fetchone _ _); simpl; by rewrite lookup_insert_eq.
Qed.

Lemma get_or_create_run_id_hit self e n run_id :
  _run_id_cache self !! cache_key e n = Some run_id →
  _get_or_create_run_id self e n = (self, run_id).
Proof. intros H. unfold _get_or_create_run_id. by rewrite H. Qed.

Lemma fetchone_Some {A} (P : A → Prop) `{∀ x, Decision (P x)} t x :
  fetchone P t = Some x → x ∈ rows t ∧ P x.
Proof.
  unfold fetchone. intros Hf. apply find_some in Hf as [Hin HP].
  split; [by apply list_elem_of_In|]. by apply bool_decide_eq_true in HP.
Qed.

Lemma fetchone_None {A} (P : A → Prop) `{∀ x, Decision (P x)} t :
  fetchone P t = None → ∀ x, x ∈ rows t → ¬ P x.
Proof.
  unfold fetchone. intros Hf x Hx HP.
  eapply find_none in Hf; [|by apply list_elem_of_In].
  by apply bool_decide_eq_false in Hf.
Qed.

Lemma get_or_create_run_id_frame self e n :
  let r := _get_or_create_run_id self e n in
  Experiment (conn r.1) = Experiment (conn self) ∧
  RunProductionData (conn r.1) = RunProductionData (conn self) ∧
  Detector (conn r.1) = Detector (conn self) ∧
  RunDetector (conn r.1) = RunDetector (conn self) ∧
  Logbook (conn r.1) = Logbook (conn self) ∧
  Questionnaire (conn r.1) = Questionnaire (conn self) ∧
  Workflow (conn r.1) = Workflow (conn self).
Proof.
  unfold _get_or_create_run_id.
  destruct (_run_id_cache self !! cache_key e n); [done|].
  by destruct (fetchone _ _).
Qed.

(** One production-data write for run [n], seen from the rows of the run:
    afterwards the run has a row, and each of its rows is either the row
    just inserted (when there was none) or an old row, coalesced. *)
Lemma runtable_production_step_rows e self rd n :
  rd_run_number rd = Some n →
  let self' := runtable_production_step e self rd in
  ∃ run_id,
    _run_id_cache self' !! cache_key e n = Some run_id ∧
    (∀ id, _run_id_cache self !! cache_key e n = Some id → run_id = id) ∧
    (∃ p, p ∈ rows (RunProductionData (conn self')) ∧ rpd_run_id p = run_id) ∧
    (∀ p', p' ∈ rows (RunProductionData (conn self')) →
           rpd_run_id p' = run_id →
           ((∀ p, p ∈ rows (RunProductionData (conn self)) →
                  rpd_run_id p ≠ run_id) ∧
            rpd_n_events p' = rd_n_events rd ∧
            rpd_n_damaged p' = rd_n_damaged rd) ∨
           ∃ p, p ∈ rows (RunProductionData (conn self)) ∧
                rpd_run_id p = run_id ∧
                rpd_n_events p' = COALESCE (rd_n_events rd) (rpd_n_events p) ∧
                rpd_n_damaged p' =
                  COALESCE (rd_n_damaged rd) (rpd_n_damaged p)).
Proof.
  intros Hn. unfold runtable_production_step. rewrite Hn.
  pose proof (get_or_create_run_id_cached self e n) as [Hc _].
  pose proof (get_or_create_run_id_frame self e n) as (_ & HR & _).
  assert (Hhit : ∀ id, _run_id_cache self !! cache_key e n = Some id →
                       (_get_or_create_run_id self e n).2 = id).
  { intros id Hid. by rewrite (get_or_create_run_id_hit _ _ _ _ Hid). }
  destruct (_get_or_create_run_id self e n) as [self1 run_id].
  simpl in Hc, HR, Hhit. exists run_id.
  cbn [exec conn set_conn execute RunProductionData set_Run].
  rewrite HR.
  destruct (fetchone _ (RunProductionData (conn self))) as [p0|] eqn:Hf.
  - apply fetchone_Some in Hf as [Hp0 Hid0].
    cbn. split_and!; [done|done| |].
    + eexists. split.
      * apply list_elem_of_fmap. exists p0. split; [done|]. rewrite HR. done.
      * rewrite decide_True by done. done.
    + intros p' Hp' Hid'. right. rewrite HR in Hp'.
      apply list_elem_of_fmap in Hp' as (p & -> & Hp).
      destruct (decide (rpd_run_id p = run_id)) as [Hpid|Hpid];
        [|done]. exists p. done.
  - pose proof (fetchone_None _ _ Hf) as Hnone.
    cbn. rewrite HR. split_and!; [done|done| |].
    + eexists. split; [apply elem_of_app; right; by left|done].
    + intros p' Hp' Hid'. left.
      apply elem_of_app in Hp' as [Hp'|Hp'].
      * by apply Hnone in Hp'.
      * apply list_elem_of_singleton in Hp' as ->. done.
Qed.

Lemma commit_conn self : conn (commit self) = conn_commit (conn self).
Proof. done. Qed.

Lemma rpd_extends_commit sc c : rpd_extends sc c (conn_commit c).
Proof. by apply rpd_extends_same. Qed.

Lemma insert_runtable_single e rd self :
  _insert_runtable_no_commit self
    {| rt_experiment_id := e; rt_data_production := [rd];
       rt_detectors := [] |} =
  runtable_production_step e self rd.
Proof. done. Qed.

(** The example: a write of [n_events = 100] alone, then a write of
    [n_damaged = 5] alone, for the same run of the same experiment. *)
Lemma coalescing_example self e n :
  let first :=
    insert_runtable self
      {| rt_experiment_id := e; rt_data_production := [events_only n];
         rt_detectors := [] |} in
  let second :=
    insert_runtable first
      {| rt_experiment_id := e; rt_data_production := [damaged_only n];
         rt_detectors := [] |} in
  ∃ run_id,
    _run_id_cache second !! cache_key e n = Some run_id ∧
    (∃ p, p ∈ rows (RunProductionData (conn second)) ∧ rpd_run_id p = run_id) ∧
    ∀ p, p ∈ rows (RunProductionData (conn second)) → rpd_run_id p = run_id →
         rpd_n_events p = Some 100 ∧ rpd_n_damaged p = Some 5.
Proof.
  intros first second. unfold second, first, insert_runtable.
  rewrite !insert_runtable_single.
  destruct (runtable_production_step_rows e self (events_only n) n eq_refl)
    as (id1 & Hc1 & _ & _ & Hrows1).
  set (s1 := runtable_production_step e self (events_only n)) in *.
  destruct (runtable_production_step_rows e (commit s1) (damaged_only n) n
              eq_refl) as (id2 & Hc2 & Hhit & Hex2 & Hrows2).
  assert (id2 = id1) as -> by (by apply Hhit).
  exists id1. split_and!; [done|done|].
  intros p Hp Hid.
  destruct (Hrows2 p Hp Hid) as [(Hnone & _)|(p1 & Hp1 & Hid1 & He & Hd)].
  - exfalso. clear -Hnone Hex2 Hrows2 Hrows1 Hc1.
    destruct Hex2 as (p2 & Hp2 & Hid2).
    destruct (Hrows2 p2 Hp2 Hid2) as [(Hn & _)|(p1 & Hp1 & Hid1 & _)];
      [|by apply Hnone in Hp1].
    clear Hn.
    destruct (runtable_production_step_rows e self (events_only n) n eq_refl)
      as (id1' & Hc1' & _ & (p0 & Hp0 & Hid0) & _).
    fold s1 in Hc1', Hp0. rewrite Hc1 in Hc1'. simplify_eq.
    by apply (Hnone p0).
  - simpl in He, Hd. rewrite He, Hd. split; [|done].
    destruct (Hrows1 p1 Hp1 Hid1) as [(_ & -> & _)|(p0 & _ & _ & -> & _)];
      done.
Qed.

(** C2. A run-table write or a file-aggregate write, alone or inside
    [insert_experiment_batch], keeps every [RunProductionData] row in
    place; each column is left as it was or overwritten by a non-null value
    taken from the records written, so no column goes back to null. In
    the example (events only, then damaged only, for one run) the run's row
    ends with [n_events = 100] and [n_damaged = 5]. *)
Theorem production_data_coalescing :
  (∀ self data,
     rpd_extends (runtable_scope data) (conn self)
                 (conn (insert_runtable self data))) ∧
  (∀ self data,
     rpd_extends (file_manager_scope data) (conn self)
                 (conn (insert_file_manager self data))) ∧
  (∀ self data,
     rpd_extends (batch_scope data) (conn self)
                 (conn (insert_experiment_batch self data).1)) ∧
  (∀ sc c c' i p,
     rpd_extends sc c c' → rows (RunProductionData c) !! i = Some p →
     ∃ p', rows (RunProductionData c') !! i = Some p' ∧
           rpd_coalesced sc p p' ∧ never_nulled p p') ∧
  (∀ self e n,
     let first :=
       insert_runtable self
         {| rt_experiment_id := e; rt_data_production := [events_only n];
            rt_detectors := [] |} in
     let second :=
       insert_runtable first
         {| rt_experiment_id := e; rt_data_production := [damaged_only n];
            rt_detectors := [] |} in
     ∃ run_id,
       _run_id_cache second !! cache_key e n = Some run_id ∧
       (∃ p, p ∈ rows (RunProductionData (conn second))
             ∧ rpd_run_id p = run_id) ∧
       ∀ p, p ∈ rows (RunProductionData (conn second)) →
            rpd_run_id p = run_id →
            rpd_n_events p = Some 100 ∧ rpd_n_damaged p = Some 5).
Proof.
  split_and!.
  - intros self data. unfold insert_runtable. rewrite commit_conn.
    eapply rpd_extends_trans; [|apply rpd_extends_commit].
    apply issues_rpd_extends, insert_runtable_issues; simpl; auto.
  - intros self data. unfold insert_file_manager. rewrite commit_conn.
    eapply rpd_extends_trans; [|apply rpd_extends_commit].
    apply issues_rpd_extends, insert_file_manager_issues; simpl; auto.
  - intros self data.
    apply issues_rpd_extends, insert_experiment_batch_issues.
  - intros sc c c' i p Hext Hi.
    destruct (rpd_extends_lookup sc c c' i p Hext Hi) as (p' & ? & ?).
    exists p'. split_and!; [done..|]. by eapply rpd_coalesced_never_nulled.
  - apply coalescing_example.
Qed.

(** The example run on a new store file. *)
Lemma production_data_coalescing_example :
  let first :=
    insert_runtable (__init__ empty_store)
      {| rt_experiment_id := "xpp123"; rt_data_production := [events_only 7];
         rt_detectors := [] |} in
  let second :=
    insert_runtable first
      {| rt_experiment_id := "xpp123"; rt_data_production := [damaged_only 7];
         rt_detectors := [] |} in
  map (λ p, (rpd_run_id p, rpd_n_events p, rpd_n_damaged p))
      (rows (RunProductionData (conn second))) = [(1%nat, Some 100, Some 5)].
Proof. by vm_compute. Qed.

(** *** Run ownership *)

Lemma execute_has_experiment sc st c e :
  batch_statement sc st → has_experiment c e → has_experiment (execute st c) e.
Proof.
  intros Hst (x & Hx & He). destruct st; try done; try (by exists x).
  simpl. destruct (decide (exp_experiment_id x = exp_experiment_id data))
    as [Heq|Hne].
  - exists data. split; [|congruence]. apply elem_of_app. right. by left.
  - exists x. split; [|done]. apply elem_of_app. left.
    by apply list_elem_of_filter.
Qed.

Lemma execute_run_owned sc st c :
  batch_statement sc st → (∀ e, owner sc e → has_experiment c e) →
  run_owned c → run_owned (execute st c).
Proof.
  intros Hst Hown Hc.
  assert (Hmono : ∀ e, has_experiment c e → has_experiment (execute st c) e)
    by (intros; by eapply execute_has_experiment).
  destruct st; try done;
    try (intros r Hr; apply Hmono; by apply Hc).
  - intros r Hr. apply Hmono. simpl in Hr.
    apply elem_of_app in Hr as [Hr|Hr]; [by apply Hc|].
    apply list_elem_of_singleton in Hr as ->. simpl. by apply Hown.
  - intros r Hr. apply Hmono. simpl in Hr.
    apply list_elem_of_fmap in Hr as (r0 & -> & Hr0).
    case_decide; simpl; by apply Hc.
Qed.

Lemma issues_run_owned sc self self' :
  issues (batch_statement sc) self self' →
  (∀ e, owner sc e → has_experiment (conn self) e) →
  run_owned (conn self) → run_owned (conn self').
Proof.
  intros (l & -> & F). generalize (conn self) as c.
  induction F as [|st l Hst F IH]; intros c Hown Hc; [done|].
  cbn [execute_all foldl]. fold (execute_all l (execute st c)).
  apply IH.
  - intros e He. eapply execute_has_experiment; [done|]. by apply Hown.
  - by eapply execute_run_owned.
Qed.

Lemma insert_experiment_run_owned self info :
  run_owned (conn self) →
  run_owned (conn (_insert_experiment_no_commit self info)) ∧
  has_experiment (conn (_insert_experiment_no_commit self info))
                 (exp_experiment_id info) ∧
  ∀ e, has_experiment (conn self) e →
       has_experiment (conn (_insert_experiment_no_commit self info)) e.
Proof.
  intros Hc.
  assert (Hst : batch_statement (batch_scope runs_without_info)
                  (INSERT_OR_REPLACE_Experiment info)) by exact I.
  split_and!.
  - eapply (execute_run_owned
              {| owner e := False; from_runtable rd := True;
                 from_files fr := True |}); [exact I|by intros ? []|done].
  - exists info. split; [|done]. simpl. apply elem_of_app. right. by left.
  - intros e. by apply (execute_has_experiment _ _ _ _ Hst).
Qed.

(** [insert_experiment_batch] keeps run ownership when every experiment the
    record may create runs for has its row already or gets it from the
    record's info facet. *)
Lemma insert_experiment_batch_run_owned self data :
  (∀ e, run_owner data e →
        has_experiment (conn self) e ∨
        ∃ info, c_info data = Some info ∧ exp_experiment_id info = e) →
  run_owned (conn self) →
  run_owned (conn (insert_experiment_batch self data).1).
Proof.
  intros Hanch Hc.
  set (self1 := when_present (c_info data) _insert_experiment_no_commit self).
  assert (H1 : run_owned (conn self1) ∧
               ∀ e, run_owner data e → has_experiment (conn self1) e).
  { unfold self1. destruct (c_info data) as [info|] eqn:Hinfo; simpl.
    - destruct (insert_experiment_run_owned self info Hc) as (? & Hnew & Hold).
      split; [done|]. intros e [?|(info' & [= <-] & <-)]%Hanch; auto.
    - split; [done|]. intros e [?|(? & [=] & _)]%Hanch. done. }
  destruct H1 as [Hc1 Hown1].
  assert (Hiss : issues (batch_statement (batch_scope data)) self1
                        (insert_experiment_batch self data).1).
  { unfold insert_experiment_batch. cbv zeta. fold self1.
    eapply issues_trans; [|destruct (c_workflow data);
                            [apply insert_workflow_issues|by apply issues_refl]].
    eapply issues_trans; [|apply issues_when_present; intros;
                            apply insert_questionnaire_issues].
    eapply issues_trans; [|apply issues_when_present; intros;
                            apply insert_file_manager_issues; simpl;
                            [right; right; eauto|eauto]].
    eapply issues_trans; [|apply issues_when_present; intros;
                            apply insert_runtable_issues; simpl;
                            [right; left; eauto|eauto]].
    apply insert_logbook_issues; intros; left; eauto. }
  by eapply issues_run_owned.
Qed.

Lemma run_owned_frame c c' :
  Run c' = Run c → Experiment c' = Experiment c → run_owned c → run_owned c'.
Proof.
  intros HR HE Hc r Hr. rewrite HR in Hr.
  destruct (Hc r Hr) as (x & Hx & He). exists x. by rewrite HE.
Qed.

Lemma execute_dependents_frame st c :
  dependents_statement st →
  Run (execute st c) = Run c ∧ Experiment (execute st c) = Experiment c.
Proof. by destruct st. Qed.

Lemma execute_all_dependents_frame l c :
  Forall dependents_statement l →
  Run (execute_all l c) = Run c ∧ Experiment (execute_all l c) = Experiment c.
Proof.
  intros F. revert c. induction F as [|st l Hst F IH]; intros c; [done|].
  cbn [execute_all foldl]. fold (execute_all l (execute st c)).
  destruct (execute_dependents_frame st c Hst) as [<- <-]. apply IH.
Qed.

Lemma run_owned_DELETE_Run c e :
  run_owned c →
  run_owned (execute (DELETE_Run e) c) ∧
  ∀ r, r ∈ rows (Run (execute (DELETE_Run e) c)) → run_experiment_id r ≠ e.
Proof.
  intros Hc. split.
  - intros r Hr. simpl in Hr. apply list_elem_of_filter in Hr as [_ Hr].
    destruct (Hc r Hr) as (x & Hx & He). by exists x.
  - intros r Hr. simpl in Hr. by apply list_elem_of_filter in Hr as [? _].
Qed.

Lemma run_owned_DELETE_Experiment c e :
  run_owned c → (∀ r, r ∈ rows (Run c) → run_experiment_id r ≠ e) →
  run_owned (execute (DELETE_Experiment e) c).
Proof.
  intros Hc Hno r Hr. simpl in Hr.
  destruct (Hc r Hr) as (x & Hx & He). exists x. split; [|done].
  simpl. apply list_elem_of_filter. split; [|done].
  rewrite He. by apply Hno.
Qed.

(** Ownership holds after every prefix of the statements of
    [delete_experiment]. *)
Lemma delete_experiment_steps_run_owned c e k :
  run_owned c →
  run_owned (execute_all (take k (delete_experiment_statements c e)) c).
Proof.
  intros Hc. unfold delete_experiment_statements.
  set (pre := flat_map _ _).
  assert (Hpre : Forall dependents_statement pre).
  { apply Forall_flat_map, Forall_forall. intros ??. by repeat constructor. }
  rewrite take_app, execute_all_app.
  set (c1 := execute_all (take k pre) c).
  assert (Hc1 : run_owned c1).
  { destruct (execute_all_dependents_frame (take k pre) c) as [HR HE].
    - by apply Forall_take.
    - by apply (run_owned_frame c). }
  clearbody c1. clear Hc Hpre.
  destruct (k - length pre)%nat as [|[|j]]; [done| |].
  { eapply run_owned_frame; [| |exact Hc1]; done. }
  cbn [take execute_all foldl].
  set (c2 := execute (DELETE_Logbook e) c1).
  assert (Hc2 : run_owned c2) by (eapply run_owned_frame; [| |exact Hc1]; done).
  clearbody c2.
  destruct (run_owned_DELETE_Run c2 e Hc2) as [Hc3 Hno].
  set (c3 := execute (DELETE_Run e) c2) in *. clearbody c3.
  destruct j as [|[|[|j]]]; cbn [take foldl]; [done| | |].
  - eapply run_owned_frame; [| |exact Hc3]; done.
  - eapply run_owned_frame; [| |exact Hc3]; done.
  - assert (Htake : take j ([] : list statement) = []) by by destruct j.
    rewrite Htake. cbn [foldl].
    apply run_owned_DELETE_Experiment.
    + eapply run_owned_frame; [| |exact Hc3]; done.
    + exact Hno.
Qed.

Lemma delete_experiment_run_owned self e :
  run_owned (conn self) → run_owned (conn (delete_experiment self e)).
Proof.
  intros Hc. rewrite delete_experiment_conn.
  pose proof (delete_experiment_steps_run_owned (conn self) e
                (length (delete_experiment_statements (conn self) e)) Hc) as H.
  rewrite firstn_all in H.
  eapply run_owned_frame; [| |exact H]; done.
Qed.

Lemma call_run_owned self m :
  anchored_call m → run_owned (conn self) → run_owned (conn (call self m)).
Proof.
  intros Hm Hc. destruct m; simpl.
  - apply insert_experiment_batch_run_owned; [|done]. intros e He. right.
    by apply Hm.
  - by apply delete_experiment_run_owned.
  - eapply run_owned_frame; [| |exact Hc]; done.
  - eapply run_owned_frame; [| |exact Hc]; done.
  - eapply run_owned_frame; [| |exact Hc]; done.
  - eapply run_owned_frame; [| |exact Hc]; done.
  - unfold close. destruct (is_open (conn self));
      (eapply run_owned_frame; [| |exact Hc]; done).
Qed.

(** C6 (as the code has it). Run ownership is kept by [delete_experiment],
    after each of its statements; by metadata writes, commits and closing;
    and by [insert_experiment_batch] for a record whose experiments, as far
    as it may create runs for them, have a row already or come with the
    record's info facet. Hence it holds in every state reached by calls
    whose composite records carry that info facet. *)
Theorem run_ownership :
  (∀ self experiment_id k,
     run_owned (conn self) →
     run_owned
       (execute_all
          (take k (delete_experiment_statements (conn self) experiment_id))
          (conn self))) ∧
  (∀ self experiment_id,
     run_owned (conn self) →
     run_owned (conn (delete_experiment self experiment_id))) ∧
  (∀ self key value,
     run_owned (conn self) → run_owned (conn (set_metadata self key value))) ∧
  (∀ self data,
     (∀ e, run_owner data e →
           has_experiment (conn self) e ∨
           ∃ info, c_info data = Some info ∧ exp_experiment_id info = e) →
     run_owned (conn self) →
     run_owned (conn (insert_experiment_batch self data).1)) ∧
  (∀ self calls,
     Forall anchored_call calls → run_owned (conn self) →
     run_owned (conn (foldl call self calls))).
Proof.
  split_and!.
  - intros. by apply delete_experiment_steps_run_owned.
  - intros. by apply delete_experiment_run_owned.
  - intros self key value Hc. by apply (call_run_owned self (Call_set_metadata key value)).
  - apply insert_experiment_batch_run_owned.
  - intros self calls F. revert self.
    induction F as [|m calls Hm F IH]; intros self Hc; [done|].
    simpl. apply IH. by apply call_run_owned.
Qed.

(** C6, as stated, fails: on a new store, inserting a record that has a run
    table and no info facet leaves a [Run] row without its [Experiment]. *)
Lemma run_ownership_counterexample :
  run_owned (conn (__init__ empty_store)) ∧
  ¬ run_owned
      (conn (call (__init__ empty_store)
                  (Call_insert_experiment_batch runs_without_info))).
Proof.
  split.
  - intros r Hr. by apply elem_of_nil in Hr.
  - intros H.
    destruct (H {| run_run_id := 1; run_run_number := 7;
                   run_experiment_id := "xpp123";
                   run_start_time := None; run_end_time := None |})
      as (x & Hx & _).
    + vm_compute. left.
    + vm_compute in Hx. by apply elem_of_nil in Hx.
Qed.

Lemma run_ownership_witness :
  run_owned
    (conn (foldl call (__init__ empty_store)
             [Call_insert_experiment_batch
                {| c_experiment_id := Some "xpp123";
                   c_error := None;
                   c_info :=
                     Some {| exp_experiment_id := "xpp123";
                             exp_name := None; exp_instrument := None;
                             exp_start_time := None; exp_end_time := None;
                             exp_pi := None; exp_pi_email := None;
                             exp_leader_account := None;
                             exp_description := None;
                             exp_slack_channels := None;
                             exp_analysis_queues := None;
                             exp_urawi_proposal := None |};
                   c_logbook := [];
                   c_runtable := c_runtable runs_without_info;
                   c_file_manager := None;
                   c_questionnaire := None;
                   c_workflow := None |};
              Call_commit;
              Call_delete_experiment "xpp123"])).
Proof.
  destruct run_ownership as (_ & _ & _ & _ & H). apply H.
  - repeat constructor. intros e [(entry & Hin & _)|[(rt & [= <-] & <-)|(? & [=] & _)]].
    + by apply elem_of_nil in Hin.
    + eexists. split; [done|]. done.
  - intros r Hr. by apply elem_of_nil in Hr.
Defined.

End DatabaseFacts.


Module LockingFacts.
Import Py Spec Locking.

Lemma close_flocks fd w path holder :
  flocks (close fd w) !! path = Some holder ↔
  flocks w !! path = Some holder ∧ holder ≠ fd.
Proof. unfold close. simpl. by rewrite map_lookup_filter_Some. Qed.

Lemma close_flocks_None fd w path :
  flocks w !! path = None ∨ flocks w !! path = Some fd →
  flocks (close fd w) !! path = None.
Proof.
  intros H. unfold close. simpl. apply map_lookup_filter_None.
  destruct H as [H|H]; [by left|]. right. intros x Hx. simpl.
  rewrite H in Hx. intros Hne. by simplify_eq.
Qed.

Lemma close_wf fd w : os_wf w → os_wf (close fd w).
Proof.
  intros [Hlt Hheld]. split.
  - intros fd' path. simpl. intros [_ H]%lookup_delete_Some. by eapply Hlt.
  - intros path fd' [H Hne]%close_flocks. simpl.
    rewrite lookup_delete_ne by done. by apply Hheld.
Qed.

Lemma release_closed lock_file w :
  open_files w !! lock_file = None → release lock_file w = close lock_file w.
Proof. intros H. unfold release, flock_UN. by rewrite H. Qed.

Lemma close_close fd w : close fd (close fd w) = close fd w.
Proof.
  unfold close. simpl. f_equal.
  - by rewrite delete_delete_eq.
  - apply map_eq. intros path. apply option_eq. intros holder.
    rewrite !map_lookup_filter_Some. tauto.
Qed.

(** Entering while another description holds the lock. *)
Lemma acquire_lock_enter_contended lock_path w holder :
  os_wf w → flocks w !! lock_path = Some holder →
  ∃ w',
    acquire_lock_enter lock_path false w =
      (w', EnterRaised
             (Exn LockError
                ("Another instance is already running (lock: "
                 +:+ lock_path +:+ ")"))) ∧
    flocks w' !! lock_path = Some holder ∧
    open_files w' !! next_fd w = None ∧
    os_wf w'.
Proof.
  intros [Hlt Hheld] Hholder.
  assert (Hne : holder ≠ next_fd w).
  { apply Hheld, Hlt in Hholder. lia. }
  unfold acquire_lock_enter, open_w, flock_EX. cbn [open_files flocks next_fd].
  rewrite lookup_insert_eq, Hholder, decide_False by done. cbn [exn_class_of].
  eexists. split; [reflexivity|].
  rewrite release_closed by (simpl; apply lookup_delete_eq).
  rewrite close_close.
  split_and!.
  - apply close_flocks. by split.
  - simpl. apply lookup_delete_eq.
  - apply close_wf. split; simpl.
    + intros fd path [[-> _]|[_ H]]%lookup_insert_Some; [lia|].
      apply Hlt in H. lia.
    + intros path fd Hfd. pose proof (Hheld _ _ Hfd) as Hopen.
      rewrite lookup_insert_ne; [done|]. apply Hlt in Hopen. lia.
Qed.

(** Entering while nobody holds the lock. *)
Lemma acquire_lock_enter_free lock_path w :
  os_wf w → flocks w !! lock_path = None →
  ∃ held,
    acquire_lock_enter lock_path false w = (held, Yielded (next_fd w)) ∧
    flocks held !! lock_path = Some (next_fd w) ∧
    open_files held !! next_fd w = Some lock_path ∧
    os_wf held ∧
    flocks (release (next_fd w) held) !! lock_path = None ∧
    open_files (release (next_fd w) held) !! next_fd w = None ∧
    os_wf (release (next_fd w) held).
Proof.
  intros [Hlt Hheld] Hfree.
  unfold acquire_lock_enter, open_w, flock_EX. cbn [open_files flocks next_fd].
  rewrite lookup_insert_eq, Hfree.
  eexists. split; [reflexivity|].
  assert (Hwf : os_wf
    {| next_fd := S (next_fd w);
       open_files := <[next_fd w:=lock_path]> (open_files w);
       flocks := <[lock_path:=next_fd w]> (flocks w) |}).
  { split; simpl.
    - intros fd path [[-> _]|[_ H]]%lookup_insert_Some; [lia|].
      apply Hlt in H. lia.
    - intros path fd [[-> <-]|[Hne H]]%lookup_insert_Some.
      + by rewrite lookup_insert_eq.
      + pose proof (Hheld _ _ H) as Hopen. rewrite lookup_insert_ne; [done|].
        apply Hlt in Hopen. lia. }
  split_and!; [by simpl; rewrite lookup_insert_eq
              |by simpl; rewrite lookup_insert_eq|done| | |].
  - unfold release, flock_UN. cbn [open_files]. rewrite lookup_insert_eq.
    apply close_flocks_None. left. cbn [flocks].
    apply map_lookup_filter_None. right. intros fd Hfd. simpl.
    rewrite lookup_insert_eq in Hfd. intros ?. by simplify_eq.
  - unfold release, flock_UN. cbn [open_files]. rewrite lookup_insert_eq.
    simpl. apply lookup_delete_eq.
  - unfold release, flock_UN. cbn [open_files]. rewrite lookup_insert_eq.
    apply close_wf. destruct Hwf as [Hlt' Hheld']. split; simpl.
    + exact Hlt'.
    + intros path fd [H _]%map_lookup_filter_Some. by apply Hheld'.
Qed.

Lemma initial_os_wf : os_wf initial_os.
Proof. split; intros ? ?; simpl; by rewrite lookup_empty. Qed.

Lemma held_by_another_spec lock_path :
  os_wf (held_by_another lock_path) ∧
  flocks (held_by_another lock_path) !! lock_path = Some 0%nat.
Proof.
  destruct (acquire_lock_enter_free lock_path initial_os initial_os_wf)
    as (held & He & Hlock & _ & Hwf & _); [apply lookup_empty|].
  unfold held_by_another. rewrite He. by split.
Qed.

(** C8. Exclusivity lock. On a system whose descriptions and locks are
    consistent: when another description holds the lock on [lock_path], a
    non-blocking [with acquire_lock(lock_path)] raises [LockError] at once,
    the body is not run (its state is the one it started from), the holder
    keeps the lock, the handle opened for the attempt is closed, and
    [update] turns the error into exit status 1. When nobody holds the lock,
    the scope yields a handle that holds it while the body runs; after the
    body has ended, by returning or by raising, the lock is gone and the
    handle is closed, and the next acquisition on the path yields again. *)
Theorem exclusivity_lock {S A : Type} (lock_path : string)
    (body : S → S * outcome A) (w : os) (s : S) :
  os_wf w →
  (∀ holder, flocks w !! lock_path = Some holder →
     ∃ w',
       with_acquire_lock lock_path false body w s =
         (w', s, Some (Raise (Exn LockError
                   ("Another instance is already running (lock: "
                    +:+ lock_path +:+ ")")))) ∧
       Cli.update_locked lock_path body w s =
         (w', s, Some (Return (Cli.SystemExit 1))) ∧
       flocks w' !! lock_path = Some holder ∧
       open_files w' !! next_fd w = None) ∧
  (flocks w !! lock_path = None →
     ∃ held w',
       acquire_lock_enter lock_path false w = (held, Yielded (next_fd w)) ∧
       flocks held !! lock_path = Some (next_fd w) ∧
       with_acquire_lock lock_path false body w s =
         (w', (body s).1, Some (body s).2) ∧
       flocks w' !! lock_path = None ∧
       open_files w' !! next_fd w = None ∧
       ∃ held', acquire_lock_enter lock_path false w' =
                  (held', Yielded (next_fd w'))).
Proof.
  intros Hwf. split.
  - intros holder Hholder.
    destruct (acquire_lock_enter_contended lock_path w holder Hwf Hholder)
      as (w' & He & Hkept & Hclosed & _).
    exists w'. unfold Cli.update_locked, with_acquire_lock. rewrite He.
    by split_and!.
  - intros Hfree.
    destruct (acquire_lock_enter_free lock_path w Hwf Hfree)
      as (held & He & Hlock & _ & _ & Hgone & Hclosed & Hwf').
    exists held, (release (next_fd w) held).
    split_and!; [done|done| |done|done|].
    + unfold with_acquire_lock. rewrite He. by destruct (body s).
    + destruct (acquire_lock_enter_free lock_path _ Hwf' Hgone)
        as (held' & He' & _). by exists held'.
Qed.

Lemma exclusivity_lock_witness :
  os_wf (held_by_another "elog.lock") ∧
  ∃ w',
    Cli.update_locked "elog.lock" (λ n : nat, (S n, Return tt))
      (held_by_another "elog.lock") 0%nat =
      (w', 0%nat, Some (Return (Cli.SystemExit 1))) ∧
    flocks w' !! "elog.lock" = Some 0%nat.
Proof.
  destruct (held_by_another_spec "elog.lock") as [Hwf Hheld].
  split; [exact Hwf|].
  destruct (exclusivity_lock "elog.lock" (λ n : nat, (S n, Return tt))
              (held_by_another "elog.lock") 0%nat Hwf) as [Hbusy _].
  destruct (Hbusy 0%nat Hheld) as (w' & _ & Hexit & Hkept & _).
  exists w'. by split.
Defined.

(** X7. Blocking acquisition. With [blocking=True] the scope never raises
    [LockError]: while another handle holds the lock the call to [flock]
    does not return, the body is not run, and the handle opened for the
    request stays open; when nobody holds the lock the scope is entered as
    in the non-blocking case. *)
Theorem blocking_acquire {S A : Type} (lock_path : string)
    (body : S → S * outcome A) (w : os) (s : S) :
  os_wf w →
  (∀ holder, flocks w !! lock_path = Some holder →
     ∃ w',
       with_acquire_lock lock_path true body w s = (w', s, None)
       ∧ flocks w' !! lock_path = Some holder
       ∧ open_files w' !! next_fd w = Some lock_path)
  ∧ (flocks w !! lock_path = None →
     with_acquire_lock lock_path true body w s
     = with_acquire_lock lock_path false body w s).
Proof.
  intros [Hlt Hheld]. split.
  - intros holder Hholder.
    assert (Hne : holder ≠ next_fd w).
    { apply Hheld, Hlt in Hholder. lia. }
    unfold with_acquire_lock, acquire_lock_enter, open_w, flock_EX.
    cbn [open_files flocks next_fd].
    rewrite lookup_insert_eq, Hholder, decide_False by done.
    eexists. split; [reflexivity|]. cbn. split; [done|].
    apply lookup_insert_eq.
  - intros Hfree.
    unfold with_acquire_lock, acquire_lock_enter, open_w, flock_EX.
    cbn [open_files flocks next_fd].
    by rewrite lookup_insert_eq, Hfree.
Qed.

Lemma blocking_acquire_witness :
  os_wf (held_by_another "elog.lock") ∧
  ∃ w',
    with_acquire_lock "elog.lock" true (λ n : nat, (S n, Return tt))
      (held_by_another "elog.lock") 0%nat = (w', 0%nat, None).
Proof.
  destruct (held_by_another_spec "elog.lock") as [Hwf Hheld].
  split; [exact Hwf|].
  destruct (blocking_acquire "elog.lock" (λ n : nat, (S n, Return tt))
              (held_by_another "elog.lock") 0%nat Hwf) as [Hbusy _].
  destruct (Hbusy 0%nat Hheld) as (w' & Hw & _).
  by exists w'.
Defined.

(** X8. Locks on other files. Entering and leaving the scope for one lock
    file, whether the body returns or raises, never takes or drops the
    lock on another file: a lock held on [other_path] before is held by
    the same handle after, and a lock file that was free stays free. *)
Theorem other_locks_untouched {S A : Type} (lock_path other_path : string)
    (blocking : bool) (body : S → S * outcome A) (w : os) (s : S) :
  os_wf w → other_path ≠ lock_path →
  flocks (with_acquire_lock lock_path blocking body w s).1.1 !! other_path
  = flocks w !! other_path.
Proof.
  intros [Hlt Hheld] Hne.
  assert (Hkeep : ∀ m : gmap string nat,
            m !! other_path = flocks w !! other_path →
            filter (λ kv : string * nat, kv.2 ≠ next_fd w) m !! other_path
            = flocks w !! other_path).
  { intros m Hm. destruct (flocks w !! other_path) as [h|] eqn:Hh.
    - apply map_lookup_filter_Some. split; [done|]. cbn.
      apply Hheld, Hlt in Hh. lia.
    - apply map_lookup_filter_None. by left. }
  unfold with_acquire_lock, acquire_lock_enter, open_w, flock_EX.
  cbn [open_files flocks next_fd]. rewrite lookup_insert_eq.
  destruct (flocks w !! lock_path) as [holder|] eqn:Hl.
  - destruct (decide (holder = next_fd w)) as [->|Hh].
    { apply Hheld, Hlt in Hl. lia. }
    destruct blocking; [done|]. cbn [exn_class_of].
    unfold release, flock_UN, close. cbn [open_files flocks next_fd fst].
    rewrite lookup_delete_eq. cbn [flocks fst]. by do 2 apply Hkeep.
  - destruct (body s) as [s' result].
    unfold release, flock_UN, close. cbn [open_files flocks next_fd fst].
    rewrite lookup_insert_eq. cbn [flocks fst].
    do 2 apply Hkeep. by rewrite lookup_insert_ne.
Qed.

Lemma other_locks_untouched_witness :
  os_wf (held_by_another "a.lock") ∧
  flocks (with_acquire_lock "b.lock" false (λ n : nat, (S n, Return tt))
            (held_by_another "a.lock") 0%nat).1.1 !! "a.lock"
  = flocks (held_by_another "a.lock") !! "a.lock".
Proof.
  destruct (held_by_another_spec "a.lock") as [Hwf Hheld].
  split; [exact Hwf|].
  by apply (other_locks_untouched "b.lock" "a.lock" false).
Defined.

End LockingFacts.

Module CliFacts.
Import Py Spec Database Cli.

(** One experiment: the calls made are the six in order up to the first
    that raises, and one item is put: the composite record, or the error
    result of the exception raised. *)
Lemma fetch_and_queue_spec api exp_id p :
  ∃ data,
    (fetch_and_queue api exp_id p).1 =
      {| calls := calls p ++ calls_for api exp_id;
         data_queue := data_queue p ++ [Some data] |} ∧
    (fetch_and_queue api exp_id p).2 = exp_id ∧
    c_experiment_id data = Some exp_id ∧
    match first_raise api exp_id with
    | Some e => data = error_result exp_id (exn_str e)
    | None => c_error data = None ∧
              calls_for api exp_id = map (λ ep, (ep, exp_id)) endpoints
    end.
Proof.
  unfold fetch_and_queue, fetch_data, calls_for, first_raise, endpoints.
  unfold mbind, fetching_bind, mret, fetching_ret, call.
  cbn [upto_first_raise omap raises list_omap].
  destruct (fetch_experiment_info api exp_id); cbn;
    [|eexists; split_and!; try reflexivity; by rewrite <- ?app_assoc].
  destruct (fetch_logbook api exp_id); cbn;
    [|eexists; split_and!; try reflexivity; by rewrite <- ?app_assoc].
  destruct (fetch_runtable api exp_id); cbn;
    [|eexists; split_and!; try reflexivity; by rewrite <- ?app_assoc].
  destruct (fetch_file_manager api exp_id); cbn;
    [|eexists; split_and!; try reflexivity; by rewrite <- ?app_assoc].
  destruct (fetch_questionnaire api exp_id); cbn;
    [|eexists; split_and!; try reflexivity; by rewrite <- ?app_assoc].
  destruct (fetch_workflow api exp_id); cbn;
    eexists; split_and!; try reflexivity; by rewrite <- ?app_assoc.
Qed.

Lemma ceil_div_spec b k r :
  1 ≤ b → 0 ≤ r < b →
  ceil_div (b * k + r) b = k + (if 0 <? r then 1 else 0).
Proof.
  intros Hb Hr. unfold ceil_div. symmetry.
  destruct (Z.ltb_spec 0 r).
  - apply Z.div_unique with (r := r - 1); lia.
  - apply Z.div_unique with (r := b - 1); lia.
Qed.

(** *** The writer *)

Section WriterFacts.
Context (now : nat → string) (config : Config) (incremental : bool).

Lemma delete_experiment_open self e :
  is_open (conn (delete_experiment self e)) = is_open (conn self).
Proof.
  rewrite DatabaseFacts.delete_experiment_conn. simpl.
  apply DatabaseFacts.execute_all_delete_frame,
    DatabaseFacts.delete_experiment_statements_delete.
Qed.

Lemma insert_experiment_batch_open self data :
  is_open (conn (insert_experiment_batch self data).1) = is_open (conn self).
Proof.
  eapply DatabaseFacts.issues_events,
    DatabaseFacts.insert_experiment_batch_issues.
Qed.

(** The connection stays open through the loop. *)
Lemma writer_turn_open w data :
  is_open (conn (db w)) = true →
  match writer_turn now config incremental w data with
  | Continue w' | Break w' | Escapes w' _ => is_open (conn (db w')) = true
  end.
Proof.
  intros Hopen. unfold writer_turn.
  destruct data as [data|]; [|done].
  destruct (c_experiment_id data) as [exp_id|]; [|done].
  destruct (c_error data); [done|].
  set (d := if incremental then delete_experiment (db w) exp_id else db w).
  assert (Hd : is_open (conn d) = true).
  { subst d. destruct incremental; [|done].
    by rewrite delete_experiment_open. }
  pose proof (insert_experiment_batch_open d data) as Hins.
  destruct (insert_experiment_batch d data) as [d' [[]|e]]; simpl in *.
  - destruct (batch_commit_size config <=? batch_count w + 1); simpl; congruence.
  - congruence.
Qed.

Lemma writer_loop_open queue w :
  is_open (conn (db w)) = true →
  is_open (conn (db (writer_loop now config incremental w queue).1)) = true.
Proof.
  revert w. induction queue as [|data queue IH]; intros w Hopen; [done|].
  cbn [writer_loop]. pose proof (writer_turn_open w data Hopen) as Hturn.
  destruct (writer_turn now config incremental w data); [by apply IH|done..].
Qed.

Lemma writer_try_open queue w :
  is_open (conn (db w)) = true →
  is_open (conn (db (writer_try now config incremental w queue).1)) = true.
Proof.
  intros Hopen. unfold writer_try.
  pose proof (writer_loop_open queue w Hopen) as Hloop.
  destruct (writer_loop now config incremental w queue) as [w' [e|]];
    [done|].
  by destruct (0 <? batch_count w').
Qed.

Lemma writer_started_open file :
  is_open (conn (db (writer_started file))) = true.
Proof. done. Qed.

(** What the loop leaves in [error_holder]. *)
Lemma writer_try_escaped queue w :
  (writer_try now config incremental w queue).2 =
  (writer_loop now config incremental w queue).2.
Proof.
  unfold writer_try.
  destruct (writer_loop now config incremental w queue) as [w' [e|]];
    [done|].
  by destruct (0 <? batch_count w').
Qed.

(** The [finally] block on an open connection. *)
Lemma writer_finally_spec w :
  is_open (conn (db w)) = true →
  let c := conn (db (writer_finally now config w)) in
  Metadata c =
    <["hours_lookback" := hours_lookback config]>
      (<["last_update" := now (clock w)]> (Metadata (conn (db w)))) ∧
  events c =
    events (conn (db w)) ++ [EvCommit; EvCommit] ++ finalize_sequence ∧
  journal_mode c = DELETE ∧
  is_open c = false.
Proof.
  intros Hopen. unfold writer_finally, close, set_metadata. simpl.
  rewrite Hopen. simpl. split_and!; try done.
  by rewrite <- !app_assoc.
Qed.

(** *** Commits *)

Lemma commits_conn_commit c : commits (conn_commit c) = S (commits c).
Proof.
  unfold commits, conn_commit. simpl. rewrite filter_app, length_app.
  simpl. lia.
Qed.

Lemma delete_experiment_commits self e :
  commits (conn (delete_experiment self e)) = S (commits (conn self)).
Proof.
  rewrite DatabaseFacts.delete_experiment_conn, commits_conn_commit.
  f_equal. unfold commits. f_equal. f_equal.
  apply DatabaseFacts.execute_all_delete_frame,
    DatabaseFacts.delete_experiment_statements_delete.
Qed.

Lemma insert_experiment_batch_commits self data :
  commits (conn (insert_experiment_batch self data).1) = commits (conn self).
Proof.
  unfold commits. f_equal. f_equal.
  eapply DatabaseFacts.issues_events,
    DatabaseFacts.insert_experiment_batch_issues.
Qed.

(** Through the loop the successes not yet committed are [batch_count],
    below the batch size; each batch of that size has had one commit, and
    in incremental mode each attempted write one more. *)
Lemma writer_loop_commits queue w :
  1 ≤ batch_commit_size config →
  0 ≤ batch_count w < batch_commit_size config →
  let w' := (writer_loop now config incremental w queue).1 in
  ∃ k, 0 ≤ k ∧
    0 ≤ batch_count w' < batch_commit_size config ∧
    success_count w' - batch_count w' =
      success_count w - batch_count w + batch_commit_size config * k ∧
    committed w' =
      committed w + k +
      (if incremental then Z.of_nat (write_attempts queue) else 0).
Proof.
  intros HB. revert w.
  induction queue as [|data queue IH]; intros w Hbc; cbv zeta in *.
  { exists 0. cbn. destruct incremental; repeat split; lia. }
  cbn [writer_loop write_attempts]. unfold writer_turn.
  destruct data as [data|];
    [|exists 0; cbn; destruct incremental; repeat split; lia].
  destruct (c_experiment_id data) as [exp_id|];
    [|exists 0; cbn; destruct incremental; repeat split; lia].
  destruct (c_error data) as [error|]; cbv beta iota.
  { destruct (IH (record_failure now exp_id error w) Hbc)
      as (k & Hk & Hbc' & Hsc & Hc).
    exists k. split; [lia|]. split; [lia|]. split; [exact Hsc|].
    rewrite Hc. done. }
  set (d := if incremental then delete_experiment (db w) exp_id else db w).
  assert (Hd : Z.of_nat (commits (conn d)) =
               committed w + (if incremental then 1 else 0)).
  { subst d. unfold committed. destruct incremental; [|lia].
    rewrite delete_experiment_commits. lia. }
  pose proof (insert_experiment_batch_commits d data) as Hins.
  destruct (insert_experiment_batch d data) as [d' [[]|e]]; simpl in Hins;
    cbv beta iota.
  - destruct (Z.leb_spec (batch_commit_size config) (batch_count w + 1))
      as [Hfull|Hpart]; cbv beta iota zeta.
    + match goal with |- context [writer_loop _ _ _ ?w1 queue] =>
        destruct (IH w1) as (k & Hk & Hbc' & Hsc & Hc); [simpl; lia|]
      end.
      exists (k + 1). split; [lia|]. split; [lia|].
      split; [simpl in Hsc; nia|].
      rewrite Hc. unfold committed at 1. simpl.
      rewrite commits_conn_commit, Hins.
      destruct incremental; lia.
    + match goal with |- context [writer_loop _ _ _ ?w1 queue] =>
        destruct (IH w1) as (k & Hk & Hbc' & Hsc & Hc); [simpl; lia|]
      end.
      exists k. split; [lia|]. split; [lia|].
      split; [simpl in Hsc; nia|].
      rewrite Hc. unfold committed at 1. simpl. rewrite Hins.
      destruct incremental; lia.
  - match goal with |- context [writer_loop _ _ _ ?w1 queue] =>
      destruct (IH w1) as (k & Hk & Hbc' & Hsc & Hc); [simpl; lia|]
    end.
    exists k. split; [lia|]. split; [lia|].
    split; [simpl in Hsc; lia|].
    rewrite Hc. unfold committed at 1. simpl. rewrite Hins.
    destruct incremental; lia.
Qed.

(** C5. Finalize-always and writer-fatal re-raise. For every store file
    and every sequence of items the channel delivers, [writer_thread] ends,
    and whether its loop ended normally or an exception escaped the
    per-record handling, the [finally] block has written the completion
    time and the configured lookback window to [Metadata] (each with its
    commit) and closed the store through the finalize sequence: full WAL
    checkpoint, journal mode switched to DELETE, connection closed. An
    exception that escaped the loop is what [error_holder] holds, and
    [_do_update], which joins the writer and then looks at [error_holder],
    raises it; otherwise it returns the counts. *)
Theorem finalize_always file queue :
  let tried := writer_try now config incremental (writer_started file) queue in
  let escaped :=
    (writer_loop now config incremental (writer_started file) queue).2 in
  let w := (writer_thread now config incremental file queue).1 in
  let error_holder := (writer_thread now config incremental file queue).2 in
  let c := conn (db w) in
  Metadata c !! "last_update" = Some (now (clock tried.1)) ∧
  Metadata c !! "hours_lookback" = Some (hours_lookback config) ∧
  events c =
    events (conn (db tried.1)) ++ [EvCommit; EvCommit] ++ finalize_sequence ∧
  journal_mode c = DELETE ∧
  is_open c = false ∧
  error_holder = match escaped with Some e => [e] | None => [] end ∧
  after_join w error_holder =
    (c, match escaped with
        | Some e => Raise e
        | None => Return (success_count w, failed_experiments w)
        end) ∧
  ∀ api experiments,
    _do_update now config incremental api experiments file =
    let p := put_sentinel
               (fetch_all api experiments {| calls := []; data_queue := [] |}) in
    after_join
      (writer_thread now config incremental file (data_queue p)).1
      (writer_thread now config incremental file (data_queue p)).2.
Proof.
  intros tried escaped w error_holder c.
  assert (Hw : w = writer_finally now config tried.1).
  { subst w tried. unfold writer_thread. fold (writer_started file).
    by destruct (writer_try now config incremental (writer_started file)
                   queue). }
  assert (Hholder :
    error_holder = match escaped with Some e => [e] | None => [] end).
  { subst error_holder escaped. unfold writer_thread.
    fold (writer_started file).
    rewrite <- (writer_try_escaped queue (writer_started file)).
    by destruct (writer_try now config incremental (writer_started file)
                   queue). }
  destruct (writer_finally_spec tried.1
              (writer_try_open queue _ (writer_started_open file)))
    as (HM & Hev & Hj & Ho).
  subst c. rewrite Hw, HM, Hev, Hj, Ho.
  split_and!; try done.
  - rewrite lookup_insert_ne by done. by rewrite lookup_insert_eq.
  - by rewrite lookup_insert_eq.
  - rewrite <- Hw, Hholder. by destruct escaped.
  - intros api experiments. unfold _do_update. cbv zeta.
    generalize (data_queue
                  (put_sentinel
                     (fetch_all api experiments
                        {| calls := []; data_queue := [] |}))).
    intros q. by destruct (writer_thread now config incremental file q).
Qed.

(** C3. Commit batching. For every batch size [B >= 1] and every run of
    the writer whose loop ends without an escaping exception, with [N] the
    number of experiments successfully processed: the drain loop and its
    exit issue [ceil(N / B)] batch commits, and in incremental mode one
    more commit for every record the writer tries to write, issued by
    [delete_experiment]. So without incremental mode the count is exactly
    [ceil(N / B)], and in incremental mode it exceeds it as soon as one
    record is written. *)
Theorem commit_batching file queue :
  1 ≤ batch_commit_size config →
  (writer_loop now config incremental (writer_started file) queue).2 = None →
  drain_commits now config incremental file queue =
    ceil_div
      (success_count
         (writer_try now config incremental (writer_started file) queue).1)
      (batch_commit_size config)
    + (if incremental then Z.of_nat (write_attempts queue) else 0).
Proof.
  intros HB Hloop. unfold drain_commits.
  destruct (writer_loop_commits queue (writer_started file) HB)
    as (k & Hk & Hbc & Hsc & Hc); [simpl; lia|].
  unfold writer_try.
  destruct (writer_loop now config incremental (writer_started file) queue)
    as [w' escaped].
  simpl in Hloop, Hbc, Hsc, Hc. subst escaped.
  assert (HN : success_count w' = batch_commit_size config * k + batch_count w')
    by lia.
  destruct (Z.ltb_spec 0 (batch_count w')) as [Hpos|Hzero]; cbn [fst].
  - cbn [success_count]. rewrite HN, ceil_div_spec by lia.
    unfold committed at 1. cbn [db]. rewrite DatabaseFacts.commit_conn,
      commits_conn_commit.
    fold (committed w') in Hc.
    replace (0 <? batch_count w') with true by (symmetry; lia).
    unfold committed in Hc |- *. lia.
  - rewrite HN, ceil_div_spec by lia.
    replace (0 <? batch_count w') with false by (symmetry; lia).
    lia.
Qed.

End WriterFacts.

(** An item without [experiment_id] ends the loop with [KeyError]; the
    store is finalized all the same and [_do_update]'s tail raises. *)
Lemma loop_fatal_example now config incremental :
  (writer_thread now config incremental empty_store
     [Some nameless_item; None]).2 =
    [Exn KeyError "'experiment_id'"] ∧
  journal_mode
    (conn (db (writer_thread now config incremental empty_store
                 [Some nameless_item; None]).1)) = DELETE.
Proof. by split. Qed.

(** Incremental mode, batch size 2, two experiments written: three commits
    where [ceil(2 / 2)] is one. *)
Lemma commit_batching_counterexample :
  success_count
    (writer_try (λ _, "2024-01-15T10:00:00"%string) (batches_of 2) true
       (writer_started empty_store) two_records).1 = 2 ∧
  ceil_div 2 2 = 1 ∧
  drain_commits (λ _, "2024-01-15T10:00:00"%string) (batches_of 2) true
    empty_store two_records = 3.
Proof. split_and!; by vm_compute. Qed.

Lemma commit_batching_witness :
  1 ≤ batch_commit_size (batches_of 2) ∧
  (writer_loop (λ _, "2024-01-15T10:00:00"%string) (batches_of 2) true
     (writer_started empty_store) two_records).2 = None ∧
  drain_commits (λ _, "2024-01-15T10:00:00"%string) (batches_of 2) true
    empty_store two_records = 1 + 2.
Proof.
  split; [done|]. split; [reflexivity|].
  rewrite (commit_batching (λ _, "2024-01-15T10:00:00"%string) (batches_of 2)
             true empty_store two_records); [reflexivity|done|reflexivity].
Defined.

End CliFacts.

Module IdempotenceFacts.
Import Py Spec LogbookApi Database.

(** *** Lists and finite sets *)

Lemma length_filter_split {A} (P : A → Prop) `{∀ x, Decision (P x)}
    (l : list A) :
  (length (filter P l) + length (filter (λ x, ¬ P x) l))%nat = length l.
Proof.
  induction l as [|x l IH]; [done|].
  rewrite !filter_cons. destruct (decide (P x)) as [Hx|Hx].
  - rewrite decide_False by tauto. simpl. lia.
  - rewrite decide_True by done. simpl. lia.
Qed.

Lemma filter_ext_in {A} (P Q : A → Prop) `{∀ x, Decision (P x)}
    `{∀ x, Decision (Q x)} (l : list A) :
  (∀ x, x ∈ l → P x ↔ Q x) → filter P l = filter Q l.
Proof.
  induction l as [|x l IH]; intros HPQ; [done|].
  rewrite !filter_cons.
  rewrite IH by (intros y Hy; apply HPQ; by right).
  destruct (decide (P x)) as [Hx|Hx].
  - rewrite decide_True; [done|]. apply HPQ; [by left|done].
  - rewrite decide_False; [done|]. intros HQ. apply Hx, HPQ; [by left|done].
Qed.

Lemma filter_all {A} (P : A → Prop) `{∀ x, Decision (P x)} (l : list A) :
  (∀ x, x ∈ l → P x) → filter P l = l.
Proof.
  induction l as [|x l IH]; intros HP; [done|].
  rewrite filter_cons, decide_True by (apply HP; by left).
  f_equal. apply IH. intros y Hy. apply HP. by right.
Qed.

Lemma filter_none {A} (P : A → Prop) `{∀ x, Decision (P x)} (l : list A) :
  (∀ x, x ∈ l → ¬ P x) → filter P l = [].
Proof.
  induction l as [|x l IH]; intros HP; [done|].
  rewrite filter_cons, decide_False by (apply HP; by left).
  apply IH. intros y Hy. apply HP. by right.
Qed.

Lemma NoDup_map_inj_in {A B} (f : A → B) (l : list A) x y :
  NoDup (map f l) → x ∈ l → y ∈ l → f x = f y → x = y.
Proof.
  induction l as [|z l IH]; intros Hnd Hx Hy Hf.
  - by apply elem_of_nil in Hx.
  - simpl in Hnd. apply NoDup_cons in Hnd as [Hz Hnd].
    apply elem_of_cons in Hx as [->|Hx], Hy as [->|Hy].
    + done.
    + exfalso. apply Hz. rewrite Hf. apply list_elem_of_fmap. eauto.
    + exfalso. apply Hz. rewrite <- Hf. apply list_elem_of_fmap. eauto.
    + by apply IH.
Qed.

(** Two finite sets in one-to-one correspondence have the same size. *)
Lemma size_rel {A B} `{Countable A} `{Countable B} (R : A → B → Prop)
    (SA : gset A) (SB : gset B) :
  (∀ a, a ∈ SA → ∃ b, b ∈ SB ∧ R a b) →
  (∀ b, b ∈ SB → ∃ a, a ∈ SA ∧ R a b) →
  (∀ a b b', a ∈ SA → R a b → R a b' → b = b') →
  (∀ a a' b, b ∈ SB → R a b → R a' b → a = a') →
  size SA = size SB.
Proof.
  revert SB. induction SA as [|a SA Ha IH] using set_ind_L;
    intros SB Hab Hba Hfun Hinj.
  - rewrite size_empty. symmetry. apply size_empty_iff, elem_of_equiv_empty.
    intros b Hb. destruct (Hba b Hb) as (a & Ha & _).
    by apply elem_of_empty in Ha.
  - destruct (Hab a) as (b & Hb & Rab); [apply elem_of_union_l;
      by apply elem_of_singleton|].
    assert (HSB : SB = {[b]} ∪ SB ∖ {[b]}).
    { apply set_eq. intros x. rewrite elem_of_union, elem_of_difference,
        elem_of_singleton.
      destruct (decide (x = b)) as [->|]; tauto. }
    rewrite HSB, !size_union, !size_singleton.
    + f_equal. apply IH.
      * intros a' Ha'. destruct (Hab a') as (b' & Hb' & Rab');
          [by apply elem_of_union_r|].
        exists b'. split; [|done].
        apply elem_of_difference. split; [done|].
        rewrite elem_of_singleton. intros ->.
        apply Ha. by rewrite (Hinj a a' b Hb Rab Rab').
      * intros b' [Hb' Hne]%elem_of_difference.
        rewrite elem_of_singleton in Hne.
        destruct (Hba b' Hb') as (a' & [Ha'|Ha']%elem_of_union & Rab').
        -- apply elem_of_singleton in Ha' as ->. exfalso. apply Hne.
           eapply Hfun; [|exact Rab'|exact Rab].
           apply elem_of_union_l. by apply elem_of_singleton.
        -- eauto.
      * intros a' b1 b2 Ha'. apply Hfun. by apply elem_of_union_r.
      * intros a1 a2 b' [Hb' _]%elem_of_difference. by apply Hinj.
    + intros x Hx [_ Hx']%elem_of_difference. done.
    + intros x Hx%elem_of_singleton Hx'. subst. done.
Qed.

(** *** What [delete_experiment] leaves *)

(** The statements issued per run id. *)
Lemma delete_per_run_spec ids c :
  let c' :=
    execute_all
      (flat_map (λ run_id, [DELETE_RunDetector run_id;
                            DELETE_RunProductionData run_id]) ids) c in
  rows (RunProductionData c')
    = filter (λ p, rpd_run_id p ∉ ids) (rows (RunProductionData c))
  ∧ seq (RunProductionData c') = seq (RunProductionData c)
  ∧ rows (RunDetector c')
    = filter (λ x, rdet_run_id x ∉ ids) (rows (RunDetector c))
  ∧ seq (RunDetector c') = seq (RunDetector c)
  ∧ Experiment c' = Experiment c ∧ Run c' = Run c ∧ Logbook c' = Logbook c
  ∧ Questionnaire c' = Questionnaire c ∧ Workflow c' = Workflow c
  ∧ Detector c' = Detector c.
Proof.
  cbv zeta. revert c. induction ids as [|a ids IH]; intros c.
  - cbn. split_and!; try done; symmetry; apply filter_all; intros ? _;
      apply not_elem_of_nil.
  - cbn [flat_map]. rewrite !DatabaseFacts.execute_all_app.
    destruct (IH (execute_all [DELETE_RunDetector a;
                               DELETE_RunProductionData a] c))
      as (-> & -> & -> & -> & -> & -> & -> & -> & -> & ->).
    cbn. rewrite !list_filter_filter.
    split_and!; try done; apply filter_ext_in; intros x _;
      rewrite not_elem_of_cons; tauto.
Qed.

Lemma delete_experiment_tables self X :
  let c := conn self in
  let c' := conn (delete_experiment self X) in
  Experiment c' = filter (λ x, exp_experiment_id x ≠ X) (Experiment c)
  ∧ rows (Run c') = filter (λ r, run_experiment_id r ≠ X) (rows (Run c))
  ∧ seq (Run c') = seq (Run c)
  ∧ rows (RunProductionData c')
    = filter (λ p, rpd_run_id p ∉ run_ids_of c X)
             (rows (RunProductionData c))
  ∧ rows (RunDetector c')
    = filter (λ x, rdet_run_id x ∉ run_ids_of c X) (rows (RunDetector c))
  ∧ rows (Logbook c')
    = filter (λ l, log_experiment_id l ≠ X) (rows (Logbook c))
  ∧ rows (Questionnaire c')
    = filter (λ q, q_experiment_id q ≠ X) (rows (Questionnaire c))
  ∧ rows (Workflow c')
    = filter (λ w, wf_experiment_id w ≠ X) (rows (Workflow c))
  ∧ Detector c' = Detector c.
Proof.
  cbv zeta. rewrite DatabaseFacts.delete_experiment_conn.
  unfold delete_experiment_statements. cbv zeta.
  rewrite DatabaseFacts.execute_all_app.
  fold (run_ids_of (conn self) X).
  destruct (delete_per_run_spec (run_ids_of (conn self) X) (conn self))
    as (Hp & _ & Hx & _ & He & Hr & Hl & Hq & Hw & Hd).
  cbv zeta in Hp, Hx, He, Hr, Hl, Hq, Hw, Hd.
  cbn. rewrite Hp, Hx, He, Hr, Hl, Hq, Hw, Hd. done.
Qed.

Lemma NoDup_map_filter {A B} (f : A → B) (P : A → Prop)
    `{∀ x, Decision (P x)} (l : list A) :
  NoDup (map f l) → NoDup (map f (filter P l)).
Proof.
  induction l as [|x l IH]; intros Hnd; [done|].
  simpl in Hnd. apply NoDup_cons in Hnd as [Hx Hnd].
  rewrite filter_cons. destruct (decide (P x)); [|by apply IH].
  simpl. apply NoDup_cons. split; [|by apply IH].
  intros (y & Hf & Hy)%list_elem_of_fmap. apply Hx.
  apply list_elem_of_fmap. exists y. split; [done|].
  apply list_elem_of_filter in Hy. tauto.
Qed.

Lemma run_rel_deleted self X e n i :
  run_rel (conn (delete_experiment self X)) e n i
  ↔ run_rel (conn self) e n i ∧ e ≠ X.
Proof.
  destruct (delete_experiment_tables self X) as (_ & Hr & _).
  cbv zeta in Hr. unfold run_rel. rewrite Hr. split.
  - intros (r & [Hne Hin]%list_elem_of_filter & Hi & He & Hn).
    split; [by exists r|congruence].
  - intros [(r & Hin & Hi & He & Hn) Hne]. exists r. split; [|done].
    apply list_elem_of_filter. split; [congruence|done].
Qed.

(** On a store that holds nothing of [X], the invariants of writing hold
    with nothing written. *)
Lemma writing_start X self :
  store_wf (conn self) → cache_wf self →
  (∀ x, x ∈ Experiment (conn self) → exp_experiment_id x ≠ X) →
  (∀ r, r ∈ rows (Run (conn self)) → run_experiment_id r ≠ X) →
  (∀ l, l ∈ rows (Logbook (conn self)) → log_experiment_id l ≠ X) →
  (∀ q, q ∈ rows (Questionnaire (conn self)) → q_experiment_id q ≠ X) →
  (∀ w, w ∈ rows (Workflow (conn self)) → wf_experiment_id w ≠ X) →
  writing X (conn self) nothing_seen self.
Proof.
  intros [Hids Hseq Hpseq Hxseq Hdids Hdseq Hdnames] [Hrc Hdc]
    He Hr Hl Hq Hw.
  assert (Hnox : ∀ n i, ¬ run_rel (conn self) X n i).
  { intros n i (r & Hin & _ & Hex & _). by apply Hr in Hin. }
  split.
  - split; cbn [s_exp s_log s_fields s_workflows nothing_seen].
    + by apply filter_all.
    + rewrite filter_none; [done|]. intros x Hx. by apply He in Hx.
    + by apply filter_all.
    + rewrite filter_none; [done|]. intros x Hx. by apply Hl in Hx.
    + by apply filter_all.
    + rewrite filter_none; [constructor|]. intros x Hx. by apply Hq in Hx.
    + intros f. rewrite filter_none.
      * simpl. rewrite !elem_of_nil. done.
      * intros x Hx. by apply Hq in Hx.
    + by apply filter_all.
    + rewrite filter_none; [done|]. intros x Hx. by apply Hw in Hx.
  - split; cbn [s_runs nothing_seen]; try done.
    + by apply filter_all.
    + intros r Hin. split.
      * intros Hlt. apply Hseq in Hin. lia.
      * intros Hex. by apply Hr in Hin.
    + intros n. rewrite elem_of_nil. split; [done|].
      intros [i Hi]. by apply Hnox in Hi.
    + intros n i i' Hi. by apply Hnox in Hi.
  - split; cbn [s_runs s_rpd nothing_seen]; try done.
    + by apply filter_all.
    + rewrite filter_none; [constructor|]. intros p Hin%Hpseq. lia.
    + intros i Hi. split.
      * intros (p & -> & Hin%Hpseq)%list_elem_of_fmap. lia.
      * intros (n & Hn & _). by apply elem_of_nil in Hn.
  - split; cbn [s_rdet nothing_seen]; try done.
    intros name. simpl. rewrite elem_of_nil. tauto.
  - split; cbn [s_runs s_rdet nothing_seen]; try done.
    + by apply filter_all.
    + rewrite filter_none; [constructor|]. intros x Hin%Hxseq. lia.
    + intros i j Hi. split.
      * intros (x & Hk & Hin%Hxseq)%list_elem_of_fmap.
        unfold rdet_key in Hk. injection Hk as -> _. lia.
      * intros (n & name & Hn & _). by apply elem_of_nil in Hn.
    + intros n name Hn. by apply elem_of_nil in Hn.
Qed.

Lemma filter_key_other {A K} (key : A → K) `{EqDecision K} (X Y : K)
    (l : list A) :
  Y ≠ X →
  filter (λ x, key x = Y) (filter (λ x, key x ≠ X) l)
  = filter (λ x, key x = Y) l.
Proof.
  intros Hne. rewrite list_filter_filter. apply filter_ext_in.
  intros x _. intuition congruence.
Qed.

Lemma length_filter_key {A K} (key : A → K) `{EqDecision K} (X : K)
    (l : list A) :
  (length (filter (λ x, key x ≠ X) l) + length (filter (λ x, key x = X) l))%nat
  = length l.
Proof.
  rewrite <- (length_filter_split (λ x, key x = X) l).
  by rewrite Nat.add_comm.
Qed.

Lemma elem_of_run_ids_of c e i :
  i ∈ run_ids_of c e ↔ ∃ n, run_rel c e n i.
Proof.
  unfold run_ids_of, run_rel. rewrite list_elem_of_fmap. split.
  - intros (r & -> & [He Hin]%list_elem_of_filter). by exists (run_run_number r), r.
  - intros (n & r & Hin & Hi & He & Hn). exists r. split; [done|].
    apply list_elem_of_filter. done.
Qed.

(** A run id belongs to one experiment. *)
Lemma run_rel_owner c e e' n n' i :
  NoDup (map run_run_id (rows (Run c))) →
  run_rel c e n i → run_rel c e' n' i → e = e' ∧ n = n'.
Proof.
  intros Hnd (r & Hin & Hi & He & Hn) (r' & Hin' & Hi' & He' & Hn').
  assert (r = r') as <-.
  { eapply NoDup_map_inj_in; eauto. congruence. }
  split; congruence.
Qed.

Lemma delete_experiment_wf self X :
  store_wf (conn self) → cache_wf self →
  store_wf (conn (delete_experiment self X))
  ∧ cache_wf (delete_experiment self X).
Proof.
  intros [Hids Hseq Hpseq Hxseq Hdids Hdseq Hdnames] [Hrc Hdc].
  destruct (delete_experiment_tables self X)
    as (He & Hr & Hrs & Hp & Hx & Hl & Hq & Hw & Hd).
  cbv zeta in He, Hr, Hrs, Hp, Hx, Hl, Hq, Hw, Hd.
  split; split.
  - rewrite Hr. by apply NoDup_map_filter.
  - intros r. rewrite Hr, Hrs. intros [_ Hin]%list_elem_of_filter. eauto.
  - intros p. rewrite Hp, Hrs. intros [_ Hin]%list_elem_of_filter. eauto.
  - intros x. rewrite Hx, Hrs. intros [_ Hin]%list_elem_of_filter. eauto.
  - by rewrite Hd.
  - by rewrite Hd.
  - by rewrite Hd.
  - intros e n i [Hc Hsw]%map_lookup_filter_Some. simpl in Hsw.
    apply run_rel_deleted. split; [by apply Hrc|].
    intros ->. by rewrite PyFacts.startswith_cache_key in Hsw.
  - intros name j Hj. destruct (Hdc name j Hj) as (d & Hin & Hid & Hnm).
    exists d. by rewrite Hd.
Qed.

Lemma delete_experiment_free self X :
  let c1 := conn (delete_experiment self X) in
  (∀ x, x ∈ Experiment c1 → exp_experiment_id x ≠ X)
  ∧ (∀ r, r ∈ rows (Run c1) → run_experiment_id r ≠ X)
  ∧ (∀ l, l ∈ rows (Logbook c1) → log_experiment_id l ≠ X)
  ∧ (∀ q, q ∈ rows (Questionnaire c1) → q_experiment_id q ≠ X)
  ∧ (∀ w, w ∈ rows (Workflow c1) → wf_experiment_id w ≠ X).
Proof.
  destruct (delete_experiment_tables self X)
    as (He & Hr & Hrs & Hp & Hx & Hl & Hq & Hw & Hd).
  cbv zeta in *. rewrite He, Hr, Hl, Hq, Hw.
  split_and!; intros x [? _]%list_elem_of_filter; done.
Qed.

(** After [delete_experiment] nothing of the experiment is left, and the
    invariants of writing hold with nothing written. *)
Lemma delete_experiment_writing self X :
  store_wf (conn self) → cache_wf self →
  writing X (conn (delete_experiment self X)) nothing_seen
    (delete_experiment self X).
Proof.
  intros Hwf Hcache.
  destruct (delete_experiment_wf self X Hwf Hcache) as [Hwf' Hcache'].
  destruct (delete_experiment_free self X) as (He & Hr & Hl & Hq & Hw).
  by apply writing_start.
Qed.

(** The rows [delete_experiment] removes are those of the experiment. *)
Lemma delete_experiment_counts self X :
  store_wf (conn self) →
  let c1 := conn (delete_experiment self X) in
  counts_plus (ledger c1) (owned (conn self) X) = ledger (conn self)
  ∧ (∀ Y, Y ≠ X → owned c1 Y = owned (conn self) Y)
  ∧ Detector c1 = Detector (conn self).
Proof.
  intros [Hids Hseq Hpseq Hxseq Hdids Hdseq Hdnames].
  destruct (delete_experiment_tables self X)
    as (He & Hr & Hrs & Hp & Hx & Hl & Hq & Hw & Hd).
  cbv zeta in *. split; [|split; [|done]].
  - unfold counts_plus, ledger, owned. rewrite He, Hr, Hp, Hx, Hl, Hq, Hw.
    cbn [n_Experiment n_Run n_RunProductionData n_Detector n_RunDetector
         n_Logbook n_Questionnaire n_Workflow].
    f_equal; try apply length_filter_key.
    + rewrite Nat.add_comm. apply length_filter_split.
    + rewrite Nat.add_comm. apply length_filter_split.
  - intros Y Hne.
    assert (Hruns : filter (λ r, run_experiment_id r = Y)
                      (rows (Run (conn (delete_experiment self X))))
                    = filter (λ r, run_experiment_id r = Y)
                        (rows (Run (conn self)))).
    { rewrite Hr. by apply filter_key_other. }
    assert (Hown : ∀ i, i ∈ run_ids_of (conn self) Y →
                        i ∉ run_ids_of (conn self) X).
    { intros i [n Hn]%elem_of_run_ids_of [n' Hn']%elem_of_run_ids_of.
      by destruct (run_rel_owner _ _ _ _ _ _ Hids Hn Hn'). }
    unfold owned, run_ids_of. rewrite Hruns.
    fold (run_ids_of (conn self) Y).
    rewrite He, Hp, Hx, Hl, Hq, Hw.
    rewrite !filter_key_other by done.
    f_equal; rewrite list_filter_filter; f_equal; apply filter_ext_in;
      intros x _; split; try tauto; intros Hin; split; auto.
Qed.

(** *** The invariants depend on their tables only *)

Lemma flat_inv_ext X c1 σ c c' :
  Experiment c' = Experiment c → Logbook c' = Logbook c →
  Questionnaire c' = Questionnaire c → Workflow c' = Workflow c →
  flat_inv X c1 σ c → flat_inv X c1 σ c'.
Proof.
  intros He Hl Hq Hw [H1 H2 H3 H4 H5 H6 H7 H8 H9].
  split; rewrite ?He, ?Hl, ?Hq, ?Hw; done.
Qed.

Lemma run_rel_ext c c' e n i :
  Run c' = Run c → run_rel c' e n i ↔ run_rel c e n i.
Proof. unfold run_rel. by intros ->. Qed.

Lemma det_rel_ext c c' name j :
  Detector c' = Detector c → det_rel c' name j ↔ det_rel c name j.
Proof. unfold det_rel. by intros ->. Qed.

Lemma runs_inv_ext X c1 lr self self' :
  Run (conn self') = Run (conn self) →
  _run_id_cache self' = _run_id_cache self →
  runs_inv X c1 lr self → runs_inv X c1 lr self'.
Proof.
  intros Hr Hc [H1 H2 H3 H4 H5 H6 H7 H8].
  split; rewrite ?Hr, ?Hc; try done.
  - intros n. rewrite H6. by setoid_rewrite (run_rel_ext _ _ _ _ _ Hr).
  - intros n i i'. rewrite !(run_rel_ext _ _ _ _ _ Hr). apply H7.
  - intros e n i Hi. rewrite (run_rel_ext _ _ _ _ _ Hr). by apply H8.
Qed.

Lemma det_inv_ext c1 ld self self' :
  Detector (conn self') = Detector (conn self) →
  _detector_cache self' = _detector_cache self →
  det_inv c1 ld self → det_inv c1 ld self'.
Proof.
  intros Hd Hc [H1 H2 H3 H4 H5].
  split; rewrite ?Hd, ?Hc; try done.
  intros name j Hj. rewrite (det_rel_ext _ _ _ _ Hd). by apply H5.
Qed.

(** [RunProductionData] is left alone while [Run] grows or changes. *)
Lemma rpd_inv_runs X c1 lr lr' lp c c' :
  RunProductionData c' = RunProductionData c →
  (seq (Run c) ≤ seq (Run c'))%nat →
  (∀ m i, run_rel c X m i → run_rel c' X m i) →
  (∀ m i, m ∈ lp → run_rel c' X m i → run_rel c X m i) →
  (∀ m, m ∈ lr → m ∈ lr') →
  rpd_inv X c1 lr lp c → rpd_inv X c1 lr' lp c'.
Proof.
  intros Hp Hseq Hmono Hback Hsub [H1 H2 H3 H4 H5].
  split; rewrite ?Hp; try done.
  - intros p Hin. apply H2 in Hin. lia.
  - intros i Hi. rewrite (H4 i Hi). split.
    + intros (n & Hn & Hrel). eauto.
    + intros (n & Hn & Hrel). eauto.
  - eauto.
Qed.

(** [RunDetector] is left alone while [Run] and [Detector] grow or
    change. *)
Lemma rdet_inv_runs X c1 lr lr' ld c c' :
  RunDetector c' = RunDetector c →
  (seq (Run c) ≤ seq (Run c'))%nat →
  (∀ m i, run_rel c X m i → run_rel c' X m i) →
  (∀ m name i, (m, name) ∈ ld → run_rel c' X m i → run_rel c X m i) →
  (∀ name j, det_rel c name j → det_rel c' name j) →
  (∀ m name j, (m, name) ∈ ld → det_rel c' name j → det_rel c name j) →
  (∀ m, m ∈ lr → m ∈ lr') →
  rdet_inv X c1 lr ld c → rdet_inv X c1 lr' ld c'.
Proof.
  intros Hx Hseq Hmono Hback Hdmono Hdback Hsub [H1 H2 H3 H4 H5].
  split; rewrite ?Hx; try done.
  - intros x Hin. apply H2 in Hin. lia.
  - intros i j Hi. rewrite (H4 i j Hi). split.
    + intros (n & name & Hn & Hrel & Hdet). eauto 10.
    + intros (n & name & Hn & Hrel & Hdet). eauto 10.
  - intros n name Hn. destruct (H5 n name Hn) as (Hlr & j & Hj). eauto.
Qed.

(** *** Runs *)

Lemma run_rel_insert c e n e' m i :
  run_rel (execute (INSERT_Run e n) c) e' m i
  ↔ run_rel c e' m i ∨ (e' = e ∧ m = n ∧ i = S (seq (Run c))).
Proof.
  unfold run_rel. cbn. setoid_rewrite elem_of_app.
  setoid_rewrite list_elem_of_singleton. split.
  - intros (r & [Hin| ->] & Hi & He & Hn); [left; by exists r|].
    right. simpl in *. done.
  - intros [(r & Hin & H)|(-> & -> & ->)]; [exists r; tauto|].
    eexists. split; [by right|]. done.
Qed.

Lemma run_rel_update c start_time end_time i0 e m i :
  run_rel (execute (UPDATE_Run start_time end_time i0) c) e m i
  ↔ run_rel c e m i.
Proof.
  unfold run_rel. cbn. setoid_rewrite list_elem_of_fmap. split.
  - intros (r' & (r & -> & Hin) & Hi & He & Hn). exists r.
    split; [done|]. by destruct (decide (run_run_id r = i0)).
  - intros (r & Hin & Hi & He & Hn). eexists. split; [by exists r|].
    by destruct (decide (run_run_id r = i0)).
Qed.

Lemma runs_inv_known X c1 lr self n :
  (∃ i, run_rel (conn self) X n i) →
  runs_inv X c1 lr self → runs_inv X c1 (lr ++ [n]) self.
Proof.
  intros Hn [H1 H2 H3 H4 H5 H6 H7 H8]. split; try done.
  intros m. rewrite elem_of_app, list_elem_of_singleton, H6.
  split; [|tauto]. intros [?| ->]; done.
Qed.

Lemma runs_inv_cache X c1 lr self n i :
  run_rel (conn self) X n i →
  runs_inv X c1 lr self →
  runs_inv X c1 lr
    {| conn := conn self;
       _run_id_cache := <[cache_key X n := i]> (_run_id_cache self);
       _detector_cache := _detector_cache self |}.
Proof.
  intros Hn [H1 H2 H3 H4 H5 H6 H7 H8]. split; try done.
  cbn [conn _run_id_cache]. intros e m j.
  destruct (decide (cache_key X n = cache_key e m)) as [Heq|Hne].
  - rewrite Heq, lookup_insert_eq. intros [= <-].
    apply PyFacts.cache_key_inj in Heq as [<- <-]. done.
  - rewrite lookup_insert_ne by done. apply H8.
Qed.

(** [_get_or_create_run_id] for the experiment being written: the id
    returned is that of the run, which is looked up or inserted. *)
Lemma get_or_create_run_id_spec X c1 lr self n :
  runs_inv X c1 lr self →
  let r := _get_or_create_run_id self X n in
  runs_inv X c1 (lr ++ [n]) r.1
  ∧ run_rel (conn r.1) X n r.2
  ∧ (seq (Run c1) < r.2)%nat
  ∧ _detector_cache r.1 = _detector_cache self
  ∧ ((conn r.1 = conn self ∧ ∃ i, run_rel (conn self) X n i)
     ∨ (conn r.1 = execute (INSERT_Run X n) (conn self)
        ∧ ¬ ∃ i, run_rel (conn self) X n i)).
Proof.
  intros Hinv. cbv zeta. unfold _get_or_create_run_id.
  assert (Hnew : ∀ i, run_rel (conn self) X n i → (seq (Run c1) < i)%nat).
  { intros i (r & Hin & <- & He & _). by apply (ri_new _ _ _ _ Hinv). }
  destruct (_run_id_cache self !! cache_key X n) as [i|] eqn:Hc.
  { pose proof (ri_cache _ _ _ _ Hinv _ _ _ Hc) as Hrel. cbn [fst snd].
    split_and!; eauto using runs_inv_known. }
  destruct (fetchone _ _) as [r0|] eqn:Hf.
  { apply DatabaseFacts.fetchone_Some in Hf as (Hin & He & Hn).
    assert (Hrel : run_rel (conn self) X n (run_run_id r0)) by by exists r0.
    cbn [fst snd conn _detector_cache].
    split_and!; eauto.
    apply runs_inv_cache; [done|]. apply runs_inv_known; eauto. }
  pose proof (DatabaseFacts.fetchone_None _ _ Hf) as Hnone.
  assert (Hfresh : ¬ ∃ i, run_rel (conn self) X n i).
  { intros (i & r & Hin & _ & He & Hn). by apply (Hnone r Hin). }
  cbn [fst snd conn _detector_cache exec set_conn].
  assert (Hseq : seq (Run (execute (INSERT_Run X n) (conn self)))
                 = S (seq (Run (conn self)))) by done.
  rewrite Hseq.
  assert (Hrel : run_rel (execute (INSERT_Run X n) (conn self)) X n
                   (S (seq (Run (conn self))))).
  { apply run_rel_insert. by right. }
  destruct Hinv as [H1 H2 H3 H4 H5 H6 H7 H8].
  split_and!; [|done|lia|done|by right].
  split; cbn [conn _run_id_cache].
  - rewrite Hseq. lia.
  - cbn. rewrite map_app. apply NoDup_app. split_and!; [done| |].
    + intros i (r & -> & Hin%H3)%list_elem_of_fmap.
      cbn. rewrite list_elem_of_singleton. lia.
    + cbn. apply NoDup_singleton.
  - rewrite Hseq. cbn.
    intros r [Hin%H3| ->%list_elem_of_singleton]%elem_of_app; [lia|].
    cbn. lia.
  - cbn. rewrite filter_app, H4.
    rewrite (filter_none _ [_]); [by rewrite app_nil_r|].
    intros r ->%list_elem_of_singleton. cbn. lia.
  - cbn. intros r [Hin| ->%list_elem_of_singleton]%elem_of_app;
      [by apply H5|].
    cbn. split; [done|lia].
  - intros m. rewrite elem_of_app, list_elem_of_singleton, H6.
    setoid_rewrite run_rel_insert. split.
    + intros [[i Hi]| ->]; eauto.
    + intros [i [Hi|(_ & -> & _)]]; eauto.
  - intros m i i'. rewrite !run_rel_insert.
    intros [Hi|(_ & -> & ->)] [Hi'|(_ & Hm & ->)]; try done.
    + by eapply H7.
    + subst m. exfalso. eauto.
    + exfalso. eauto.
  - intros e m j.
    destruct (decide (cache_key X n = cache_key e m)) as [Heq|Hne].
    + rewrite Heq, lookup_insert_eq. intros [= <-].
      apply PyFacts.cache_key_inj in Heq as [<- <-]. done.
    + rewrite lookup_insert_ne by done. intros Hj.
      apply run_rel_insert. left. by apply H8.
Qed.

Lemma flat_inv_same X c1 σ σ' c c' :
  s_exp σ' = s_exp σ → s_log σ' = s_log σ → s_fields σ' = s_fields σ →
  s_workflows σ' = s_workflows σ →
  Experiment c' = Experiment c → Logbook c' = Logbook c →
  Questionnaire c' = Questionnaire c → Workflow c' = Workflow c →
  flat_inv X c1 σ c → flat_inv X c1 σ' c'.
Proof.
  intros S1 S2 S3 S4 He Hl Hq Hw [H1 H2 H3 H4 H5 H6 H7 H8 H9].
  split; rewrite ?He, ?Hl, ?Hq, ?Hw, ?S1, ?S2, ?S3, ?S4; done.
Qed.

Lemma get_or_create_run_id_writing X c1 σ self n :
  writing X c1 σ self →
  let r := _get_or_create_run_id self X n in
  writing X c1 (see_run n σ) r.1
  ∧ run_rel (conn r.1) X n r.2
  ∧ (seq (Run c1) < r.2)%nat.
Proof.
  intros [Hf Hr Hp Hd Hx]. cbv zeta.
  destruct (get_or_create_run_id_spec X c1 (s_runs σ) self n Hr)
    as (Hr' & Hrel & Hlt & Hdc & Hcases).
  cbv zeta in Hr', Hrel, Hlt, Hdc, Hcases.
  split; [|done].
  assert (Hsub : ∀ m, m ∈ s_runs σ → m ∈ s_runs σ ++ [n]).
  { intros m Hm. apply elem_of_app. by left. }
  destruct Hcases as [[Hc _]|[Hc Hfresh]].
  - split; cbn [s_runs s_rpd s_rdet see_run]; try done.
    + eapply flat_inv_same; [..|exact Hf]; by rewrite ?Hc.
    + eapply rpd_inv_runs; [..|exact Hp]; rewrite ?Hc; auto.
    + eapply det_inv_ext; [..|exact Hd]; by rewrite ?Hc.
    + eapply rdet_inv_runs; [..|exact Hx]; rewrite ?Hc; auto.
  - assert (Hold : ∀ m i, m ∈ s_runs σ →
                          run_rel (execute (INSERT_Run X n) (conn self)) X m i →
                          run_rel (conn self) X m i).
    { intros m i Hm [Hi|(_ & -> & _)]%run_rel_insert; [done|].
      exfalso. apply Hfresh. by apply (ri_seen _ _ _ _ Hr). }
    split; cbn [s_runs s_rpd s_rdet see_run]; try done.
    + eapply flat_inv_same; [..|exact Hf]; by rewrite ?Hc.
    + eapply rpd_inv_runs; [..|exact Hp]; rewrite ?Hc; auto.
      * cbn. lia.
      * intros m i Hi. apply run_rel_insert. by left.
      * intros m i Hm. apply Hold. by apply (pi_sub _ _ _ _ _ Hp).
    + eapply det_inv_ext; [..|exact Hd]; by rewrite ?Hc.
    + eapply rdet_inv_runs; [..|exact Hx]; rewrite ?Hc; auto.
      * cbn. lia.
      * intros m i Hi. apply run_rel_insert. by left.
      * intros m name i Hm. apply Hold.
        by apply (xi_sub _ _ _ _ _ Hx) in Hm as [Hm _].
Qed.

(** *** Statements on [Experiment], [Logbook], [Questionnaire], [Workflow] *)

Lemma rpd_inv_ext X c1 lr lp c c' :
  Run c' = Run c → RunProductionData c' = RunProductionData c →
  rpd_inv X c1 lr lp c → rpd_inv X c1 lr lp c'.
Proof.
  intros Hr Hp. apply rpd_inv_runs; rewrite ?Hr; auto.
  - intros m i. by rewrite (run_rel_ext _ _ _ _ _ Hr).
  - intros m i _. by rewrite (run_rel_ext _ _ _ _ _ Hr).
Qed.

Lemma rdet_inv_ext X c1 lr ld c c' :
  Run c' = Run c → Detector c' = Detector c →
  RunDetector c' = RunDetector c →
  rdet_inv X c1 lr ld c → rdet_inv X c1 lr ld c'.
Proof.
  intros Hr Hd Hx. apply rdet_inv_runs; rewrite ?Hr; auto.
  - intros m i. by rewrite (run_rel_ext _ _ _ _ _ Hr).
  - intros m name i _. by rewrite (run_rel_ext _ _ _ _ _ Hr).
  - intros name j. by rewrite (det_rel_ext _ _ _ _ Hd).
  - intros m name j _. by rewrite (det_rel_ext _ _ _ _ Hd).
Qed.

(** A statement that leaves the run tables and the caches alone. *)
Lemma writing_flat X c1 σ σ' self self' :
  s_runs σ' = s_runs σ → s_rpd σ' = s_rpd σ → s_rdet σ' = s_rdet σ →
  Run (conn self') = Run (conn self) →
  RunProductionData (conn self') = RunProductionData (conn self) →
  Detector (conn self') = Detector (conn self) →
  RunDetector (conn self') = RunDetector (conn self) →
  _run_id_cache self' = _run_id_cache self →
  _detector_cache self' = _detector_cache self →
  flat_inv X c1 σ' (conn self') →
  writing X c1 σ self → writing X c1 σ' self'.
Proof.
  intros S1 S2 S3 Hr Hp Hd Hx Hrc Hdc Hf [_ Hri Hpi Hdi Hxi].
  split; rewrite ?S1, ?S2, ?S3; [done|..].
  - by eapply runs_inv_ext.
  - by eapply rpd_inv_ext.
  - by eapply det_inv_ext.
  - by eapply rdet_inv_ext.
Qed.

Lemma filter_key_same {A K} (key : A → K) `{EqDecision K} (X : K)
    (l : list A) :
  filter (λ x, key x ≠ X) (filter (λ x, key x ≠ X) l)
  = filter (λ x, key x ≠ X) l.
Proof.
  rewrite list_filter_filter. apply filter_ext_in. intros x _. tauto.
Qed.

Lemma filter_key_gone {A K} (key : A → K) `{EqDecision K} (X : K)
    (l : list A) :
  filter (λ x, key x = X) (filter (λ x, key x ≠ X) l) = [].
Proof.
  apply filter_none. intros x [Hne _]%list_elem_of_filter. done.
Qed.

Lemma insert_experiment_writing X c1 σ self info :
  exp_experiment_id info = X →
  writing X c1 σ self →
  writing X c1 (see_exp σ) (_insert_experiment_no_commit self info).
Proof.
  intros Hid Hw. eapply (writing_flat X c1 σ _ self); [done..| |exact Hw].
  destruct Hw as [[H1 H2 H3 H4 H5 H6 H7 H8 H9] _ _ _ _].
  split; try done; cbn; rewrite Hid.
  - rewrite filter_app, filter_key_same, H1.
    rewrite (filter_none _ [_]); [by rewrite app_nil_r|].
    intros x ->%list_elem_of_singleton. tauto.
  - rewrite filter_app, filter_key_gone.
    rewrite (filter_all _ [_]); [done|].
    intros x ->%list_elem_of_singleton. done.
Qed.

Lemma delete_logbook_writing X c1 σ self :
  s_log σ = 0%nat →
  writing X c1 σ self → writing X c1 σ (exec (DELETE_Logbook X) self).
Proof.
  intros Hz Hw. eapply (writing_flat X c1 σ _ self); [done..| |exact Hw].
  destruct Hw as [[H1 H2 H3 H4 H5 H6 H7 H8 H9] _ _ _ _].
  split; try done; cbn.
  - by rewrite filter_key_same.
  - by rewrite filter_key_gone, Hz.
Qed.

Lemma insert_logbook_row_writing X c1 σ self run_id entry :
  writing X c1 σ self →
  writing X c1 (see_log σ) (exec (INSERT_Logbook X run_id entry) self).
Proof.
  intros Hw. eapply (writing_flat X c1 σ _ self); [done..| |exact Hw].
  destruct Hw as [[H1 H2 H3 H4 H5 H6 H7 H8 H9] _ _ _ _].
  split; try done; cbn.
  - rewrite filter_app, H3.
    rewrite (filter_none _ [_]); [by rewrite app_nil_r|].
    intros x ->%list_elem_of_singleton. cbn. tauto.
  - rewrite filter_app, length_app, H4.
    rewrite (filter_all _ [_]); [cbn; lia|].
    intros x ->%list_elem_of_singleton. done.
Qed.

Lemma delete_workflow_writing X c1 σ self :
  s_workflows σ = 0%nat →
  writing X c1 σ self → writing X c1 σ (exec (DELETE_Workflow X) self).
Proof.
  intros Hz Hw. eapply (writing_flat X c1 σ _ self); [done..| |exact Hw].
  destruct Hw as [[H1 H2 H3 H4 H5 H6 H7 H8 H9] _ _ _ _].
  split; try done; cbn.
  - by rewrite filter_key_same.
  - by rewrite filter_key_gone, Hz.
Qed.

Lemma insert_workflow_row_writing X c1 σ self name w :
  writing X c1 σ self →
  writing X c1 (see_workflow σ) (exec (INSERT_Workflow X name w) self).
Proof.
  intros Hw. eapply (writing_flat X c1 σ _ self); [done..| |exact Hw].
  destruct Hw as [[H1 H2 H3 H4 H5 H6 H7 H8 H9] _ _ _ _].
  split; try done; cbn.
  - rewrite filter_app, H8.
    rewrite (filter_none _ [_]); [by rewrite app_nil_r|].
    intros x ->%list_elem_of_singleton. cbn. tauto.
  - rewrite filter_app, length_app, H9.
    rewrite (filter_all _ [_]); [cbn; lia|].
    intros x ->%list_elem_of_singleton. done.
Qed.

Lemma delete_questionnaire_writing X c1 σ self :
  s_fields σ = [] →
  writing X c1 σ self → writing X c1 σ (exec (DELETE_Questionnaire X) self).
Proof.
  intros Hz Hw. eapply (writing_flat X c1 σ _ self); [done..| |exact Hw].
  destruct Hw as [[H1 H2 H3 H4 H5 H6 H7 H8 H9] _ _ _ _].
  split; try done; cbn.
  - by rewrite filter_key_same.
  - rewrite filter_key_gone. constructor.
  - intros f. rewrite filter_key_gone, Hz. done.
Qed.

Lemma insert_questionnaire_field_writing X c1 σ self proposal f :
  writing X c1 σ self →
  writing X c1 (see_field (f_field_id f) σ)
    (exec (INSERT_OR_REPLACE_Questionnaire X proposal f) self).
Proof.
  intros Hw. eapply (writing_flat X c1 σ _ self); [done..| |exact Hw].
  destruct Hw as [[H1 H2 H3 H4 H5 H6 H7 H8 H9] _ _ _ _].
  set (L := filter (λ q, q_experiment_id q = X)
                   (rows (Questionnaire (conn self)))) in *.
  assert (Hmine :
    filter (λ q, q_experiment_id q = X)
      (filter (λ q, ¬ (q_experiment_id q = X ∧ q_field_id q = f_field_id f))
              (rows (Questionnaire (conn self))))
    = filter (λ q, q_field_id q ≠ f_field_id f) L).
  { subst L. rewrite !list_filter_filter. apply filter_ext_in.
    intros q _. tauto. }
  split; try done; cbn.
  - rewrite filter_app, list_filter_filter.
    rewrite (filter_none _ [_]);
      [|intros x ->%list_elem_of_singleton; cbn; tauto].
    rewrite app_nil_r, <- H5. apply filter_ext_in. intros q _. tauto.
  - rewrite filter_app, Hmine.
    rewrite (filter_all _ [_]); [|by intros x ->%list_elem_of_singleton].
    rewrite map_app. apply NoDup_app. split_and!.
    + by apply NoDup_map_filter.
    + intros g (q & -> & [Hne _]%list_elem_of_filter)%list_elem_of_fmap.
      cbn. rewrite list_elem_of_singleton. done.
    + cbn. apply NoDup_singleton.
  - intros g. rewrite filter_app, Hmine.
    rewrite (filter_all _ [_]); [|by intros x ->%list_elem_of_singleton].
    rewrite map_app, !elem_of_app. cbn. rewrite !list_elem_of_singleton.
    rewrite <- H7. split.
    + intros [(q & -> & [Hne Hin]%list_elem_of_filter)%list_elem_of_fmap|?];
        [left|by right].
      apply list_elem_of_fmap. eauto.
    + intros [(q & -> & Hin)%list_elem_of_fmap|?]; [|by right].
      destruct (decide (q_field_id q = f_field_id f)); [by right|left].
      apply list_elem_of_fmap. exists q. split; [done|].
      by apply list_elem_of_filter.
Qed.

(** *** What the cache keys and [delete_experiment] guarantee *)

(** X1. Cache keys. The key [f"{experiment_id}_{run_number}"] under which
    [_get_or_create_run_id] caches a run id determines the experiment and
    the run number: two keys are equal exactly when both are, also when an
    experiment's name contains underscores or ends in digits. *)
Theorem run_cache_key_distinct e n e' n' :
  cache_key e n = cache_key e' n' ↔ e = e' ∧ n = n'.
Proof.
  split; [apply PyFacts.cache_key_inj|]. by intros [-> ->].
Qed.

(** X2. What [delete_experiment] removes. After [delete_experiment(X)]
    every table holds, in their order, the rows it held that are not of
    [X]: the rows of [Experiment], [Run], [Logbook], [Questionnaire] and
    [Workflow] with another experiment id, and the rows of
    [RunProductionData] and [RunDetector] whose run is not a run of [X];
    the row id counter of [Run] does not move, [Detector] is left as it
    is, one commit is issued, and the run cache holds no key of [X] while
    the detector cache is kept. *)
Theorem delete_experiment_removes self X :
  let c := conn self in
  let c' := conn (delete_experiment self X) in
  Experiment c' = filter (λ x, exp_experiment_id x ≠ X) (Experiment c)
  ∧ rows (Run c') = filter (λ r, run_experiment_id r ≠ X) (rows (Run c))
  ∧ seq (Run c') = seq (Run c)
  ∧ rows (RunProductionData c')
    = filter (λ p, rpd_run_id p ∉ run_ids_of c X)
             (rows (RunProductionData c))
  ∧ rows (RunDetector c')
    = filter (λ x, rdet_run_id x ∉ run_ids_of c X) (rows (RunDetector c))
  ∧ rows (Logbook c')
    = filter (λ l, log_experiment_id l ≠ X) (rows (Logbook c))
  ∧ rows (Questionnaire c')
    = filter (λ q, q_experiment_id q ≠ X) (rows (Questionnaire c))
  ∧ rows (Workflow c')
    = filter (λ w, wf_experiment_id w ≠ X) (rows (Workflow c))
  ∧ Detector c' = Detector c
  ∧ commits c' = S (commits c)
  ∧ (∀ n, _run_id_cache (delete_experiment self X) !! cache_key X n = None)
  ∧ _detector_cache (delete_experiment self X) = _detector_cache self.
Proof.
  cbv zeta.
  destruct (delete_experiment_tables self X)
    as (He & Hr & Hrs & Hp & Hx & Hl & Hq & Hw & Hd).
  cbv zeta in He, Hr, Hrs, Hp, Hx, Hl, Hq, Hw, Hd.
  split_and!; try done.
  - apply CliFacts.delete_experiment_commits.
  - intros n. apply map_lookup_filter_None. right. intros i _ Hsw.
    simpl in Hsw. by rewrite PyFacts.startswith_cache_key in Hsw.
Qed.

End IdempotenceFacts.

Module StoreFacts.
Import Py Spec LogbookApi Database.

(** *** Metadata and commits *)

(** X3. Metadata round trip. After [set_metadata(key, value)],
    [get_metadata] returns [value] for [key] and what it returned before
    for every other key; no table row changes and one commit is issued. *)
Theorem metadata_round_trip self key value k :
  get_metadata (set_metadata self key value) k
  = (if decide (k = key) then Some value else get_metadata self k)
  ∧ Experiment (conn (set_metadata self key value)) = Experiment (conn self)
  ∧ Run (conn (set_metadata self key value)) = Run (conn self)
  ∧ RunProductionData (conn (set_metadata self key value))
    = RunProductionData (conn self)
  ∧ Detector (conn (set_metadata self key value)) = Detector (conn self)
  ∧ RunDetector (conn (set_metadata self key value))
    = RunDetector (conn self)
  ∧ Logbook (conn (set_metadata self key value)) = Logbook (conn self)
  ∧ Questionnaire (conn (set_metadata self key value))
    = Questionnaire (conn self)
  ∧ Workflow (conn (set_metadata self key value)) = Workflow (conn self)
  ∧ commits (conn (set_metadata self key value)) = S (commits (conn self)).
Proof.
  split_and!; try done.
  - unfold get_metadata. cbn. destruct (decide (k = key)) as [->|Hne].
    + apply lookup_insert_eq.
    + by apply lookup_insert_ne.
  - unfold set_metadata.
    by rewrite DatabaseFacts.commit_conn, CliFacts.commits_conn_commit.
Qed.

Lemma no_commit_events self self' :
  issues (batch_statement any_scope) self self' →
  commits (conn (commit self')) = S (commits (conn self)).
Proof.
  intros (He & _)%DatabaseFacts.issues_events.
  rewrite DatabaseFacts.commit_conn, CliFacts.commits_conn_commit.
  unfold commits. by rewrite He.
Qed.

(** X4. Who commits. [insert_experiment_batch] and the [_no_commit]
    methods it calls issue no commit and no pragma and leave [Metadata]
    alone, whatever the record; each public insert method issues exactly
    one commit when it returns: [insert_logbook], [insert_runtable] and
    [insert_file_manager] for data whose integers SQLite can bind,
    [insert_workflow] when every workflow has a name, and none when it
    raises. *)
Theorem insert_commit_discipline self :
  (∀ data,
     events (conn (insert_experiment_batch self data).1) = events (conn self)
     ∧ Metadata (conn (insert_experiment_batch self data).1)
       = Metadata (conn self))
  ∧ (∀ data, commits (conn (insert_experiment self data))
             = S (commits (conn self)))
  ∧ (∀ entries, logbook_bindable entries →
                commits (conn (insert_logbook self entries))
                = S (commits (conn self)))
  ∧ (∀ data, runtable_bindable data →
             commits (conn (insert_runtable self data))
             = S (commits (conn self)))
  ∧ (∀ data, files_bindable data →
             commits (conn (insert_file_manager self data))
             = S (commits (conn self)))
  ∧ (∀ data, commits (conn (insert_questionnaire self data))
             = S (commits (conn self)))
  ∧ (∀ data, commits (conn (insert_workflow self data).1)
             = match (insert_workflow self data).2 with
               | Return _ => S (commits (conn self))
               | Raise _ => commits (conn self)
               end).
Proof.
  split_and!.
  - intros data.
    pose proof (DatabaseFacts.issues_events _ _ _
                  (DatabaseFacts.insert_experiment_batch_issues self data))
      as (He & _ & _ & Hm).
    done.
  - intros data. apply no_commit_events.
    apply DatabaseFacts.insert_experiment_issues.
  - intros entries _. apply no_commit_events.
    by apply DatabaseFacts.insert_logbook_issues.
  - intros data _. apply no_commit_events.
    by apply DatabaseFacts.insert_runtable_issues.
  - intros data _. apply no_commit_events.
    by apply DatabaseFacts.insert_file_manager_issues.
  - intros data. apply no_commit_events.
    apply DatabaseFacts.insert_questionnaire_issues.
  - intros data. unfold insert_workflow.
    pose proof (DatabaseFacts.insert_workflow_issues any_scope self data)
      as Hi.
    destruct (_insert_workflow_no_commit self data) as [self' [[]|e]];
      cbn [fst snd] in *.
    + by apply no_commit_events.
    + apply DatabaseFacts.issues_events in Hi as (He & _).
      unfold commits. by rewrite He.
Qed.

Lemma insert_commit_discipline_witness :
  let self := __init__ empty_store in
  commits (conn (insert_logbook self
                   [LogbookApi.DbEntry "e1" "xpp1" (Some 7) "2024-01-01"
                      None None None]))
  = S (commits (conn self))
  ∧ commits (conn (insert_runtable self
                     {| rt_experiment_id := "xpp1";
                        rt_data_production :=
                          [{| rd_run_number := Some 7;
                              rd_n_events := Some 1200;
                              rd_n_damaged := Some 0;
                              rd_n_dropped := None;
                              rd_start_time := None;
                              rd_end_time := None;
                              rd_prod_start := None;
                              rd_prod_end := None |}];
                        rt_detectors :=
                          [{| dd_run_number := Some 7;
                              dd_items := [("epix", "Checked")] |}] |}))
    = S (commits (conn self))
  ∧ commits (conn (insert_file_manager self
                     {| fm_experiment_id := "xpp1";
                        fm_file_manager_records :=
                          [{| fr_run_number := Some 7;
                              fr_number_of_files := Some 3;
                              fr_total_size_bytes := Some 4096 |}] |}))
    = S (commits (conn self)).
Proof.
  destruct (insert_commit_discipline (__init__ empty_store))
    as (_ & _ & Hlogbook & Hruntable & Hfiles & _).
  split_and!.
  - apply Hlogbook. repeat constructor; cbn; unfold int64; lia.
  - apply Hruntable. repeat constructor; cbn; unfold int64; lia.
  - apply Hfiles. repeat constructor; cbn; unfold int64; lia.
Defined.

Lemma insert_workflows_rows e self ws :
  map workflow_key (rows (Workflow (conn (insert_workflows e self ws).1)))
  = map workflow_key (rows (Workflow (conn self)))
    ++ map (λ nw : string * workflow, (e, nw.1)) (named_prefix ws)
  ∧ (insert_workflows e self ws).2
    = (if decide (length (named_prefix ws) = length ws) then Return tt
       else Raise (Exn IntegrityError
                     "NOT NULL constraint failed: Workflow.name")).
Proof.
  revert self. induction ws as [|w ws IH]; intros self.
  - cbn. by rewrite app_nil_r.
  - cbn [insert_workflows named_prefix]. destruct (w_name w) as [name|].
    + destruct (IH (exec (INSERT_Workflow e name w) self)) as [-> ->].
      split.
      * cbn. rewrite map_app, <- app_assoc. done.
      * cbn [length]. destruct (decide (length (named_prefix ws) = length ws)).
        -- by rewrite decide_True by lia.
        -- by rewrite decide_False by lia.
    + cbn. by rewrite app_nil_r.
Qed.

(** X5. Workflows without a name. [_insert_workflow_no_commit] first
    deletes the experiment's workflows, then inserts the given ones in
    order up to the first that has no name: there the [NOT NULL] constraint
    on [Workflow.name] makes it raise [IntegrityError], the rows inserted
    before stay and the workflows after it are not inserted. It returns
    exactly when every workflow has a name. *)
Theorem insert_workflow_outcome self data :
  let r := _insert_workflow_no_commit self data in
  map workflow_key (rows (Workflow (conn r.1)))
  = map workflow_key
      (filter (λ w, wf_experiment_id w ≠ wd_experiment_id data)
              (rows (Workflow (conn self))))
    ++ map (λ nw : string * workflow, (wd_experiment_id data, nw.1))
           (named_prefix (wd_workflows data))
  ∧ r.2
    = (if decide (length (named_prefix (wd_workflows data))
                  = length (wd_workflows data))
       then Return tt
       else Raise (Exn IntegrityError
                     "NOT NULL constraint failed: Workflow.name")).
Proof.
  cbv zeta. unfold _insert_workflow_no_commit.
  destruct (insert_workflows_rows (wd_experiment_id data)
              (exec (DELETE_Workflow (wd_experiment_id data)) self)
              (wd_workflows data)) as [-> ->].
  split; [|done]. f_equal.
Qed.

End StoreFacts.

Module PipelineFacts.
Import Py Spec Database.

(** *** The producers' queue *)

Lemma fetch_data_result api exp_id cs :
  (Cli.fetch_data api exp_id cs).2 = (Cli.fetch_data api exp_id []).2.
Proof.
  unfold Cli.fetch_data, mbind, Cli.fetching_bind, mret, Cli.fetching_ret,
    Cli.call.
  cbn.
  destruct (Cli.fetch_experiment_info api exp_id); cbn; [|done].
  destruct (Cli.fetch_logbook api exp_id); cbn; [|done].
  destruct (Cli.fetch_runtable api exp_id); cbn; [|done].
  destruct (Cli.fetch_file_manager api exp_id); cbn; [|done].
  destruct (Cli.fetch_questionnaire api exp_id); cbn; [|done].
  by destruct (Cli.fetch_workflow api exp_id).
Qed.

Lemma fetched_id api exp_id :
  c_experiment_id (fetched api exp_id) = Some exp_id.
Proof.
  unfold fetched, Cli.fetch_data, mbind, Cli.fetching_bind, mret,
    Cli.fetching_ret, Cli.call.
  cbn.
  destruct (Cli.fetch_experiment_info api exp_id); cbn; [|done].
  destruct (Cli.fetch_logbook api exp_id); cbn; [|done].
  destruct (Cli.fetch_runtable api exp_id); cbn; [|done].
  destruct (Cli.fetch_file_manager api exp_id); cbn; [|done].
  destruct (Cli.fetch_questionnaire api exp_id); cbn; [|done].
  by destruct (Cli.fetch_workflow api exp_id).
Qed.

Lemma fetch_and_queue_queue api exp_id p :
  Cli.data_queue (Cli.fetch_and_queue api exp_id p).1
  = Cli.data_queue p ++ [Some (fetched api exp_id)].
Proof.
  unfold Cli.fetch_and_queue, fetched.
  rewrite <- (fetch_data_result api exp_id (Cli.calls p)).
  by destruct (Cli.fetch_data api exp_id (Cli.calls p)) as [cs [data|e]].
Qed.

Lemma fetch_all_queue api experiments p :
  Cli.data_queue (Cli.fetch_all api experiments p)
  = Cli.data_queue p ++ map (λ exp_id, Some (fetched api exp_id)) experiments.
Proof.
  revert p. induction experiments as [|exp_id experiments IH]; intros p.
  - cbn. by rewrite app_nil_r.
  - change (Cli.fetch_all api (exp_id :: experiments) p)
      with (Cli.fetch_all api experiments (Cli.fetch_and_queue api exp_id p).1).
    rewrite IH, fetch_and_queue_queue, <- app_assoc. done.
Qed.

Lemma insert_experiment_batch_outcome self data :
  (insert_experiment_batch self data).2
  = (if all_named (c_workflow data) then Return tt
     else Raise (Exn IntegrityError
                   "NOT NULL constraint failed: Workflow.name")).
Proof.
  unfold insert_experiment_batch. cbv zeta.
  destruct (c_workflow data) as [wd|]; [|done].
  unfold _insert_workflow_no_commit. cbv zeta.
  match goal with |- (insert_workflows ?e ?d ?ws).2 = _ =>
    destruct (StoreFacts.insert_workflows_rows e d ws) as [_ ->]
  end.
  cbn [all_named]. by case_bool_decide; case_decide.
Qed.

(** *** The writer's counts *)

Lemma writer_loop_accounts now config incremental api ids w :
  let r :=
    Cli.writer_loop now config incremental w
      (map (λ exp_id, Some (fetched api exp_id)) ids ++ [None]) in
  r.2 = None
  ∧ Cli.success_count r.1
    = Cli.success_count w
      + Z.of_nat (length (filter (λ exp_id, writes (fetched api exp_id) = true)
                                 ids))
  ∧ ∃ more,
      Cli.failed_experiments r.1 = Cli.failed_experiments w ++ more
      ∧ map Cli.failed_experiment_id more
        = filter (λ exp_id, writes (fetched api exp_id) = false) ids
      ∧ map Cli.failed_error more
        = map (λ exp_id, error_text (fetched api exp_id))
              (filter (λ exp_id, writes (fetched api exp_id) = false) ids).
Proof.
  cbv zeta. revert w. induction ids as [|exp_id ids IH]; intros w.
  { cbn. split_and!; [done|lia|]. exists []. by rewrite app_nil_r. }
  cbn [map app Cli.writer_loop]. unfold Cli.writer_turn.
  rewrite fetched_id. rewrite !filter_cons.
  destruct (c_error (fetched api exp_id)) as [err|] eqn:Herr.
  { assert (Hw : writes (fetched api exp_id) = false)
      by (unfold writes; by rewrite Herr).
    assert (Ht : error_text (fetched api exp_id) = err)
      by (unfold error_text; by rewrite Herr).
    rewrite decide_False, decide_True by (by rewrite Hw).
    destruct (IH (Cli.record_failure now exp_id err w))
      as (Hesc & Hcount & more & Hfailed & Hids & Herrs).
    split_and!; [done|by rewrite Hcount|].
    eexists (_ :: more). split_and!.
    - rewrite Hfailed. cbn. by rewrite <- app_assoc.
    - cbn. by rewrite Hids.
    - cbn. by rewrite Herrs, Ht. }
  assert (Hw : writes (fetched api exp_id)
               = all_named (c_workflow (fetched api exp_id)))
    by (unfold writes; by rewrite Herr).
  assert (Ht : error_text (fetched api exp_id)
               = "NOT NULL constraint failed: Workflow.name"%string)
    by (unfold error_text; by rewrite Herr).
  set (d := if incremental then delete_experiment (Cli.db w) exp_id
            else Cli.db w).
  pose proof (insert_experiment_batch_outcome d (fetched api exp_id)) as Hout.
  destruct (insert_experiment_batch d (fetched api exp_id)) as [d' o].
  cbn [snd] in Hout. subst o. rewrite Hw.
  destruct (all_named (c_workflow (fetched api exp_id))).
  - rewrite decide_True, decide_False by done.
    destruct (Cli.batch_commit_size config <=? Cli.batch_count w + 1);
      cbv zeta beta iota;
      match goal with |- context [Cli.writer_loop _ _ _ ?w1 _] =>
        destruct (IH w1) as (Hesc & Hcount & more & Hfailed & Hids & Herrs)
      end;
      (split_and!; [done|rewrite Hcount; cbn; lia|]);
      exists more; by split_and!.
  - rewrite decide_False, decide_True by done. cbv beta iota.
    match goal with |- context [Cli.writer_loop _ _ _ ?w1 _] =>
      destruct (IH w1) as (Hesc & Hcount & more & Hfailed & Hids & Herrs)
    end.
    split_and!; [done|by rewrite Hcount|].
    eexists (_ :: more). split_and!.
    + rewrite Hfailed. cbn. by rewrite <- app_assoc.
    + cbn. by rewrite Hids.
    + cbn. by rewrite Herrs, Ht.
Qed.

End PipelineFacts.

Module FetchFacts.
Import Py Spec Database.

(** *** [_aggregate_by_run] *)

Lemma files_of_cons n f files :
  files_of n (f :: files)
  = (if decide (FetchApi.fi_run_num f = Some n) then f :: files_of n files
     else files_of n files).
Proof. unfold files_of. by rewrite filter_cons. Qed.

Lemma aggregate_fold files m n :
  foldl FetchApi.aggregate_step m files !! n
  = (if decide (files_of n files = []) then m !! n
     else Some ((default (0, 0) (m !! n)).1
                + Z.of_nat (length (files_of n files)),
                (default (0, 0) (m !! n)).2 + total_size (files_of n files))).
Proof.
  revert m. induction files as [|f files IH]; intros m; [done|].
  cbn [foldl]. rewrite IH, !files_of_cons.
  unfold FetchApi.aggregate_step.
  destruct (FetchApi.fi_run_num f) as [run_num|] eqn:Hrun.
  - destruct (default (0, 0) (m !! run_num)) as [k t] eqn:Hkt.
    destruct (decide (run_num = n)) as [->|Hne].
    + rewrite (decide_True (P := Some n = Some n)) by done.
      rewrite lookup_insert_eq. cbn [default].
      rewrite Hkt. cbn [fst snd].
      rewrite (decide_False (P := f :: files_of n files = [])) by done.
      destruct (decide (files_of n files = [])) as [->|_].
      * cbn. do 2 f_equal; lia.
      * unfold total_size. cbn [length foldr default id fst snd].
        do 2 f_equal; lia.
    + rewrite (decide_False (P := Some run_num = Some n)) by congruence.
      by rewrite lookup_insert_ne.
  - by rewrite (decide_False (P := None = Some n)).
Qed.

Lemma aggregate_lookup files n :
  foldl FetchApi.aggregate_step ∅ files !! n
  = (if decide (files_of n files = []) then None
     else Some (Z.of_nat (length (files_of n files)),
                total_size (files_of n files))).
Proof.
  rewrite aggregate_fold, lookup_empty. cbn.
  destruct (decide (files_of n files = [])); [done|].
  do 2 f_equal; lia.
Qed.

Lemma sorted_items_perm m :
  FetchApi.sorted_items m ≡ₚ map_to_list m.
Proof. apply merge_sort_Permutation. Qed.

Lemma sorted_items_sorted m :
  StronglySorted Z.lt (map fst (FetchApi.sorted_items m)).
Proof.
  assert (Hs : Sorted FetchApi.item_le (FetchApi.sorted_items m)).
  { apply Sorted_merge_sort. intros a b. unfold FetchApi.item_le. lia. }
  assert (Hnd : NoDup (map fst (FetchApi.sorted_items m))).
  { rewrite sorted_items_perm. apply NoDup_fst_map_to_list. }
  apply Sorted_StronglySorted in Hs;
    [|intros a b c; unfold FetchApi.item_le; lia].
  induction Hs as [|a l Hl IH Ha]; [constructor|].
  cbn in Hnd. apply NoDup_cons in Hnd as [Hnotin Hnd].
  cbn. constructor; [by apply IH|].
  apply Forall_forall. intros n (b & -> & Hb)%list_elem_of_fmap.
  rewrite Forall_forall in Ha. pose proof (Ha _ Hb) as Hle.
  unfold FetchApi.item_le in Hle.
  assert (a.1 ≠ b.1); [|lia].
  intros Heq. apply Hnotin. rewrite Heq. apply list_elem_of_fmap. eauto.
Qed.

(** X9. File aggregation. [_aggregate_by_run] returns one record per run
    number that occurs among the files, in strictly ascending order of the
    run number; the record of a run counts the files of that run and sums
    their sizes, a missing size counting as 0. Files without a run number
    are left out, and no record is produced for a run without files. *)
Theorem aggregate_by_run_spec files :
  ∃ runs,
    StronglySorted Z.lt runs
    ∧ (∀ n, n ∈ runs ↔ ∃ f, f ∈ files ∧ FetchApi.fi_run_num f = Some n)
    ∧ FetchApi._aggregate_by_run files = map (aggregate_of files) runs.
Proof.
  set (m := foldl FetchApi.aggregate_step ∅ files).
  exists (map fst (FetchApi.sorted_items m)). split_and!.
  - apply sorted_items_sorted.
  - intros n. rewrite sorted_items_perm.
    rewrite list_elem_of_fmap. split.
    + intros ([n' kt] & -> & Hin%elem_of_map_to_list). cbn.
      subst m. rewrite aggregate_lookup in Hin.
      destruct (decide (files_of n' files = [])) as [|Hne]; [done|].
      destruct (files_of n' files) as [|f l] eqn:Hf; [done|].
      exists f.
      assert (Hin' : f ∈ files_of n' files) by (rewrite Hf; by left).
      unfold files_of in Hin'. apply list_elem_of_filter in Hin'. tauto.
    + intros (f & Hin & Hrun).
      exists (n, (Z.of_nat (length (files_of n files)),
                  total_size (files_of n files))).
      split; [done|]. apply elem_of_map_to_list.
      subst m. rewrite aggregate_lookup, decide_False; [done|].
      intros Hnil.
      assert (Hin' : f ∈ files_of n files)
        by (unfold files_of; by apply list_elem_of_filter).
      rewrite Hnil in Hin'. by apply elem_of_nil in Hin'.
  - unfold FetchApi._aggregate_by_run. fold m. rewrite map_map.
    apply map_ext_in. intros [n [k t]] Hin%list_elem_of_In.
    rewrite sorted_items_perm in Hin. apply elem_of_map_to_list in Hin.
    subst m. rewrite aggregate_lookup in Hin.
    destruct (decide (files_of n files = [])); [done|].
    injection Hin as <- <-. done.
Qed.

(** *** The fetchers and failing requests *)

Lemma transform_entries_experiment {T : Text} exp_id raw :
  Forall (λ x, LogbookApi.experiment_id x = exp_id)
         (LogbookApi._transform_entries exp_id raw).
Proof.
  unfold LogbookApi._transform_entries. cbv zeta.
  apply Forall_forall. intros x (e & -> & _)%list_elem_of_fmap. done.
Qed.

(** X10. Failing requests. [fetch_file_manager], [fetch_workflow] and
    [fetch_logbook] never let an [APIError] out: when the request raises
    [APIError], or the reply does not say [success], they return the empty
    facet ([None], or the empty list for the logbook), which
    [insert_experiment_batch] then passes over. Any other exception of the
    request is raised unchanged. A facet that is returned carries the
    experiment ID that was asked for, in every log entry too. *)
Theorem fetchers_contain_api_errors {T : Text}
    (get_files : string → outcome (FetchApi.reply FetchApi.file_info))
    (get_workflows : string → outcome (FetchApi.reply FetchApi.raw_workflow))
    (get_entries : string → outcome (FetchApi.reply LogbookApi.entry))
    (exp_id : string) :
  match FetchApi.fetch_file_manager get_files exp_id with
  | Return (Some fm) =>
      fm_experiment_id fm = exp_id
      ∧ ∃ data, get_files ("/ws-kerb/lgbk/lgbk/" +:+ exp_id +:+ "/ws/files")
                = Return data ∧ FetchApi.success data = true
  | Return None =>
      match get_files ("/ws-kerb/lgbk/lgbk/" +:+ exp_id +:+ "/ws/files") with
      | Return data => FetchApi.success data = false
      | Raise e => exn_class_of e = APIError
      end
  | Raise e =>
      exn_class_of e ≠ APIError
      ∧ get_files ("/ws-kerb/lgbk/lgbk/" +:+ exp_id +:+ "/ws/files") = Raise e
  end
  ∧ match FetchApi.fetch_workflow get_workflows exp_id with
    | Return (Some wd) =>
        wd_experiment_id wd = exp_id
        ∧ ∃ data,
            get_workflows ("/ws-kerb/lgbk/lgbk/" +:+ exp_id
                           +:+ "/ws/workflow_definitions") = Return data
            ∧ FetchApi.success data = true
            ∧ length (wd_workflows wd) = length (FetchApi.value data)
    | Return None =>
        match get_workflows ("/ws-kerb/lgbk/lgbk/" +:+ exp_id
                             +:+ "/ws/workflow_definitions") with
        | Return data => FetchApi.success data = false
        | Raise e => exn_class_of e = APIError
        end
    | Raise e =>
        exn_class_of e ≠ APIError
        ∧ get_workflows ("/ws-kerb/lgbk/lgbk/" +:+ exp_id
                         +:+ "/ws/workflow_definitions") = Raise e
    end
  ∧ match FetchApi.fetch_logbook get_entries exp_id with
    | Return entries =>
        Forall (λ x, LogbookApi.experiment_id x = exp_id) entries
        ∧ match get_entries ("/ws-kerb/lgbk/lgbk/" +:+ exp_id
                             +:+ "/ws/elog") with
          | Return data =>
              if FetchApi.success data
              then length entries = length (FetchApi.value data)
              else entries = []
          | Raise e => exn_class_of e = APIError ∧ entries = []
          end
    | Raise e =>
        exn_class_of e ≠ APIError
        ∧ get_entries ("/ws-kerb/lgbk/lgbk/" +:+ exp_id +:+ "/ws/elog")
          = Raise e
    end.
Proof.
  split_and!.
  - unfold FetchApi.fetch_file_manager.
    destruct (get_files _) as [data|e].
    + destruct (FetchApi.success data) eqn:Hs; cbn; eauto.
    + destruct (exn_class_of e) eqn:He; cbn; rewrite ?He; done.
  - unfold FetchApi.fetch_workflow.
    destruct (get_workflows _) as [data|e].
    + destruct (FetchApi.success data) eqn:Hs; cbn; [|done].
      split; [done|]. exists data. by rewrite length_map.
    + destruct (exn_class_of e) eqn:He; cbn; rewrite ?He; done.
  - unfold FetchApi.fetch_logbook.
    destruct (get_entries _) as [data|e].
    + destruct (FetchApi.success data) eqn:Hs; cbn.
      * split; [apply transform_entries_experiment|].
        unfold LogbookApi._transform_entries. cbv zeta.
        rewrite length_map. apply Permutation_length, PyFacts.sorted_perm.
      * by split.
    + destruct (exn_class_of e) eqn:He; cbn; rewrite ?He; done.
Qed.

(** *** [_transform_entries] *)

Lemma insert_sorted_stable {A} (key : A → string) (t : string) x (l : list A) :
  filter (λ y, key y = t) (insert_sorted key x l)
  = filter (λ y, key y = t) (x :: l).
Proof.
  induction l as [|y l IH]; [done|]. cbn [insert_sorted].
  destruct (String.leb (key x) (key y)) eqn:E; [done|].
  rewrite filter_cons, IH, !filter_cons.
  destruct (decide (key y = t)) as [Hy|Hy], (decide (key x = t)) as [Hx|Hx];
    try done.
  exfalso. rewrite <- Hx in Hy. rewrite Hy in E.
  pose proof (PyFacts.le_refl (key x)) as Hr. unfold Py.le in Hr. congruence.
Qed.

Lemma sorted_stable {A} (key : A → string) (t : string) (l : list A) :
  filter (λ y, key y = t) (sorted key l) = filter (λ y, key y = t) l.
Proof.
  induction l as [|x l IH]; [done|]. cbn [sorted foldr].
  fold (sorted key l). rewrite insert_sorted_stable, !filter_cons, IH. done.
Qed.

(** X11. Log entries. [_transform_entries] returns the entries in
    non-decreasing order of their insert time, entries of the same insert
    time in the order they were received; nothing is dropped or added.
    Each returned entry keeps the ID, insert time, content and author of
    its raw entry, carries the experiment ID, has its tags joined by commas
    (no tags or an empty list give NULL), and keeps a run number the raw
    entry states. *)
Theorem transform_entries_shape {T : Text} exp_id raw :
  ∃ sorted_entries,
    sorted_entries ≡ₚ raw
    ∧ StronglySorted (key_le LogbookApi.insert_time) sorted_entries
    ∧ (∀ t, filter (λ e, LogbookApi.insert_time e = t) sorted_entries
            = filter (λ e, LogbookApi.insert_time e = t) raw)
    ∧ Forall2 (λ e x,
        LogbookApi.log_id x = LogbookApi._id e
        ∧ LogbookApi.experiment_id x = exp_id
        ∧ LogbookApi.timestamp x = LogbookApi.insert_time e
        ∧ LogbookApi.db_content x = LogbookApi.content e
        ∧ LogbookApi.db_author x = LogbookApi.author e
        ∧ LogbookApi.db_tags x
          = match LogbookApi.tags e with
            | None | Some [] => None
            | Some l => Some (String.concat "," l)
            end
        ∧ match LogbookApi.run_num e with
          | Some r => LogbookApi.run_number x = Some r
          | None => True
          end)
        sorted_entries (LogbookApi._transform_entries exp_id raw).
Proof.
  exists (sorted LogbookApi.insert_time raw). split_and!.
  - apply PyFacts.sorted_perm.
  - apply PyFacts.sorted_sorted.
  - intros t. apply sorted_stable.
  - unfold LogbookApi._transform_entries. cbv zeta.
    generalize (LogbookApi._infer_run_numbers
                  (sorted LogbookApi.insert_time raw)
                  (LogbookApi._identify_run_boundaries
                     (sorted LogbookApi.insert_time raw))).
    intros inferred.
    induction (sorted LogbookApi.insert_time raw) as [|e l IH]; cbn [map];
      constructor; [|done].
    cbn. split_and!; try done. by destruct (LogbookApi.run_num e).
Qed.

End FetchFacts.

Module SchemaFacts.
Import Py Spec LogbookApi Database.

(** *** Tables with a key *)

Lemma keyed_insert_auto {A} (id : A → nat) (mk : nat → A) (t : table A) :
  (∀ n, id (mk n) = n) → keyed id t → keyed id (insert_auto mk t).1.
Proof.
  intros Hid [Hnd Hle]. unfold keyed, insert_auto. cbn. split.
  - rewrite List.map_app. cbn. rewrite Hid. apply NoDup_app. split_and!.
    + done.
    + intros n (x & -> & Hx)%list_elem_of_fmap Hin%list_elem_of_singleton.
      apply Hle in Hx. lia.
    + apply NoDup_singleton.
  - intros x [Hx| ->%list_elem_of_singleton]%elem_of_app.
    + apply Hle in Hx. lia.
    + rewrite Hid. lia.
Qed.

Lemma keyed_delete_where {A} (id : A → nat) (P : A → Prop)
    `{∀ x, Decision (P x)} (t : table A) :
  keyed id t → keyed id (delete_where P t).
Proof.
  intros [Hnd Hle]. unfold keyed, delete_where. cbn. split.
  - by apply IdempotenceFacts.NoDup_map_filter.
  - intros x [_ Hx]%list_elem_of_filter. by apply Hle.
Qed.

Lemma map_update_where {A K} (k : A → K) (P : A → Prop)
    `{∀ x, Decision (P x)} (f : A → A) (t : table A) :
  (∀ x, k (f x) = k x) →
  map k (rows (update_where P f t)) = map k (rows t).
Proof.
  intros Hk. unfold update_where. cbn. rewrite map_map.
  apply map_ext. intros x. by destruct (decide (P x)).
Qed.

Lemma keyed_update_where {A} (id : A → nat) (P : A → Prop)
    `{∀ x, Decision (P x)} (f : A → A) (t : table A) :
  (∀ x, id (f x) = id x) → keyed id t → keyed id (update_where P f t).
Proof.
  intros Hid [Hnd Hle]. split.
  - by rewrite map_update_where.
  - cbn. intros x' (x & -> & Hx)%list_elem_of_fmap.
    destruct (decide (P x)); rewrite ?Hid; by apply Hle.
Qed.

Lemma unique_snoc {A K} (k : A → K) (l : list A) (x : A) :
  NoDup (map k l) → (∀ y, y ∈ l → k y ≠ k x) → NoDup (map k (l ++ [x])).
Proof.
  intros Hnd Hx. rewrite List.map_app. apply NoDup_app. split_and!.
  - done.
  - intros n (y & -> & Hy)%list_elem_of_fmap Hin%list_elem_of_singleton.
    by apply (Hx y).
  - apply NoDup_singleton.
Qed.

Lemma unique_replace {A K} (k : A → K) (P : A → Prop)
    `{∀ x, Decision (P x)} (l : list A) (x : A) :
  NoDup (map k l) → (∀ y, k y = k x → P y) →
  NoDup (map k (filter (λ y, ¬ P y) l ++ [x])).
Proof.
  intros Hnd HP. apply unique_snoc.
  - by apply IdempotenceFacts.NoDup_map_filter.
  - intros y [Hy _]%list_elem_of_filter Hk. by apply Hy, HP.
Qed.

(** *** Rows that stay *)

Lemma run_rel_keeps c st e n i :
  respects c st → run_rel c e n i → run_rel (execute st c) e n i.
Proof.
  intros Hst Hrel. destruct st; try done.
  - apply IdempotenceFacts.run_rel_insert. by left.
  - by apply IdempotenceFacts.run_rel_update.
Qed.

Lemma det_rel_keeps c st name j :
  det_rel c name j → det_rel (execute st c) name j.
Proof.
  intros Hrel. destruct st; try done.
  destruct Hrel as (d & Hin & Hd). exists d. split; [|done].
  cbn. apply elem_of_app. by left.
Qed.

(** *** Statements *)

#[local] Arguments insert_auto : simpl never.
#[local] Arguments delete_where : simpl never.
#[local] Arguments update_where : simpl never.

Lemma execute_schema_ok c st :
  schema_ok c → respects c st → schema_ok (execute st c).
Proof.
  intros [HE HQ HQu HW HR HRu HP HPr HP1 HD HDu HX HXu HXr HXd HL HLr] Hst.
  assert (Hrun : ∀ e n i, run_rel c e n i → run_rel (execute st c) e n i)
    by (intros; by apply run_rel_keeps).
  assert (Hdet : ∀ name j, det_rel c name j → det_rel (execute st c) name j)
    by (intros; by apply det_rel_keeps).
  destruct st; cbn [respects] in Hst; try done; split;
    try (cbn; done);
    try (intros p Hp; destruct (HPr p Hp) as (e & n & Hrel);
         exists e, n; by apply Hrun);
    try (intros p Hp; destruct (HXr p Hp) as (e & n & Hrel);
         exists e, n; by apply Hrun);
    try (intros p Hp; destruct (HXd p Hp) as (name & Hrel);
         exists name; by apply Hdet);
    try (intros l i Hl Hi; destruct (HLr l i Hl Hi) as (n & Hrel);
         exists n; by apply Hrun);
    try (cbn; first [apply keyed_insert_auto; [done|]
                    |apply keyed_update_where; [done|]
                    |idtac];
         repeat apply keyed_delete_where; done);
    try (cbn; unfold delete_where; cbn;
         by apply IdempotenceFacts.NoDup_map_filter);
    try (cbn; by rewrite map_update_where);
    try (cbn; unfold delete_where; cbn;
         intros p [_ Hp]%list_elem_of_filter;
         first [destruct (HPr p Hp) as (e & n & Hrel)
               |destruct (HXr p Hp) as (e & n & Hrel)];
         exists e, n; by apply Hrun);
    try (cbn; unfold delete_where; cbn;
         intros p [_ Hp]%list_elem_of_filter;
         destruct (HXd p Hp) as (name & Hrel); exists name; by apply Hdet);
    try (cbn; unfold delete_where; cbn;
         intros l i [_ Hl]%list_elem_of_filter Hi;
         destruct (HLr l i Hl Hi) as (n & Hrel); exists n; by apply Hrun);
    try (cbn; unfold update_where; cbn;
         intros p' (p & -> & Hp)%list_elem_of_fmap;
         destruct (HPr p Hp) as (e & n & Hrel); exists e, n;
         destruct (decide (rpd_run_id p = run_id)); by apply Hrun).
  - cbn.
    by apply (unique_replace exp_experiment_id
                (λ y, exp_experiment_id y = exp_experiment_id data)).
  - cbn. unfold insert_auto. cbn. apply unique_snoc; [done|].
    intros r Hr [= Hn He]. by apply (Hst r Hr).
  - cbn. unfold insert_auto. cbn.
    intros p [Hp| ->%list_elem_of_singleton]%elem_of_app.
    + destruct (HPr p Hp) as (e & n & Hrel). exists e, n. by apply Hrun.
    + destruct Hst as [(e & n & Hrel) _]. exists e, n. by apply Hrun.
  - cbn. unfold insert_auto. cbn. apply unique_snoc; [done|]. apply Hst.
  - cbn. unfold insert_auto. cbn.
    intros p [Hp| ->%list_elem_of_singleton]%elem_of_app.
    + destruct (HPr p Hp) as (e & n & Hrel). exists e, n. by apply Hrun.
    + destruct Hst as [(e & n & Hrel) _]. exists e, n. by apply Hrun.
  - cbn. unfold insert_auto. cbn. apply unique_snoc; [done|]. apply Hst.
  - cbn. unfold insert_auto. cbn. apply unique_snoc; [done|]. apply Hst.
  - cbn. unfold insert_auto, delete_where. cbn.
    apply (unique_replace (λ x, (rdet_run_id x, rdet_detector_id x))
             (λ x, rdet_run_id x = run_id ∧ rdet_detector_id x = detector_id));
      [done|]. by intros y [= -> ->].
  - cbn. unfold insert_auto, delete_where. cbn.
    intros x [[_ Hx]%list_elem_of_filter| ->%list_elem_of_singleton]%elem_of_app.
    + destruct (HXr x Hx) as (e & n & Hrel). exists e, n. by apply Hrun.
    + destruct Hst as [(e & n & Hrel) _]. exists e, n. by apply Hrun.
  - cbn. unfold insert_auto, delete_where. cbn.
    intros x [[_ Hx]%list_elem_of_filter| ->%list_elem_of_singleton]%elem_of_app.
    + destruct (HXd x Hx) as (name & Hrel). exists name. by apply Hdet.
    + destruct Hst as [_ (name & Hrel)]. exists name. by apply Hdet.
  - cbn. unfold insert_auto. cbn.
    intros l i [Hl| ->%list_elem_of_singleton]%elem_of_app Hi.
    + destruct (HLr l i Hl Hi) as (n & Hrel). exists n. by apply Hrun.
    + cbn in Hi. subst run_id. destruct Hst as (n & Hrel). exists n.
      by apply Hrun.
  - cbn. unfold insert_auto, delete_where. cbn.
    apply (unique_replace (λ q, (q_experiment_id q, q_field_id q))
             (λ q, q_experiment_id q = experiment_id0
                   ∧ q_field_id q = f_field_id f)); [done|].
    by intros y [= -> ->].
Qed.

(** *** The object and its caches *)

Lemma schema_ok_events c v : schema_ok c → schema_ok (set_events v c).
Proof. by intros []. Qed.

Lemma schema_ok_commit c : schema_ok c → schema_ok (conn_commit c).
Proof. apply schema_ok_events. Qed.

Lemma exec_sound st self :
  sound self → respects (conn self) st → sound (exec st self).
Proof.
  intros [Hok [Hrc Hdc]] Hst. split; [by apply execute_schema_ok|]. split.
  - intros e n i Hc. apply run_rel_keeps; [done|]. by apply Hrc.
  - intros name j Hc. apply det_rel_keeps. by apply Hdc.
Qed.

Lemma commit_sound self : sound self → sound (commit self).
Proof.
  intros [Hok [Hrc Hdc]]. split; [by apply schema_ok_commit|]. by split.
Qed.

Lemma foldl_sound {A} (step : Database → A → Database) (l : list A) self :
  (∀ self x, sound self → sound (step self x)) →
  sound self → sound (foldl step self l).
Proof.
  intros Hstep. revert self. induction l as [|x l IH]; intros self Hs; [done|].
  cbn. by apply IH, Hstep.
Qed.

Lemma get_or_create_run_id_sound self e n :
  sound self →
  sound (_get_or_create_run_id self e n).1
  ∧ run_rel (conn (_get_or_create_run_id self e n).1) e n
            (_get_or_create_run_id self e n).2.
Proof.
  intros [Hok [Hrc Hdc]]. unfold _get_or_create_run_id. cbv zeta.
  destruct (_run_id_cache self !! cache_key e n) as [i|] eqn:Hc.
  { cbn. split; [done|]. by apply Hrc. }
  destruct (fetchone _ _) as [r|] eqn:Hf.
  - apply DatabaseFacts.fetchone_Some in Hf as (Hin & He & Hn).
    assert (Hrel : run_rel (conn self) e n (run_run_id r)) by by exists r.
    cbn. split; [|done]. split; [done|]. split; [|done].
    intros e' n' i. cbn.
    destruct (decide (cache_key e n = cache_key e' n')) as [Heq|Hne].
    + rewrite <- Heq, lookup_insert_eq. intros [= <-].
      apply PyFacts.cache_key_inj in Heq as [<- <-]. done.
    + rewrite lookup_insert_ne by done. apply Hrc.
  - pose proof (DatabaseFacts.fetchone_None _ _ Hf) as Hnone.
    assert (Hst : respects (conn self) (INSERT_Run e n)) by exact Hnone.
    destruct (exec_sound (INSERT_Run e n) self) as [Hok' [Hrc' Hdc']];
      [by split|done|].
    assert (Hrel : run_rel (conn (exec (INSERT_Run e n) self)) e n
                           (S (seq (Run (conn self))))).
    { apply IdempotenceFacts.run_rel_insert. by right. }
    cbn. split; [|done]. split; [done|]. split; [|done].
    intros e' n' i. cbn.
    destruct (decide (cache_key e n = cache_key e' n')) as [Heq|Hne].
    + rewrite <- Heq, lookup_insert_eq. intros [= <-].
      apply PyFacts.cache_key_inj in Heq as [<- <-]. done.
    + rewrite lookup_insert_ne by done. apply Hrc'.
Qed.

Lemma get_or_create_detector_id_sound self name :
  sound self →
  sound (_get_or_create_detector_id self name).1
  ∧ det_rel (conn (_get_or_create_detector_id self name).1) name
            (_get_or_create_detector_id self name).2
  ∧ ∀ e n i, run_rel (conn self) e n i →
             run_rel (conn (_get_or_create_detector_id self name).1) e n i.
Proof.
  intros [Hok [Hrc Hdc]]. unfold _get_or_create_detector_id.
  destruct (_detector_cache self !! name) as [j|] eqn:Hc.
  { cbn. split; [done|]. split; [|done]. by apply Hdc. }
  destruct (fetchone _ _) as [d|] eqn:Hf.
  - apply DatabaseFacts.fetchone_Some in Hf as (Hin & Hn).
    assert (Hrel : det_rel (conn self) name (det_detector_id d))
      by by exists d.
    cbn. split; [|done]. split; [done|]. split; [done|].
    intros name' j. cbn.
    destruct (decide (name = name')) as [<-|Hne].
    + rewrite lookup_insert_eq. by intros [= <-].
    + rewrite lookup_insert_ne by done. apply Hdc.
  - pose proof (DatabaseFacts.fetchone_None _ _ Hf) as Hnone.
    assert (Hst : respects (conn self) (INSERT_Detector name))
      by exact Hnone.
    destruct (exec_sound (INSERT_Detector name) self) as [Hok' [Hrc' Hdc']];
      [by split|done|].
    assert (Hrel : det_rel (conn (exec (INSERT_Detector name) self)) name
                           (S (seq (Detector (conn self))))).
    { eexists. split; [cbn; apply elem_of_app; right; by left|]. done. }
    cbn. split; [|done]. split; [done|]. split; [done|].
    intros name' j. cbn.
    destruct (decide (name = name')) as [<-|Hne].
    + rewrite lookup_insert_eq. by intros [= <-].
    + rewrite lookup_insert_ne by done. apply Hdc'.
Qed.

(** *** The methods *)

Lemma foldl_keeps {A} (I : Database → Prop) (step : Database → A → Database)
    (l : list A) self :
  (∀ self x, I self → I (step self x)) → I self → I (foldl step self l).
Proof.
  intros Hstep. revert self. induction l as [|x l IH]; intros self Hs; [done|].
  cbn. by apply IH, Hstep.
Qed.

Lemma init_sound file : schema_ok file → sound (__init__ file).
Proof.
  intros Hok. split.
  - cbn. apply schema_ok_commit. by destruct Hok.
  - split; intros *; cbn; by rewrite lookup_empty.
Qed.

Lemma logbook_insert_step_sound self entry :
  sound self → sound (logbook_insert_step self entry).
Proof.
  intros Hs. unfold logbook_insert_step.
  destruct (run_number entry) as [n|]; [|by apply exec_sound].
  destruct (get_or_create_run_id_sound self (experiment_id entry) n Hs)
    as [Hs' Hrel].
  destruct (_get_or_create_run_id self (experiment_id entry) n) as [self' i].
  apply exec_sound; [done|]. by exists n.
Qed.

Lemma insert_logbook_no_commit_sound self entries :
  sound self → sound (_insert_logbook_no_commit self entries).
Proof.
  intros Hs. destruct entries as [|first entries]; [done|].
  unfold _insert_logbook_no_commit.
  apply (foldl_keeps sound); [intros; by apply logbook_insert_step_sound|].
  by apply exec_sound.
Qed.

Lemma runtable_production_step_sound e self rd :
  sound self → sound (runtable_production_step e self rd).
Proof.
  intros Hs. unfold runtable_production_step.
  destruct (rd_run_number rd) as [n|]; [|done].
  destruct (get_or_create_run_id_sound self e n Hs) as [Hs' Hrel].
  destruct (_get_or_create_run_id self e n) as [self' i]. cbn in Hs', Hrel.
  cbv zeta.
  set (self2 := exec (UPDATE_Run (rd_start_time rd) (rd_end_time rd) i) self').
  assert (Hs2 : sound self2) by by apply exec_sound.
  assert (Hrel2 : run_rel (conn self2) e n i)
    by by apply IdempotenceFacts.run_rel_update.
  destruct (fetchone _ _) as [p|] eqn:Hf; [by apply exec_sound|].
  pose proof (DatabaseFacts.fetchone_None _ _ Hf) as Hnone.
  apply exec_sound; [done|]. split; [by exists e, n|done].
Qed.

Lemma detector_item_step_sound i self item :
  sound self ∧ (∃ e n, run_rel (conn self) e n i) →
  sound (detector_item_step i self item)
  ∧ ∃ e n, run_rel (conn (detector_item_step i self item)) e n i.
Proof.
  intros [Hs (e & n & Hrel)]. unfold detector_item_step.
  destruct item as [key value].
  destruct (String.eqb key "run_number" || strip_is_empty key); [by eauto|].
  destruct (get_or_create_detector_id_sound self key Hs)
    as (Hs' & Hdet & Hrun).
  destruct (_get_or_create_detector_id self key) as [self' j].
  cbn in Hs', Hdet, Hrun. split.
  - apply exec_sound; [done|]. split; [|by exists key].
    exists e, n. by apply Hrun.
  - exists e, n. by apply Hrun.
Qed.

Lemma runtable_detector_step_sound e self dd :
  sound self → sound (runtable_detector_step e self dd).
Proof.
  intros Hs. unfold runtable_detector_step.
  destruct (dd_run_number dd) as [n|]; [|done].
  destruct (get_or_create_run_id_sound self e n Hs) as [Hs' Hrel].
  destruct (_get_or_create_run_id self e n) as [self' i]. cbn in Hs', Hrel.
  apply (foldl_keeps
           (λ self, sound self ∧ ∃ e n, run_rel (conn self) e n i)).
  - intros self0 item. apply detector_item_step_sound.
  - split; [done|]. by exists e, n.
Qed.

Lemma insert_runtable_no_commit_sound self data :
  sound self → sound (_insert_runtable_no_commit self data).
Proof.
  intros Hs. unfold _insert_runtable_no_commit. cbv zeta.
  apply (foldl_keeps sound);
    [intros; by apply runtable_detector_step_sound|].
  apply (foldl_keeps sound);
    [intros; by apply runtable_production_step_sound|done].
Qed.

Lemma file_manager_step_sound e self record :
  sound self → sound (file_manager_step e self record).
Proof.
  intros Hs. unfold file_manager_step.
  destruct (fr_run_number record) as [n|]; [|done].
  destruct (get_or_create_run_id_sound self e n Hs) as [Hs' Hrel].
  destruct (_get_or_create_run_id self e n) as [self' i]. cbn in Hs', Hrel.
  cbv zeta.
  destruct (fetchone _ _) as [p|] eqn:Hf; [by apply exec_sound|].
  pose proof (DatabaseFacts.fetchone_None _ _ Hf) as Hnone.
  apply exec_sound; [done|]. split; [by exists e, n|done].
Qed.

Lemma insert_file_manager_no_commit_sound self data :
  sound self → sound (_insert_file_manager_no_commit self data).
Proof.
  intros Hs. apply (foldl_keeps sound); [|done].
  intros; by apply file_manager_step_sound.
Qed.

Lemma insert_questionnaire_no_commit_sound self data :
  sound self → sound (_insert_questionnaire_no_commit self data).
Proof.
  intros Hs. unfold _insert_questionnaire_no_commit. cbv zeta.
  apply (foldl_keeps sound); [intros; by apply exec_sound|].
  by apply exec_sound.
Qed.

Lemma insert_workflows_sound e self workflows :
  sound self → sound (insert_workflows e self workflows).1.
Proof.
  revert self. induction workflows as [|w rest IH]; intros self Hs; [done|].
  cbn. destruct (w_name w) as [name|]; [|done].
  by apply IH, exec_sound.
Qed.

Lemma insert_workflow_no_commit_sound self data :
  sound self → sound (_insert_workflow_no_commit self data).1.
Proof.
  intros Hs. unfold _insert_workflow_no_commit. cbv zeta.
  by apply insert_workflows_sound, exec_sound.
Qed.

Lemma insert_experiment_batch_sound self data :
  sound self → sound (insert_experiment_batch self data).1.
Proof.
  intros Hs. unfold insert_experiment_batch. cbv zeta.
  set (s1 := when_present (c_info data) _insert_experiment_no_commit self).
  assert (H1 : sound s1).
  { subst s1. destruct (c_info data); [by apply exec_sound|done]. }
  set (s2 := _insert_logbook_no_commit s1 (c_logbook data)).
  assert (H2 : sound s2) by by apply insert_logbook_no_commit_sound.
  set (s3 := when_present (c_runtable data) _insert_runtable_no_commit s2).
  assert (H3 : sound s3).
  { subst s3. destruct (c_runtable data);
      [by apply insert_runtable_no_commit_sound|done]. }
  set (s4 := when_present (c_file_manager data)
                          _insert_file_manager_no_commit s3).
  assert (H4 : sound s4).
  { subst s4. destruct (c_file_manager data);
      [by apply insert_file_manager_no_commit_sound|done]. }
  set (s5 := when_present (c_questionnaire data)
                          _insert_questionnaire_no_commit s4).
  assert (H5 : sound s5).
  { subst s5. destruct (c_questionnaire data);
      [by apply insert_questionnaire_no_commit_sound|done]. }
  destruct (c_workflow data); [|done].
  by apply insert_workflow_no_commit_sound.
Qed.

(** [delete_experiment] *)

Lemma schema_ok_wf c : schema_ok c → store_wf c.
Proof.
  intros [HE HQ HQu HW [HR HRs] HRu HP HPr HP1 [HD HDs] HDu HX HXu HXr HXd HL
          HLr].
  split; try done.
  - intros p Hp. destruct (HPr p Hp) as (e & n & r & Hr & <- & _).
    by apply HRs.
  - intros x Hx. destruct (HXr x Hx) as (e & n & r & Hr & <- & _).
    by apply HRs.
Qed.

Lemma delete_experiment_seq self X :
  let c := conn self in
  let c' := conn (delete_experiment self X) in
  seq (RunProductionData c') = seq (RunProductionData c)
  ∧ seq (RunDetector c') = seq (RunDetector c)
  ∧ seq (Logbook c') = seq (Logbook c)
  ∧ seq (Questionnaire c') = seq (Questionnaire c)
  ∧ seq (Workflow c') = seq (Workflow c).
Proof.
  cbv zeta. rewrite DatabaseFacts.delete_experiment_conn.
  unfold delete_experiment_statements. cbv zeta.
  rewrite DatabaseFacts.execute_all_app.
  fold (run_ids_of (conn self) X).
  destruct (IdempotenceFacts.delete_per_run_spec
              (run_ids_of (conn self) X) (conn self))
    as (_ & Hp & _ & Hx & _ & _ & Hl & Hq & Hw & _).
  cbv zeta in Hp, Hx, Hl, Hq, Hw.
  cbn. rewrite Hp, Hx, Hl, Hq, Hw. done.
Qed.

Lemma keyed_filter {A} (id : A → nat) (P : A → Prop)
    `{∀ x, Decision (P x)} (t t' : table A) :
  rows t' = filter P (rows t) → seq t' = seq t → keyed id t → keyed id t'.
Proof.
  intros Hr Hs [Hnd Hle]. unfold keyed. rewrite Hr, Hs. split.
  - by apply IdempotenceFacts.NoDup_map_filter.
  - intros x [_ Hx]%list_elem_of_filter. by apply Hle.
Qed.

Lemma delete_experiment_sound self X :
  sound self → sound (delete_experiment self X).
Proof.
  intros [Hok Hc]. split;
    [|by apply (IdempotenceFacts.delete_experiment_wf self X
                  (schema_ok_wf _ Hok) Hc)].
  destruct (IdempotenceFacts.delete_experiment_tables self X)
    as (He & Hr & Hrs & Hp & Hx & Hl & Hq & Hw & Hd).
  destruct (delete_experiment_seq self X) as (Hps & Hxs & Hls & Hqs & Hws).
  cbv zeta in He, Hr, Hrs, Hp, Hx, Hl, Hq, Hw, Hd, Hps, Hxs, Hls, Hqs, Hws.
  destruct Hok as [HE HQ HQu HW HR HRu HP HPr HP1 HD HDu HX HXu HXr HXd HL
                   HLr].
  split.
  - rewrite He. by apply IdempotenceFacts.NoDup_map_filter.
  - by eapply keyed_filter.
  - rewrite Hq. by apply IdempotenceFacts.NoDup_map_filter.
  - by eapply keyed_filter.
  - by eapply keyed_filter.
  - rewrite Hr. by apply IdempotenceFacts.NoDup_map_filter.
  - by eapply keyed_filter.
  - intros p. rewrite Hp. intros [Hno Hin]%list_elem_of_filter.
    destruct (HPr p Hin) as (e & n & Hrel). exists e, n.
    apply IdempotenceFacts.run_rel_deleted. split; [done|]. intros ->.
    apply Hno, IdempotenceFacts.elem_of_run_ids_of. by exists n.
  - rewrite Hp. by apply IdempotenceFacts.NoDup_map_filter.
  - by rewrite Hd.
  - by rewrite Hd.
  - by eapply keyed_filter.
  - rewrite Hx. by apply IdempotenceFacts.NoDup_map_filter.
  - intros x. rewrite Hx. intros [Hno Hin]%list_elem_of_filter.
    destruct (HXr x Hin) as (e & n & Hrel). exists e, n.
    apply IdempotenceFacts.run_rel_deleted. split; [done|]. intros ->.
    apply Hno, IdempotenceFacts.elem_of_run_ids_of. by exists n.
  - intros x. rewrite Hx. intros [_ Hin]%list_elem_of_filter.
    destruct (HXd x Hin) as (name & Hrel). exists name.
    by apply (IdempotenceFacts.det_rel_ext (conn self)).
  - by eapply keyed_filter.
  - intros l i. rewrite Hl. intros [Hne Hin]%list_elem_of_filter Hi.
    destruct (HLr l i Hin Hi) as (n & Hrel). exists n.
    by apply IdempotenceFacts.run_rel_deleted.
Qed.

(** A new file. *)
Lemma empty_store_ok : schema_ok empty_store.
Proof.
  split; cbn; try apply NoDup_nil_2;
    try (split; [apply NoDup_nil_2|]; intros x Hx; by apply elem_of_nil in Hx);
    try (intros x Hx; by apply elem_of_nil in Hx).
  intros l i Hl. by apply elem_of_nil in Hl.
Qed.

Lemma in_use_sound file self :
  schema_ok file → in_use file self →
  schema_ok (conn self) ∧ cache_wf self.
Proof.
  intros Hok Huse. change (sound self).
  induction Huse as [|self _ IH|self _ IH|self data _ IH|self data _ IH
                     |self data _ IH|self entries _ IH|self data _ IH
                     |self data _ IH|self data _ IH|self key value _ IH
                     |self X _ IH|self _ IH].
  - by apply init_sound.
  - unfold enable_wal_mode. by repeat apply exec_sound.
  - by apply commit_sound.
  - by apply commit_sound, exec_sound.
  - by apply commit_sound, insert_questionnaire_no_commit_sound.
  - pose proof (insert_workflow_no_commit_sound self data IH) as Hs.
    unfold insert_workflow.
    destruct (_insert_workflow_no_commit self data) as [s [[]|e]];
      [by apply commit_sound|done].
  - by apply commit_sound, insert_logbook_no_commit_sound.
  - by apply commit_sound, insert_runtable_no_commit_sound.
  - by apply commit_sound, insert_file_manager_no_commit_sound.
  - by apply insert_experiment_batch_sound.
  - by apply commit_sound, exec_sound.
  - by apply delete_experiment_sound.
  - by apply exec_sound.
Qed.

(** X12. The keys of the schema. On a store file whose tables satisfy the
    keys of [_create_tables], a [Database] object keeps them whatever
    methods are called on it, in any order and with any data: primary keys
    stay distinct and below the table's sequence, [UNIQUE(run_number,
    experiment_id)], [UNIQUE(detector_name)], [UNIQUE(run_id, detector_id)]
    and [UNIQUE(experiment_id, field_id)] hold, every row of
    [RunProductionData] and [RunDetector] refers to a run (and a detector)
    that exists, a run has at most one row of production data, and the run
    of a log entry is a run of the entry's experiment. Both caches only hold
    ids of rows that are in the tables, also after [delete_experiment]. *)
Theorem schema_kept file self :
  schema_ok file → in_use file self →
  schema_ok (conn self) ∧ cache_wf self.
Proof. apply in_use_sound. Qed.

Lemma schema_kept_witness :
  schema_ok
    (conn (insert_logbook (__init__ empty_store)
             [DbEntry "e1" "xpp1" (Some 7) "2024-01-01" None None None]))
  ∧ cache_wf
      (insert_logbook (__init__ empty_store)
         [DbEntry "e1" "xpp1" (Some 7) "2024-01-01" None None None]).
Proof.
  apply (schema_kept empty_store).
  - apply empty_store_ok.
  - apply use_insert_logbook, use_init.
Defined.

(** *** Run ids *)

Lemma get_or_create_run_id_keeps self e n e' n' i :
  run_rel (conn self) e' n' i →
  run_rel (conn (_get_or_create_run_id self e n).1) e' n' i.
Proof.
  intros Hrel. unfold _get_or_create_run_id. cbv zeta.
  destruct (_run_id_cache self !! cache_key e n); [done|].
  destruct (fetchone _ _); [done|].
  cbn. apply IdempotenceFacts.run_rel_insert. by left.
Qed.

(** X13. Run ids. On a store that satisfies its keys, with sound caches,
    and for run numbers SQLite can bind, [_get_or_create_run_id] returns
    the id of a [Run] row of the experiment and run number asked for;
    asking again for the same run returns the same id and changes neither
    the store nor the caches; and two calls return the same id only for
    the same experiment and run number. *)
Theorem run_id_one_to_one self e n e' n' :
  schema_ok (conn self) → cache_wf self → int64 n → int64 n' →
  let first := _get_or_create_run_id self e n in
  let second := _get_or_create_run_id first.1 e' n' in
  run_rel (conn first.1) e n first.2
  ∧ _get_or_create_run_id first.1 e n = first
  ∧ (first.2 = second.2 ↔ e = e' ∧ n = n').
Proof.
  intros Hok Hc _ _. cbv zeta.
  destruct (get_or_create_run_id_sound self e n) as [Hs1 Hrel1]; [done|].
  assert (Hagain : _get_or_create_run_id (_get_or_create_run_id self e n).1
                     e n = _get_or_create_run_id self e n).
  { destruct (DatabaseFacts.get_or_create_run_id_cached self e n)
      as [Hcached _]. cbv zeta in Hcached.
    destruct (_get_or_create_run_id self e n) as [s1 i].
    cbn [fst snd] in *.
    unfold _get_or_create_run_id. cbv zeta. by rewrite Hcached. }
  split_and!; [done|done|]. split.
  - intros Heq.
    destruct (get_or_create_run_id_sound
                (_get_or_create_run_id self e n).1 e' n' Hs1)
      as [[Hok2 _] Hrel2].
    apply (get_or_create_run_id_keeps _ e' n') in Hrel1.
    rewrite Heq in Hrel1.
    eapply IdempotenceFacts.run_rel_owner; [|done..].
    by destruct Hok2 as [_ _ _ _ [Hnd _]].
  - intros [<- <-]. by rewrite Hagain.
Qed.

Lemma run_id_one_to_one_witness :
  let first := _get_or_create_run_id (__init__ empty_store) "xpp1" 7 in
  let second := _get_or_create_run_id first.1 "xpp1" 8 in
  run_rel (conn first.1) "xpp1" 7 first.2
  ∧ _get_or_create_run_id first.1 "xpp1" 7 = first
  ∧ (first.2 = second.2 ↔ "xpp1" = "xpp1" ∧ 7 = 8).
Proof.
  apply (run_id_one_to_one (__init__ empty_store) "xpp1" 7 "xpp1" 8).
  - apply init_sound, empty_store_ok.
  - apply init_sound, empty_store_ok.
  - unfold int64. lia.
  - unfold int64. lia.
Defined.

(** *** The writer *)

Lemma close_schema_ok self :
  schema_ok (conn self) → schema_ok (conn (close self)).
Proof.
  intros Hok. unfold close.
  assert (Hclose : ∀ c, schema_ok c → schema_ok (conn_close c))
    by (by intros c []).
  destruct (is_open (conn self)); cbn [conn set_conn]; apply Hclose; [|done].
  apply execute_schema_ok; [|done]. by apply execute_schema_ok.
Qed.

Lemma writer_turn_use now config incremental file w data :
  in_use file (Cli.db w) →
  match Cli.writer_turn now config incremental w data with
  | Cli.Continue w' | Cli.Break w' | Cli.Escapes w' _ =>
      in_use file (Cli.db w')
  end.
Proof.
  intros Hw. unfold Cli.writer_turn. destruct data as [data|]; [|done].
  destruct (c_experiment_id data) as [exp_id|]; [|done].
  destruct (c_error data); [done|]. cbv zeta.
  set (d := if incremental then delete_experiment (Cli.db w) exp_id
            else Cli.db w).
  assert (Hd : in_use file d).
  { subst d. destruct incremental; [by constructor|done]. }
  pose proof (use_insert_experiment_batch file d data Hd) as Hb.
  destruct (insert_experiment_batch d data) as [d' [[]|e]]; cbn in Hb;
    [|done].
  destruct (Cli.batch_commit_size config <=? Cli.batch_count w + 1); cbn;
    [by constructor|done].
Qed.

Lemma writer_loop_use now config incremental file queue w :
  in_use file (Cli.db w) →
  in_use file (Cli.db (Cli.writer_loop now config incremental w queue).1).
Proof.
  revert w. induction queue as [|data rest IH]; intros w Hw; [done|].
  cbn [Cli.writer_loop].
  pose proof (writer_turn_use now config incremental file w data Hw) as Ht.
  destruct (Cli.writer_turn now config incremental w data); [by apply IH|done..].
Qed.

(** X14. An update run keeps the keys. Whatever the upstream returns for
    the experiments, in full or incremental mode and for any batch size,
    the store file that [_do_update] leaves behind satisfies the keys of
    the schema if the file it started from (an empty store, or the copy of
    the base database) does: no step of the writer, from [enable_wal_mode]
    to [close], breaks a primary key, a [UNIQUE] constraint or a reference
    to [Run] or [Detector], also when items fail or the loop is left by an
    exception. *)
Theorem update_keeps_schema now config incremental api experiments file :
  schema_ok file →
  schema_ok (Cli._do_update now config incremental api experiments file).1.
Proof.
  intros Hok. unfold Cli._do_update. cbv zeta.
  generalize (Cli.data_queue
                (Cli.put_sentinel
                   (Cli.fetch_all api experiments
                      {| Cli.calls := []; Cli.data_queue := [] |}))).
  intros queue. unfold Cli.writer_thread. cbv zeta.
  set (w0 := {| Cli.db := enable_wal_mode (__init__ file);
                Cli.batch_count := 0; Cli.success_count := 0;
                Cli.failed_experiments := []; Cli.clock := 0 |}).
  assert (H0 : in_use file (Cli.db w0)) by (cbn; do 2 constructor).
  assert (Ht : in_use file
                 (Cli.db (Cli.writer_try now config incremental w0 queue).1)).
  { unfold Cli.writer_try.
    pose proof (writer_loop_use now config incremental file queue w0 H0)
      as Hl.
    destruct (Cli.writer_loop now config incremental w0 queue)
      as [w [e|]]; [done|].
    destruct (0 <? Cli.batch_count w); [by constructor|done]. }
  destruct (Cli.writer_try now config incremental w0 queue) as [w escaped].
  cbn [fst] in Ht.
  assert (Hf : schema_ok (conn (Cli.db (Cli.writer_finally now config w)))).
  { unfold Cli.writer_finally. cbv zeta. cbn [Cli.db].
    apply close_schema_ok.
    apply (in_use_sound file); [done|]. by do 2 constructor. }
  by destruct escaped.
Qed.

Lemma update_keeps_schema_witness :
  schema_ok
    (Cli._do_update (λ _, "2024-01-01T00:00:00") (batches_of 2) true
       info_unavailable ["xpp1"; "xpp2"] empty_store).1.
Proof.
  apply (update_keeps_schema (λ _, "2024-01-01T00:00:00") (batches_of 2) true
           info_unavailable ["xpp1"; "xpp2"] empty_store).
  apply empty_store_ok.
Defined.

(** *** [insert_logbook] *)

Lemma get_or_create_run_id_logbook self e n :
  Logbook (conn (_get_or_create_run_id self e n).1) = Logbook (conn self).
Proof.
  unfold _get_or_create_run_id. cbv zeta.
  destruct (_run_id_cache self !! cache_key e n); [done|].
  by destruct (fetchone _ _).
Qed.

Lemma logged_keeps c c' X entry row :
  (∀ e n i, run_rel c e n i → run_rel c' e n i) →
  logged c X entry row → logged c' X entry row.
Proof.
  intros Hrun (H1 & H2 & H3 & H4 & H5 & H6). split_and!; try done.
  destruct (run_number entry) as [n|]; [|done].
  destruct H6 as (i & Hi & Hrel). exists i. split; [done|]. by apply Hrun.
Qed.

Lemma logbook_insert_step_spec self entry :
  sound self →
  let self1 := logbook_insert_step self entry in
  sound self1
  ∧ (∀ e n i, run_rel (conn self) e n i → run_rel (conn self1) e n i)
  ∧ ∃ row, rows (Logbook (conn self1)) = rows (Logbook (conn self)) ++ [row]
           ∧ logged (conn self1) (experiment_id entry) entry row.
Proof.
  intros Hs. cbv zeta.
  split; [by apply logbook_insert_step_sound|].
  unfold logbook_insert_step, logged.
  destruct (run_number entry) as [n|].
  - destruct (get_or_create_run_id_sound self (experiment_id entry) n Hs)
      as [Hs' Hrel].
    pose proof (get_or_create_run_id_logbook self (experiment_id entry) n)
      as Hl.
    pose proof (λ e' n' i',
                get_or_create_run_id_keeps self (experiment_id entry) n
                  e' n' i') as Hkeep.
    destruct (_get_or_create_run_id self (experiment_id entry) n)
      as [self' i]. cbn [fst snd] in *. split.
    + intros e' n' i' Hr. apply run_rel_keeps; [by exists n|]. by apply Hkeep.
    + eexists. split; [cbn; by rewrite Hl|]. cbn. split_and!; try done.
      exists i. split; [done|]. exact Hrel.
  - split; [intros e' n' i' Hr; by apply run_rel_keeps|].
    eexists. split; [done|]. done.
Qed.

Lemma logbook_fold_spec X entries self :
  sound self → Forall (λ entry, experiment_id entry = X) entries →
  let self' := foldl logbook_insert_step self entries in
  (∀ e n i, run_rel (conn self) e n i → run_rel (conn self') e n i)
  ∧ ∃ new, rows (Logbook (conn self')) = rows (Logbook (conn self)) ++ new
           ∧ Forall2 (logged (conn self') X) entries new.
Proof.
  cbv zeta. intros Hs HX. revert self Hs.
  induction HX as [|entry entries Hx HX IH]; intros self Hs.
  { split; [done|]. exists []. by rewrite app_nil_r. }
  cbn [foldl].
  destruct (logbook_insert_step_spec self entry Hs)
    as (Hs1 & Hrun1 & row & Hrows1 & Hrow).
  cbv zeta in Hs1, Hrun1, Hrows1, Hrow.
  destruct (IH _ Hs1) as (Hrun & new & Hrows & Hnew).
  split; [intros e n i Hr; by apply Hrun, Hrun1|].
  exists (row :: new). split.
  - rewrite Hrows, Hrows1, <- app_assoc. done.
  - constructor; [|done]. rewrite <- Hx. by eapply logged_keeps.
Qed.

(** X15. [insert_logbook] replaces the log of an experiment. Called with a
    non-empty list of entries of experiment [X], whose run numbers SQLite
    can bind, on a store that satisfies its keys, it leaves the [Logbook]
    rows of other experiments as they are, and the rows of [X] are then,
    in order, one per entry, with the entry's timestamp, content, tags and
    author, linked to the [Run] row of [X] with the entry's run number
    (created if there was none), or to no run if the entry has no run
    number. Called with an empty list it leaves [Logbook] as it is: the
    rows an experiment had stay. *)
Theorem insert_logbook_replaces self X entries :
  schema_ok (conn self) → cache_wf self →
  Forall (λ entry, experiment_id entry = X) entries →
  logbook_bindable entries →
  let c := conn self in
  let c' := conn (insert_logbook self entries) in
  match entries with
  | [] => Logbook c' = Logbook c
  | _ :: _ =>
      filter (λ l, log_experiment_id l ≠ X) (rows (Logbook c'))
      = filter (λ l, log_experiment_id l ≠ X) (rows (Logbook c))
      ∧ Forall2 (logged c' X) entries
                (filter (λ l, log_experiment_id l = X) (rows (Logbook c')))
  end.
Proof.
  intros Hok Hc HX _. cbv zeta.
  destruct entries as [|first rest]; [done|].
  assert (Hfirst : experiment_id first = X) by by inversion HX.
  unfold insert_logbook, _insert_logbook_no_commit. rewrite Hfirst.
  set (self0 := exec (DELETE_Logbook X) self).
  assert (Hs0 : sound self0) by (apply exec_sound; by split).
  destruct (logbook_fold_spec X (first :: rest) self0 Hs0 HX)
    as (_ & new & Hrows & Hnew).
  cbv zeta in Hrows, Hnew.
  assert (HnewX : ∀ l, l ∈ new → log_experiment_id l = X).
  { clear Hrows. induction Hnew as [|entry row es rs Hrow _ IH];
      [by intros y ?%elem_of_nil|].
    intros y [->|Hy]%elem_of_cons; [by destruct Hrow|by apply IH]. }
  assert (Hdel : rows (Logbook (conn self0))
                 = filter (λ l, log_experiment_id l ≠ X)
                          (rows (Logbook (conn self)))) by done.
  cbn [conn commit set_conn conn_commit Logbook set_events].
  rewrite Hrows, Hdel, !filter_app. split.
  - rewrite IdempotenceFacts.filter_key_same.
    rewrite (IdempotenceFacts.filter_none _ new), app_nil_r; [done|].
    intros l Hl Hne. by apply Hne, HnewX.
  - rewrite IdempotenceFacts.filter_key_gone.
    rewrite (IdempotenceFacts.filter_all _ new); done.
Qed.

Lemma insert_logbook_replaces_witness :
  let entries := [DbEntry "e1" "xpp1" (Some 7) "2024-01-01" None None None;
                  DbEntry "e2" "xpp1" None "2024-01-02" None None None] in
  let c := conn (__init__ empty_store) in
  let c' := conn (insert_logbook (__init__ empty_store) entries) in
  filter (λ l, log_experiment_id l ≠ "xpp1") (rows (Logbook c'))
  = filter (λ l, log_experiment_id l ≠ "xpp1") (rows (Logbook c))
  ∧ Forall2 (logged c' "xpp1") entries
            (filter (λ l, log_experiment_id l = "xpp1") (rows (Logbook c'))).
Proof.
  apply (insert_logbook_replaces (__init__ empty_store) "xpp1"
           [DbEntry "e1" "xpp1" (Some 7) "2024-01-01" None None None;
            DbEntry "e2" "xpp1" None "2024-01-02" None None None]).
  - apply init_sound, empty_store_ok.
  - apply init_sound, empty_store_ok.
  - by repeat constructor.
  - repeat constructor; cbn; unfold int64; lia.
Defined.

(** *** [insert_questionnaire] *)

Lemma last_with_snoc fid fields f :
  last_with fid (fields ++ [f])
  = (if decide (f_field_id f = fid) then Some f else last_with fid fields).
Proof.
  unfold last_with. rewrite rev_app_distr. cbn.
  by destruct (decide (f_field_id f = fid));
    [rewrite bool_decide_true|rewrite bool_decide_false].
Qed.

Lemma questionnaire_fold X proposal fields self :
  let self' :=
    foldl (λ self f, exec (INSERT_OR_REPLACE_Questionnaire X proposal f) self)
          self fields in
  let t := rows (Questionnaire (conn self)) in
  let t' := rows (Questionnaire (conn self')) in
  filter (λ q, q_experiment_id q ≠ X) t' = filter (λ q, q_experiment_id q ≠ X) t
  ∧ ∀ fid,
      match last_with fid fields with
      | Some f =>
          ∃ row, filter (λ q, q_experiment_id q = X ∧ q_field_id q = fid) t'
                 = [row]
                 ∧ answers X proposal f row
      | None =>
          filter (λ q, q_experiment_id q = X ∧ q_field_id q = fid) t'
          = filter (λ q, q_experiment_id q = X ∧ q_field_id q = fid) t
      end.
Proof.
  cbv zeta. induction fields as [|f fields IH] using rev_ind; [done|].
  rewrite foldl_app. cbn [foldl].
  set (self1 := foldl _ self fields) in *.
  destruct IH as [IHo IHx].
  assert (Hrows : ∃ row,
            rows (Questionnaire
                    (conn (exec (INSERT_OR_REPLACE_Questionnaire X proposal f)
                                self1)))
            = filter (λ q, ¬ (q_experiment_id q = X
                              ∧ q_field_id q = f_field_id f))
                     (rows (Questionnaire (conn self1))) ++ [row]
            ∧ answers X proposal f row).
  { eexists. split; [done|]. done. }
  destruct Hrows as (rowf & -> & Hf). split.
  - rewrite filter_app, list_filter_filter, <- IHo.
    rewrite (IdempotenceFacts.filter_none _ [rowf]), app_nil_r.
    + apply IdempotenceFacts.filter_ext_in. intros q _. tauto.
    + intros q ->%list_elem_of_singleton Hne. by destruct Hf.
  - intros fid. rewrite last_with_snoc, filter_app, list_filter_filter.
    destruct (decide (f_field_id f = fid)) as [<-|Hne].
    + exists rowf. split; [|done].
      rewrite IdempotenceFacts.filter_none by (intros q _; tauto).
      rewrite IdempotenceFacts.filter_all; [done|].
      intros q ->%list_elem_of_singleton. by destruct Hf as (? & _ & _ & ? & _).
    + rewrite (IdempotenceFacts.filter_none _ [rowf]), app_nil_r.
      * specialize (IHx fid).
        assert (Heq : filter (λ q, (q_experiment_id q = X ∧ q_field_id q = fid)
                                   ∧ ¬ (q_experiment_id q = X
                                        ∧ q_field_id q = f_field_id f))
                             (rows (Questionnaire (conn self1)))
                      = filter (λ q, q_experiment_id q = X ∧ q_field_id q = fid)
                               (rows (Questionnaire (conn self1)))).
        { apply IdempotenceFacts.filter_ext_in. intros q _.
          intuition congruence. }
        rewrite Heq. exact IHx.
      * intros q ->%list_elem_of_singleton [_ Hq].
        destruct Hf as (_ & _ & _ & Hid & _). congruence.
Qed.

(** X16. [insert_questionnaire] replaces the questionnaire of an experiment,
    the last answer winning. The [Questionnaire] rows of other experiments
    stay as they are. For the experiment of [data], every field id that
    occurs among the fields has exactly one row afterwards, holding the
    proposal number and the columns of the last field with that id, and a
    field id that does not occur has no row: rows of an earlier call are
    gone, and a repeated field id does not fail on
    [UNIQUE(experiment_id, field_id)] but replaces the row. *)
Theorem insert_questionnaire_last_wins self data :
  let X := qn_experiment_id data in
  let t := rows (Questionnaire (conn self)) in
  let t' := rows (Questionnaire (conn (insert_questionnaire self data))) in
  filter (λ q, q_experiment_id q ≠ X) t' = filter (λ q, q_experiment_id q ≠ X) t
  ∧ ∀ fid,
      match last_with fid (qn_fields data) with
      | Some f =>
          ∃ row, filter (λ q, q_experiment_id q = X ∧ q_field_id q = fid) t'
                 = [row]
                 ∧ answers X (qn_proposal_number data) f row
      | None =>
          filter (λ q, q_experiment_id q = X ∧ q_field_id q = fid) t' = []
      end.
Proof.
  cbv zeta. unfold insert_questionnaire, _insert_questionnaire_no_commit.
  cbv zeta.
  set (X := qn_experiment_id data).
  set (self0 := exec (DELETE_Questionnaire X) self).
  destruct (questionnaire_fold X (qn_proposal_number data) (qn_fields data)
              self0) as [Ho Hx].
  cbv zeta in Ho, Hx.
  assert (Hdel : rows (Questionnaire (conn self0))
                 = filter (λ q, q_experiment_id q ≠ X)
                          (rows (Questionnaire (conn self)))) by done.
  cbn [conn commit set_conn conn_commit Questionnaire set_events].
  split.
  - rewrite Ho, Hdel. apply IdempotenceFacts.filter_key_same.
  - intros fid. specialize (Hx fid).
    destruct (last_with fid (qn_fields data)); [done|].
    rewrite Hx, Hdel. apply IdempotenceFacts.filter_none.
    intros q [Hne _]%list_elem_of_filter [Hq _]. done.
Qed.

End SchemaFacts.

Module PoolFacts.
Import Py Spec Database Cli CliFacts.

(** *** The pool *)

Lemma fetch_and_queue_alone api exp_id :
  (fetch_and_queue api exp_id {| calls := []; data_queue := [] |}).1
  = {| calls := (fetch_data api exp_id []).1;
       data_queue := [Some (worker_item api exp_id)] |}.
Proof.
  unfold fetch_and_queue, worker_item. cbn [calls data_queue].
  by destruct (fetch_data api exp_id []) as [cs [data|e]].
Qed.

Lemma own_calls api exp_id :
  (fetch_data api exp_id []).1 = calls_for api exp_id.
Proof.
  destruct (fetch_and_queue_spec api exp_id {| calls := []; data_queue := [] |})
    as (data & Hp & _).
  rewrite fetch_and_queue_alone in Hp. by injection Hp as -> _.
Qed.


Lemma calls_for_snd api exp_id c : c ∈ calls_for api exp_id → c.2 = exp_id.
Proof.
  unfold calls_for. by intros (ep & -> & _)%list_elem_of_fmap.
Qed.

Lemma filter_true_all {A} (P : A → Prop) `{∀ x, Decision (P x)} (l : list A) :
  (∀ x, x ∈ l → P x) → filter P l = l.
Proof.
  induction l as [|x l IH]; intros HP; [done|].
  rewrite filter_cons, decide_True by (apply HP; by left).
  f_equal. apply IH. intros y Hy. apply HP. by right.
Qed.

Lemma filter_false_nil {A} (P : A → Prop) `{∀ x, Decision (P x)}
    (l : list A) :
  (∀ x, x ∈ l → ¬ P x) → filter P l = [].
Proof.
  induction l as [|x l IH]; intros HP; [done|].
  rewrite filter_cons, decide_False by (apply HP; by left).
  apply IH. intros y Hy. apply HP. by right.
Qed.

Lemma filter_calls_for api exp_id :
  filter (λ c : endpoint * string, c.2 = exp_id) (calls_for api exp_id)
  = calls_for api exp_id.
Proof.
  apply filter_true_all. apply calls_for_snd.
Qed.

Lemma filter_calls_other api exp_id e :
  e ≠ exp_id →
  filter (λ c : endpoint * string, c.2 = e) (calls_for api exp_id) = [].
Proof.
  intros Hne. apply filter_false_nil.
  intros c Hc%calls_for_snd. congruence.
Qed.

Lemma pool_step_inv api max_workers experiments p σ σ' done cs :
  pool_step api max_workers σ σ' →
  pool_inv api experiments p σ done cs →
  ∃ done' cs', pool_inv api experiments p σ' done' cs'.
Proof.
  intros Hstep [Hcalls Hqueue Hjobs Hsplit Hall Hdone Hrun Hpend].
  assert (Hdistinct : NoDup experiments →
            NoDup (done ++ map job (running σ) ++ pending σ)).
  { intros Hnd. by rewrite Hjobs. }
  destruct Hstep as [exp_id pending running p0 Hlt
                    |before exp_id made c todo after pending p0
                    |before exp_id made after pending p0];
    cbn [Cli.pending Cli.running Cli.produced] in *.
  - (* a worker takes up the next experiment *)
    exists done, cs. split; cbn [Cli.pending Cli.running Cli.produced Cli.calls
                                 Cli.data_queue].
    + done.
    + done.
    + rewrite <- Hjobs, map_app. cbn [map job].
      rewrite <- !app_assoc. cbn [app]. done.
    + apply Forall_app. split; [done|]. constructor; [|constructor].
      cbn [job Cli.made Cli.todo app]. apply own_calls.
    + rewrite flat_map_app. cbn. by rewrite !app_nil_r.
    + done.
    + intros Hnd w [Hw| ->%list_elem_of_singleton]%elem_of_app;
        [by apply Hrun|].
      cbn [job Cli.made]. apply Hpend; [done|]. by left.
    + intros Hnd e He. apply Hpend; [done|]. by right.
  - (* a running worker makes its next call *)
    apply Forall_app in Hsplit as [Hbefore Hsplit].
    apply Forall_cons in Hsplit as [Hw Hafter].
    cbn [job Cli.made Cli.todo] in Hw.
    assert (Hc : c.2 = exp_id).
    { apply (calls_for_snd api). rewrite <- Hw.
      apply elem_of_app. right. by left. }
    exists done, (cs ++ [c]). split;
      cbn [Cli.pending Cli.running Cli.produced Cli.calls Cli.data_queue].
    + by rewrite Hcalls, <- app_assoc.
    + done.
    + by rewrite <- Hjobs, !map_app.
    + apply Forall_app. split; [done|]. constructor; [|done].
      cbn [job Cli.made Cli.todo]. by rewrite <- app_assoc.
    + rewrite Hall, !flat_map_app. cbn [flat_map Cli.made].
      rewrite <- !app_assoc.
      apply Permutation_app_head, Permutation_app_head.
      rewrite (app_assoc made [c]). rewrite <- (app_assoc made).
      apply Permutation_app_head. apply Permutation_app_comm.
    + intros Hnd e He. rewrite filter_app, (Hdone Hnd e He).
      rewrite filter_false_nil; [by rewrite app_nil_r|].
      intros x ->%list_elem_of_singleton Hx.
      assert (e = exp_id) as -> by congruence.
      specialize (Hdistinct Hnd). apply NoDup_app in Hdistinct as (_ & Hd & _).
      apply (Hd exp_id He). apply elem_of_app. left.
      rewrite map_app. apply elem_of_app. right. cbn. by left.
    + intros Hnd w Hw'.
      specialize (Hdistinct Hnd).
      apply NoDup_app in Hdistinct as (_ & _ & Hd).
      apply NoDup_app in Hd as (Hd & _ & _).
      rewrite map_app in Hd. cbn [map job] in Hd.
      apply NoDup_app in Hd as (Hb & Hba & Ha).
      apply NoDup_cons in Ha as [Hnotin Ha].
      rewrite filter_app.
      apply elem_of_app in Hw' as [Hw'|[->|Hw']%elem_of_cons].
      * rewrite (Hrun Hnd w) by (apply elem_of_app; by left).
        rewrite filter_false_nil; [by rewrite app_nil_r|].
        intros x ->%list_elem_of_singleton Hx.
        apply (Hba (job w)); [apply list_elem_of_fmap; by exists w|].
        rewrite <- Hx, Hc. by left.
      * cbn [job Cli.made].
        assert (Hr : filter (λ c0 : endpoint * string, c0.2 = exp_id) cs
                     = made).
        { apply (Hrun Hnd {| job := exp_id; made := made;
                             todo := c :: todo |}).
          apply elem_of_app. right. by left. }
        rewrite Hr, filter_true_all; [done|].
        by intros x ->%list_elem_of_singleton.
      * rewrite (Hrun Hnd w) by (apply elem_of_app; right; by right).
        rewrite filter_false_nil; [by rewrite app_nil_r|].
        intros x ->%list_elem_of_singleton Hx.
        apply Hnotin. rewrite <- Hc, Hx. apply list_elem_of_fmap. by exists w.
    + intros Hnd e He. rewrite filter_app, (Hpend Hnd e He).
      rewrite filter_false_nil; [done|].
      intros x ->%list_elem_of_singleton Hx.
      assert (e = exp_id) as -> by congruence.
      specialize (Hdistinct Hnd).
      apply NoDup_app in Hdistinct as (_ & _ & Hd).
      apply NoDup_app in Hd as (_ & Hd & _).
      apply (Hd exp_id); [|done]. rewrite map_app. apply elem_of_app. right.
      cbn. by left.
  - (* a worker is done and puts its item *)
    apply Forall_app in Hsplit as [Hbefore Hsplit].
    apply Forall_cons in Hsplit as [Hw Hafter].
    cbn [job Cli.made Cli.todo] in Hw.
    rewrite app_nil_r in Hw.
    exists (done ++ [exp_id]), cs. split;
      cbn [Cli.pending Cli.running Cli.produced Cli.calls Cli.data_queue].
    + done.
    + by rewrite Hqueue, map_app, <- app_assoc.
    + rewrite <- Hjobs, !map_app. cbn [map job].
      rewrite <- !app_assoc. apply Permutation_app_head. cbn [app].
      rewrite (Permutation_middle (map job before)). done.
    + apply Forall_app. by split.
    + rewrite Hall, !flat_map_app. cbn [flat_map Cli.made].
      rewrite app_nil_r, Hw, <- !app_assoc.
      apply Permutation_app_head.
      rewrite !app_assoc. apply Permutation_app_tail.
      apply Permutation_app_comm.
    + intros Hnd e [He| ->%list_elem_of_singleton]%elem_of_app;
        [by apply Hdone|].
      rewrite <- Hw.
      apply (Hrun Hnd {| job := exp_id; made := made; todo := [] |}).
      apply elem_of_app. right. by left.
    + intros Hnd w Hw'. apply Hrun; [done|].
      apply elem_of_app in Hw' as [?|?]; apply elem_of_app; [by left|].
      right. by right.
    + done.
Qed.

Lemma pool_rtc_inv api max_workers experiments p σ σ' done cs :
  rtc (pool_step api max_workers) σ σ' →
  pool_inv api experiments p σ done cs →
  ∃ done' cs', pool_inv api experiments p σ' done' cs'.
Proof.
  intros Hrtc. revert done cs.
  induction Hrtc as [σ|σ σ1 σ' Hstep _ IH]; intros done cs Hinv; [by eauto|].
  destruct (pool_step_inv _ _ _ _ _ _ _ _ Hstep Hinv) as (done1 & cs1 & Hinv1).
  by eapply IH.
Qed.

Lemma pool_inv_start api experiments p :
  pool_inv api experiments p
    {| pending := experiments; running := []; produced := p |} [] [].
Proof.
  split; cbn [Cli.pending Cli.running Cli.produced map flat_map app];
    try done.
  - by rewrite app_nil_r.
  - by rewrite app_nil_r.
  - by intros _ e ?%elem_of_nil.
  - by intros _ w ?%elem_of_nil.
Qed.





Lemma pool_runs_spec api max_workers experiments p p' :
  pool_runs api max_workers experiments p p' →
  ∃ order cs,
    order ≡ₚ experiments ∧
    calls p' = calls p ++ cs ∧
    cs ≡ₚ flat_map (calls_for api) experiments ∧
    (NoDup experiments →
     ∀ exp_id, exp_id ∈ experiments →
       filter (λ c, c.2 = exp_id) cs = calls_for api exp_id) ∧
    data_queue p' = data_queue p ++ map Some (map (worker_item api) order).
Proof.
  intros Hrun.
  destruct (pool_rtc_inv _ _ experiments p _ _ [] [] Hrun
              (pool_inv_start api experiments p))
    as (done & cs & [Hcalls Hqueue Hjobs _ Hall Hdone _ _]).
  cbn [Cli.pending Cli.running Cli.produced map flat_map] in *.
  rewrite !app_nil_r in Hjobs. rewrite app_nil_r in Hall.
  exists done, cs. split_and!; [done..| | |].
  - rewrite Hall. by apply Permutation_flat_map.
  - intros Hnd e He. apply Hdone; [done|]. by rewrite Hjobs.
  - by rewrite Hqueue, map_map.
Qed.

(** *** The pool comes to an end *)






(** *** What the writer is fed *)

Lemma produces_queue config api experiments p p' :
  produces config api experiments p p' →
  ∃ order,
    order ≡ₚ experiments ∧
    (parallel_jobs config ≤ 1 → order = experiments) ∧
    data_queue p'
    = data_queue p ++ map (λ exp_id, Some (fetched api exp_id)) order.
Proof.
  unfold produces. destruct (1 <? parallel_jobs config) eqn:Hjobs.
  - intros (order & cs & Hperm & _ & _ & _ & Hqueue)%pool_runs_spec.
    exists order. split_and!; [done|lia|].
    by rewrite Hqueue, map_map.
  - intros ->. exists experiments. split_and!; [done..|].
    apply PipelineFacts.fetch_all_queue.
Qed.

(** X6. What an update accounts for. Take any run of the producers, the
    loop or the pool, on experiments whose fetched records hold only
    integers SQLite can bind. The writer, fed the items in the order they
    were queued and then the sentinel, lets no exception out of its loop,
    and what [_do_update] returns after [writer.join] counts every
    experiment once: the success count is the number of experiments whose
    fetch raised nothing and whose workflows all have names, and the failed
    list names the others in the order their items were queued, which is
    the order of the experiments when [parallel_jobs <= 1], each with the
    text of the exception: that of the first fetch that raised, or that of
    the store for a workflow without a name. *)
Theorem update_accounts now config incremental api experiments file p' :
  (∀ exp_id, exp_id ∈ experiments → record_bindable (fetched api exp_id)) →
  produces config api experiments {| calls := []; data_queue := [] |} p' →
  ∃ order failed,
    order ≡ₚ experiments
    ∧ (parallel_jobs config ≤ 1 → order = experiments)
    ∧ (let '(w, error_holder) :=
         writer_thread now config incremental file
           (data_queue (put_sentinel p')) in
       (after_join w error_holder).2)
      = Return
          (Z.of_nat
             (length (filter (λ exp_id, writes (fetched api exp_id) = true)
                             experiments)),
           failed)
    ∧ map failed_experiment_id failed
      = filter (λ exp_id, writes (fetched api exp_id) = false) order
    ∧ map failed_error failed
      = map (λ exp_id, error_text (fetched api exp_id))
            (filter (λ exp_id, writes (fetched api exp_id) = false) order).
Proof.
  intros _ (order & Hperm & Hseq & Hqueue)%produces_queue.
  unfold put_sentinel. cbn [data_queue app] in *. rewrite Hqueue.
  unfold writer_thread, writer_try.
  match goal with |- context [writer_loop _ _ _ ?w0 _] =>
    destruct (PipelineFacts.writer_loop_accounts now config incremental api
                order w0)
      as (Hesc & Hcount & more & Hfailed & Hids & Herrs)
  end.
  cbv zeta in Hesc, Hcount, Hfailed.
  destruct (writer_loop _ _ _ _ _) as [w escaped].
  cbn [fst snd] in Hesc, Hcount, Hfailed. subst escaped.
  cbn [success_count failed_experiments app] in Hcount, Hfailed.
  exists order, more. split_and!; [done..| |done|done].
  rewrite <- Hperm.
  destruct (0 <? batch_count w); cbn; rewrite Hcount, Hfailed; done.
Qed.

Lemma update_accounts_witness :
  ∃ order failed,
    order ≡ₚ ["xpp1"; "xpp2"]
    ∧ (parallel_jobs two_workers ≤ 1 → order = ["xpp1"; "xpp2"])
    ∧ (let '(w, error_holder) :=
         writer_thread (λ _, "2024-01-15T12:00:00") two_workers true
           empty_store
           [Some (fetched info_unavailable "xpp2");
            Some (fetched info_unavailable "xpp1"); None] in
       (after_join w error_holder).2)
      = Return
          (Z.of_nat
             (length (filter (λ exp_id,
                                writes (fetched info_unavailable exp_id)
                                = true)
                             ["xpp1"; "xpp2"])),
           failed)
    ∧ map failed_experiment_id failed
      = filter (λ exp_id, writes (fetched info_unavailable exp_id) = false)
               order
    ∧ map failed_error failed
      = map (λ exp_id, error_text (fetched info_unavailable exp_id))
            (filter (λ exp_id,
                       writes (fetched info_unavailable exp_id) = false)
                    order).
Proof.
  apply (update_accounts (λ _, "2024-01-15T12:00:00"%string) two_workers true
           info_unavailable ["xpp1"; "xpp2"] empty_store
           {| calls := [(Info, "xpp2"); (Info, "xpp1")];
              data_queue :=
                [Some (worker_item info_unavailable "xpp2");
                 Some (worker_item info_unavailable "xpp1")] |}).
  - intros exp_id _. split_and!; [by constructor|done|done].
  - unfold produces. cbn [parallel_jobs two_workers Z.ltb Z.compare
                          Pos.compare Pos.compare_cont Z.to_nat Pos.to_nat
                          Pos.iter_op Nat.add].
    unfold pool_runs.
    eapply rtc_l; [apply (step_start _ _ "xpp1" ["xpp2"] []); cbn; lia|].
    eapply rtc_l; [apply (step_start _ _ "xpp2" [] [_]); cbn; lia|].
    eapply rtc_l;
      [apply (step_call _ _ [_] "xpp2" [] (Info, "xpp2"%string) [] [])|].
    eapply rtc_l;
      [apply (step_call _ _ [] "xpp1" [] (Info, "xpp1"%string) [] [_])|].
    eapply rtc_l; [apply (step_put _ _ [_] "xpp2" _ [])|].
    eapply rtc_l; [apply (step_put _ _ [] "xpp1" _ [])|].
    done.
Defined.


End PoolFacts.

Module RewriteFacts.
Import Py Spec LogbookApi Database IdempotenceFacts.

(** *** Run times *)

Lemma filter_update_where {A} (P Q : A → Prop) `{∀ x, Decision (P x)}
    `{∀ x, Decision (Q x)} (f : A → A) (l : list A) :
  (∀ x, Q x → ¬ P x) → (∀ x, P (f x) ↔ P x) →
  filter P (map (λ x, if decide (Q x) then f x else x) l) = filter P l.
Proof.
  intros HQ Hf. induction l as [|x l IH]; [done|].
  cbn [map]. rewrite !filter_cons, IH.
  destruct (decide (Q x)) as [Hq|Hq]; [|done].
  rewrite (decide_False (P := P (f x))) by (rewrite Hf; by apply HQ).
  by rewrite (decide_False (P := P x)) by by apply HQ.
Qed.

Lemma update_run_writing X c1 σ self start_time end_time i :
  (seq (Run c1) < i)%nat →
  writing X c1 σ self →
  writing X c1 σ (exec (UPDATE_Run start_time end_time i) self).
Proof.
  intros Hi [Hf Hr Hp Hd Hx].
  assert (Hrel : ∀ e m j,
            run_rel (conn (exec (UPDATE_Run start_time end_time i) self)) e m j
            ↔ run_rel (conn self) e m j).
  { intros. apply run_rel_update. }
  split.
  - by eapply flat_inv_ext; [..|exact Hf].
  - destruct Hr as [H1 H2 H3 H4 H5 H6 H7 H8]. split.
    + done.
    + cbn. rewrite map_map. rewrite (map_ext _ run_run_id); [done|].
      intros r. by destruct (decide _).
    + cbn. intros r' (r & -> & Hr)%list_elem_of_fmap.
      destruct (decide (run_run_id r = i)); cbn; by apply H3.
    + cbn. rewrite <- H4. apply filter_update_where.
      * intros r ->. lia.
      * done.
    + cbn. intros r' (r & -> & Hr)%list_elem_of_fmap.
      destruct (decide (run_run_id r = i)); cbn; by apply H5.
    + intros m. rewrite H6. by setoid_rewrite Hrel.
    + intros m j j'. rewrite !Hrel. apply H7.
    + intros e m j Hc. apply Hrel. by apply H8.
  - eapply rpd_inv_runs; [..|exact Hp]; try done.
    + intros m j. by rewrite Hrel.
    + intros m j _. by rewrite Hrel.
  - by eapply det_inv_ext; [..|exact Hd].
  - eapply rdet_inv_runs; [..|exact Hx]; try done.
    + intros m j. by rewrite Hrel.
    + intros m name j _. by rewrite Hrel.
Qed.

(** *** Production data *)

Lemma filter_map_pres {A} (P : A → Prop) `{∀ x, Decision (P x)}
    (g : A → A) (l : list A) :
  (∀ x, P (g x) ↔ P x) → filter P (map g l) = map g (filter P l).
Proof.
  intros Hg. induction l as [|x l IH]; [done|].
  cbn [map]. rewrite !filter_cons, IH.
  destruct (decide (P x)) as [Hx|Hx].
  - by rewrite decide_True by by apply Hg.
  - by rewrite decide_False by by rewrite Hg.
Qed.

Lemma rpd_written X c1 σ self self' n i :
  writing X c1 σ self → n ∈ s_runs σ →
  run_rel (conn self) X n i → (seq (Run c1) < i)%nat →
  Experiment (conn self') = Experiment (conn self) →
  Logbook (conn self') = Logbook (conn self) →
  Questionnaire (conn self') = Questionnaire (conn self) →
  Workflow (conn self') = Workflow (conn self) →
  Run (conn self') = Run (conn self) →
  Detector (conn self') = Detector (conn self) →
  RunDetector (conn self') = RunDetector (conn self) →
  _run_id_cache self' = _run_id_cache self →
  _detector_cache self' = _detector_cache self →
  ((i ∈ map rpd_run_id (rows (RunProductionData (conn self)))
    ∧ ∃ f, (∀ p, rpd_run_id (f p) = rpd_run_id p)
           ∧ rows (RunProductionData (conn self'))
             = map (λ p, if decide (rpd_run_id p = i) then f p else p)
                   (rows (RunProductionData (conn self))))
   ∨ ((i ∉ map rpd_run_id (rows (RunProductionData (conn self))))
      ∧ ∃ p0, rpd_run_id p0 = i
              ∧ rows (RunProductionData (conn self'))
                = rows (RunProductionData (conn self)) ++ [p0])) →
  writing X c1 (see_rpd n σ) self'.
Proof.
  intros [Hf Hr Hp Hd Hx] Hn Hrel Hi HE HL HQ HW HR HD HX Hrc Hdc Hcases.
  assert (Hrel' : ∀ e m j, run_rel (conn self') e m j
                           ↔ run_rel (conn self) e m j).
  { intros. by apply run_rel_ext. }
  split; cbn [s_runs s_rpd s_rdet see_rpd].
  - eapply flat_inv_same; [..|exact Hf]; done.
  - by eapply runs_inv_ext; [..|exact Hr].
  - destruct Hp as [H1 H2 H3 H4 H5].
    assert (Hsub : ∀ m, m ∈ s_rpd σ ++ [n] → m ∈ s_runs σ).
    { intros m [Hm| ->%list_elem_of_singleton]%elem_of_app; auto. }
    destruct Hcases as [[Hin (f & Hfid & Hrows)]|[Hnotin (p0 & Hp0 & Hrows)]].
    + assert (Hmap : map rpd_run_id (rows (RunProductionData (conn self')))
                     = map rpd_run_id (rows (RunProductionData (conn self)))).
      { rewrite Hrows, map_map. apply map_ext. intros p.
        by destruct (decide _). }
      split; [| | | |done].
      * rewrite Hrows, <- H1. apply filter_update_where.
        -- intros p ->. lia.
        -- intros p. by rewrite Hfid.
      * intros p'. rewrite Hrows, HR.
        intros (p & -> & Hpin)%list_elem_of_fmap.
        destruct (decide _); rewrite ?Hfid; by apply H2.
      * rewrite Hrows, filter_map_pres, map_map.
        -- rewrite (map_ext _ rpd_run_id); [done|].
           intros p. by destruct (decide _).
        -- intros p. destruct (decide _); by rewrite ?Hfid.
      * intros j Hj. rewrite Hmap, (H4 j Hj). setoid_rewrite Hrel'. split.
        -- intros (m & Hm & Hr'). exists m. split; [|done].
           apply elem_of_app. by left.
        -- intros (m & [Hm| ->%list_elem_of_singleton]%elem_of_app & Hr');
             [by exists m|].
           assert (j = i) as -> by by eapply (ri_fun _ _ _ _ Hr).
           by apply (H4 i Hi).
    + split; [| | | |done].
      * rewrite Hrows, filter_app, H1.
        rewrite (filter_none _ [p0]); [by rewrite app_nil_r|].
        intros p ->%list_elem_of_singleton. lia.
      * intros p. rewrite Hrows, HR.
        intros [Hpin| ->%list_elem_of_singleton]%elem_of_app; [by apply H2|].
        rewrite Hp0. destruct Hrel as (r & Hrin & <- & _).
        by apply (ri_bound _ _ _ _ Hr).
      * rewrite Hrows, filter_app.
        rewrite (filter_all _ [p0]);
          [|intros p ->%list_elem_of_singleton; lia].
        apply SchemaFacts.unique_snoc; [done|].
        intros p [_ Hpin]%list_elem_of_filter Heq. apply Hnotin.
        apply list_elem_of_fmap. exists p. by rewrite Hp0 in Heq.
      * intros j Hj. rewrite Hrows, List.map_app, elem_of_app. cbn [map].
        rewrite list_elem_of_singleton, Hp0, (H4 j Hj).
        setoid_rewrite Hrel'. split.
        -- intros [(m & Hm & Hr')| ->].
           ++ exists m. split; [|done]. apply elem_of_app. by left.
           ++ exists n. split; [|done]. apply elem_of_app. right. by left.
        -- intros (m & [Hm| ->%list_elem_of_singleton]%elem_of_app & Hr').
           ++ left. by exists m.
           ++ right. by eapply (ri_fun _ _ _ _ Hr).
  - by eapply det_inv_ext; [..|exact Hd].
  - eapply rdet_inv_runs; [..|exact Hx]; try done.
    + by rewrite HR.
    + intros m j. by rewrite Hrel'.
    + intros m name j _. by rewrite Hrel'.
    + intros name j. by rewrite (det_rel_ext _ _ _ _ HD).
    + intros m name j _. by rewrite (det_rel_ext _ _ _ _ HD).
Qed.

Lemma fetchone_rpd_cases (c : Store) (i : nat) :
  match fetchone (λ p, rpd_run_id p = i) (RunProductionData c) with
  | Some _ => i ∈ map rpd_run_id (rows (RunProductionData c))
  | None => i ∉ map rpd_run_id (rows (RunProductionData c))
  end.
Proof.
  destruct (fetchone _ _) as [p|] eqn:Hf.
  - apply DatabaseFacts.fetchone_Some in Hf as [Hin Hp].
    apply list_elem_of_fmap. by exists p.
  - pose proof (DatabaseFacts.fetchone_None _ _ Hf) as Hnone.
    intros (p & Hp & Hin)%list_elem_of_fmap. by apply (Hnone p).
Qed.

Lemma runtable_production_step_writing X c1 σ self rd :
  writing X c1 σ self →
  writing X c1
    (match rd_run_number rd with
     | Some n => see_rpd n (see_run n σ)
     | None => σ
     end)
    (runtable_production_step X self rd).
Proof.
  intros Hw. unfold runtable_production_step.
  destruct (rd_run_number rd) as [n|]; [|done].
  destruct (get_or_create_run_id_writing X c1 σ self n Hw)
    as (Hw1 & Hrel & Hi). cbv zeta in Hw1, Hrel, Hi.
  destruct (_get_or_create_run_id self X n) as [self1 i].
  cbn [fst snd] in *. cbv zeta.
  set (self2 := exec (UPDATE_Run (rd_start_time rd) (rd_end_time rd) i) self1).
  assert (Hw2 : writing X c1 (see_run n σ) self2)
    by by apply update_run_writing.
  assert (Hrel2 : run_rel (conn self2) X n i) by by apply run_rel_update.
  assert (Hn : n ∈ s_runs (see_run n σ)).
  { cbn. apply elem_of_app. right. by left. }
  pose proof (fetchone_rpd_cases (conn self2) i) as Hcase.
  destruct (fetchone _ _) as [p|].
  - eapply (rpd_written X c1 _ self2); try done.
    left. split; [done|]. eexists. split; [|done]. done.
  - eapply (rpd_written X c1 _ self2); try done.
    right. split; [done|]. eexists. split; [|done]. done.
Qed.

Lemma file_manager_step_writing X c1 σ self record :
  writing X c1 σ self →
  writing X c1
    (match fr_run_number record with
     | Some n => see_rpd n (see_run n σ)
     | None => σ
     end)
    (file_manager_step X self record).
Proof.
  intros Hw. unfold file_manager_step.
  destruct (fr_run_number record) as [n|]; [|done].
  destruct (get_or_create_run_id_writing X c1 σ self n Hw)
    as (Hw1 & Hrel & Hi). cbv zeta in Hw1, Hrel, Hi.
  destruct (_get_or_create_run_id self X n) as [self1 i].
  cbn [fst snd] in *. cbv zeta.
  assert (Hn : n ∈ s_runs (see_run n σ)).
  { cbn. apply elem_of_app. right. by left. }
  pose proof (fetchone_rpd_cases (conn self1) i) as Hcase.
  destruct (fetchone _ _) as [p|].
  - eapply (rpd_written X c1 _ self1); try done.
    left. split; [done|]. eexists. split; [|done]. done.
  - eapply (rpd_written X c1 _ self1); try done.
    right. split; [done|]. eexists. split; [|done]. done.
Qed.

(** *** Detectors *)

Lemma det_rel_insert c name name' j :
  det_rel (execute (INSERT_Detector name) c) name' j
  ↔ det_rel c name' j ∨ (name' = name ∧ j = S (seq (Detector c))).
Proof.
  unfold det_rel. cbn. setoid_rewrite elem_of_app.
  setoid_rewrite list_elem_of_singleton. split.
  - intros (d & [Hin| ->] & Hj & Hn); [left; by exists d|].
    right. cbn in *. done.
  - intros [(d & Hin & H)|(-> & ->)]; [exists d; tauto|].
    eexists. split; [by right|]. done.
Qed.

Lemma det_rel_name c name j :
  det_rel c name j → name ∈ map det_detector_name (rows (Detector c)).
Proof.
  intros (d & Hin & _ & <-). apply list_elem_of_fmap. by exists d.
Qed.

Lemma det_rel_of_name c name :
  name ∈ map det_detector_name (rows (Detector c)) → ∃ j, det_rel c name j.
Proof.
  intros (d & -> & Hin)%list_elem_of_fmap. exists (det_detector_id d).
  by exists d.
Qed.

Lemma det_rel_fun c name j j' :
  NoDup (map det_detector_name (rows (Detector c))) →
  det_rel c name j → det_rel c name j' → j = j'.
Proof.
  intros Hnd (d & Hin & <- & Hn) (d' & Hin' & <- & Hn').
  assert (d = d') as <-; [|done].
  eapply NoDup_map_inj_in; eauto. congruence.
Qed.

Lemma det_rel_inj c name name' j :
  NoDup (map det_detector_id (rows (Detector c))) →
  det_rel c name j → det_rel c name' j → name = name'.
Proof.
  intros Hnd (d & Hin & Hj & <-) (d' & Hin' & Hj' & <-).
  assert (d = d') as <-; [|done].
  eapply NoDup_map_inj_in; eauto. congruence.
Qed.

(** [_get_or_create_detector_id] while a record is written. *)
Lemma get_or_create_detector_id_spec c1 ld self n name :
  det_inv c1 ld self →
  let r := _get_or_create_detector_id self name in
  det_inv c1 (ld ++ [(n, name)]) r.1
  ∧ det_rel (conn r.1) name r.2
  ∧ _run_id_cache r.1 = _run_id_cache self
  ∧ Experiment (conn r.1) = Experiment (conn self)
  ∧ Logbook (conn r.1) = Logbook (conn self)
  ∧ Questionnaire (conn r.1) = Questionnaire (conn self)
  ∧ Workflow (conn r.1) = Workflow (conn self)
  ∧ Run (conn r.1) = Run (conn self)
  ∧ RunProductionData (conn r.1) = RunProductionData (conn self)
  ∧ RunDetector (conn r.1) = RunDetector (conn self)
  ∧ (∀ name' j, det_rel (conn self) name' j → det_rel (conn r.1) name' j).
Proof.
  intros [H1 H2 H3 H4 H5]. cbv zeta.
  assert (Hknown : ∀ self' j,
            conn self' = conn self →
            det_rel (conn self) name j →
            (∀ name' j', _detector_cache self' !! name' = Some j' →
                         det_rel (conn self) name' j') →
            det_inv c1 (ld ++ [(n, name)]) self').
  { intros self' j Hc Hrel Hcache. split; rewrite ?Hc; try done.
    intros name'. rewrite H4, List.map_app, elem_of_app. cbn.
    rewrite list_elem_of_singleton. split; [tauto|].
    intros [?|[?| ->]]; [tauto..|].
    apply H4. by eapply det_rel_name. }
  unfold _get_or_create_detector_id.
  destruct (_detector_cache self !! name) as [j|] eqn:Hc.
  { assert (Hrel : det_rel (conn self) name j) by by apply H5.
    cbn. split_and!; try done. by apply (Hknown self j). }
  destruct (fetchone _ _) as [d|] eqn:Hf.
  - apply DatabaseFacts.fetchone_Some in Hf as (Hin & Hn).
    assert (Hrel : det_rel (conn self) name (det_detector_id d))
      by by exists d.
    cbn. split_and!; try done.
    apply (Hknown _ (det_detector_id d)); [done..|].
    intros name' j'. cbn.
    destruct (decide (name = name')) as [<-|Hne].
    + rewrite lookup_insert_eq. by intros [= <-].
    + rewrite lookup_insert_ne by done. apply H5.
  - pose proof (DatabaseFacts.fetchone_None _ _ Hf) as Hnone.
    assert (Hfresh : name ∉ map det_detector_name (rows (Detector (conn self)))).
    { intros (d & Hd & Hin)%list_elem_of_fmap. by apply (Hnone d). }
    assert (Hrel : det_rel (execute (INSERT_Detector name) (conn self)) name
                           (S (seq (Detector (conn self))))).
    { apply det_rel_insert. by right. }
    cbn [fst snd conn exec set_conn].
    split_and!; try done; [|intros name' j' Hr; apply det_rel_insert; by left].
    split; cbn [conn _detector_cache].
    + cbn. rewrite List.map_app. cbn. apply NoDup_app. split_and!; [done| |].
      * intros j (d & -> & Hd)%list_elem_of_fmap Hj%list_elem_of_singleton.
        apply H2 in Hd. lia.
      * apply NoDup_singleton.
    + cbn. intros d [Hd| ->%list_elem_of_singleton]%elem_of_app.
      * apply H2 in Hd. lia.
      * cbn. lia.
    + cbn. rewrite List.map_app. cbn. apply NoDup_app. split_and!; [done| |].
      * intros nm Hnm ->%list_elem_of_singleton. done.
      * apply NoDup_singleton.
    + intros name'. cbn. rewrite !List.map_app, !elem_of_app. cbn.
      rewrite !list_elem_of_singleton, H4. tauto.
    + intros name' j'.
      destruct (decide (name = name')) as [<-|Hne].
      * rewrite lookup_insert_eq. by intros [= <-].
      * rewrite lookup_insert_ne by done. intros Hc'.
        apply det_rel_insert. left. by apply H5.
Qed.

Lemma detector_item_step_writing X c1 σ self n i item :
  writing X c1 σ self → n ∈ s_runs σ →
  run_rel (conn self) X n i → (seq (Run c1) < i)%nat →
  writing X c1 (if skipped item.1 then σ else see_rdet n item.1 σ)
          (detector_item_step i self item)
  ∧ run_rel (conn (detector_item_step i self item)) X n i.
Proof.
  intros [Hf Hr Hp Hd Hx] Hn Hrel Hi. destruct item as [key value].
  unfold detector_item_step. cbn [fst].
  change (String.eqb key "run_number" || strip_is_empty key)
    with (skipped key).
  destruct (skipped key); [done|].
  destruct (get_or_create_detector_id_spec c1 (s_rdet σ) self n key Hd)
    as (Hd1 & Hdet & Hrc & HE & HL & HQ & HW & HR & HP & HX & Hmono).
  cbv zeta in Hd1, Hdet, Hrc, HE, HL, HQ, HW, HR, HP, HX, Hmono.
  destruct (_get_or_create_detector_id self key) as [self1 j].
  cbn [fst snd] in *.
  set (self2 := exec (INSERT_OR_REPLACE_RunDetector i j value) self1).
  assert (HR2 : Run (conn self2) = Run (conn self)) by (cbn; by rewrite HR).
  assert (HD2 : Detector (conn self2) = Detector (conn self1)) by done.
  assert (Hrun : ∀ e m k, run_rel (conn self2) e m k
                          ↔ run_rel (conn self) e m k).
  { intros. by apply run_rel_ext. }
  assert (Hdet2 : ∀ nm k, det_rel (conn self2) nm k
                          ↔ det_rel (conn self1) nm k).
  { intros. by apply det_rel_ext. }
  split; [|by apply Hrun].
  assert (Hrows : ∃ new,
            rdet_run_id new = i ∧ rdet_detector_id new = j
            ∧ rows (RunDetector (conn self2))
              = filter (λ x, ¬ (rdet_run_id x = i ∧ rdet_detector_id x = j))
                       (rows (RunDetector (conn self))) ++ [new]).
  { eexists. split_and!; [| |cbn; rewrite HX; done]; done. }
  destruct Hrows as (new & Hnewi & Hnewj & Hrows).
  split; cbn [s_runs s_rpd s_rdet see_rdet].
  - eapply flat_inv_same; [..|exact Hf]; try done; cbn; congruence.
  - eapply runs_inv_ext; [..|exact Hr]; done.
  - eapply rpd_inv_ext; [..|exact Hp]; [done|]. cbn. congruence.
  - eapply det_inv_ext; [..|exact Hd1]; done.
  - destruct Hx as [H1 H2 H3 H4 H5].
    assert (Hback : ∀ m nm k, (m, nm) ∈ s_rdet σ →
                      det_rel (conn self1) nm k → det_rel (conn self) nm k).
    { intros m nm k Hm Hk.
      destruct (H5 m nm Hm) as (_ & k0 & Hk0).
      assert (k = k0) as ->; [|done].
      eapply det_rel_fun; [exact (di_names _ _ _ Hd1)|done|by apply Hmono]. }
    split.
    + rewrite Hrows, filter_app, list_filter_filter, <- H1.
      rewrite (filter_none _ [new]), app_nil_r;
        [|intros x ->%list_elem_of_singleton; lia].
      apply filter_ext_in. intros x _. split; [tauto|].
      intros Hle. split; [done|]. intros [Hxi _]. lia.
    + intros x. rewrite Hrows, HR2.
      intros [[_ Hin]%list_elem_of_filter| ->%list_elem_of_singleton]%elem_of_app;
        [by apply H2|].
      rewrite Hnewi. destruct Hrel as (r & Hrin & <- & _).
      by apply (ri_bound _ _ _ _ Hr).
    + rewrite Hrows, filter_app.
      rewrite (filter_all _ [new]);
        [|intros x ->%list_elem_of_singleton; lia].
      rewrite list_filter_filter.
      assert (Heq : filter (λ x, (seq (Run c1) < rdet_run_id x)%nat
                                 ∧ ¬ (rdet_run_id x = i
                                      ∧ rdet_detector_id x = j))
                           (rows (RunDetector (conn self)))
                    = filter (λ x, ¬ (rdet_run_id x = i
                                      ∧ rdet_detector_id x = j))
                        (filter (λ x, (seq (Run c1) < rdet_run_id x)%nat)
                                (rows (RunDetector (conn self))))).
      { rewrite list_filter_filter. apply filter_ext_in. intros x _. tauto. }
      rewrite Heq. apply SchemaFacts.unique_replace; [done|].
      intros y. unfold rdet_key. rewrite Hnewi, Hnewj. by intros [= -> ->].
    + intros i' j' Hi'. rewrite Hrows, List.map_app, elem_of_app. cbn [map].
      rewrite list_elem_of_singleton. unfold rdet_key at 2.
      rewrite Hnewi, Hnewj. split.
      * intros [Hx'|Heq].
        -- apply list_elem_of_fmap in Hx' as (x & Hk & Hin).
           apply list_elem_of_filter in Hin as [_ Hin].
           assert (Hold : (i', j') ∈ map rdet_key
                                        (rows (RunDetector (conn self)))).
           { apply list_elem_of_fmap. by exists x. }
           apply (H4 i' j' Hi') in Hold as (m & nm & Hm & Hrm & Hdm).
           exists m, nm. split_and!.
           ++ apply elem_of_app. by left.
           ++ by apply Hrun.
           ++ by apply Hdet2, Hmono.
        -- injection Heq as -> ->. exists n, key. split_and!.
           ++ apply elem_of_app. right. by left.
           ++ by apply Hrun.
           ++ by apply Hdet2.
      * intros (m & nm & [Hm|[= -> ->]%list_elem_of_singleton]%elem_of_app
                & Hrm%Hrun & Hdm%Hdet2).
        -- destruct (decide ((i', j') = (i, j))) as [Heq|Hne]; [by right|].
           left.
           assert (Hold : (i', j') ∈ map rdet_key
                                        (rows (RunDetector (conn self)))).
           { apply (H4 i' j' Hi'). exists m, nm. split_and!; [done..|].
             by eapply Hback. }
           apply list_elem_of_fmap in Hold as (x & Hk & Hin).
           apply list_elem_of_fmap. exists x. split; [done|].
           apply list_elem_of_filter. split; [|done].
           intros [Hxi Hxj]. apply Hne. rewrite Hk. unfold rdet_key.
           by rewrite Hxi, Hxj.
        -- right.
           assert (i' = i) as -> by by eapply (ri_fun _ _ _ _ Hr).
           assert (j' = j) as ->; [|done].
           eapply det_rel_fun; [exact (di_names _ _ _ Hd1)|done..].
    + intros m nm [Hm|[= -> ->]%list_elem_of_singleton]%elem_of_app.
      * destruct (H5 m nm Hm) as (Hlr & k & Hk). split; [done|].
        exists k. by apply Hdet2, Hmono.
      * split; [done|]. exists j. by apply Hdet2.
Qed.

(** *** The loops *)

Lemma seen_plus_nothing σ : seen_plus σ nothing_seen = σ.
Proof.
  destruct σ. unfold seen_plus. cbn.
  by rewrite !app_nil_r, !Nat.add_0_r.
Qed.

Ltac seen_eq :=
  unfold seen_plus, see_exp, see_log, see_field, see_workflow, see_run,
    see_rpd, see_rdet; cbn;
  f_equal; rewrite <- ?app_assoc, ?app_nil_r; cbn; try lia; try done.

Lemma logbook_insert_step_writing X c1 σ self entry :
  experiment_id entry = X →
  writing X c1 σ self →
  writing X c1
    (see_log (match run_number entry with
              | Some n => see_run n σ
              | None => σ
              end))
    (logbook_insert_step self entry).
Proof.
  intros HX Hw. unfold logbook_insert_step. rewrite HX.
  destruct (run_number entry) as [n|];
    [|by apply insert_logbook_row_writing].
  destruct (get_or_create_run_id_writing X c1 σ self n Hw) as (Hw1 & _).
  cbv zeta in Hw1. destruct (_get_or_create_run_id self X n) as [self1 i].
  by apply insert_logbook_row_writing.
Qed.

Lemma logbook_loop_writing X c1 entries σ self :
  Forall (λ entry, experiment_id entry = X) entries →
  writing X c1 σ self →
  writing X c1 (seen_plus σ (seen_logbook entries))
          (foldl logbook_insert_step self entries).
Proof.
  intros HX. revert σ self.
  induction HX as [|entry entries Hx _ IH]; intros σ self Hw.
  { rewrite <- (seen_plus_nothing σ) in Hw. exact Hw. }
  cbn [foldl]. apply (logbook_insert_step_writing X c1 σ self entry Hx) in Hw.
  apply IH in Hw.
  replace (seen_plus σ (seen_logbook (entry :: entries)))
    with (seen_plus (see_log (match run_number entry with
                              | Some n => see_run n σ
                              | None => σ
                              end)) (seen_logbook entries)); [done|].
  unfold seen_logbook. destruct (run_number entry) eqn:E; seen_eq;
    by rewrite E.
Qed.

Lemma production_loop_writing X c1 l σ self :
  writing X c1 σ self →
  writing X c1 (seen_plus σ (seen_production l))
          (foldl (runtable_production_step X) self l).
Proof.
  revert σ self. induction l as [|rd l IH]; intros σ self Hw.
  { rewrite <- (seen_plus_nothing σ) in Hw. exact Hw. }
  cbn [foldl]. apply (runtable_production_step_writing X c1 σ self rd) in Hw.
  apply IH in Hw.
  replace (seen_plus σ (seen_production (rd :: l)))
    with (seen_plus (match rd_run_number rd with
                     | Some n => see_rpd n (see_run n σ)
                     | None => σ
                     end) (seen_production l)); [done|].
  unfold seen_production. destruct (rd_run_number rd) eqn:E; seen_eq;
    by rewrite E.
Qed.

Lemma file_loop_writing X c1 l σ self :
  writing X c1 σ self →
  writing X c1 (seen_plus σ (seen_files l))
          (foldl (file_manager_step X) self l).
Proof.
  revert σ self. induction l as [|record l IH]; intros σ self Hw.
  { rewrite <- (seen_plus_nothing σ) in Hw. exact Hw. }
  cbn [foldl]. apply (file_manager_step_writing X c1 σ self record) in Hw.
  apply IH in Hw.
  replace (seen_plus σ (seen_files (record :: l)))
    with (seen_plus (match fr_run_number record with
                     | Some n => see_rpd n (see_run n σ)
                     | None => σ
                     end) (seen_files l)); [done|].
  unfold seen_files. destruct (fr_run_number record) eqn:E; seen_eq;
    by rewrite E.
Qed.

Lemma detector_items_writing X c1 n i items σ self :
  writing X c1 σ self → n ∈ s_runs σ →
  run_rel (conn self) X n i → (seq (Run c1) < i)%nat →
  writing X c1
    (seen_plus σ
       {| s_exp := 0; s_log := 0; s_fields := []; s_workflows := 0;
          s_runs := []; s_rpd := [];
          s_rdet :=
            map (λ item : string * string, (n, item.1))
                (filter (λ item : string * string, skipped item.1 = false)
                        items) |})
    (foldl (detector_item_step i) self items).
Proof.
  intros Hw Hn Hrel Hi. revert σ self Hw Hn Hrel.
  induction items as [|item items IH]; intros σ self Hw Hn Hrel.
  { rewrite <- (seen_plus_nothing σ) in Hw. exact Hw. }
  cbn [foldl].
  destruct (detector_item_step_writing X c1 σ self n i item Hw Hn Hrel Hi)
    as [Hw1 Hrel1].
  apply IH in Hw1; [|by destruct (skipped item.1)|done].
  rewrite filter_cons.
  destruct (skipped item.1) eqn:Hs.
  - rewrite decide_False by done. done.
  - rewrite decide_True by done.
    match goal with
    | H : writing X c1 ?a ?s |- writing X c1 ?b ?s =>
        replace b with a; [done|]
    end.
    seen_eq.
Qed.

Lemma runtable_detector_step_writing X c1 σ self dd :
  writing X c1 σ self →
  writing X c1 (seen_plus σ (seen_detectors [dd]))
          (runtable_detector_step X self dd).
Proof.
  intros Hw. unfold runtable_detector_step, seen_detectors.
  cbn [omap flat_map]. unfold detector_pairs_of.
  destruct (dd_run_number dd) as [n|] eqn:E.
  - destruct (get_or_create_run_id_writing X c1 σ self n Hw)
      as (Hw1 & Hrel & Hi). cbv zeta in Hw1, Hrel, Hi.
    destruct (_get_or_create_run_id self X n) as [self1 i].
    cbn [fst snd] in *.
    eapply (detector_items_writing X c1 n i (dd_items dd)) in Hw1; [|..|done];
      [|by cbn; apply elem_of_app; right; left|done].
    match goal with
    | H : writing X c1 ?a ?s |- writing X c1 ?b ?s =>
        replace b with a; [done|]
    end.
    seen_eq. by rewrite E.
  - cbn. rewrite E. rewrite <- (seen_plus_nothing σ) in Hw. exact Hw.
Qed.

Lemma detector_loop_writing X c1 l σ self :
  writing X c1 σ self →
  writing X c1 (seen_plus σ (seen_detectors l))
          (foldl (runtable_detector_step X) self l).
Proof.
  revert σ self. induction l as [|dd l IH]; intros σ self Hw.
  { rewrite <- (seen_plus_nothing σ) in Hw. exact Hw. }
  cbn [foldl]. apply (runtable_detector_step_writing X c1 σ self dd) in Hw.
  apply IH in Hw.
  match goal with
  | H : writing X c1 ?a ?s |- writing X c1 ?b ?s =>
      replace b with a; [done|]
  end.
  unfold seen_detectors. destruct (dd_run_number dd) eqn:E; seen_eq;
    by rewrite E.
Qed.

Lemma field_loop_writing X c1 proposal l σ self :
  writing X c1 σ self →
  writing X c1 (seen_plus σ (seen_fields l))
    (foldl (λ self f,
              exec (INSERT_OR_REPLACE_Questionnaire X proposal f) self)
           self l).
Proof.
  revert σ self. induction l as [|f l IH]; intros σ self Hw.
  { rewrite <- (seen_plus_nothing σ) in Hw. exact Hw. }
  cbn [foldl].
  apply (insert_questionnaire_field_writing X c1 σ self proposal f) in Hw.
  apply IH in Hw.
  match goal with
  | H : writing X c1 ?a ?s |- writing X c1 ?b ?s =>
      replace b with a; [done|]
  end.
  seen_eq.
Qed.

Lemma workflow_loop_writing X c1 l σ self :
  Forall (λ w, is_Some (w_name w)) l →
  writing X c1 σ self →
  writing X c1 (seen_plus σ (seen_workflows l)) (insert_workflows X self l).1
  ∧ (insert_workflows X self l).2 = Return tt.
Proof.
  intros Hnamed. revert σ self.
  induction Hnamed as [|w l [name Hname] _ IH]; intros σ self Hw.
  { split; [|done]. rewrite <- (seen_plus_nothing σ) in Hw. exact Hw. }
  cbn [insert_workflows]. rewrite Hname.
  apply (insert_workflow_row_writing X c1 σ self name w) in Hw.
  destruct (IH _ _ Hw) as [Hw' Hret]. split; [|done].
  match goal with
  | H : writing X c1 ?a ?s |- writing X c1 ?b ?s =>
      replace b with a; [done|]
  end.
  seen_eq.
Qed.

(** *** A record *)

Lemma seen_of_parts r :
  seen_of r
  = seen_plus
      (seen_plus
         (seen_plus
            (seen_plus
               (seen_plus
                  (seen_plus
                     (match c_info r with
                      | Some _ => see_exp nothing_seen
                      | None => nothing_seen
                      end)
                     (seen_logbook (c_logbook r)))
                  (seen_production
                     (match c_runtable r with
                      | Some rt => rt_data_production rt
                      | None => []
                      end)))
               (seen_detectors
                  (match c_runtable r with
                   | Some rt => rt_detectors rt
                   | None => []
                   end)))
            (seen_files
               (match c_file_manager r with
                | Some fm => fm_file_manager_records fm
                | None => []
                end)))
         (seen_fields
            (match c_questionnaire r with
             | Some q => qn_fields q
             | None => []
             end)))
      (seen_workflows
         (match c_workflow r with
          | Some wd => wd_workflows wd
          | None => []
          end)).
Proof.
  unfold seen_of, seen_plus, seen_logbook, seen_production, seen_detectors,
    seen_files, seen_fields, seen_workflows, production_numbers,
    detector_numbers, file_numbers, detector_pairs.
  cbn [s_exp s_log s_fields s_workflows s_runs s_rpd s_rdet].
  f_equal.
  - destruct (c_info r); cbn [s_exp see_exp nothing_seen]; lia.
  - destruct (c_info r); cbn [s_log see_exp nothing_seen]; lia.
  - destruct (c_info r), (c_questionnaire r);
      cbn [s_fields see_exp nothing_seen map app]; by rewrite ?app_nil_r.
  - destruct (c_info r), (c_workflow r);
      cbn [s_workflows see_exp nothing_seen length]; lia.
  - destruct (c_info r), (c_runtable r), (c_file_manager r);
      cbn [s_runs see_exp nothing_seen omap app];
      by rewrite ?app_nil_r, <- ?app_assoc.
  - destruct (c_info r), (c_runtable r), (c_file_manager r);
      cbn [s_rpd see_exp nothing_seen omap app];
      by rewrite ?app_nil_r, <- ?app_assoc.
  - destruct (c_info r), (c_runtable r);
      cbn [s_rdet see_exp nothing_seen flat_map app];
      by rewrite ?app_nil_r.
Qed.

Lemma insert_experiment_batch_writing X c1 self r :
  consistent X r → writing X c1 nothing_seen self →
  writing X c1 (seen_of r) (insert_experiment_batch self r).1
  ∧ (insert_experiment_batch self r).2 = Return tt.
Proof.
  intros [_ _ Hinfo Hlog Hrt Hfm Hq Hwf] Hw.
  unfold insert_experiment_batch. cbv zeta.
  (* Experiment *)
  set (σ1 := match c_info r with
             | Some _ => see_exp nothing_seen
             | None => nothing_seen
             end).
  set (s1 := when_present (c_info r) _insert_experiment_no_commit self).
  assert (H1 : writing X c1 σ1 s1).
  { subst σ1 s1. destruct (c_info r) as [info|]; [|done].
    apply insert_experiment_writing; [by apply Hinfo|done]. }
  (* Logbook *)
  set (σ2 := seen_plus σ1 (seen_logbook (c_logbook r))).
  set (s2 := _insert_logbook_no_commit s1 (c_logbook r)).
  assert (H2 : writing X c1 σ2 s2).
  { subst σ2 s2. unfold _insert_logbook_no_commit.
    destruct (c_logbook r) as [|first rest] eqn:El.
    { rewrite <- (seen_plus_nothing σ1) in H1. exact H1. }
    assert (Hfirst : experiment_id first = X) by by inversion Hlog.
    rewrite Hfirst. apply logbook_loop_writing; [done|].
    apply delete_logbook_writing; [|done].
    subst σ1. by destruct (c_info r). }
  (* Run table *)
  set (σ3 := seen_plus
               (seen_plus σ2
                  (seen_production
                     (match c_runtable r with
                      | Some rt => rt_data_production rt
                      | None => []
                      end)))
               (seen_detectors
                  (match c_runtable r with
                   | Some rt => rt_detectors rt
                   | None => []
                   end))).
  set (s3 := when_present (c_runtable r) _insert_runtable_no_commit s2).
  assert (H3 : writing X c1 σ3 s3).
  { subst σ3 s3. destruct (c_runtable r) as [rt|] eqn:Ert.
    - cbn [when_present]. unfold _insert_runtable_no_commit. cbv zeta.
      rewrite (Hrt rt eq_refl).
      by apply detector_loop_writing, production_loop_writing.
    - cbn [when_present].
      rewrite <- (seen_plus_nothing σ2) in H2.
      rewrite <- (seen_plus_nothing (seen_plus σ2 nothing_seen)) in H2.
      exact H2. }
  (* File manager *)
  set (σ4 := seen_plus σ3
               (seen_files
                  (match c_file_manager r with
                   | Some fm => fm_file_manager_records fm
                   | None => []
                   end))).
  set (s4 := when_present (c_file_manager r)
                          _insert_file_manager_no_commit s3).
  assert (H4 : writing X c1 σ4 s4).
  { subst σ4 s4. destruct (c_file_manager r) as [fm|] eqn:Efm.
    - cbn [when_present]. unfold _insert_file_manager_no_commit.
      rewrite (Hfm fm eq_refl). by apply file_loop_writing.
    - cbn [when_present]. rewrite <- (seen_plus_nothing σ3) in H3.
      exact H3. }
  (* Questionnaire *)
  set (σ5 := seen_plus σ4
               (seen_fields
                  (match c_questionnaire r with
                   | Some q => qn_fields q
                   | None => []
                   end))).
  set (s5 := when_present (c_questionnaire r)
                          _insert_questionnaire_no_commit s4).
  assert (H5 : writing X c1 σ5 s5).
  { subst σ5 s5. destruct (c_questionnaire r) as [q|] eqn:Eq.
    - cbn [when_present]. unfold _insert_questionnaire_no_commit. cbv zeta.
      rewrite (Hq q eq_refl). apply field_loop_writing.
      apply delete_questionnaire_writing; [|done].
      subst σ4 σ3 σ2 σ1. by destruct (c_info r).
    - cbn [when_present]. rewrite <- (seen_plus_nothing σ4) in H4.
      exact H4. }
  (* Workflow *)
  assert (Hσ : seen_of r
               = seen_plus σ5
                   (seen_workflows
                      (match c_workflow r with
                       | Some wd => wd_workflows wd
                       | None => []
                       end))).
  { subst σ5 σ4 σ3 σ2 σ1. apply seen_of_parts. }
  rewrite Hσ.
  destruct (c_workflow r) as [wd|] eqn:Ewf.
  - destruct (Hwf wd eq_refl) as [HwX Hnamed].
    unfold _insert_workflow_no_commit. cbv zeta. rewrite HwX.
    apply workflow_loop_writing; [done|].
    apply delete_workflow_writing; [|done].
    subst σ5 σ4 σ3 σ2 σ1. by destruct (c_info r).
  - split; [|done]. cbn [fst].
    rewrite <- (seen_plus_nothing σ5) in H5. exact H5.
Qed.

(** *** Counting the rows *)

Lemma count_rel {A K B} `{Countable K} `{Countable B} (k : A → K)
    (l : list A) (L : list B) (R : K → B → Prop) :
  NoDup (map k l) →
  (∀ a, a ∈ map k l → ∃ b, b ∈ L ∧ R a b) →
  (∀ b, b ∈ L → ∃ a, a ∈ map k l ∧ R a b) →
  (∀ a b b', a ∈ map k l → R a b → R a b' → b = b') →
  (∀ a a' b, b ∈ L → R a b → R a' b → a = a') →
  length l = distinct L.
Proof.
  intros Hnd Hab Hba Hfun Hinj.
  rewrite <- (length_map k l). unfold distinct.
  rewrite <- (size_list_to_set (C := gset K) (map k l)) by done.
  apply (size_rel R).
  - intros a Ha%elem_of_list_to_set. destruct (Hab a Ha) as (b & Hb & HR).
    exists b. by rewrite elem_of_list_to_set.
  - intros b Hb%elem_of_list_to_set. destruct (Hba b Hb) as (a & Ha & HR).
    exists a. by rewrite elem_of_list_to_set.
  - intros a b b' Ha%elem_of_list_to_set. by apply Hfun.
  - intros a a' b Hb%elem_of_list_to_set. by apply Hinj.
Qed.

Lemma length_filter_le {A} (key : A → nat) (s : nat) (l : list A) :
  (length (filter (λ x, (key x ≤ s)%nat) l)
   + length (filter (λ x, (s < key x)%nat) l))%nat = length l.
Proof.
  rewrite <- (length_filter_split (λ x, (key x ≤ s)%nat) l). f_equal.
  f_equal. apply filter_ext_in. intros x _. lia.
Qed.

Section Counts.
Context (X : string) (c1 : Store) (σ : seen) (self : Database).
Context (Hw : writing X c1 σ self).

Lemma writing_new_run r :
  r ∈ rows (Run (conn self)) →
  (seq (Run c1) < run_run_id r)%nat ↔ run_experiment_id r = X.
Proof. destruct Hw as [_ Hr _ _ _]. apply (ri_new _ _ _ _ Hr). Qed.

Lemma writing_new_id n i :
  run_rel (conn self) X n i → (seq (Run c1) < i)%nat.
Proof.
  intros (r & Hin & <- & He & _). by apply writing_new_run.
Qed.

Lemma writing_run_ids i :
  i ∈ run_ids_of (conn self) X
  ↔ (seq (Run c1) < i)%nat ∧ i ∈ map run_run_id (rows (Run (conn self))).
Proof.
  rewrite elem_of_run_ids_of. split.
  - intros (n & Hrel). split; [by eapply writing_new_id|].
    destruct Hrel as (r & Hin & <- & _). apply list_elem_of_fmap. by exists r.
  - intros [Hi (r & -> & Hin)%list_elem_of_fmap].
    exists (run_run_number r), r. split_and!; try done.
    by apply writing_new_run.
Qed.

Lemma count_runs :
  length (filter (λ r, (seq (Run c1) < run_run_id r)%nat)
                 (rows (Run (conn self))))
  = distinct (s_runs σ).
Proof.
  destruct Hw as [_ Hr _ _ _].
  apply (count_rel run_run_id _ _ (λ i n, run_rel (conn self) X n i)).
  - apply NoDup_map_filter, (ri_ids _ _ _ _ Hr).
  - intros i (r & -> & [Hi Hin]%list_elem_of_filter)%list_elem_of_fmap.
    exists (run_run_number r).
    assert (Hrel : run_rel (conn self) X (run_run_number r) (run_run_id r)).
    { exists r. split_and!; try done. by apply writing_new_run. }
    split; [|done]. apply (ri_seen _ _ _ _ Hr). by exists (run_run_id r).
  - intros n Hn. apply (ri_seen _ _ _ _ Hr) in Hn as (i & Hrel).
    exists i. split; [|done].
    pose proof (writing_new_id n i Hrel) as Hi.
    destruct Hrel as (r & Hin & <- & _).
    apply list_elem_of_fmap. exists r. split; [done|].
    by apply list_elem_of_filter.
  - intros i n n' _ H1 H2.
    by destruct (run_rel_owner _ _ _ _ _ _ (ri_ids _ _ _ _ Hr) H1 H2).
  - intros i i' n _ H1 H2. by eapply (ri_fun _ _ _ _ Hr).
Qed.

Lemma count_rpd :
  length (filter (λ p, (seq (Run c1) < rpd_run_id p)%nat)
                 (rows (RunProductionData (conn self))))
  = distinct (s_rpd σ).
Proof.
  destruct Hw as [_ Hr Hp _ _].
  apply (count_rel rpd_run_id _ _ (λ i n, run_rel (conn self) X n i)).
  - apply (pi_nodup _ _ _ _ _ Hp).
  - intros i (p & -> & [Hi Hin]%list_elem_of_filter)%list_elem_of_fmap.
    apply (pi_seen _ _ _ _ _ Hp); [done|].
    apply list_elem_of_fmap. by exists p.
  - intros n Hn.
    pose proof (pi_sub _ _ _ _ _ Hp n Hn) as Hlr.
    apply (ri_seen _ _ _ _ Hr) in Hlr as (i & Hrel).
    exists i. split; [|done].
    pose proof (writing_new_id n i Hrel) as Hi.
    assert (Hin : i ∈ map rpd_run_id (rows (RunProductionData (conn self)))).
    { apply (pi_seen _ _ _ _ _ Hp); [done|]. by exists n. }
    apply list_elem_of_fmap in Hin as (p & -> & Hin).
    apply list_elem_of_fmap. exists p. split; [done|].
    by apply list_elem_of_filter.
  - intros i n n' _ H1 H2.
    by destruct (run_rel_owner _ _ _ _ _ _ (ri_ids _ _ _ _ Hr) H1 H2).
  - intros i i' n _ H1 H2. by eapply (ri_fun _ _ _ _ Hr).
Qed.

Lemma count_rdet :
  length (filter (λ x, (seq (Run c1) < rdet_run_id x)%nat)
                 (rows (RunDetector (conn self))))
  = distinct (s_rdet σ).
Proof.
  destruct Hw as [_ Hr _ Hd Hx].
  apply (count_rel rdet_key _ _
           (λ (ij : nat * nat) (nn : Z * string),
              run_rel (conn self) X nn.1 ij.1
              ∧ det_rel (conn self) nn.2 ij.2)).
  - apply (xi_nodup _ _ _ _ _ Hx).
  - intros [i j] (x & Hk & [Hi Hin]%list_elem_of_filter)%list_elem_of_fmap.
    assert (Hi' : (seq (Run c1) < i)%nat).
    { unfold rdet_key in Hk. injection Hk as -> ->. done. }
    assert (Hin' : (i, j) ∈ map rdet_key (rows (RunDetector (conn self)))).
    { apply list_elem_of_fmap. by exists x. }
    apply (xi_seen _ _ _ _ _ Hx i j Hi') in Hin'
      as (n & name & Hn & Hrel & Hdet).
    by exists (n, name).
  - intros [n name] Hn.
    destruct (xi_sub _ _ _ _ _ Hx n name Hn) as (Hlr & j & Hdet).
    apply (ri_seen _ _ _ _ Hr) in Hlr as (i & Hrel).
    exists (i, j). split; [|done].
    pose proof (writing_new_id n i Hrel) as Hi.
    assert (Hin : (i, j) ∈ map rdet_key (rows (RunDetector (conn self)))).
    { apply (xi_seen _ _ _ _ _ Hx); [done|]. by exists n, name. }
    apply list_elem_of_fmap in Hin as (x & Hk & Hin).
    apply list_elem_of_fmap. exists x. split; [done|].
    apply list_elem_of_filter. split; [|done].
    unfold rdet_key in Hk. injection Hk as -> ->. done.
  - intros [i j] [n name] [n' name'] _ [H1 H1'] [H2 H2']. cbn in *.
    destruct (run_rel_owner _ _ _ _ _ _ (ri_ids _ _ _ _ Hr) H1 H2)
      as [_ ->].
    by rewrite (det_rel_inj _ _ _ _ (di_ids _ _ _ Hd) H1' H2').
  - intros [i j] [i' j'] [n name] _ [H1 H1'] [H2 H2']. cbn in *.
    rewrite (ri_fun _ _ _ _ Hr _ _ _ H1 H2).
    by rewrite (det_rel_fun _ _ _ _ (di_names _ _ _ Hd) H1' H2').
Qed.

Lemma count_fields :
  length (filter (λ q, q_experiment_id q = X)
                 (rows (Questionnaire (conn self))))
  = distinct (s_fields σ).
Proof.
  destruct Hw as [Hf _ _ _ _].
  apply (count_rel q_field_id _ _ eq).
  - apply (fi_q_nodup _ _ _ _ Hf).
  - intros f Hin. exists f. split; [|done]. by apply (fi_q_seen _ _ _ _ Hf).
  - intros f Hin. exists f. split; [|done]. by apply (fi_q_seen _ _ _ _ Hf).
  - by intros f g g' _ <- <-.
  - by intros f f' g _ -> ->.
Qed.

End Counts.
End RewriteFacts.

Module ReingestFacts.
Import Py Spec LogbookApi Database IdempotenceFacts RewriteFacts.

(** *** What has been written, in rows *)

Lemma filter_key_back {A K} (key : A → K) `{EqDecision K} (X Y : K)
    (l l1 : list A) :
  Y ≠ X → filter (λ x, key x ≠ X) l = l1 →
  filter (λ x, key x = Y) l = filter (λ x, key x = Y) l1.
Proof. intros Hne <-. symmetry. by apply filter_key_other. Qed.

Lemma length_key_split {A K} (key : A → K) `{EqDecision K} (X : K)
    (l l1 : list A) (n : nat) :
  filter (λ x, key x ≠ X) l = l1 →
  length (filter (λ x, key x = X) l) = n →
  length l = (length l1 + n)%nat.
Proof.
  intros <- <-. symmetry. apply length_filter_key.
Qed.

Lemma length_seq_split {A} (key : A → nat) (s : nat) (l l1 : list A)
    (n : nat) :
  filter (λ x, (key x ≤ s)%nat) l = l1 →
  length (filter (λ x, (s < key x)%nat) l) = n →
  length l = (length l1 + n)%nat.
Proof.
  intros <- <-. symmetry. apply length_filter_le.
Qed.

Section Accounts.
Context (X : string) (c1 : Store) (σ : seen) (self : Database).
Context (Hwf1 : store_wf c1) (Hw : writing X c1 σ self).

Lemma writing_old_runs Y :
  Y ≠ X →
  filter (λ r, run_experiment_id r = Y) (rows (Run (conn self)))
  = filter (λ r, run_experiment_id r = Y) (rows (Run c1)).
Proof.
  intros Hne. destruct Hw as [_ Hr _ _ _].
  rewrite <- (ri_old _ _ _ _ Hr), list_filter_filter.
  apply filter_ext_in. intros r Hin. split; [|tauto].
  intros HY. split; [done|].
  destruct (decide (seq (Run c1) < run_run_id r)%nat) as [Hlt|]; [|lia].
  apply (ri_new _ _ _ _ Hr r Hin) in Hlt. congruence.
Qed.

Lemma writing_old_run_ids Y :
  Y ≠ X → run_ids_of (conn self) Y = run_ids_of c1 Y.
Proof. intros Hne. unfold run_ids_of. by rewrite writing_old_runs. Qed.

Lemma old_run_id_bound Y i :
  i ∈ run_ids_of c1 Y → (i ≤ seq (Run c1))%nat.
Proof.
  intros (n & r & Hin & <- & _)%elem_of_run_ids_of.
  by apply (wf_run_seq _ Hwf1).
Qed.

Lemma writing_accounts :
  ledger (conn self) = counts_plus (ledger c1) (tally σ)
  ∧ owned (conn self) X = tally σ
  ∧ ∀ Y, Y ≠ X → owned (conn self) Y = owned c1 Y.
Proof.
  pose proof count_runs X c1 σ self Hw as Hruns.
  pose proof count_rpd X c1 σ self Hw as Hrpd.
  pose proof count_rdet X c1 σ self Hw as Hrdet.
  pose proof count_fields X c1 σ self Hw as Hfields.
  pose proof writing_run_ids X c1 σ self Hw as Hids.
  pose proof writing_new_run X c1 σ self Hw as Hnew.
  destruct Hw as [Hf Hr Hp Hd Hx].
  assert (HrX : filter (λ r, run_experiment_id r = X) (rows (Run (conn self)))
                = filter (λ r, (seq (Run c1) < run_run_id r)%nat)
                         (rows (Run (conn self)))).
  { apply filter_ext_in. intros r Hin. by rewrite Hnew. }
  assert (HpX : filter (λ p, rpd_run_id p ∈ run_ids_of (conn self) X)
                       (rows (RunProductionData (conn self)))
                = filter (λ p, (seq (Run c1) < rpd_run_id p)%nat)
                         (rows (RunProductionData (conn self)))).
  { apply filter_ext_in. intros p Hin. rewrite Hids. split; [tauto|].
    intros Hlt.
    assert (Hi : rpd_run_id p
                 ∈ map rpd_run_id (rows (RunProductionData (conn self))))
      by (apply list_elem_of_fmap; by exists p).
    apply (pi_seen _ _ _ _ _ Hp _ Hlt) in Hi as (n & _ & r & Hrin & Hid & _).
    split; [done|]. apply list_elem_of_fmap. by exists r. }
  assert (HxX : filter (λ x, rdet_run_id x ∈ run_ids_of (conn self) X)
                       (rows (RunDetector (conn self)))
                = filter (λ x, (seq (Run c1) < rdet_run_id x)%nat)
                         (rows (RunDetector (conn self)))).
  { apply filter_ext_in. intros x Hin. rewrite Hids. split; [tauto|].
    intros Hlt.
    assert (Hi : (rdet_run_id x, rdet_detector_id x)
                 ∈ map rdet_key (rows (RunDetector (conn self))))
      by (apply list_elem_of_fmap; by exists x).
    apply (xi_seen _ _ _ _ _ Hx _ _ Hlt) in Hi
      as (n & name & _ & (r & Hrin & Hid & _) & _).
    split; [done|]. apply list_elem_of_fmap. by exists r. }
  split_and!.
  - unfold ledger, counts_plus, tally.
    cbn [n_Experiment n_Run n_RunProductionData n_Detector n_RunDetector
         n_Logbook n_Questionnaire n_Workflow].
    f_equal.
    + eapply (length_key_split exp_experiment_id X);
        [apply (fi_exp_old _ _ _ _ Hf)|apply (fi_exp_new _ _ _ _ Hf)].
    + eapply (length_seq_split run_run_id);
        [apply (ri_old _ _ _ _ Hr)|done].
    + eapply (length_seq_split rpd_run_id);
        [apply (pi_old _ _ _ _ _ Hp)|done].
    + eapply (length_seq_split rdet_run_id);
        [apply (xi_old _ _ _ _ _ Hx)|done].
    + eapply (length_key_split log_experiment_id X);
        [apply (fi_log_old _ _ _ _ Hf)|apply (fi_log_new _ _ _ _ Hf)].
    + eapply (length_key_split q_experiment_id X);
        [apply (fi_q_old _ _ _ _ Hf)|done].
    + eapply (length_key_split wf_experiment_id X);
        [apply (fi_w_old _ _ _ _ Hf)|apply (fi_w_new _ _ _ _ Hf)].
  - unfold owned, tally. rewrite HrX, HpX, HxX.
    f_equal; try done.
    + apply (fi_exp_new _ _ _ _ Hf).
    + apply (fi_log_new _ _ _ _ Hf).
    + apply (fi_w_new _ _ _ _ Hf).
  - intros Y Hne. unfold owned.
    rewrite (writing_old_run_ids Y Hne), (writing_old_runs Y Hne).
    f_equal.
    + f_equal. eapply (filter_key_back exp_experiment_id X); [done|].
      apply (fi_exp_old _ _ _ _ Hf).
    + f_equal. rewrite <- (pi_old _ _ _ _ _ Hp), list_filter_filter.
      apply filter_ext_in. intros p _. split; [|tauto].
      intros Hin. split; [done|]. by eapply old_run_id_bound.
    + f_equal. rewrite <- (xi_old _ _ _ _ _ Hx), list_filter_filter.
      apply filter_ext_in. intros x _. split; [|tauto].
      intros Hin. split; [done|]. by eapply old_run_id_bound.
    + f_equal. eapply (filter_key_back log_experiment_id X); [done|].
      apply (fi_log_old _ _ _ _ Hf).
    + f_equal. eapply (filter_key_back q_experiment_id X); [done|].
      apply (fi_q_old _ _ _ _ Hf).
    + f_equal. eapply (filter_key_back wf_experiment_id X); [done|].
      apply (fi_w_old _ _ _ _ Hf).
Qed.

End Accounts.

(** *** One experiment written again *)

Lemma reingest_spec self X r :
  sound self → consistent X r →
  let c := conn self in
  let res := insert_experiment_batch (delete_experiment self X) r in
  res.2 = Return tt
  ∧ sound res.1
  ∧ counts_plus (ledger (conn res.1)) (owned c X)
    = counts_plus (ledger c) (tally (seen_of r))
  ∧ owned (conn res.1) X = tally (seen_of r)
  ∧ (∀ Y, Y ≠ X → owned (conn res.1) Y = owned c Y)
  ∧ (∀ name,
       name ∈ map det_detector_name (rows (Detector (conn res.1)))
       ↔ name ∈ map det_detector_name (rows (Detector c))
         ∨ name ∈ map snd (detector_pairs r)).
Proof.
  intros Hs Hr. cbv zeta.
  pose proof (SchemaFacts.schema_ok_wf _ (proj1 Hs)) as Hwf.
  pose proof (delete_experiment_writing self X Hwf (proj2 Hs)) as Hw1.
  destruct (delete_experiment_wf self X Hwf (proj2 Hs)) as [Hwf1 _].
  destruct (delete_experiment_counts self X Hwf) as (Hled & Hown & Hdet).
  cbv zeta in Hled, Hown, Hdet.
  destruct (insert_experiment_batch_writing X _ _ r Hr Hw1) as [Hw2 Hret].
  destruct (writing_accounts X _ _ _ Hwf1 Hw2) as (Hl2 & HoX & HoY).
  split_and!.
  - done.
  - by apply SchemaFacts.insert_experiment_batch_sound,
      SchemaFacts.delete_experiment_sound.
  - rewrite Hl2, <- Hled.
    unfold counts_plus.
    cbn [n_Experiment n_Run n_RunProductionData n_Detector n_RunDetector
         n_Logbook n_Questionnaire n_Workflow].
    f_equal; lia.
  - done.
  - intros Y Hne. by rewrite HoY, Hown.
  - intros name. destruct Hw2 as [_ _ _ Hd _].
    rewrite (di_seen _ _ _ Hd name), Hdet. done.
Qed.

(** *** Accounts over a run *)

Section Ledger.
Context {State Item : Type} (I : State → Prop).
Context (key : Item → string) (good : Item → Prop).
Context (led : State → nat) (own : State → string → nat) (t : Item → nat).

Lemma sum_update (f g : string → nat) (U : list string) (k : string) :
  NoDup U → k ∈ U → (∀ Y, Y ≠ k → g Y = f Y) →
  (sum_list_with g U + f k = sum_list_with f U + g k)%nat.
Proof.
  intros Hnd Hk Hfg. induction Hnd as [|Y U Hni Hnd IH].
  { by apply elem_of_nil in Hk. }
  cbn [sum_list_with]. apply elem_of_cons in Hk as [->|Hk].
  - assert (sum_list_with g U = sum_list_with f U) as ->; [|lia].
    clear IH Hnd. induction U as [|Z U IH]; [done|].
    cbn [sum_list_with]. rewrite not_elem_of_cons in Hni.
    rewrite IH by tauto. rewrite Hfg; [done|]. intros ->. tauto.
  - rewrite (Hfg Y) by (intros ->; done). specialize (IH Hk). lia.
Qed.

Lemma sum_same (f g : string → nat) (U : list string) :
  (∀ Y, Y ∈ U → f Y = g Y) → sum_list_with f U = sum_list_with g U.
Proof.
  induction U as [|Y U IH]; intros H; [done|]. cbn [sum_list_with].
  rewrite H by left. rewrite IH; [done|]. intros Z HZ. apply H. by right.
Qed.

Section OneRun.
Context (next : State → Item → State).
Context (Hnext : ∀ s r, I s → good r →
           I (next s r)
           ∧ (led (next s r) + own s (key r) = led s + t r)%nat
           ∧ own (next s r) (key r) = t r
           ∧ ∀ Y, Y ≠ key r → own (next s r) Y = own s Y).

Lemma run_keeps s rs : I s → Forall good rs → I (foldl next s rs).
Proof.
  revert s. induction rs as [|r rs IH]; intros s Hs Hg; [done|].
  inversion Hg as [|? ? Hr Hrs]; subst. cbn. apply IH; [|done].
  by apply Hnext.
Qed.

Lemma run_balance s rs U :
  I s → Forall good rs → NoDup U → (∀ r, r ∈ rs → key r ∈ U) →
  (led (foldl next s rs) + sum_list_with (own s) U
   = led s + sum_list_with (own (foldl next s rs)) U)%nat.
Proof.
  intros Hs Hg Hnd. revert s Hs Hg.
  induction rs as [|r rs IH]; intros s Hs Hg HU; [done|].
  inversion Hg as [|? ? Hr Hrs]; subst. cbn [foldl].
  destruct (Hnext s r Hs Hr) as (Hs' & Hl & Hk & Ho).
  assert (HrU : key r ∈ U) by (apply HU; left).
  pose proof (sum_update (own s) (own (next s r)) U (key r) Hnd HrU Ho) as Hsum.
  assert (HU' : ∀ r', r' ∈ rs → key r' ∈ U)
    by (intros r' Hr'; apply HU; by right).
  specialize (IH (next s r) Hs' Hrs HU').
  lia.
Qed.

End OneRun.

Section TwoRuns.
Context (next next' : State → Item → State).
Context (Hnext : ∀ s r, I s → good r →
           I (next s r)
           ∧ (led (next s r) + own s (key r) = led s + t r)%nat
           ∧ own (next s r) (key r) = t r
           ∧ ∀ Y, Y ≠ key r → own (next s r) Y = own s Y).
Context (Hnext' : ∀ s r, I s → good r →
           I (next' s r)
           ∧ (led (next' s r) + own s (key r) = led s + t r)%nat
           ∧ own (next' s r) (key r) = t r
           ∧ ∀ Y, Y ≠ key r → own (next' s r) Y = own s Y).

Lemma run_follows s s' rs X :
  I s → I s' → Forall good rs → own s X = own s' X →
  own (foldl next s rs) X = own (foldl next' s' rs) X.
Proof.
  revert s s'. induction rs as [|r rs IH]; intros s s' Hs Hs' Hg Heq; [done|].
  inversion Hg as [|? ? Hr Hrs]; subst. cbn [foldl].
  destruct (Hnext s r Hs Hr) as (H1 & _ & Hk & Ho).
  destruct (Hnext' s' r Hs' Hr) as (H1' & _ & Hk' & Ho').
  apply IH; try done.
  destruct (decide (X = key r)) as [->|Hne]; [congruence|].
  by rewrite Ho, Ho'.
Qed.

Lemma run_settles s s' rs X :
  I s → I s' → Forall good rs → X ∈ map key rs →
  own (foldl next s rs) X = own (foldl next' s' rs) X.
Proof.
  revert s s'. induction rs as [|r rs IH]; intros s s' Hs Hs' Hg Hin.
  { by apply elem_of_nil in Hin. }
  inversion Hg as [|? ? Hr Hrs]; subst. cbn [foldl].
  destruct (Hnext s r Hs Hr) as (H1 & _ & Hk & Ho).
  destruct (Hnext' s' r Hs' Hr) as (H1' & _ & Hk' & Ho').
  destruct (decide (X = key r)) as [->|Hne].
  - apply run_follows; try done. congruence.
  - apply IH; try done. cbn in Hin.
    apply elem_of_cons in Hin as [?|?]; [congruence|done].
Qed.

(** Two runs over the same records, the second started on what the first
    left: the ledger does not move. *)
Lemma second_run_ledger s0 s1 rs :
  I s0 → I s1 → Forall good rs →
  led s1 = led (foldl next s0 rs) →
  (∀ X, own s1 X = own (foldl next s0 rs) X) →
  led (foldl next' s1 rs) = led (foldl next s0 rs).
Proof.
  intros H0 H1 Hg Hled Hown.
  set (U := remove_dups (map key rs)).
  assert (HU : ∀ r, r ∈ rs → key r ∈ U).
  { intros r Hr. apply elem_of_remove_dups, list_elem_of_fmap. by exists r. }
  pose proof (run_balance next' Hnext' s1 rs U H1 Hg (NoDup_remove_dups _) HU)
    as Hb.
  assert (Hsame : sum_list_with (own s1) U
                  = sum_list_with (own (foldl next' s1 rs)) U).
  { apply sum_same. intros X HX. unfold U in HX.
    apply (proj1 (elem_of_remove_dups _ _)) in HX.
    rewrite Hown. by apply run_settles. }
  lia.
Qed.

End TwoRuns.
End Ledger.

(** *** The writer over records *)


Section Writer.
Context (now : nat → string) (config : Cli.Config).

Lemma writer_turn_reingest w r :
  sound (Cli.db w) → consistent (record_key r) r →
  let c := conn (Cli.db w) in
  let w' := after_turn now config w r in
  Cli.writer_turn now config true w (Some r) = Cli.Continue w'
  ∧ sound (Cli.db w')
  ∧ Cli.success_count w' = Cli.success_count w + 1
  ∧ Cli.failed_experiments w' = Cli.failed_experiments w
  ∧ counts_plus (ledger (conn (Cli.db w'))) (owned c (record_key r))
    = counts_plus (ledger c) (tally (seen_of r))
  ∧ owned (conn (Cli.db w')) (record_key r) = tally (seen_of r)
  ∧ (∀ Y, Y ≠ record_key r → owned (conn (Cli.db w')) Y = owned c Y)
  ∧ (∀ name,
       name ∈ detector_names (conn (Cli.db w'))
       ↔ name ∈ detector_names c ∨ name ∈ map snd (detector_pairs r)).
Proof.
  intros Hs Hr. cbv zeta.
  destruct (reingest_spec (Cli.db w) (record_key r) r Hs Hr)
    as (Hret & Hs' & Hled & HoX & HoY & Hdet).
  cbv zeta in Hret, Hs', Hled, HoX, HoY, Hdet.
  unfold after_turn, Cli.writer_turn.
  rewrite (cons_id _ _ Hr), (cons_error _ _ Hr).
  assert (Hk : record_key r = record_key r) by done.
  unfold record_key at 2 in Hk. rewrite (cons_id _ _ Hr) in Hk.
  cbn [default] in Hk. cbv zeta.
  destruct (insert_experiment_batch (delete_experiment (Cli.db w) (record_key r)) r)
    as [d o] eqn:Hres.
  cbn [fst snd] in Hret, Hs', Hled, HoX, HoY, Hdet. subst o.
  destruct (Cli.batch_commit_size config <=? Cli.batch_count w + 1);
    cbn [Cli.db Cli.success_count Cli.failed_experiments];
    split_and!; try done.
  by apply SchemaFacts.commit_sound.
Qed.

Lemma turn_accounts (π : counts → nat) w r :
  (∀ a b, π (counts_plus a b) = (π a + π b)%nat) →
  sound (Cli.db w) → consistent (record_key r) r →
  sound (Cli.db (after_turn now config w r))
  ∧ (π (ledger (conn (Cli.db (after_turn now config w r))))
     + π (owned (conn (Cli.db w)) (record_key r))
     = π (ledger (conn (Cli.db w))) + π (tally (seen_of r)))%nat
  ∧ π (owned (conn (Cli.db (after_turn now config w r))) (record_key r))
    = π (tally (seen_of r))
  ∧ ∀ Y, Y ≠ record_key r →
         π (owned (conn (Cli.db (after_turn now config w r))) Y)
         = π (owned (conn (Cli.db w)) Y).
Proof.
  intros Hπ Hs Hr.
  destruct (writer_turn_reingest w r Hs Hr)
    as (_ & Hs' & _ & _ & Hled & HoX & HoY & _).
  cbv zeta in Hs', Hled, HoX, HoY.
  split_and!; [done| |by rewrite HoX|intros Y HY; by rewrite HoY].
  by rewrite <- !Hπ, Hled.
Qed.

Lemma writer_loop_records w rs :
  sound (Cli.db w) → Forall (λ r, consistent (record_key r) r) rs →
  Cli.writer_loop now config true w (map Some rs ++ [None])
  = (foldl (after_turn now config) w rs, None)
  ∧ sound (Cli.db (foldl (after_turn now config) w rs))
  ∧ Cli.success_count (foldl (after_turn now config) w rs)
    = Cli.success_count w + Z.of_nat (length rs)
  ∧ Cli.failed_experiments (foldl (after_turn now config) w rs)
    = Cli.failed_experiments w
  ∧ ∀ name,
      name ∈ detector_names (conn (Cli.db (foldl (after_turn now config) w rs)))
      ↔ name ∈ detector_names (conn (Cli.db w))
        ∨ ∃ r, r ∈ rs ∧ name ∈ map snd (detector_pairs r).
Proof.
  revert w. induction rs as [|r rs IH]; intros w Hs Hg.
  { cbn. split_and!; try done; [lia|]. intros name. split; [by left|].
    intros [?|(r & Hr%elem_of_nil & _)]; done. }
  inversion Hg as [|? ? Hr Hrs]; subst.
  destruct (writer_turn_reingest w r Hs Hr)
    as (Hturn & Hs' & Hcount & Hfailed & _ & _ & _ & Hdet).
  cbv zeta in Hturn, Hs', Hcount, Hfailed, Hdet.
  destruct (IH _ Hs' Hrs) as (Hloop & Hsound & Hc & Hf & Hd).
  cbn [map app Cli.writer_loop foldl]. rewrite Hturn.
  split_and!; try done.
  - rewrite Hc, Hcount. cbn [length]. lia.
  - by rewrite Hf.
  - intros name. rewrite Hd, Hdet. split.
    + intros [[?|?]|(r' & Hr' & Hin)]; [by left| |].
      * right. exists r. split; [by left|done].
      * right. exists r'. split; [by right|done].
    + intros [?|(r' & [->|Hr']%elem_of_cons & Hin)].
      * by left; left.
      * by left; right.
      * right. by exists r'.
Qed.

End Writer.

(** *** The store file between two runs *)

Lemma tables_accounts a b :
  tables a = tables b →
  ledger a = ledger b
  ∧ (∀ X, owned a X = owned b X)
  ∧ detector_names a = detector_names b
  ∧ row_counts a = row_counts b.
Proof.
  unfold tables. intros [= He Hr Hp Hd Hx Hl Hq Hw].
  unfold ledger, owned, run_ids_of, detector_names, row_counts.
  rewrite He, Hr, Hp, Hd, Hx, Hl, Hq, Hw. done.
Qed.

Lemma counts_ext (a b : counts) :
  n_Experiment a = n_Experiment b → n_Run a = n_Run b →
  n_RunProductionData a = n_RunProductionData b →
  n_Detector a = n_Detector b → n_RunDetector a = n_RunDetector b →
  n_Logbook a = n_Logbook b → n_Questionnaire a = n_Questionnaire b →
  n_Workflow a = n_Workflow b → a = b.
Proof. destruct a, b. cbn. by intros -> -> -> -> -> -> -> ->. Qed.

Lemma row_counts_ledger a b :
  ledger a = ledger b →
  length (rows (Detector a)) = length (rows (Detector b)) →
  row_counts a = row_counts b.
Proof.
  unfold ledger, row_counts. intros [= -> -> -> -> -> -> ->] ->. done.
Qed.

Lemma tables_writer_started file :
  tables (conn (Cli.db (writer_started file))) = tables file.
Proof. done. Qed.

Lemma writer_started_sound file :
  schema_ok file → sound (Cli.db (writer_started file)).
Proof.
  intros Hok. cbn [Cli.db writer_started]. unfold enable_wal_mode.
  repeat apply SchemaFacts.exec_sound; try done.
  by apply SchemaFacts.init_sound.
Qed.

Lemma tables_close d : tables (conn (close d)) = tables (conn d).
Proof. unfold close. by destruct (is_open (conn d)). Qed.

Section Thread.
Context (now : nat → string) (config : Cli.Config).

Lemma writer_thread_records file rs :
  schema_ok file → Forall (λ r, consistent (record_key r) r) rs →
  let res := Cli.writer_thread now config true file (map Some rs ++ [None]) in
  let e := foldl (after_turn now config) (writer_started file) rs in
  res.2 = []
  ∧ Cli.success_count res.1 = Z.of_nat (length rs)
  ∧ Cli.failed_experiments res.1 = []
  ∧ tables (conn (Cli.db res.1)) = tables (conn (Cli.db e))
  ∧ schema_ok (conn (Cli.db res.1)).
Proof.
  intros Hok Hg. cbv zeta.
  destruct (writer_loop_records now config (writer_started file) rs
              (writer_started_sound file Hok) Hg)
    as (Hloop & Hs & Hc & Hf & _).
  unfold Cli.writer_thread. cbv zeta.
  fold (writer_started file). unfold Cli.writer_try. rewrite Hloop.
  set (e := foldl (after_turn now config) (writer_started file) rs) in *.
  assert (Hfin : ∀ w, sound (Cli.db w) →
            tables (conn (Cli.db (Cli.writer_finally now config w)))
            = tables (conn (Cli.db w))
            ∧ schema_ok (conn (Cli.db (Cli.writer_finally now config w)))).
  { intros w Hw. unfold Cli.writer_finally. cbv zeta. cbn [Cli.db].
    split; [by rewrite tables_close|].
    apply SchemaFacts.close_schema_ok.
    unfold set_metadata, _set_metadata_no_commit.
    by repeat first [apply SchemaFacts.commit_sound
                    |apply SchemaFacts.exec_sound]. }
  destruct (0 <? Cli.batch_count e); cbn [fst snd].
  - destruct (Hfin {| Cli.db := commit (Cli.db e);
                      Cli.batch_count := Cli.batch_count e;
                      Cli.success_count := Cli.success_count e;
                      Cli.failed_experiments := Cli.failed_experiments e;
                      Cli.clock := Cli.clock e |}) as [Ht Hsk].
    { cbn. by apply SchemaFacts.commit_sound. }
    split_and!; [done| | |done|done].
    + cbn. rewrite Hc. cbn. lia.
    + cbn. by rewrite Hf.
  - destruct (Hfin e Hs) as [Ht Hsk].
    split_and!; [done| | |done|done].
    + cbn. rewrite Hc. cbn. lia.
    + cbn. by rewrite Hf.
Qed.

End Thread.


(** *** Two runs *)

Section TwoUpdates.
Context (now now' : nat → string) (config config' : Cli.Config).

Lemma second_run_counts (π : counts → nat) s0 s1 rs :
  (∀ a b, π (counts_plus a b) = (π a + π b)%nat) →
  sound (Cli.db s0) → sound (Cli.db s1) →
  Forall (λ r, consistent (record_key r) r) rs →
  tables (conn (Cli.db s1))
  = tables (conn (Cli.db (foldl (after_turn now config) s0 rs))) →
  π (ledger (conn (Cli.db (foldl (after_turn now' config') s1 rs))))
  = π (ledger (conn (Cli.db (foldl (after_turn now config) s0 rs)))).
Proof.
  intros Hπ H0 H1 Hg Ht.
  destruct (tables_accounts _ _ Ht) as (Hled & Hown & _).
  apply (second_run_ledger (λ w, sound (Cli.db w)) record_key
           (λ r, consistent (record_key r) r)
           (λ w, π (ledger (conn (Cli.db w))))
           (λ w X, π (owned (conn (Cli.db w)) X))
           (λ r, π (tally (seen_of r)))
           (after_turn now config) (after_turn now' config')); try done.
  - intros s r Hs Hr. by apply turn_accounts.
  - intros s r Hs Hr. by apply turn_accounts.
  - by rewrite Hled.
  - intros X. by rewrite Hown.
Qed.

Lemma second_run_rows s0 s1 rs :
  sound (Cli.db s0) → sound (Cli.db s1) →
  Forall (λ r, consistent (record_key r) r) rs →
  tables (conn (Cli.db s1))
  = tables (conn (Cli.db (foldl (after_turn now config) s0 rs))) →
  row_counts (conn (Cli.db (foldl (after_turn now' config') s1 rs)))
  = row_counts (conn (Cli.db (foldl (after_turn now config) s0 rs))).
Proof.
  intros H0 H1 Hg Ht.
  apply row_counts_ledger.
  - apply counts_ext;
      by apply (second_run_counts (λ a, _ a) s0 s1 rs).
  - destruct (writer_loop_records now config s0 rs H0 Hg)
      as (_ & Hs1 & _ & _ & Hd1).
    destruct (writer_loop_records now' config' s1 rs H1 Hg)
      as (_ & Hs2 & _ & _ & Hd2).
    destruct (tables_accounts _ _ Ht) as (_ & _ & Hnames & _).
    rewrite <- !(length_map det_detector_name).
    apply Permutation_length, NoDup_Permutation.
    + apply (ok_Detector_unique _ (proj1 Hs2)).
    + apply (ok_Detector_unique _ (proj1 Hs1)).
    + intros name.
      change (name ∈ detector_names
                       (conn (Cli.db (foldl (after_turn now' config') s1 rs)))
              ↔ name ∈ detector_names
                         (conn (Cli.db (foldl (after_turn now config) s0 rs)))).
      rewrite Hd2, Hnames, Hd1. tauto.
Qed.

End TwoUpdates.

Lemma as_fetched_key r :
  (∃ X, consistent X r) → consistent (record_key r) r.
Proof.
  intros [X Hr]. unfold record_key. by rewrite (cons_id _ _ Hr).
Qed.

(** C7. Incremental idempotence. Take a store file that satisfies the
    keys of its schema and any list of composite records as the fetch
    workers build them: every facet carries the record's experiment ID,
    there is no error, every workflow has a name and the integers are
    within what SQLite can bind; the experiments may come in any order and
    more than once. The incremental writer is run on the records, and run
    again on the same records on the store file the first run left, at any
    times and with any batch sizes. Both runs write every record and let
    no exception out, and after the second run every table (Experiment,
    Run, RunProductionData, Detector, RunDetector, Logbook, Questionnaire,
    Workflow) has as many rows as after the first. *)
Theorem incremental_idempotence now now' config config' file records :
  schema_ok file →
  Forall (λ r, ∃ X, consistent X r) records →
  Forall record_bindable records →
  let queue := map Some records ++ [None] in
  let first := Cli.writer_thread now config true file queue in
  let second :=
    Cli.writer_thread now' config' true (conn (Cli.db first.1)) queue in
  (first.2 = [] ∧ Cli.failed_experiments first.1 = []
   ∧ Cli.success_count first.1 = Z.of_nat (length records))
  ∧ (second.2 = [] ∧ Cli.failed_experiments second.1 = []
     ∧ Cli.success_count second.1 = Z.of_nat (length records))
  ∧ row_counts (conn (Cli.db second.1)) = row_counts (conn (Cli.db first.1)).
Proof.
  intros Hok Hrs _. cbv zeta.
  assert (Hg : Forall (λ r, consistent (record_key r) r) records).
  { eapply Forall_impl; [exact Hrs|]. intros r. apply as_fetched_key. }
  destruct (writer_thread_records now config file records Hok Hg)
    as (He1 & Hc1 & Hf1 & Ht1 & Hok1).
  cbv zeta in He1, Hc1, Hf1, Ht1, Hok1.
  set (first := Cli.writer_thread now config true file
                  (map Some records ++ [None])) in *.
  destruct (writer_thread_records now' config' (conn (Cli.db first.1))
              records Hok1 Hg)
    as (He2 & Hc2 & Hf2 & Ht2 & Hok2).
  cbv zeta in He2, Hc2, Hf2, Ht2, Hok2.
  split_and!; try done.
  destruct (tables_accounts _ _ Ht1) as (_ & _ & _ & ->).
  destruct (tables_accounts _ _ Ht2) as (_ & _ & _ & ->).
  apply second_run_rows; try done.
  - by apply writer_started_sound.
  - by apply writer_started_sound.
Qed.

Lemma incremental_idempotence_witness :
  let now := λ _ : nat, "2024-01-02T00:00:00"%string in
  let now' := λ _ : nat, "2024-01-03T00:00:00"%string in
  let queue :=
    map Some [full_record; bare_record "xpp2"; full_record] ++ [None] in
  let first := Cli.writer_thread now (batches_of 2) true empty_store queue in
  let second :=
    Cli.writer_thread now' two_workers true (conn (Cli.db first.1)) queue in
  (first.2 = [] ∧ Cli.failed_experiments first.1 = []
   ∧ Cli.success_count first.1
     = Z.of_nat (length [full_record; bare_record "xpp2"; full_record]))
  ∧ (second.2 = [] ∧ Cli.failed_experiments second.1 = []
     ∧ Cli.success_count second.1
       = Z.of_nat (length [full_record; bare_record "xpp2"; full_record]))
  ∧ row_counts (conn (Cli.db second.1)) = row_counts (conn (Cli.db first.1)).
Proof.
  assert (Hfull : consistent "xpp1" full_record).
  { split; cbn; try done.
    - by intros info [= <-].
    - by repeat constructor.
    - by intros rt [= <-].
    - by intros fm [= <-].
    - by intros q [= <-].
    - intros wd [= <-]. split; [done|]. by repeat constructor. }
  assert (Hbare : consistent "xpp2" (bare_record "xpp2")).
  { split; cbn; done. }
  assert (Hfb : record_bindable full_record).
  { split_and!.
    - repeat constructor; cbn; unfold int64; lia.
    - intros rt [= <-]. repeat constructor; cbn; unfold int64; lia.
    - intros fm [= <-]. repeat constructor; cbn; unfold int64; lia. }
  assert (Hbb : record_bindable (bare_record "xpp2")).
  { split_and!; [by constructor|done|done]. }
  apply (incremental_idempotence
           (λ _, "2024-01-02T00:00:00"%string)
           (λ _, "2024-01-03T00:00:00"%string)
           (batches_of 2) two_workers empty_store
           [full_record; bare_record "xpp2"; full_record]).
  - apply SchemaFacts.empty_store_ok.
  - constructor; [by eexists|]. constructor; [by eexists|].
    constructor; [by eexists|]. constructor.
  - constructor; [done|]. constructor; [done|]. constructor; [done|].
    constructor.
Defined.

End ReingestFacts.
